(** * Action Jackson 1.8.4: bone-identity remapping and reference patching

    A shallow embedding of [action_jackson_1_8_4.py] and the properties its
    specification states about it.  Python text is modelled as a list of
    Unicode code points, a [dict] as an association list in insertion order
    (the order in which Python iterates it), and the host scene as plain
    records that hold the fields the add-on reads and writes. *)

From Stdlib Require Import List String Ascii Bool Arith NArith ZArith QArith Lia.
Import ListNotations.
Close Scope Q_scope.

Set Implicit Arguments.

(* ================================================================== *)
(** * Python strings *)
(* ================================================================== *)

Module Py.

(** A character is a Unicode code point, a [str] a sequence of them. *)
Definition char := N.
Definition str := list char.

(** The code points of an ASCII literal. *)
Definition lit (s : string) : str := map N_of_ascii (list_ascii_of_string s).

Fixpoint str_eqb (s t : str) : bool :=
  match s, t with
  | [], [] => true
  | c :: s', d :: t' => N.eqb c d && str_eqb s' t'
  | _, _ => false
  end.

(** Truth value of a string: non-empty. *)
Definition truthy (s : str) : bool :=
  match s with [] => false | _ :: _ => true end.

(** [a or b] on strings. *)
Definition or_else (a b : str) : str := if truthy a then a else b.

(** [str.isspace] on one code point: the characters [str.strip()] removes. *)
Definition isspace (c : char) : bool :=
  ((9 <=? c) && (c <=? 13) || (28 <=? c) && (c <=? 32)
   || (c =? 133) || (c =? 160) || (c =? 5760)
   || (8192 <=? c) && (c <=? 8202)
   || (c =? 8232) || (c =? 8233) || (c =? 8239) || (c =? 8287)
   || (c =? 12288))%N.

(** The line boundaries of [str.splitlines]. *)
Definition is_linebreak (c : char) : bool :=
  ((10 <=? c) && (c <=? 13) || (28 <=? c) && (c <=? 30)
   || (c =? 133) || (c =? 8232) || (c =? 8233))%N.

Fixpoint lstrip (s : str) : str :=
  match s with
  | [] => []
  | c :: s' => if isspace c then lstrip s' else s
  end.

Definition rstrip (s : str) : str := rev (lstrip (rev s)).

(** [s.strip()] *)
Definition strip (s : str) : str := rstrip (lstrip s).

(** [s.splitlines()]: a carriage return followed by a line feed is one
    boundary, and a final boundary opens no further line. *)
Fixpoint splitlines (s : str) : list str :=
  match s with
  | [] => []
  | c :: s' =>
      if is_linebreak c then
        [] :: (if N.eqb c 13
               then match s' with
                    | d :: s'' => if N.eqb d 10 then splitlines s'' else splitlines s'
                    | [] => splitlines s'
                    end
               else splitlines s')
      else match splitlines s' with
           | [] => [[c]]
           | l :: ls => (c :: l) :: ls
           end
  end.

(** [sep.join(lines)] *)
Fixpoint join (sep : str) (lines : list str) : str :=
  match lines with
  | [] => []
  | [l] => l
  | l :: ls => l ++ sep ++ join sep ls
  end.

(** [p] is a prefix of [s]: [s.startswith(p)]. *)
Fixpoint startswith (s p : str) {struct p} : bool :=
  match p, s with
  | [], _ => true
  | c :: p', d :: s' => N.eqb c d && startswith s' p'
  | _ :: _, [] => false
  end.

(** [t in s] for strings. *)
Fixpoint contains (s t : str) : bool :=
  startswith s t ||
  match s with
  | [] => false
  | _ :: s' => contains s' t
  end.

(** [s.split(c, 1)] for a one-character separator that occurs in [s]:
    the text before the first [c] and the text after it. *)
Fixpoint split1 (c : char) (s : str) : str * str :=
  match s with
  | [] => ([], [])
  | d :: s' => if N.eqb d c then ([], s')
               else let (a, b) := split1 c s' in (d :: a, b)
  end.

(** [s.replace(old, new)] for a non-empty [old], scanning left to right;
    [skip] counts the characters of a match still to be passed over. *)
Fixpoint replace_from (skip : nat) (old new s : str) : str :=
  match s with
  | [] => []
  | c :: s' =>
      match skip with
      | S k => replace_from k old new s'
      | O => if startswith s old
             then new ++ replace_from (List.length old - 1) old new s'
             else c :: replace_from 0 old new s'
      end
  end.

(** [s.replace(old, new)]; an empty [old] matches before every character
    and at the end. *)
Definition replace (s old new : str) : str :=
  match old with
  | [] => new ++ flat_map (fun c => c :: new) s
  | _ :: _ => replace_from 0 old new s
  end.

End Py.

Import Py.

(* ================================================================== *)
(** * Python dictionaries of strings, in insertion order *)
(* ================================================================== *)

Definition pydict (V : Type) := list (str * V).
Definition dict := pydict str.

(** [mapping.get(k)] *)
Fixpoint dict_get (V : Type) (m : pydict V) (k : str) : option V :=
  match m with
  | [] => None
  | (k', v) :: m' => if str_eqb k' k then Some v else dict_get m' k
  end.

(** [k in mapping] *)
Definition dict_mem (V : Type) (m : pydict V) (k : str) : bool :=
  match dict_get m k with Some _ => true | None => false end.

(** [mapping[k] = v]: an existing key keeps its place, a new one goes last. *)
Fixpoint dict_set (V : Type) (m : pydict V) (k : str) (v : V) : pydict V :=
  match m with
  | [] => [(k, v)]
  | (k', v') :: m' =>
      if str_eqb k' k then (k', v) :: m' else (k', v') :: dict_set m' k v
  end.

(* ================================================================== *)
(** * Mapping file text (helpers, lines 50-68) *)
(* ================================================================== *)

Definition EQUALS : char := 61%N.
Definition HASH : char := 35%N.
Definition NEWLINE : char := 10%N.

(** One turn of the loop of [parse_mapping_txt]. *)
Definition parse_line (mapping : dict) (raw : str) : dict :=
  let line := strip raw in
  if negb (truthy line) || startswith line [HASH] then mapping
  else if contains line [EQUALS] then
    let (old, new) := split1 EQUALS line in
    let old := strip old in
    let new := strip new in
    if truthy old then dict_set mapping old new else mapping
  else mapping.

Definition parse_mapping_txt (text : str) : dict :=
  fold_left parse_line (splitlines text) [].

Definition header_lines : list str :=
  [lit "# bone_old=bone_new"; lit "# lines starting with # are comments"].

(** The list [lines] of [mapping_to_txt] before it is joined. *)
Definition mapping_lines (mapping : dict) : list str :=
  fold_left (fun lines kv => lines ++ [fst kv ++ [EQUALS] ++ snd kv])
            mapping header_lines.

Definition mapping_to_txt (mapping : dict) : str :=
  join [NEWLINE] (mapping_lines mapping).


(* ================================================================== *)
(** * Host scene (the fields the add-on reads and writes) *)
(* ================================================================== *)

(** Objects are referred to by their position in [bpy.data.objects], so
    two references to one object alias.  Bone names key the bone
    collections ([eb[name]], [name in eb.keys()]): writing a bone name
    that another bone holds goes through the host's clash rule, which
    the development takes as a parameter ([unique_name]); the names
    of the vertex groups of a mesh go through the same rule.  Names of
    constraints are plain fields.  When the name of a bone changes the
    host also rewrites references to it that it knows of (vertex groups
    of bound meshes, subtargets, curve paths); the model leaves this
    out: in it a reference follows a renaming only through the patches
    of the add-on.  Modes, selection, the active object and bone groups
    are not part of the model. *)

Inductive ObjType := ARMATURE | MESH | EMPTY.

Definition ObjType_eqb (a b : ObjType) : bool :=
  match a, b with
  | ARMATURE, ARMATURE | MESH, MESH | EMPTY, EMPTY => true
  | _, _ => false
  end.

Inductive ConKind := COPY_ROTATION | COPY_TRANSFORMS | OTHER_KIND.

Record Constraint := {
  con_name : str;
  con_kind : ConKind;
  con_target : option nat;
  (** [None]: this kind of constraint has no [subtarget] attribute. *)
  con_subtarget : option str;
  con_mix_mode : str;
  con_target_space : str;
  con_owner_space : str;
  (** [None]: this kind has no [use_x], [use_y], [use_z]. *)
  con_use_xyz : option (bool * bool * bool)
}.

(** A bone with its pose-bone side. *)
Record Bone := {
  bone_name : str;
  use_deform : bool;
  has_parent : bool;
  constraints : list Constraint
}.

Record Modifier := {
  mod_is_armature : bool;      (* [mod.type == 'ARMATURE'] *)
  mod_object : option nat
}.

(** A 4x4 world matrix, kept symbolic: [ROT rx ry rz m] is the product
    of the rotation by the Euler angles (in degrees) with [m]. *)
Inductive Matrix :=
| MAT (k : nat)
| ROT (rx ry rz : Q) (m : Matrix).

Record AnimData := {
  drivers : list str;          (* data paths of the driver curves *)
  ad_action : option nat       (* position in [bpy.data.actions] *)
}.

Record Object := {
  obj_name : str;
  obj_type : ObjType;
  bones : list Bone;
  modifiers : list Modifier;
  vertex_groups : list str;
  matrix_world : Matrix;
  rotation_euler : Q * Q * Q;  (* kept in degrees *)
  animation_data : option AnimData
}.

Record Action := {
  act_name : str;
  fcurves : list str;          (* data paths of the curves *)
  frame_range : Q * Q
}.

Record BoneMapItem := {
  original_name : str;
  current_name : str;
  target_name : str;
  cap_src : str;
  cap_tgt : str;
  mark : bool
}.

Inductive Side := SOURCE | TARGET.
Inductive Format := FBX | BVH.
Inductive FollowMode := ROT_ONLY | XFORM.

Record AJ_Props := {
  export_format : Format;
  include_mesh : bool;
  export_side : Side;
  rename_on_export : bool;
  rot_x : Q;
  rot_y : Q;
  rot_z : Q;
  bone_map : list BoneMapItem;
  mapping_path : str;
  active_index : Z;
  source_armature : option nat;
  target_armature : option nat;
  current_armature_side : Side;
  follow_mode : FollowMode;
  live_follow_a2b : bool;
  live_follow_b2a : bool
}.

Record Scene := {
  objects : list Object;                    (* bpy.data.objects *)
  actions : list Action;                    (* bpy.data.actions *)
  armature_anim : list (option AnimData);   (* of bpy.data.armatures *)
  shape_key_anim : list (option AnimData);  (* of bpy.data.shape_keys *)
  material_anim : list (option AnimData);   (* of bpy.data.materials *)
  world_anim : list (option AnimData);      (* of bpy.data.worlds *)
  frame_start : Z;
  frame_end : Z;
  frame_current : Z;
  aj_props : AJ_Props
}.

(** ** Names in the host *)

(** The number of bytes that a code point takes in UTF-8. *)
Definition utf8_len (c : char) : nat :=
  if (c <? 128)%N then 1
  else if (c <? 2048)%N then 2
  else if (c <? 65536)%N then 3
  else 4.

(** The name of a bone, the name of a vertex group and the subtarget of
    a constraint are fields of 64 bytes in the host: of a string written
    to one of them the host keeps the characters that fit into 63 bytes
    of UTF-8, whole characters only, and a NUL ends the string.  Lone
    surrogates, which these fields refuse, are outside the model. *)
Fixpoint cut_name (room : nat) (s : str) : str :=
  match s with
  | [] => []
  | c :: s' =>
      if (c =? 0)%N then []
      else if utf8_len c <=? room then c :: cut_name (room - utf8_len c) s'
      else []
  end.

Definition host_name (s : str) : str := cut_name 63 s.

(** ** Field writes *)

Definition set_bone_name (b : Bone) (n : str) : Bone :=
  {| bone_name := n; use_deform := use_deform b;
     has_parent := has_parent b; constraints := constraints b |}.

Definition set_use_deform (b : Bone) (d : bool) : Bone :=
  {| bone_name := bone_name b; use_deform := d;
     has_parent := has_parent b; constraints := constraints b |}.

Definition set_constraints (b : Bone) (cs : list Constraint) : Bone :=
  {| bone_name := bone_name b; use_deform := use_deform b;
     has_parent := has_parent b; constraints := cs |}.

Definition set_subtarget (c : Constraint) (s : str) : Constraint :=
  {| con_name := con_name c; con_kind := con_kind c;
     con_target := con_target c; con_subtarget := Some s;
     con_mix_mode := con_mix_mode c; con_target_space := con_target_space c;
     con_owner_space := con_owner_space c; con_use_xyz := con_use_xyz c |}.

Definition set_mod_object (m : Modifier) (r : option nat) : Modifier :=
  {| mod_is_armature := mod_is_armature m; mod_object := r |}.

Definition set_bones (o : Object) (bs : list Bone) : Object :=
  {| obj_name := obj_name o; obj_type := obj_type o; bones := bs;
     modifiers := modifiers o; vertex_groups := vertex_groups o;
     matrix_world := matrix_world o; rotation_euler := rotation_euler o;
     animation_data := animation_data o |}.

Definition set_modifiers (o : Object) (ms : list Modifier) : Object :=
  {| obj_name := obj_name o; obj_type := obj_type o; bones := bones o;
     modifiers := ms; vertex_groups := vertex_groups o;
     matrix_world := matrix_world o; rotation_euler := rotation_euler o;
     animation_data := animation_data o |}.

Definition set_vertex_groups (o : Object) (vs : list str) : Object :=
  {| obj_name := obj_name o; obj_type := obj_type o; bones := bones o;
     modifiers := modifiers o; vertex_groups := vs;
     matrix_world := matrix_world o; rotation_euler := rotation_euler o;
     animation_data := animation_data o |}.

Definition set_matrix_world (o : Object) (m : Matrix) : Object :=
  {| obj_name := obj_name o; obj_type := obj_type o; bones := bones o;
     modifiers := modifiers o; vertex_groups := vertex_groups o;
     matrix_world := m; rotation_euler := rotation_euler o;
     animation_data := animation_data o |}.

Definition set_animation_data (o : Object) (a : option AnimData) : Object :=
  {| obj_name := obj_name o; obj_type := obj_type o; bones := bones o;
     modifiers := modifiers o; vertex_groups := vertex_groups o;
     matrix_world := matrix_world o; rotation_euler := rotation_euler o;
     animation_data := a |}.

Definition set_fcurves (a : Action) (fs : list str) : Action :=
  {| act_name := act_name a; fcurves := fs; frame_range := frame_range a |}.

Definition set_drivers (a : AnimData) (ds : list str) : AnimData :=
  {| drivers := ds; ad_action := ad_action a |}.

(** [l[i] = x]; positions outside [l] are never written by the add-on. *)
Fixpoint list_set (A : Type) (l : list A) (i : nat) (x : A) : list A :=
  match l, i with
  | [], _ => []
  | _ :: l', O => x :: l'
  | y :: l', S j => y :: list_set l' j x
  end.

(** [del l[i]] *)
Fixpoint list_del (A : Type) (l : list A) (i : nat) : list A :=
  match l, i with
  | [], _ => []
  | _ :: l', O => l'
  | y :: l', S j => y :: list_del l' j
  end.

(** Dereference an object pointer that is set and is an armature:
    the negation of [not arm or arm.type != 'ARMATURE']. *)
Definition armature_at (objs : list Object) (r : option nat) : option (nat * Object) :=
  match r with
  | None => None
  | Some i =>
      match nth_error objs i with
      | Some o => if ObjType_eqb (obj_type o) ARMATURE then Some (i, o) else None
      | None => None
      end
  end.

Definition QUOTE : char := 34%N.

(** The token [pose.bones["name"]]. *)
Definition bone_token (name : str) : str :=
  lit "pose.bones[" ++ [QUOTE] ++ name ++ [QUOTE] ++ lit "]".

(** [_replace_bone_in_datapath(dp, old, new)] *)
Definition _replace_bone_in_datapath (dp old new : str) : option str :=
  let token := bone_token old in
  if truthy dp && contains dp token
  then Some (replace dp token (bone_token new))
  else None.

(** [_bone_exists(arm_obj, name)] on the bones of an armature. *)
Definition has_bone (bs : list Bone) (name : str) : bool :=
  existsb (fun b => str_eqb (bone_name b) name) bs.

Definition _bone_exists (bs : list Bone) (name : str) : bool :=
  truthy name && has_bone bs name.

(* ================================================================== *)
(** * Rename and patch routines (lines 183-312) *)
(* ================================================================== *)

Definition temp_suffix : str := lit "_TMP_RENAME__".

(** Position of the bone that a collection returns for [name]. *)
Fixpoint bone_index (bs : list Bone) (name : str) : option nat :=
  match bs with
  | [] => None
  | b :: bs' => if str_eqb (bone_name b) name then Some 0
                else option_map S (bone_index bs' name)
  end.

Section Host.

(** The name the host stores when a bone or a vertex group is given a
    name that another one of the same armature or mesh already holds, or
    an empty name: the names in use, then the name asked for. *)
Variable unique_name : list str -> str -> str.

(** [bone.name = n] for the bone at position [i]: the host cuts the
    name, leaves the bone alone when this is the name it has, and
    otherwise stores the name, or what its rule makes of a name that is
    taken or empty. *)
Definition write_bone_name (eb : list Bone) (i : nat) (n : str) : list Bone :=
  match nth_error eb i with
  | None => eb
  | Some b =>
      let n := host_name n in
      if str_eqb (bone_name b) n then eb
      else if has_bone eb n || negb (truthy n)
           then list_set eb i (set_bone_name b (unique_name (map bone_name eb) n))
           else list_set eb i (set_bone_name b n)
  end.

(** [eb[old].name = n]; [None] stands for the [KeyError] of [eb[old]]. *)
Definition rename_key (eb : list Bone) (old n : str) : option (list Bone) :=
  match bone_index eb old with
  | None => None
  | Some i => Some (write_bone_name eb i n)
  end.

(** First loop over [pairs]: every bone to its sentinel name. *)
Fixpoint rename_to_temp (pairs : dict) (eb : list Bone) : option (list Bone) :=
  match pairs with
  | [] => Some eb
  | (old, new) :: ps =>
      match rename_key eb old (new ++ temp_suffix) with
      | None => None
      | Some eb' => rename_to_temp ps eb'
      end
  end.

(** Second loop: sentinel names to final names, counting [applied]. *)
Fixpoint rename_to_final (pairs : dict) (eb : list Bone) (applied : nat)
  : list Bone * nat :=
  match pairs with
  | [] => (eb, applied)
  | (old, new) :: ps =>
      let tmp := new ++ temp_suffix in
      match bone_index eb tmp with
      | Some i => rename_to_final ps (write_bone_name eb i new) (S applied)
      | None => rename_to_final ps eb applied
      end
  end.

(** Third loop: deform flags onto the new names, counting [restored]. *)
Fixpoint restore_deform (pairs : dict) (deform_flags : pydict bool)
         (bs : list Bone) (restored : nat) : list Bone * nat :=
  match pairs with
  | [] => (bs, restored)
  | (old, new) :: ps =>
      match bone_index bs new, dict_get deform_flags old with
      | Some i, Some d =>
          match nth_error bs i with
          | Some b => restore_deform ps deform_flags
                        (list_set bs i (set_use_deform b d)) (S restored)
          | None => restore_deform ps deform_flags bs restored
          end
      | _, _ => restore_deform ps deform_flags bs restored
      end
  end.

(** [{b.name: b.use_deform for b in arm_obj.data.bones}] *)
Definition snapshot_deform (bs : list Bone) : pydict bool :=
  fold_left (fun d b => dict_set d (bone_name b) (use_deform b)) bs [].

(** [(o, n) for o, n in mapping.items() if o in eb.keys() and n and o != n] *)
Definition rename_pairs (eb : list Bone) (mapping : dict) : dict :=
  filter (fun on => has_bone eb (fst on) && truthy (snd on)
                    && negb (str_eqb (fst on) (snd on))) mapping.

(** The three loops on the bones of one armature. *)
Definition rename_bones (bs : list Bone) (mapping : dict)
  : option (list Bone * (nat * nat)) :=
  let deform_flags := snapshot_deform bs in
  let pairs := rename_pairs bs mapping in
  match rename_to_temp pairs bs with
  | None => None
  | Some eb1 =>
      let (eb2, applied) := rename_to_final pairs eb1 0 in
      let (bs', restored) := restore_deform pairs deform_flags eb2 0 in
      Some (bs', (applied, restored))
  end.

Definition rename_bones_edit_mode_preserve_flags
           (objs : list Object) (arm_obj : option nat) (mapping : dict)
  : option (list Object * (nat * nat)) :=
  match armature_at objs arm_obj, mapping with
  | None, _ => Some (objs, (0, 0))
  | _, [] => Some (objs, (0, 0))
  | Some (i, o), _ :: _ =>
      match rename_bones (bones o) mapping with
      | None => None
      | Some (bs, counts) => Some (list_set objs i (set_bones o bs), counts)
      end
  end.

End Host.

(** [iter_meshes_using_armature]: the position of the first armature
    modifier of a mesh that points at [arm_obj], if the object is a mesh
    and has one. *)
Fixpoint find_armature_modifier (arm_obj : option nat) (ms : list Modifier)
  : option nat :=
  match ms with
  | [] => None
  | m :: ms' =>
      if mod_is_armature m &&
         match mod_object m, arm_obj with
         | Some a, Some b => Nat.eqb a b
         | None, None => true
         | _, _ => false
         end
      then Some 0
      else option_map S (find_armature_modifier arm_obj ms')
  end.

Definition mesh_using_armature (arm_obj : option nat) (o : Object) : option nat :=
  if ObjType_eqb (obj_type o) MESH
  then find_armature_modifier arm_obj (modifiers o)
  else None.

Section HostGroups.

(** The host's rule for a name that is taken or empty, as for bones. *)
Variable unique_name : list str -> str -> str.

(** The name that a vertex group holds after [vg.name = new], [others]
    being the names of the other groups of the mesh: the host cuts the
    name and stores it, or what its rule makes of a name that another
    group holds or that is empty. *)
Definition write_group_name (others : list str) (new : str) : str :=
  let n := host_name new in
  if truthy n && negb (existsb (str_eqb n) others) then n
  else unique_name others n.

(** The inner loop of [patch_vertex_groups_for_armature]: [done] holds
    the groups that the loop has passed, as they are now, [vgs] those
    still to come. *)
Fixpoint patch_groups (mapping : dict) (done vgs : list str) (count : nat)
  : list str * nat :=
  match vgs with
  | [] => (done, count)
  | vg :: rest =>
      match dict_get mapping vg with
      | Some new =>
          if truthy new && negb (str_eqb new vg)
          then patch_groups mapping
                            (done ++ [write_group_name (done ++ rest) new])
                            rest (S count)
          else patch_groups mapping (done ++ [vg]) rest count
      | None => patch_groups mapping (done ++ [vg]) rest count
      end
  end.

Fixpoint patch_vertex_groups_for_armature
         (objs : list Object) (arm_obj : option nat) (mapping : dict) (count : nat)
  : list Object * nat :=
  match objs with
  | [] => ([], count)
  | o :: rest =>
      match mesh_using_armature arm_obj o with
      | Some _ =>
          let (vgs, n) := patch_groups mapping [] (vertex_groups o) count in
          let (rest', n') := patch_vertex_groups_for_armature rest arm_obj mapping n in
          (set_vertex_groups o vgs :: rest', n')
      | None =>
          let (rest', n') := patch_vertex_groups_for_armature rest arm_obj mapping count in
          (o :: rest', n')
      end
  end.

End HostGroups.

(** [con.subtarget = new] on a constraint whose subtarget is [s]: the
    host cuts the string.  The field holds what came through it, so a
    write of the string that it holds changes nothing. *)
Definition write_subtarget (con : Constraint) (s new : str) : Constraint :=
  if str_eqb new s then con else set_subtarget con (host_name new).

(** The loop over the constraints of one pose bone. *)
Fixpoint patch_constraints (mapping : dict) (cs : list Constraint) (patched : nat)
  : list Constraint * nat :=
  match cs with
  | [] => ([], patched)
  | con :: rest =>
      match con_subtarget con with
      | Some s =>
          match dict_get mapping s with
          | Some new =>
              let (rest', n) := patch_constraints mapping rest (S patched) in
              (write_subtarget con s new :: rest', n)
          | None =>
              let (rest', n) := patch_constraints mapping rest patched in
              (con :: rest', n)
          end
      | None =>
          let (rest', n) := patch_constraints mapping rest patched in
          (con :: rest', n)
      end
  end.

Fixpoint patch_pose_bones (mapping : dict) (bs : list Bone) (patched : nat)
  : list Bone * nat :=
  match bs with
  | [] => ([], patched)
  | b :: rest =>
      let (cs, n) := patch_constraints mapping (constraints b) patched in
      let (rest', n') := patch_pose_bones mapping rest n in
      (set_constraints b cs :: rest', n')
  end.

(** [patch_constraints_subtargets(arm_obj, mapping)]; the callers pass an
    armature ([None]: the attribute error on anything else). *)
Definition patch_constraints_subtargets
           (objs : list Object) (arm_obj : option nat) (mapping : dict)
  : option (list Object * nat) :=
  match armature_at objs arm_obj with
  | None => None
  | Some (i, o) =>
      let (bs, patched) := patch_pose_bones mapping (bones o) 0 in
      Some (list_set objs i (set_bones o bs), patched)
  end.

(** The loop [for old, new in mapping.items()] over one data path. *)
Fixpoint patch_path (mapping : dict) (new_dp : str) (replaced_any : bool)
  : str * bool :=
  match mapping with
  | [] => (new_dp, replaced_any)
  | (old, new) :: rest =>
      match _replace_bone_in_datapath new_dp old new with
      | Some res =>
          if truthy res && negb (str_eqb res new_dp)
          then patch_path rest res true
          else patch_path rest new_dp replaced_any
      | None => patch_path rest new_dp replaced_any
      end
  end.

(** One curve of an action in [patch_fcurves_actions]: its data path
    afterwards, and whether [changed] was incremented. *)
Definition patch_fcurve (mapping : dict) (dp : str) : str * bool :=
  if negb (truthy dp) then (dp, false)
  else let (new_dp, replaced_any) := patch_path mapping dp false in
       if replaced_any then (new_dp, true) else (dp, false).

(** One driver, or one curve reached through animation data, in
    [patch_driver_fcurves]. *)
Definition patch_driver (mapping : dict) (dp : str) : str * bool :=
  let (new_dp, replaced_any) := patch_path mapping dp false in
  if replaced_any then (new_dp, true) else (dp, false).

Fixpoint patch_paths (one : str -> str * bool) (dps : list str) (changed : nat)
  : list str * nat :=
  match dps with
  | [] => ([], changed)
  | dp :: rest =>
      let (dp', c) := one dp in
      let (rest', n) := patch_paths one rest (if c then S changed else changed) in
      (dp' :: rest', n)
  end.

Fixpoint patch_actions (mapping : dict) (acts : list Action) (changed : nat)
  : list Action * nat :=
  match acts with
  | [] => ([], changed)
  | act :: rest =>
      let (fs, n) := patch_paths (patch_fcurve mapping) (fcurves act) changed in
      let (rest', n') := patch_actions mapping rest n in
      (set_fcurves act fs :: rest', n')
  end.

Definition patch_fcurves_actions (acts : list Action) (mapping : dict)
  : list Action * nat :=
  patch_actions mapping acts 0.

(** ** Scene and property writes *)

Definition set_objects (sc : Scene) (objs : list Object) : Scene :=
  {| objects := objs; actions := actions sc;
     armature_anim := armature_anim sc; shape_key_anim := shape_key_anim sc;
     material_anim := material_anim sc; world_anim := world_anim sc;
     frame_start := frame_start sc; frame_end := frame_end sc;
     frame_current := frame_current sc; aj_props := aj_props sc |}.

Definition set_actions (sc : Scene) (acts : list Action) : Scene :=
  {| objects := objects sc; actions := acts;
     armature_anim := armature_anim sc; shape_key_anim := shape_key_anim sc;
     material_anim := material_anim sc; world_anim := world_anim sc;
     frame_start := frame_start sc; frame_end := frame_end sc;
     frame_current := frame_current sc; aj_props := aj_props sc |}.

Definition set_id_anims (sc : Scene) (arms sks mats wos : list (option AnimData))
  : Scene :=
  {| objects := objects sc; actions := actions sc;
     armature_anim := arms; shape_key_anim := sks;
     material_anim := mats; world_anim := wos;
     frame_start := frame_start sc; frame_end := frame_end sc;
     frame_current := frame_current sc; aj_props := aj_props sc |}.

Definition set_frame_range (sc : Scene) (fs fe : Z) : Scene :=
  {| objects := objects sc; actions := actions sc;
     armature_anim := armature_anim sc; shape_key_anim := shape_key_anim sc;
     material_anim := material_anim sc; world_anim := world_anim sc;
     frame_start := fs; frame_end := fe;
     frame_current := frame_current sc; aj_props := aj_props sc |}.

(** [scene.frame_set(f)] *)
Definition frame_set (sc : Scene) (f : Z) : Scene :=
  {| objects := objects sc; actions := actions sc;
     armature_anim := armature_anim sc; shape_key_anim := shape_key_anim sc;
     material_anim := material_anim sc; world_anim := world_anim sc;
     frame_start := frame_start sc; frame_end := frame_end sc;
     frame_current := f; aj_props := aj_props sc |}.

Definition set_props (sc : Scene) (p : AJ_Props) : Scene :=
  {| objects := objects sc; actions := actions sc;
     armature_anim := armature_anim sc; shape_key_anim := shape_key_anim sc;
     material_anim := material_anim sc; world_anim := world_anim sc;
     frame_start := frame_start sc; frame_end := frame_end sc;
     frame_current := frame_current sc; aj_props := p |}.

Definition set_bone_map (p : AJ_Props) (rows : list BoneMapItem) : AJ_Props :=
  {| export_format := export_format p; include_mesh := include_mesh p;
     export_side := export_side p; rename_on_export := rename_on_export p;
     rot_x := rot_x p; rot_y := rot_y p; rot_z := rot_z p;
     bone_map := rows; mapping_path := mapping_path p;
     active_index := active_index p;
     source_armature := source_armature p; target_armature := target_armature p;
     current_armature_side := current_armature_side p;
     follow_mode := follow_mode p;
     live_follow_a2b := live_follow_a2b p; live_follow_b2a := live_follow_b2a p |}.

Definition set_mapping_path (p : AJ_Props) (path : str) : AJ_Props :=
  {| export_format := export_format p; include_mesh := include_mesh p;
     export_side := export_side p; rename_on_export := rename_on_export p;
     rot_x := rot_x p; rot_y := rot_y p; rot_z := rot_z p;
     bone_map := bone_map p; mapping_path := path;
     active_index := active_index p;
     source_armature := source_armature p; target_armature := target_armature p;
     current_armature_side := current_armature_side p;
     follow_mode := follow_mode p;
     live_follow_a2b := live_follow_a2b p; live_follow_b2a := live_follow_b2a p |}.

Definition set_active_index (p : AJ_Props) (i : Z) : AJ_Props :=
  {| export_format := export_format p; include_mesh := include_mesh p;
     export_side := export_side p; rename_on_export := rename_on_export p;
     rot_x := rot_x p; rot_y := rot_y p; rot_z := rot_z p;
     bone_map := bone_map p; mapping_path := mapping_path p;
     active_index := i;
     source_armature := source_armature p; target_armature := target_armature p;
     current_armature_side := current_armature_side p;
     follow_mode := follow_mode p;
     live_follow_a2b := live_follow_a2b p; live_follow_b2a := live_follow_b2a p |}.

Definition set_live_follow_a2b (p : AJ_Props) (v : bool) : AJ_Props :=
  {| export_format := export_format p; include_mesh := include_mesh p;
     export_side := export_side p; rename_on_export := rename_on_export p;
     rot_x := rot_x p; rot_y := rot_y p; rot_z := rot_z p;
     bone_map := bone_map p; mapping_path := mapping_path p;
     active_index := active_index p;
     source_armature := source_armature p; target_armature := target_armature p;
     current_armature_side := current_armature_side p;
     follow_mode := follow_mode p;
     live_follow_a2b := v; live_follow_b2a := live_follow_b2a p |}.

Definition set_live_follow_b2a (p : AJ_Props) (v : bool) : AJ_Props :=
  {| export_format := export_format p; include_mesh := include_mesh p;
     export_side := export_side p; rename_on_export := rename_on_export p;
     rot_x := rot_x p; rot_y := rot_y p; rot_z := rot_z p;
     bone_map := bone_map p; mapping_path := mapping_path p;
     active_index := active_index p;
     source_armature := source_armature p; target_armature := target_armature p;
     current_armature_side := current_armature_side p;
     follow_mode := follow_mode p;
     live_follow_a2b := live_follow_a2b p; live_follow_b2a := v |}.

(** ** Drivers and the dependency refresh *)

(** [handle_animdata(ad)] inside [patch_driver_fcurves]; the action of
    [ad] is one of [bpy.data.actions] and is patched in that store. *)
Definition handle_animdata (mapping : dict) (ad : option AnimData)
           (st : list Action * nat) : option AnimData * (list Action * nat) :=
  match ad with
  | None => (None, st)
  | Some a =>
      let (acts, changed) := st in
      let (ds, n) := patch_paths (patch_driver mapping) (drivers a) changed in
      match ad_action a with
      | Some k =>
          match nth_error acts k with
          | Some act =>
              let (fs, n') := patch_paths (patch_driver mapping) (fcurves act) n in
              (Some (set_drivers a ds), (list_set acts k (set_fcurves act fs), n'))
          | None => (Some (set_drivers a ds), (acts, n))
          end
      | None => (Some (set_drivers a ds), (acts, n))
      end
  end.

Fixpoint handle_objects (mapping : dict) (objs : list Object)
         (st : list Action * nat) : list Object * (list Action * nat) :=
  match objs with
  | [] => ([], st)
  | o :: rest =>
      let (ad, st1) := handle_animdata mapping (animation_data o) st in
      let (rest', st2) := handle_objects mapping rest st1 in
      (set_animation_data o ad :: rest', st2)
  end.

Fixpoint handle_blocks (mapping : dict) (ads : list (option AnimData))
         (st : list Action * nat) : list (option AnimData) * (list Action * nat) :=
  match ads with
  | [] => ([], st)
  | ad :: rest =>
      let (ad', st1) := handle_animdata mapping ad st in
      let (rest', st2) := handle_blocks mapping rest st1 in
      (ad' :: rest', st2)
  end.

Definition patch_driver_fcurves (sc : Scene) (mapping : dict) : Scene * nat :=
  let (objs, st1) := handle_objects mapping (objects sc) (actions sc, 0) in
  let (arms, st2) := handle_blocks mapping (armature_anim sc) st1 in
  let (sks, st3) := handle_blocks mapping (shape_key_anim sc) st2 in
  let (mats, st4) := handle_blocks mapping (material_anim sc) st3 in
  let (wos, st5) := handle_blocks mapping (world_anim sc) st4 in
  (set_id_anims (set_actions (set_objects sc objs) (fst st5)) arms sks mats wos,
   snd st5).

(** The first loop of [force_refresh_depsgraph]: the armature modifier of
    every bound mesh is emptied and set again. *)
Fixpoint refresh_modifiers (objs : list Object) (arm_obj : option nat)
  : list Object :=
  match objs with
  | [] => []
  | o :: rest =>
      match mesh_using_armature arm_obj o with
      | Some k =>
          match nth_error (modifiers o) k with
          | Some m =>
              let orig := mod_object m in
              let m1 := set_mod_object m None in
              let m2 := set_mod_object m1 orig in
              set_modifiers o (list_set (list_set (modifiers o) k m1) k m2)
                :: refresh_modifiers rest arm_obj
          | None => o :: refresh_modifiers rest arm_obj
          end
      | None => o :: refresh_modifiers rest arm_obj
      end
  end.

Definition force_refresh_depsgraph (sc : Scene) (arm_obj : option nat) : Scene :=
  let sc1 := set_objects sc (refresh_modifiers (objects sc) arm_obj) in
  let cur := frame_current sc1 in
  frame_set (frame_set sc1 (cur + 1)%Z) cur.

Section Pipeline.

Variable unique_name : list str -> str -> str.

(** The six calls that every caller makes in this order: rename, vertex
    groups, constraints, curves, drivers, refresh; with their counts. *)
Definition rename_and_patch (sc : Scene) (arm : option nat) (mapping : dict)
  : option (Scene * (nat * nat * nat * nat * nat)) :=
  match rename_bones_edit_mode_preserve_flags unique_name (objects sc) arm mapping with
  | None => None
  | Some (objs1, (renamed, _)) =>
      let (objs2, vg_count) :=
        patch_vertex_groups_for_armature unique_name objs1 arm mapping 0 in
      match patch_constraints_subtargets objs2 arm mapping with
      | None => None
      | Some (objs3, con_count) =>
          let (acts, fcu_changed) := patch_fcurves_actions (actions sc) mapping in
          let (sc1, drv_changed) :=
            patch_driver_fcurves (set_actions (set_objects sc objs3) acts) mapping in
          Some (force_refresh_depsgraph sc1 arm,
                (renamed, vg_count, con_count, fcu_changed, drv_changed))
      end
  end.

Definition _apply_mapping_on_arm (sc : Scene) (arm : option nat) (mapping : dict)
  : option (Scene * (nat * nat * nat * nat * nat)) :=
  match armature_at (objects sc) arm with
  | None => Some (sc, (0, 0, 0, 0, 0))
  | Some _ => rename_and_patch sc arm mapping
  end.

End Pipeline.

(* ================================================================== *)
(** * Operators: results and reports *)
(* ================================================================== *)

Inductive Status := FINISHED | CANCELLED.
Inductive Level := INFO | WARNING | ERROR.

(** A call of [self.report]: its level and its text up to the first
    formatted value. *)
Definition Report := (Level * str)%type.

(** The arrow of the follow reports, U+2192. *)
Definition ARROW : char := 8594%N.

(** The armature the Current column reflects. *)
Definition current_armature (p : AJ_Props) : option nat :=
  match current_armature_side p with
  | TARGET => target_armature p
  | SOURCE => source_armature p
  end.

(* ================================================================== *)
(** * Saving and loading the mapping table (lines 587-694) *)
(* ================================================================== *)

(** The loop of [AJ_OT_bone_map_save_dialog.execute]: the mapping built
    so far and the rows seen so far, then the rows still to visit. *)
Fixpoint save_rows (rows : list BoneMapItem) (mapping : dict)
  : list BoneMapItem * dict :=
  match rows with
  | [] => ([], mapping)
  | it :: rest =>
      let src := original_name it in
      let tgt := target_name it in
      if truthy src && truthy tgt then
        let it' := {| original_name := original_name it;
                      current_name := current_name it;
                      target_name := target_name it;
                      cap_src := src; cap_tgt := tgt; mark := mark it |} in
        let (rest', m) := save_rows rest (dict_set mapping src tgt) in
        (it' :: rest', m)
      else
        let (rest', m) := save_rows rest mapping in
        (it :: rest', m)
  end.

(** A new row as [props.bone_map.add()] makes it. *)
Definition blank_row : BoneMapItem :=
  {| original_name := []; current_name := []; target_name := [];
     cap_src := []; cap_tgt := []; mark := false |}.

(** [{it.original_name: i for i, it in enumerate(props.bone_map)}] *)
Fixpoint index_rows (rows : list BoneMapItem) (i : nat) (d : pydict nat)
  : pydict nat :=
  match rows with
  | [] => d
  | it :: rest => index_rows rest (S i) (dict_set d (original_name it) i)
  end.

(** The merge loop of [AJ_OT_bone_map_load_dialog.execute]. *)
Fixpoint merge_rows (mapping : dict) (existing_index : pydict nat)
         (rows : list BoneMapItem) (updated added : nat)
  : list BoneMapItem * (nat * nat) :=
  match mapping with
  | [] => (rows, (updated, added))
  | (old, new) :: rest =>
      match dict_get existing_index old with
      | Some i =>
          match nth_error rows i with
          | Some it =>
              let it' := {| original_name := original_name it;
                            current_name := current_name it;
                            target_name := or_else new old;
                            cap_src := old; cap_tgt := or_else new old;
                            mark := mark it |} in
              merge_rows rest existing_index (list_set rows i it') (S updated) added
          | None => merge_rows rest existing_index rows updated added
          end
      | None =>
          let it' := {| original_name := old; current_name := [];
                        target_name := or_else new old;
                        cap_src := old; cap_tgt := or_else new old;
                        mark := mark blank_row |} in
          merge_rows rest existing_index (rows ++ [it']) updated (S added)
      end
  end.

(** The loop of [_prefill_current_from_arm] over the rows. *)
Fixpoint prefill_rows (bs : list Bone) (only_if_blank : bool)
         (rows : list BoneMapItem) (count : nat) : list BoneMapItem * nat :=
  match rows with
  | [] => ([], count)
  | it :: rest =>
      if only_if_blank && truthy (current_name it) then
        let (rest', n) := prefill_rows bs only_if_blank rest count in
        (it :: rest', n)
      else
        let fill (c : str) :=
          {| original_name := original_name it; current_name := c;
             target_name := target_name it; cap_src := cap_src it;
             cap_tgt := cap_tgt it; mark := mark it |} in
        if _bone_exists bs (original_name it) then
          let (rest', n) := prefill_rows bs only_if_blank rest (S count) in
          (fill (original_name it) :: rest', n)
        else if _bone_exists bs (target_name it) then
          let (rest', n) := prefill_rows bs only_if_blank rest (S count) in
          (fill (target_name it) :: rest', n)
        else
          let (rest', n) := prefill_rows bs only_if_blank rest count in
          (it :: rest', n)
  end.

Definition _prefill_current_from_arm (objs : list Object) (props : AJ_Props)
           (only_if_blank : bool) : AJ_Props * nat :=
  match armature_at objs (current_armature props) with
  | None => (props, 0)
  | Some (_, arm) =>
      let (rows, count) :=
        prefill_rows (bones arm) only_if_blank (bone_map props) 0 in
      (set_bone_map props rows, count)
  end.

Section Files.

(** The host's [bpy.path.ensure_ext(path, ".txt")]. *)
Variable ensure_ext_txt : str -> str.

(** Reading a file as UTF-8 text; [None] when [open] or [read] raises. *)
Variable read_file : str -> option str.

Definition _parse_mapping_file (path : str) : option dict :=
  match read_file path with
  | Some text => Some (parse_mapping_txt text)
  | None => None
  end.

(** [AJ_OT_bone_map_save_dialog.execute]; [write_ok] tells whether
    opening and writing the file succeeds.  The last component is the
    file written: its path and its text. *)
Definition save_execute (write_ok : bool) (props : AJ_Props) (filepath : str)
  : AJ_Props * Status * list Report * option (str * str) :=
  let path := ensure_ext_txt filepath in
  let (rows, mapping) := save_rows (bone_map props) [] in
  let props1 := set_bone_map props rows in
  if write_ok then
    (set_mapping_path props1 path, FINISHED, [(INFO, lit "Saved ")],
     Some (path, mapping_to_txt mapping))
  else
    (props1, CANCELLED, [(ERROR, lit "Failed to write mapping: ")], None).

(** [AJ_OT_bone_map_load_dialog.execute]; the colouring of the mapped
    bones at its end writes bone groups only. *)
Definition load_execute (sc : Scene) (filepath : str)
  : Scene * Status * list Report :=
  let props := aj_props sc in
  let path := filepath in
  if negb (truthy path) then (sc, CANCELLED, [(ERROR, lit "No file chosen.")])
  else
    match _parse_mapping_file path with
    | None => (sc, CANCELLED, [(ERROR, lit "Failed to read mapping: ")])
    | Some mapping =>
        let existing_index := index_rows (bone_map props) 0 [] in
        let '(rows, (updated, added)) :=
          merge_rows mapping existing_index (bone_map props) 0 0 in
        let props1 := set_mapping_path (set_bone_map props rows)
                                       (ensure_ext_txt path) in
        let len := Z.of_nat (List.length (bone_map props1)) in
        let props2 :=
          if negb (Nat.eqb (List.length (bone_map props1)) 0)
             && (len <=? active_index props1)%Z
          then set_active_index props1 (len - 1)%Z
          else props1 in
        let (props3, filled) :=
          _prefill_current_from_arm (objects sc) props2 true in
        (set_props sc props3, FINISHED, [(INFO, lit "Merged ")])
    end.

End Files.

(* ================================================================== *)
(** * Live follow constraints (lines 763-866) *)
(* ================================================================== *)

Definition AJ_CON_PREFIX : str := lit "AJ_FOLLOW".

Inductive Direction := A2B | B2A.

(** [for con in list(pb.constraints): if con.name.startswith(AJ_CON_PREFIX):
    pb.constraints.remove(con); removed += 1] *)
Fixpoint remove_prefixed (cs : list Constraint) (removed : nat)
  : list Constraint * nat :=
  match cs with
  | [] => ([], removed)
  | con :: rest =>
      if startswith (con_name con) AJ_CON_PREFIX
      then remove_prefixed rest (S removed)
      else let (rest', n) := remove_prefixed rest removed in (con :: rest', n)
  end.

Fixpoint remove_from_bones (bs : list Bone) (removed : nat) : list Bone * nat :=
  match bs with
  | [] => ([], removed)
  | pb :: rest =>
      let (cs, n) := remove_prefixed (constraints pb) removed in
      let (rest', n') := remove_from_bones rest n in
      (set_constraints pb cs :: rest', n')
  end.

(** One turn of [for arm in (A, B)] in [_remove_follow_constraints]. *)
Definition remove_from_arm (objs : list Object) (arm : option nat) (removed : nat)
  : list Object * nat :=
  match armature_at objs arm with
  | None => (objs, removed)
  | Some (i, o) =>
      let (bs, n) := remove_from_bones (bones o) removed in
      (list_set objs i (set_bones o bs), n)
  end.

Definition _remove_follow_constraints (objs : list Object) (props : AJ_Props)
  : list Object * nat :=
  let (objs1, n) := remove_from_arm objs (source_armature props) 0 in
  remove_from_arm objs1 (target_armature props) n.

(** The constraint that [_add_follow_constraints] creates and fills in. *)
Definition follow_constraint (mode : FollowMode) (src_arm : nat) (src_bone : str)
  : Constraint :=
  match mode with
  | XFORM =>
      {| con_name := AJ_CON_PREFIX ++ lit "_XFORM"; con_kind := COPY_TRANSFORMS;
         con_target := Some src_arm; con_subtarget := Some src_bone;
         con_mix_mode := lit "AFTER"; con_target_space := lit "POSE";
         con_owner_space := lit "POSE"; con_use_xyz := None |}
  | ROT_ONLY =>
      {| con_name := AJ_CON_PREFIX ++ lit "_ROT"; con_kind := COPY_ROTATION;
         con_target := Some src_arm; con_subtarget := Some src_bone;
         con_mix_mode := lit "AFTER"; con_target_space := lit "POSE";
         con_owner_space := lit "POSE";
         con_use_xyz := Some (true, true, true) |}
  end.

(** [_bone_exists(arm, name)] for an armature given by its position. *)
Definition bone_exists_at (objs : list Object) (arm : nat) (name : str) : bool :=
  match nth_error objs arm with
  | Some o => _bone_exists (bones o) name
  | None => false
  end.

(** The body of the loop of [_add_follow_constraints] once the row has
    passed the two tests: the destination pose bone loses its prefixed
    constraints and receives the new one. *)
Definition install_follow (objs : list Object) (mode : FollowMode)
           (src_arm : nat) (src_bone : str) (dst_arm : nat) (dst_bone : str)
  : list Object :=
  match nth_error objs dst_arm with
  | Some o =>
      match bone_index (bones o) dst_bone with
      | Some k =>
          match nth_error (bones o) k with
          | Some pb =>
              let cs := fst (remove_prefixed (constraints pb) 0) in
              let pb' := set_constraints pb
                           (cs ++ [follow_constraint mode src_arm src_bone]) in
              list_set objs dst_arm (set_bones o (list_set (bones o) k pb'))
          | None => objs
          end
      | None => objs
      end
  | None => objs
  end.

Fixpoint add_follow_rows (rows : list BoneMapItem) (A B : nat)
         (direction : Direction) (mode : FollowMode)
         (objs : list Object) (count : nat) : list Object * nat :=
  match rows with
  | [] => (objs, count)
  | it :: rest =>
      let src_name := original_name it in
      let tgt_name := target_name it in
      if negb (truthy src_name && truthy tgt_name)
      then add_follow_rows rest A B direction mode objs count
      else
        let '(src_arm, src_bone, dst_arm, dst_bone) :=
          match direction with
          | A2B => (A, src_name, B, tgt_name)
          | B2A => (B, tgt_name, A, src_name)
          end in
        if negb (bone_exists_at objs src_arm src_bone
                 && bone_exists_at objs dst_arm dst_bone)
        then add_follow_rows rest A B direction mode objs count
        else add_follow_rows rest A B direction mode
               (install_follow objs mode src_arm src_bone dst_arm dst_bone)
               (S count)
  end.

Definition _add_follow_constraints (objs : list Object) (props : AJ_Props)
           (direction : Direction) : list Object * nat :=
  match armature_at objs (source_armature props),
        armature_at objs (target_armature props) with
  | Some (A, _), Some (B, _) =>
      add_follow_rows (bone_map props) A B direction (follow_mode props) objs 0
  | _, _ => (objs, 0)
  end.

(** [AJ_OT_toggle_follow_a2b.execute] *)
Definition toggle_follow_a2b_execute (sc : Scene) : Scene * Status * list Report :=
  let p := set_live_follow_a2b (aj_props sc) (negb (live_follow_a2b (aj_props sc))) in
  if live_follow_a2b p then
    let p := set_live_follow_b2a p false in
    let (objs1, _) := _remove_follow_constraints (objects sc) p in
    let (objs2, added) := _add_follow_constraints objs1 p A2B in
    (set_props (set_objects sc objs2) p, FINISHED, [(INFO, lit "Live follow A" ++ [ARROW] ++ lit "B ON. Added ")])
  else
    let (objs1, removed) := _remove_follow_constraints (objects sc) p in
    (set_props (set_objects sc objs1) p, FINISHED, [(INFO, lit "Live follow A" ++ [ARROW] ++ lit "B OFF. Removed ")]).

(** [AJ_OT_toggle_follow_b2a.execute] *)
Definition toggle_follow_b2a_execute (sc : Scene) : Scene * Status * list Report :=
  let p := set_live_follow_b2a (aj_props sc) (negb (live_follow_b2a (aj_props sc))) in
  if live_follow_b2a p then
    let p := set_live_follow_a2b p false in
    let (objs1, _) := _remove_follow_constraints (objects sc) p in
    let (objs2, added) := _add_follow_constraints objs1 p B2A in
    (set_props (set_objects sc objs2) p, FINISHED, [(INFO, lit "Live follow B" ++ [ARROW] ++ lit "A ON. Added ")])
  else
    let (objs1, removed) := _remove_follow_constraints (objects sc) p in
    (set_props (set_objects sc objs1) p, FINISHED, [(INFO, lit "Live follow B" ++ [ARROW] ++ lit "A OFF. Removed ")]).

(** [AJ_OT_clear_follow.execute] *)
Definition clear_follow_execute (sc : Scene) : Scene * Status * list Report :=
  let p := set_live_follow_b2a (set_live_follow_a2b (aj_props sc) false) false in
  let (objs1, removed) := _remove_follow_constraints (objects sc) p in
  (set_props (set_objects sc objs1) p, FINISHED, [(INFO, lit "Removed ")]).

(** The three commands that write the follow flags, as one step. *)
Inductive FollowCommand := ToggleA2B | ToggleB2A | ClearFollow.

Definition follow_step (sc : Scene) (c : FollowCommand) : Scene :=
  match c with
  | ToggleA2B => fst (fst (toggle_follow_a2b_execute sc))
  | ToggleB2A => fst (fst (toggle_follow_b2a_execute sc))
  | ClearFollow => fst (fst (clear_follow_execute sc))
  end.

(* ================================================================== *)
(** * Export of the current action (lines 876-1040) *)
(* ================================================================== *)

(** [int(x)] on a number: truncation towards zero. *)
Definition py_int (q : Q) : Z := Z.quot (Qnum q) (Zpos (Qden q)).

(** [_iter_meshes_using_armature(arm_obj)]: the meshes bound to the
    armature, by position, starting the count at [i]. *)
Fixpoint _iter_meshes_using_armature (objs : list Object) (arm_obj : option nat)
         (i : nat) : list nat :=
  match objs with
  | [] => []
  | o :: rest =>
      match mesh_using_armature arm_obj o with
      | Some _ => i :: _iter_meshes_using_armature rest arm_obj (S i)
      | None => _iter_meshes_using_armature rest arm_obj (S i)
      end
  end.

(** [{obj: obj.matrix_world.copy() for obj in objs}] *)
Fixpoint world_originals (objs : list Object) (ids : list nat)
  : list (nat * Matrix) :=
  match ids with
  | [] => []
  | i :: rest =>
      match nth_error objs i with
      | Some o => (i, matrix_world o) :: world_originals objs rest
      | None => world_originals objs rest
      end
  end.

Fixpoint rotate_each (objs : list Object) (ids : list nat) (rx ry rz : Q)
  : list Object :=
  match ids with
  | [] => objs
  | i :: rest =>
      match nth_error objs i with
      | Some o =>
          rotate_each
            (list_set objs i (set_matrix_world o (ROT rx ry rz (matrix_world o))))
            rest rx ry rz
      | None => rotate_each objs rest rx ry rz
      end
  end.

Definition _temporarily_rotate_world (objs : list Object) (ids : list nat)
           (rx ry rz : Q) : list Object * list (nat * Matrix) :=
  (rotate_each objs ids rx ry rz, world_originals objs ids).

Fixpoint _restore_world (objs : list Object) (originals : list (nat * Matrix))
  : list Object :=
  match originals with
  | [] => objs
  | (i, mat) :: rest =>
      match nth_error objs i with
      | Some o => _restore_world (list_set objs i (set_matrix_world o mat)) rest
      | None => _restore_world objs rest
      end
  end.

Definition BVH_ROT_NAME : str := lit "AJ_BVH_ROT".

Definition bvh_helper (rx ry rz : Q) : Object :=
  {| obj_name := lit "AJ_BVH_Rotate_Helper"; obj_type := EMPTY;
     bones := []; modifiers := []; vertex_groups := [];
     matrix_world := MAT 0; rotation_euler := (rx, ry, rz);
     animation_data := None |}.

Definition bvh_constraint (empty : nat) : Constraint :=
  {| con_name := BVH_ROT_NAME; con_kind := COPY_ROTATION;
     con_target := Some empty; con_subtarget := Some [];
     con_mix_mode := lit "AFTER"; con_target_space := lit "WORLD";
     con_owner_space := lit "WORLD"; con_use_xyz := Some (true, true, true) |}.

(** [_apply_bvh_rotation_to_roots(arm, rx, ry, rz)]: the new empty goes
    last in [bpy.data.objects]; every pose bone without a parent gets the
    rotation constraint.  Returns the objects and the empty. *)
Definition _apply_bvh_rotation_to_roots (objs : list Object) (arm : nat)
           (rx ry rz : Q) : list Object * nat :=
  let empty := List.length objs in
  let objs1 := objs ++ [bvh_helper rx ry rz] in
  match nth_error objs1 arm with
  | Some o =>
      let bs := map (fun pb =>
                       if has_parent pb then pb
                       else set_constraints pb
                              (constraints pb ++ [bvh_constraint empty]))
                    (bones o) in
      (list_set objs1 arm (set_bones o bs), empty)
  | None => (objs1, empty)
  end.

(** [_clear_bvh_rotation_helper(empty, arm)] *)
Definition _clear_bvh_rotation_helper (objs : list Object) (empty : nat)
           (arm : option nat) : list Object :=
  let objs1 :=
    match armature_at objs arm with
    | Some (i, o) =>
        let bs := map (fun pb =>
                         set_constraints pb
                           (filter (fun con => negb (str_eqb (con_name con) BVH_ROT_NAME))
                                   (constraints pb)))
                      (bones o) in
        list_set objs i (set_bones o bs)
    | None => objs
    end in
  match nth_error objs1 empty with
  | Some _ => list_del objs1 empty
  | None => objs1
  end.

(** [{it.original_name: it.target_name for it in props.bone_map
      if it.original_name and it.target_name}] *)
Definition mapping_raw (rows : list BoneMapItem) : dict :=
  fold_left (fun d it =>
               if truthy (original_name it) && truthy (target_name it)
               then dict_set d (original_name it) (target_name it) else d)
            rows [].

(** [{v: k for k, v in mapping.items()}] *)
Definition invert (mapping : dict) : dict :=
  fold_left (fun d kv => dict_set d (snd kv) (fst kv)) mapping [].

(** [arm.animation_data_create()] *)
Definition animation_data_create (objs : list Object) (arm : nat) : list Object :=
  match nth_error objs arm with
  | Some o =>
      match animation_data o with
      | Some _ => objs
      | None => list_set objs arm
                  (set_animation_data o (Some {| drivers := []; ad_action := None |}))
      end
  | None => objs
  end.

(** [ad.action] of an object, looked up in [bpy.data.actions]. *)
Definition action_of (sc : Scene) (arm : nat) : option Action :=
  match nth_error (objects sc) arm with
  | Some o =>
      match animation_data o with
      | Some ad =>
          match ad_action ad with
          | Some k => nth_error (actions sc) k
          | None => None
          end
      | None => None
      end
  | None => None
  end.

Section ExportCommand.

Variable unique_name : list str -> str -> str.

(** [_apply_temp_mapping_if_needed(props, arm)]: the scene afterwards
    and the inverse mapping, if one was applied. *)
Definition _apply_temp_mapping_if_needed (sc : Scene) (arm : nat)
  : option (Scene * option dict) :=
  let props := aj_props sc in
  if negb (rename_on_export props) then Some (sc, None)
  else
    let raw := mapping_raw (bone_map props) in
    let mapping :=
      filter (fun on => negb (str_eqb (fst on) (snd on))
                        && bone_exists_at (objects sc) arm (fst on)) raw in
    match mapping with
    | [] => Some (sc, None)
    | _ :: _ =>
        match rename_and_patch unique_name sc (Some arm) mapping with
        | None => None
        | Some (sc1, _) => Some (sc1, Some (invert mapping))
        end
    end.

(** [_revert_temp_mapping(inv_mapping, arm)] *)
Definition _revert_temp_mapping (sc : Scene) (inv_mapping : option dict)
           (arm : nat) : option Scene :=
  match inv_mapping with
  | None | Some [] => Some sc
  | Some inv =>
      match rename_and_patch unique_name sc (Some arm) inv with
      | None => None
      | Some (sc1, _) => Some sc1
      end
  end.

(** [AJ_OT_export_current_action.execute].  [exporter_ok] tells whether
    the exporter call returns; it is taken to leave the scene as it is.
    [None] stands for an exception that leaves [execute].  The output
    folder, the file name and the selection for export do not reach the
    fields of the model. *)
Definition export_current_action_execute (exporter_ok : bool) (sc : Scene)
  : option (Scene * Status * list Report) :=
  let p := aj_props sc in
  let arm_ref := match export_side p with
                 | TARGET => target_armature p
                 | SOURCE => source_armature p
                 end in
  match armature_at (objects sc) arm_ref with
  | None => Some (sc, CANCELLED, [(ERROR, lit "Pick a valid ")])
  | Some (arm, _) =>
      match _apply_temp_mapping_if_needed sc arm with
      | None => None
      | Some (sc1, inv_map) =>
          let sc2 := set_objects sc1 (animation_data_create (objects sc1) arm) in
          let act := action_of sc2 arm in
          let orig_fs := frame_start sc2 in
          let orig_fe := frame_end sc2 in
          let sc3 := match act with
                     | Some a => set_frame_range sc2 (py_int (fst (frame_range a)))
                                                 (py_int (snd (frame_range a)))
                     | None => sc2
                     end in
          let is_fbx := match export_format p with FBX => true | BVH => false end in
          let objs_to_rotate :=
            arm :: (if is_fbx && include_mesh p
                    then _iter_meshes_using_armature (objects sc3) (Some arm) 0
                    else []) in
          let (objs4, originals) :=
            _temporarily_rotate_world (objects sc3) objs_to_rotate
                                      (rot_x p) (rot_y p) (rot_z p) in
          (* the body of [try]: the objects when it is left, and whether
             it is left by an exception *)
          let (objs5, raised) :=
            if is_fbx then (objs4, negb exporter_ok)
            else
              let (objs_h, empty) :=
                _apply_bvh_rotation_to_roots objs4 arm (rot_x p) (rot_y p) (rot_z p) in
              if exporter_ok
              then (_clear_bvh_rotation_helper objs_h empty (Some arm), false)
              else (objs_h, true) in
          let sc6 := set_frame_range
                       (set_objects sc3 (_restore_world objs5 originals))
                       orig_fs orig_fe in
          match _revert_temp_mapping sc6 inv_map arm with
          | None => None
          | Some sc7 =>
              if raised
              then Some (sc7, CANCELLED, [(ERROR, lit "Export failed: ")])
              else Some (sc7, FINISHED, [(INFO, lit "Wrote ")])
          end
      end
  end.

End ExportCommand.

(* ================================================================== *)
(** * Predicates used to state the properties *)
(* ================================================================== *)

(** The keys of a dictionary are pairwise different. *)
Definition unique_keys (V : Type) (m : pydict V) : Prop := NoDup (map fst m).

(** No line boundary of [splitlines] inside the string. *)
Definition one_line (s : str) : bool := forallb (fun c => negb (is_linebreak c)) s.

Definition has_char (c : char) (s : str) : bool := existsb (N.eqb c) s.

Definition head_clear (s : str) : bool :=
  match s with [] => true | c :: _ => negb (isspace c) end.

(** No white space at either end. *)
Definition trimmed (s : str) : bool := head_clear s && head_clear (rev s).

(** What the round-trip property of the specification asks of a mapping:
    keys and values non-empty, no [=] and no newline inside a key. *)
Definition plain_entry (kv : str * str) : bool :=
  truthy (fst kv) && truthy (snd kv)
  && negb (has_char EQUALS (fst kv)) && negb (has_char NEWLINE (fst kv)).

(** What the code needs on top of it: no line boundary in key or value,
    no white space at their ends, no [#] in front of the key. *)
Definition clean_entry (kv : str * str) : bool :=
  truthy (fst kv) && truthy (snd kv)
  && negb (has_char EQUALS (fst kv))
  && one_line (fst kv) && one_line (snd kv)
  && trimmed (fst kv) && trimmed (snd kv)
  && negb (startswith (fst kv) [HASH]).

(** [tok] occurs in [pre ++ tok ++ post] at the place shown and nowhere
    else. *)
Definition lone_token (tok pre post : str) : bool :=
  negb (contains (pre ++ removelast tok) tok) && negb (contains post tok).

(** A string that a name field of the host stores as it is: within 63
    bytes of UTF-8, without NUL and without surrogate. *)
Definition utf8_bytes (s : str) : nat := list_sum (map utf8_len s).

Definition plain_char (c : char) : bool :=
  ((0 <? c) && ((c <? 55296) || (57343 <? c)) && (c <=? 1114111))%N.

Definition fits_field (s : str) : bool :=
  forallb plain_char s && (utf8_bytes s <=? 63).

(** A name that the host stores as it is: such a string, not empty. *)
Definition fits_name (s : str) : bool := truthy s && fits_field s.

(** The swap of two bone names as a mapping. *)
Definition swap_mapping (A B : str) : dict := [(A, B); (B, A)].

(** A data path that holds the tokens of two bones, A and B. *)
Definition both_tokens : str :=
  bone_token (lit "A") ++ lit ".x." ++ bone_token (lit "B").

Definition HIPS : str := lit "Hips".
Definition PELVIS : str := lit "Pelvis".
Definition hips_to_pelvis : dict := [(HIPS, PELVIS)].

(** What the mapping {Hips->Pelvis} is to do to a data path and to the
    name of a vertex group. *)
Definition hips_path (dp : str) : str :=
  if contains dp (bone_token HIPS)
  then replace dp (bone_token HIPS) (bone_token PELVIS)
  else dp.

Definition hips_group (vg : str) : str :=
  if str_eqb vg HIPS then PELVIS else vg.

(** No bone of [bs] other than those at positions [i] and [j] is named
    [n]. *)
Definition free_elsewhere (bs : list Bone) (i j : nat) (n : str) : Prop :=
  forall k b, k <> i -> k <> j -> nth_error bs k = Some b -> bone_name b <> n.

(** The deform flag found under a bone name. *)
Definition deform_of (bs : list Bone) (n : str) : option bool :=
  match bone_index bs n with
  | Some k => option_map use_deform (nth_error bs k)
  | None => None
  end.

(** A bone without constraints. *)
Definition plain_bone (n : str) (deform parent : bool) : Bone :=
  {| bone_name := n; use_deform := deform; has_parent := parent;
     constraints := [] |}.

(** An armature whose second bone carries the sentinel form of the name
    of the first. *)
Definition sentinel_bones : list Bone :=
  [ plain_bone (lit "X") true false;
    plain_bone (lit "X_TMP_RENAME__") false true ].

(** An armature with three bones of ordinary names. *)
Definition three_bones : list Bone :=
  [ plain_bone (lit "Hips") true false;
    plain_bone (lit "Spine") false true;
    plain_bone (lit "Head") true true ].

(** A clash rule in the manner of the host: a numbered suffix. *)
Definition dotted_unique_name (taken : list str) (n : str) : str :=
  n ++ lit ".001".

(** ** The mapping table *)

(** Some row of the table has this original name. *)
Definition has_original (rows : list BoneMapItem) (name : str) : bool :=
  existsb (fun it => str_eqb (original_name it) name) rows.

(** The row that a load appends for an entry of the file. *)
Definition fresh_row (kv : str * str) : BoneMapItem :=
  {| original_name := fst kv; current_name := [];
     target_name := or_else (snd kv) (fst kv);
     cap_src := fst kv; cap_tgt := or_else (snd kv) (fst kv);
     mark := false |}.

(** The row that a load makes of an existing row for an entry. *)
Definition merged_row (it : BoneMapItem) (kv : str * str) : BoneMapItem :=
  {| original_name := original_name it; current_name := current_name it;
     target_name := or_else (snd kv) (fst kv);
     cap_src := fst kv; cap_tgt := or_else (snd kv) (fst kv);
     mark := mark it |}.

Definition set_current (it : BoneMapItem) (c : str) : BoneMapItem :=
  {| original_name := original_name it; current_name := c;
     target_name := target_name it; cap_src := cap_src it;
     cap_tgt := cap_tgt it; mark := mark it |}.

(** Back-fill of Current for one row: a populated Current stays, a blank
    one takes the original name if the armature has that bone, else the
    target name if it has that one. *)
Definition prefill_one (bs : list Bone) (it : BoneMapItem) : BoneMapItem :=
  if truthy (current_name it) then it
  else if _bone_exists bs (original_name it) then set_current it (original_name it)
  else if _bone_exists bs (target_name it) then set_current it (target_name it)
  else it.

(** The updates of a load on the rows that were there before it. *)
Definition update_rows (mapping : dict) (idx : pydict nat)
           (rows : list BoneMapItem) : list BoneMapItem :=
  fold_left (fun R kv =>
               match dict_get idx (fst kv) with
               | Some i =>
                   match nth_error R i with
                   | Some it => list_set R i (merged_row it kv)
                   | None => R
                   end
               | None => R
               end) mapping rows.

(** The entries of a loaded mapping whose original name no row has. *)
Definition new_entries (rows : list BoneMapItem) (mapping : dict) : dict :=
  filter (fun kv => negb (has_original rows (fst kv))) mapping.

(** The rows that are written to the file: both names non-empty. *)
Definition saved (it : BoneMapItem) : bool :=
  truthy (original_name it) && truthy (target_name it).

(** The target name of the last saved row with this original name. *)
Fixpoint last_target (rows : list BoneMapItem) (name : str) : option str :=
  match rows with
  | [] => None
  | it :: rest =>
      match last_target rest name with
      | Some t => Some t
      | None => if saved it && str_eqb (original_name it) name
                then Some (target_name it) else None
      end
  end.

(** What saving does to the capture snapshot of one row. *)
Definition captured (it : BoneMapItem) : BoneMapItem :=
  if saved it
  then {| original_name := original_name it; current_name := current_name it;
          target_name := target_name it; cap_src := original_name it;
          cap_tgt := target_name it; mark := mark it |}
  else it.

(** ** Live follow *)

(** The constraint carries the reserved prefix. *)
Definition prefixed (con : Constraint) : bool :=
  startswith (con_name con) AJ_CON_PREFIX.

(** A pose bone without its reserved-prefix constraints. *)
Definition unfollow (pb : Bone) : Bone :=
  set_constraints pb (filter (fun c => negb (prefixed c)) (constraints pb)).

(** A mapping row is eligible for Source->Target follow: both names
    non-empty, the original a bone of the source armature, the Rename a
    bone of the target armature. *)
Definition eligible_a2b (bsA bsB : list Bone) (it : BoneMapItem) : bool :=
  truthy (original_name it) && truthy (target_name it)
  && (_bone_exists bsA (original_name it) && _bone_exists bsB (target_name it)).

(** The source bone that the last eligible row gives to a target bone. *)
Fixpoint follow_source (bsA bsB : list Bone) (rows : list BoneMapItem)
         (name : str) : option str :=
  match rows with
  | [] => None
  | it :: rest =>
      match follow_source bsA bsB rest name with
      | Some s => Some s
      | None => if eligible_a2b bsA bsB it && str_eqb (target_name it) name
                then Some (original_name it) else None
      end
  end.

(** A pose bone of the target armature once Source->Target follow is on:
    its other constraints, then the follow constraint if it has a source. *)
Definition with_follow (mode : FollowMode) (src_arm : nat) (src : option str)
           (pb : Bone) : Bone :=
  set_constraints pb
    (constraints (unfollow pb)
     ++ match src with
        | Some s => [follow_constraint mode src_arm s]
        | None => []
        end).

(** The number of reserved-prefix constraints on the bones. *)
Definition prefixed_count (bs : list Bone) : nat :=
  list_sum (map (fun pb => List.length (filter prefixed (constraints pb))) bs).

(** Not both follow directions are flagged. *)
Definition one_direction (sc : Scene) : Prop :=
  live_follow_a2b (aj_props sc) && live_follow_b2a (aj_props sc) = false.

(** Every entry of the mapping maps a name to itself. *)
Definition identity_mapping (m : dict) : Prop :=
  Forall (fun kv => fst kv = snd kv) m.

(** ** Sample mappings and tables *)

Definition roundtrip_sample : dict :=
  [(lit "mixamorig:Hips", lit "Hips"); (lit "Left Arm", lit "upper arm.L")].

Definition comment_key_mapping : dict := [(lit "#a", lit "b")].
Definition padded_key_mapping : dict := [(lit " a", lit "b")].
Definition two_line_value_mapping : dict :=
  [(lit "a", lit "b" ++ [NEWLINE] ++ lit "c")].

(** ** Sample scenes *)

Definition sample_props : AJ_Props :=
  {| export_format := FBX; include_mesh := true; export_side := TARGET;
     rename_on_export := true; rot_x := 0%Q; rot_y := 0%Q; rot_z := 0%Q;
     bone_map := []; mapping_path := []; active_index := 0%Z;
     source_armature := None; target_armature := None;
     current_armature_side := TARGET; follow_mode := ROT_ONLY;
     live_follow_a2b := false; live_follow_b2a := false |}.

Definition sample_row (orig cur tgt : str) : BoneMapItem :=
  {| original_name := orig; current_name := cur; target_name := tgt;
     cap_src := []; cap_tgt := []; mark := false |}.

Definition sample_armature (name : str) (bs : list Bone) (m : nat) : Object :=
  {| obj_name := name; obj_type := ARMATURE; bones := bs; modifiers := [];
     vertex_groups := []; matrix_world := MAT m; rotation_euler := (0, 0, 0)%Q;
     animation_data := None |}.

Definition sample_scene (objs : list Object) (acts : list Action)
           (p : AJ_Props) : Scene :=
  {| objects := objs; actions := acts; armature_anim := [];
     shape_key_anim := []; material_anim := []; world_anim := [];
     frame_start := 1%Z; frame_end := 250%Z; frame_current := 1%Z;
     aj_props := p |}.

(** Two rows name the same Target bone; Target->Source follow is on and
    has left its constraints on the two Source bones. *)
Definition b2a_constraint (sub : str) : Constraint :=
  {| con_name := lit "AJ_FOLLOW_ROT"; con_kind := COPY_ROTATION;
     con_target := Some 1; con_subtarget := Some sub;
     con_mix_mode := lit "AFTER"; con_target_space := lit "POSE";
     con_owner_space := lit "POSE"; con_use_xyz := Some (true, true, true) |}.

Definition follow_scene : Scene :=
  sample_scene
    [ sample_armature (lit "Source")
        [ {| bone_name := lit "arm.L"; use_deform := true; has_parent := false;
             constraints := [b2a_constraint (lit "Arm")] |};
          {| bone_name := lit "arm.R"; use_deform := true; has_parent := false;
             constraints := [b2a_constraint (lit "Arm")] |} ] 1;
      sample_armature (lit "Target") [plain_bone (lit "Arm") true false] 2 ]
    []
    {| export_format := FBX; include_mesh := true; export_side := TARGET;
       rename_on_export := true; rot_x := 0%Q; rot_y := 0%Q; rot_z := 0%Q;
       bone_map := [ sample_row (lit "arm.L") [] (lit "Arm");
                     sample_row (lit "arm.R") [] (lit "Arm") ];
       mapping_path := []; active_index := 0%Z;
       source_armature := Some 0; target_armature := Some 1;
       current_armature_side := TARGET; follow_mode := ROT_ONLY;
       live_follow_a2b := false; live_follow_b2a := true |}.

(** An armature with an action and a bound mesh, set up for export with
    a temporary rename Hips->Pelvis and a rotation about X. *)
Definition export_scene (fmt : Format) : Scene :=
  sample_scene
    [ {| obj_name := lit "Rig"; obj_type := ARMATURE;
         bones := [ plain_bone HIPS true false;
                    plain_bone (lit "Spine") true true ];
         modifiers := []; vertex_groups := []; matrix_world := MAT 1;
         rotation_euler := (0, 0, 0)%Q;
         animation_data := Some {| drivers := []; ad_action := Some 0 |} |};
      {| obj_name := lit "Body"; obj_type := MESH; bones := [];
         modifiers := [ {| mod_is_armature := true; mod_object := Some 0 |} ];
         vertex_groups := [HIPS; lit "Spine"]; matrix_world := MAT 2;
         rotation_euler := (0, 0, 0)%Q; animation_data := None |} ]
    [ {| act_name := lit "Walk";
         fcurves := [bone_token HIPS ++ lit ".location"];
         frame_range := (1, 24)%Q |} ]
    {| export_format := fmt; include_mesh := true; export_side := TARGET;
       rename_on_export := true; rot_x := 90%Q; rot_y := 0%Q; rot_z := 0%Q;
       bone_map := [ sample_row HIPS HIPS PELVIS ];
       mapping_path := []; active_index := 0%Z;
       source_armature := None; target_armature := Some 0;
       current_armature_side := TARGET; follow_mode := ROT_ONLY;
       live_follow_a2b := false; live_follow_b2a := false |}.

(* ================================================================== *)
(** * Definitions for the further properties *)
(* ================================================================== *)

(** What every entry of a parsed mapping satisfies: a non-empty key
    without [=], key and value on one line and without white space at
    their ends, no [#] in front of the key.  The value may be empty. *)
Definition parsed_entry (kv : str * str) : bool :=
  truthy (fst kv)
  && negb (has_char EQUALS (fst kv))
  && one_line (fst kv) && one_line (snd kv)
  && trimmed (fst kv) && trimmed (snd kv)
  && negb (startswith (fst kv) [HASH]).

(** The data path names a bone that is a key of the mapping. *)
Definition mentions (m : dict) (dp : str) : bool :=
  existsb (fun kv => contains dp (bone_token (fst kv))) m.

(** A renaming in two steps. *)
Definition chain_mapping (A B C : str) : dict := [(A, B); (B, C)].

Definition sample_action (name : str) (paths : list str) : Action :=
  {| act_name := name; fcurves := paths; frame_range := (1, 10)%Q |}.

(** The name a bone carries after a renaming: the new name of its pair,
    its own name when no pair names it. *)
Definition renamed (pairs : dict) (n : str) : str :=
  match dict_get pairs n with Some new => new | None => n end.

(** The bones after a renaming: every field but the name as before. *)
Definition renamed_bones (pairs : dict) (bs : list Bone) : list Bone :=
  map (fun b => set_bone_name b (renamed pairs (bone_name b))) bs.

(** The pairs of a renaming stay clear of one another on these bones:
    the new names are pairwise different, no bone carries the sentinel
    form of a new name, no new name is the sentinel form of another, a
    new name that a bone holds belongs to a bone that is renamed too,
    and every new name is not empty and, with the sentinel suffix, a
    name that the host stores as it is. *)
Definition clear_renaming (bs : list Bone) (pairs : dict) : Prop :=
  NoDup (map snd pairs)
  /\ (forall new, In new (map snd pairs) ->
                  ~ In (new ++ temp_suffix) (map bone_name bs))
  /\ (forall new new', In new (map snd pairs) -> In new' (map snd pairs) ->
                       new <> new' ++ temp_suffix)
  /\ (forall new, In new (map snd pairs) -> In new (map bone_name bs) ->
                  In new (map fst pairs))
  /\ (forall new, In new (map snd pairs) ->
                  truthy new = true /\ fits_name (new ++ temp_suffix) = true).

(** A rotation of three names. *)
Definition cycle_mapping : dict :=
  [(lit "Hips", lit "Spine"); (lit "Spine", lit "Head"); (lit "Head", lit "Hips")].

(** The name of a bone while the first loop runs: the pairs in [D] are
    done and their bones carry the sentinel. *)
Definition temp_names (D : dict) (s : str) : str :=
  match dict_get D s with Some new => new ++ temp_suffix | None => s end.

(** The name of a bone while the second loop runs: the pairs in [D] are
    done, those in [R] still carry the sentinel. *)
Definition final_names (D R : dict) (s : str) : str :=
  match dict_get D s with
  | Some new => new
  | None => temp_names R s
  end.

(** The objects keep their types from one list to the other. *)
Definition same_types (objs objs' : list Object) : Prop :=
  map obj_type objs' = map obj_type objs.

(** A renaming that can be taken back with the inverse mapping: every
    pair applies to the armature (the old name is a bone, the new name
    is not empty and differs from the old one), old names are not
    empty, the pairs stay clear of one another, the sentinel form of an
    old name is neither a bone name nor a new name, and it is a name
    that the host stores as it is. *)
Definition revertible_renaming (bs : list Bone) (m : dict) : Prop :=
  rename_pairs bs m = m
  /\ Forall (fun kv => truthy (fst kv) = true) m
  /\ clear_renaming bs m
  /\ (forall old, In old (map fst m) ->
                  ~ In (old ++ temp_suffix) (map bone_name bs ++ map snd m))
  /\ (forall old, In old (map fst m) -> fits_name (old ++ temp_suffix) = true).

(** Two bones get names that no bone holds. *)
Definition fresh_mapping : dict :=
  [(lit "Hips", lit "Pelvis"); (lit "Spine", lit "Chest")].

(** The name of a vertex group after the patch: the value that the
    mapping holds for it when that is not empty and differs, its own
    name otherwise.  One look-up, so a chain is not followed. *)
Definition group_renamed (m : dict) (vg : str) : str :=
  match dict_get m vg with
  | Some new => if truthy new && negb (str_eqb new vg) then new else vg
  | None => vg
  end.

(** The vertex groups of the meshes bound to the armature, renamed. *)
Definition groups_renamed (m : dict) (arm : option nat) (objs : list Object)
  : list Object :=
  map (fun o => match mesh_using_armature arm o with
                | Some _ => set_vertex_groups o (map (group_renamed m) (vertex_groups o))
                | None => o
                end) objs.

(** How many vertex groups of the bound meshes change their name. *)
Definition groups_changed (m : dict) (arm : option nat) (objs : list Object) : nat :=
  list_sum
    (map (fun o => match mesh_using_armature arm o with
                   | Some _ =>
                       List.length
                         (filter (fun vg => negb (str_eqb (group_renamed m vg) vg))
                                 (vertex_groups o))
                   | None => 0
                   end) objs).

(** The writes of the patch on the vertex groups [gs] of a mesh meet no
    name in use: the names of the groups are pairwise different (the
    host keeps them so), and the new name of a group that changes is a
    name that the host stores as it is, is not the name of a group of
    the mesh and is not the new name of another group. *)
Definition clear_groups (m : dict) (gs : list str) : Prop :=
  NoDup gs
  /\ (forall vg, In vg gs -> group_renamed m vg <> vg ->
                 fits_name (group_renamed m vg) = true
                 /\ ~ In (group_renamed m vg) gs)
  /\ (forall vg vg', In vg gs -> In vg' gs ->
                     group_renamed m vg <> vg -> group_renamed m vg' <> vg' ->
                     group_renamed m vg = group_renamed m vg' -> vg = vg').

(** The subtarget of a constraint after the patch. *)
Definition subtarget_renamed (m : dict) (con : Constraint) : Constraint :=
  match con_subtarget con with
  | Some s => match dict_get m s with
              | Some new => set_subtarget con new
              | None => con
              end
  | None => con
  end.

(** The pose bones with the subtargets of their constraints renamed. *)
Definition subtargets_renamed (m : dict) (bs : list Bone) : list Bone :=
  map (fun b => set_constraints b (map (subtarget_renamed m) (constraints b))) bs.

(** No name in use is a value of the mapping. *)
Definition fresh_values (m : dict) (names : list str) : Prop :=
  forall n, In n names -> ~ In n (map snd m).

(** The names of the vertex groups of the meshes bound to the armature. *)
Definition bound_groups (arm : option nat) (objs : list Object) : list str :=
  flat_map (fun o => match mesh_using_armature arm o with
                     | Some _ => vertex_groups o
                     | None => []
                     end) objs.

(** The subtargets of the constraints of the pose bones. *)
Definition subtargets (bs : list Bone) : list str :=
  flat_map (fun b => flat_map (fun con => match con_subtarget con with
                                          | Some s => [s]
                                          | None => []
                                          end) (constraints b)) bs.

Definition sample_mesh (name : str) (arm : nat) (vgs : list str) : Object :=
  {| obj_name := name; obj_type := MESH; bones := [];
     modifiers := [ {| mod_is_armature := true; mod_object := Some arm |} ];
     vertex_groups := vgs; matrix_world := MAT 0; rotation_euler := (0, 0, 0)%Q;
     animation_data := None |}.

(** An armature and a mesh bound to it that has a group named Hips and
    a group named Pelvis. *)
Definition pelvis_taken : list Object :=
  [ sample_armature (lit "Rig") three_bones 1;
    sample_mesh (lit "Body") 0 [HIPS; PELVIS] ].

Definition sample_constraint (name sub : str) : Constraint :=
  {| con_name := name; con_kind := OTHER_KIND; con_target := Some 0;
     con_subtarget := Some sub; con_mix_mode := []; con_target_space := [];
     con_owner_space := []; con_use_xyz := None |}.

(** The second list holds the objects of the first, in place, with at
    most their world matrices changed. *)
Definition differ_in_world (objs X : list Object) : Prop :=
  List.length X = List.length objs
  /\ forall k o, nth_error objs k = Some o ->
                 exists M, nth_error X k = Some (set_matrix_world o M).

(** No constraint of the bones carries the name of the BVH rotation. *)
Definition no_bvh_constraint (bs : list Bone) : Prop :=
  forall pb con, In pb bs -> In con (constraints pb) ->
                 str_eqb (con_name con) BVH_ROT_NAME = false.

(** An object whose pose bones have lost their reserved-prefix
    constraints. *)
Definition unfollow_object (o : Object) : Object :=
  set_bones o (map unfollow (bones o)).

(** The objects once the armature that [r] points at, if it points at
    one, has lost its reserved-prefix constraints. *)
Definition unfollow_arm (r : option nat) (objs : list Object) : list Object :=
  match armature_at objs r with
  | Some (i, o) => list_set objs i (unfollow_object o)
  | None => objs
  end.

(** The number of reserved-prefix constraints on the armature that [r]
    points at. *)
Definition prefixed_at (objs : list Object) (r : option nat) : nat :=
  match armature_at objs r with
  | Some (_, o) => prefixed_count (bones o)
  | None => 0
  end.

(** The pointer [r] points at position [k], where the armature [o] is. *)
Definition points_at (r : option nat) (k : nat) (o : Object) : bool :=
  match r with
  | Some i => Nat.eqb i k && ObjType_eqb (obj_type o) ARMATURE
  | None => false
  end.

(** The object at position [k] once the armature that [r] points at has
    lost its reserved-prefix constraints. *)
Definition strip_if (r : option nat) (k : nat) (o : Object) : Object :=
  if points_at r k o then unfollow_object o else o.

(** What [install_follow] does to the destination armature. *)
Definition install_on (mode : FollowMode) (src_arm : nat) (src_bone dst_bone : str)
           (o : Object) : Object :=
  match bone_index (bones o) dst_bone with
  | Some k =>
      match nth_error (bones o) k with
      | Some pb =>
          set_bones o
            (list_set (bones o) k
               (set_constraints pb
                  (fst (remove_prefixed (constraints pb) 0)
                   ++ [follow_constraint mode src_arm src_bone])))
      | None => o
      end
  | None => o
  end.

(** A follow command that turns its direction on in this scene. *)
Definition turns_on (sc : Scene) (c : FollowCommand) : Prop :=
  match c with
  | ToggleA2B => live_follow_a2b (aj_props sc) = false
  | ToggleB2A => live_follow_b2a (aj_props sc) = false
  | ClearFollow => False
  end.

(** The pointers [s] and [t] point at armatures, at the positions [A]
    and [B]. *)
Definition both_armatures (s t : option nat) (A B : nat) (objs : list Object)
  : Prop :=
  (exists oA, armature_at objs s = Some (A, oA))
  /\ (exists oB, armature_at objs t = Some (B, oB)).

(** ** Filling the table from an armature (lines 129-141, 335-344) *)

(** The row that [_populate_bone_map_from] adds for a bone. *)
Definition bone_row (b : Bone) : BoneMapItem :=
  {| original_name := bone_name b; current_name := bone_name b;
     target_name := bone_name b; cap_src := bone_name b;
     cap_tgt := bone_name b; mark := mark blank_row |}.

(** [_populate_bone_map_from(props, arm)]: the properties afterwards and
    the number returned.  The selection that follows a change of
    [active_index] is outside the model. *)
Definition _populate_bone_map_from (objs : list Object) (props : AJ_Props)
           (arm : option nat) : AJ_Props * nat :=
  let props0 := set_bone_map props [] in
  match armature_at objs arm with
  | None => (props0, 0)
  | Some (_, o) =>
      let rows := fold_left (fun rows b => rows ++ [bone_row b]) (bones o)
                            (bone_map props0) in
      let props1 := set_bone_map props0 rows in
      (set_active_index props1
         (if Nat.eqb (List.length rows) 0 then (-1)%Z else 0%Z),
       List.length rows)
  end.

(** [props.source_armature or props.target_armature] *)
Definition source_or_target (props : AJ_Props) : option nat :=
  match source_armature props with
  | Some a => Some a
  | None => target_armature props
  end.

(** [_on_src_tgt_changed(self, context)] *)
Definition _on_src_tgt_changed (sc : Scene) : Scene :=
  let props := aj_props sc in
  if Nat.ltb 0 (List.length (bone_map props)) then sc
  else
    let arm := source_or_target props in
    match armature_at (objects sc) arm with
    | Some _ => set_props sc (fst (_populate_bone_map_from (objects sc) props arm))
    | None => sc
    end.

(** ** Applying the table to an armature (lines 709-757) *)

Definition Side_eqb (a b : Side) : bool :=
  match a, b with
  | SOURCE, SOURCE | TARGET, TARGET => true
  | _, _ => false
  end.

(** [{old: new for old, new in mapping_raw.items()
      if old != new and _bone_exists(A, old)}] *)
Definition applicable_mapping (bs : list Bone) (rows : list BoneMapItem) : dict :=
  filter (fun on => negb (str_eqb (fst on) (snd on)) && _bone_exists bs (fst on))
         (mapping_raw rows).

(** [for it in p.bone_map: if it.original_name in mapping:
      it.current_name = mapping[it.original_name]] *)
Definition set_current_from (mapping : dict) (rows : list BoneMapItem)
  : list BoneMapItem :=
  map (fun it => match dict_get mapping (original_name it) with
                 | Some new => set_current it new
                 | None => it
                 end) rows.

Definition side_name (side : Side) : str :=
  match side with SOURCE => lit "Source" | TARGET => lit "Target" end.

(** The body that [AJ_OT_apply_to_source.execute] and
    [AJ_OT_apply_to_target.execute] share, the one on the Source and
    the other on the Target armature.  The colouring of the mapped
    bones writes bone groups only. *)
Definition apply_to_side (unique_name : list str -> str -> str) (side : Side)
           (sc : Scene) : option (Scene * Status * list Report) :=
  let p := aj_props sc in
  let arm := match side with
             | SOURCE => source_armature p
             | TARGET => target_armature p
             end in
  match armature_at (objects sc) arm with
  | None => Some (sc, CANCELLED,
                  [(ERROR, lit "Pick a valid " ++ side_name side ++ lit " armature.")])
  | Some (_, A) =>
      let mapping := applicable_mapping (bones A) (bone_map p) in
      match mapping with
      | [] => Some (sc, CANCELLED,
                    [(INFO, lit "No applicable changes on " ++ side_name side
                            ++ lit " (check Original names exist).")])
      | _ :: _ =>
          match _apply_mapping_on_arm unique_name sc arm mapping with
          | None => None
          | Some (sc1, _) =>
              let p1 := aj_props sc1 in
              let rows := if Side_eqb (current_armature_side p1) side
                          then set_current_from mapping (bone_map p1)
                          else bone_map p1 in
              Some (set_props sc1 (set_bone_map p1 rows), FINISHED,
                    [(INFO, lit "[" ++ side_name side ++ lit "] Renamed ")])
          end
      end
  end.

(** [AJ_OT_apply_to_source.execute] *)
Definition apply_to_source_execute (unique_name : list str -> str -> str)
           (sc : Scene) : option (Scene * Status * list Report) :=
  apply_to_side unique_name SOURCE sc.

(** [AJ_OT_apply_to_target.execute] *)
Definition apply_to_target_execute (unique_name : list str -> str -> str)
           (sc : Scene) : option (Scene * Status * list Report) :=
  apply_to_side unique_name TARGET sc.

(** ** The Current column (lines 454-585) *)

Definition EM_DASH : char := 8212%N.

(** [AJ_OT_refresh_current.execute]; its loop is that of
    [_prefill_current_from_arm] without the test for a blank Current. *)
Definition refresh_current_execute (sc : Scene) : Scene * Status * list Report :=
  let p := aj_props sc in
  match armature_at (objects sc) (current_armature p) with
  | None => (sc, CANCELLED,
             [(INFO, lit "No rig set " ++ [EM_DASH] ++ lit " Current stays as-is.")])
  | Some (_, arm) =>
      let (rows, count) := prefill_rows (bones arm) false (bone_map p) 0 in
      (set_props sc (set_bone_map p rows), FINISHED,
       [(INFO, lit "Updated Current for ")])
  end.

(** [AJ_OT_revert_row.execute] with [self.index = index]; [None] stands
    for an exception that leaves [execute]. *)
Definition revert_row_execute (unique_name : list str -> str -> str)
           (index : Z) (sc : Scene) : option (Scene * Status * list Report) :=
  let p := aj_props sc in
  let idx := index in
  if (idx <? 0)%Z || (Z.of_nat (List.length (bone_map p)) <=? idx)%Z
  then Some (sc, CANCELLED, [(ERROR, lit "Invalid row index.")])
  else
    match nth_error (bone_map p) (Z.to_nat idx) with
    | None => None
    | Some it =>
        let arm := current_armature p in
        let cur := or_else (current_name it) [] in
        let ori := or_else (original_name it) [] in
        let sc1 := set_props sc
                     (set_bone_map p (list_set (bone_map p) (Z.to_nat idx)
                                               (set_current it ori))) in
        let ui_only :=
          Some (sc1, FINISHED,
                [(INFO, lit "Reverted UI Current " ++ [ARROW] ++ lit " Original.")]) in
        match armature_at (objects sc1) arm with
        | Some (_, o) =>
            if truthy cur && truthy ori && negb (str_eqb cur ori)
               && _bone_exists (bones o) cur
            then
              match rename_and_patch unique_name sc1 arm [(cur, ori)] with
              | None => None
              | Some (sc2, _) => Some (sc2, FINISHED, [(INFO, lit "Reverted '")])
              end
            else ui_only
        | None => ui_only
        end
    end.

(** The first loop of [AJ_OT_revert_marked.execute]: the mapping from
    the Current to the original name of the marked rows; [bs] holds the
    bones of [arm] when it is an armature. *)
Definition marked_mapping (bs : option (list Bone)) (rows : list BoneMapItem)
  : dict :=
  fold_left
    (fun mapping it =>
       if negb (mark it) then mapping
       else
         let cur := or_else (current_name it) [] in
         let ori := or_else (original_name it) [] in
         match bs with
         | Some bs =>
             if truthy cur && truthy ori && negb (str_eqb cur ori)
                && _bone_exists bs cur
             then dict_set mapping cur ori
             else mapping
         | None => mapping
         end)
    rows [].

(** Its last loop. *)
Definition revert_marked_rows (rows : list BoneMapItem) : list BoneMapItem :=
  map (fun it => if mark it && negb (str_eqb (current_name it) (original_name it))
                 then set_current it (original_name it) else it) rows.

(** [AJ_OT_revert_marked.execute] *)
Definition revert_marked_execute (unique_name : list str -> str -> str)
           (sc : Scene) : option (Scene * Status * list Report) :=
  let p := aj_props sc in
  let arm := current_armature p in
  let mapping :=
    marked_mapping
      (match armature_at (objects sc) arm with
       | Some (_, o) => Some (bones o)
       | None => None
       end) (bone_map p) in
  let patched :=
    match mapping with
    | [] => Some sc
    | _ :: _ =>
        match rename_and_patch unique_name sc arm mapping with
        | None => None
        | Some (sc1, _) => Some sc1
        end
    end in
  match patched with
  | None => None
  | Some sc1 =>
      Some (set_props sc1 (set_bone_map (aj_props sc1)
                                        (revert_marked_rows (bone_map (aj_props sc1)))),
            FINISHED, [(INFO, lit "Revert complete.")])
  end.

(** ** Words for the properties of the table operators *)

(** Two rows agree in everything but Current. *)
Definition same_but_current (it it' : BoneMapItem) : Prop :=
  original_name it' = original_name it /\ target_name it' = target_name it
  /\ cap_src it' = cap_src it /\ cap_tgt it' = cap_tgt it /\ mark it' = mark it.

(** The bone names of an object. *)
Definition bone_names (o : Object) : list str := map bone_name (bones o).

(** A scene with one armature as Target and a table of two rows. *)
Definition table_scene : Scene :=
  sample_scene
    [ sample_armature (lit "Rig") three_bones 1 ]
    []
    {| export_format := FBX; include_mesh := true; export_side := TARGET;
       rename_on_export := true; rot_x := 0%Q; rot_y := 0%Q; rot_z := 0%Q;
       bone_map := [ sample_row (lit "Hips") (lit "Hips") (lit "Pelvis");
                     sample_row (lit "Spine") (lit "Spine") (lit "Chest") ];
       mapping_path := []; active_index := 0%Z;
       source_armature := None; target_armature := Some 0;
       current_armature_side := TARGET; follow_mode := ROT_ONLY;
       live_follow_a2b := false; live_follow_b2a := false |}.

(** ** File names (lines 872-874) *)

Definition UNDERSCORE : char := 95%N.

(** The character class of the first pattern: backslash, slash, star,
    question mark, colon, double quote, the angle brackets and the bar. *)
Definition is_reserved (c : char) : bool :=
  ((c =? 92) || (c =? 47) || (c =? 42) || (c =? 63) || (c =? 58)
   || (c =? 34) || (c =? 60) || (c =? 62) || (c =? 124))%N.

(** [re.sub] of the runs of a class of characters by an underscore: every
    maximal run of characters of the class gives one underscore.
    [in_run] tells that the character before belongs to a run. *)
Fixpoint sub_runs (cls : char -> bool) (in_run : bool) (s : str) : str :=
  match s with
  | [] => []
  | c :: s' =>
      if cls c
      then if in_run then sub_runs cls true s'
           else UNDERSCORE :: sub_runs cls true s'
      else c :: sub_runs cls false s'
  end.

(** [s.lstrip(c)], [s.strip(c)] for one character. *)
Fixpoint lstrip_char (c : char) (s : str) : str :=
  match s with
  | [] => []
  | d :: s' => if N.eqb d c then lstrip_char c s' else s
  end.

Definition strip_char (c : char) (s : str) : str :=
  rev (lstrip_char c (rev (lstrip_char c s))).

(** [_safe_filename(name)]; the white space of the second pattern is
    that of [str.isspace]. *)
Definition _safe_filename (name : str) : str :=
  let name := sub_runs is_reserved false name in
  strip_char UNDERSCORE (sub_runs isspace false name).

(** A name that [_safe_filename] has nothing to do on. *)
Definition plain_filename (s : str) : bool :=
  forallb (fun c => negb (is_reserved c) && negb (isspace c)) s
  && negb (startswith s [UNDERSCORE])
  && negb (startswith (rev s) [UNDERSCORE]).

(** ** Gathering the actions to export (lines 894-905) *)

Definition POSE_BONES : str := lit "pose.bones[".

(** [any('pose.bones[' in (fc.data_path or '') for fc in act.fcurves)] *)
Definition has_pose (act : Action) : bool :=
  existsb (fun data_path => contains (or_else data_path []) POSE_BONES)
          (fcurves act).

(** The loop over [bpy.data.actions], actions by position from [i] on. *)
Fixpoint pose_actions (acts : list Action) (i : nat) : list nat :=
  match acts with
  | [] => []
  | act :: rest =>
      match fcurves act with
      | [] => pose_actions rest (S i)
      | _ :: _ =>
          if has_pose act then i :: pose_actions rest (S i)
          else pose_actions rest (S i)
      end
  end.

(** [ad.action] of an object, as a position in [bpy.data.actions]. *)
Definition action_at (objs : list Object) (arm_obj : nat) : option nat :=
  match nth_error objs arm_obj with
  | Some o =>
      match animation_data o with
      | Some ad => ad_action ad
      | None => None
      end
  | None => None
  end.

(** [_gather_actions_for_armature(arm_obj)] *)
Definition _gather_actions_for_armature (sc : Scene) (arm_obj : nat) : list nat :=
  let acts := pose_actions (actions sc) 0 in
  match action_at (objects sc) arm_obj with
  | Some k => if negb (existsb (Nat.eqb k) acts) then acts ++ [k] else acts
  | None => acts
  end.

(** The position holds an armature. *)
Definition is_armature (objs : list Object) (arm : nat) : Prop :=
  exists o, nth_error objs arm = Some o /\ obj_type o = ARMATURE.

(** The scene of the export sample with the renaming on export off. *)
Definition plain_export_scene (fmt : Format) : Scene :=
  set_props (export_scene fmt)
    {| export_format := fmt; include_mesh := true; export_side := TARGET;
       rename_on_export := false; rot_x := 90%Q; rot_y := 0%Q; rot_z := 0%Q;
       bone_map := [ sample_row HIPS HIPS PELVIS ];
       mapping_path := []; active_index := 0%Z;
       source_armature := None; target_armature := Some 0;
       current_armature_side := TARGET; follow_mode := ROT_ONLY;
       live_follow_a2b := false; live_follow_b2a := false |}.

(** ** Export of all actions (lines 1042-1208) *)

From Stdlib Require Import Qround.

(** [ad.action = act] on the animation data of an object. *)
Definition set_action (objs : list Object) (arm : nat) (act : option nat)
  : list Object :=
  match nth_error objs arm with
  | Some o =>
      match animation_data o with
      | Some ad =>
          list_set objs arm
            (set_animation_data o (Some {| drivers := drivers ad; ad_action := act |}))
      | None => objs
      end
  | None => objs
  end.

(** An action of the list handed to the loop, looked up in
    [bpy.data.actions]; a position that holds no action counts as no
    action. *)
Definition action_ref (sc : Scene) (act : option nat) : option Action :=
  match act with
  | Some k => nth_error (actions sc) k
  | None => None
  end.

(** The body of [for act in acts] in [AJ_OT_export_all_actions.execute].
    The state holds the scene, [exported], the reports and the number
    of exporter calls made; [exporter_ok n] tells whether call [n] of
    the exporter returns.  The report of a failure begins with a
    formatted value. *)
Definition export_one_action (exporter_ok : nat -> bool) (arm : nat)
           (orig_fs orig_fe : Z) (st : Scene * nat * list Report * nat)
           (act : option nat) : Scene * nat * list Report * nat :=
  let '(sc, exported, reports, calls) := st in
  let p := aj_props sc in
  let objs1 := animation_data_create (objects sc) arm in
  let old_action := action_at objs1 arm in
  let sc2 := set_objects sc (set_action objs1 arm act) in
  let sc3 := match action_ref sc2 act with
             | Some a => set_frame_range sc2 (py_int (fst (frame_range a)))
                                         (py_int (snd (frame_range a)))
             | None => set_frame_range sc2 orig_fs orig_fe
             end in
  let is_fbx := match export_format p with FBX => true | BVH => false end in
  let objs_to_rotate :=
    arm :: (if is_fbx && include_mesh p
            then _iter_meshes_using_armature (objects sc3) (Some arm) 0
            else []) in
  let (objs4, originals) :=
    _temporarily_rotate_world (objects sc3) objs_to_rotate
                              (rot_x p) (rot_y p) (rot_z p) in
  let ok := exporter_ok calls in
  let (objs5, raised) :=
    if is_fbx then (objs4, negb ok)
    else
      let (objs_h, empty) :=
        _apply_bvh_rotation_to_roots objs4 arm (rot_x p) (rot_y p) (rot_z p) in
      if ok
      then (_clear_bvh_rotation_helper objs_h empty (Some arm), false)
      else (objs_h, true) in
  let objs6 := _restore_world objs5 originals in
  (set_objects sc3 (set_action objs6 arm old_action),
   (if raised then exported else S exported),
   (if raised then reports ++ [(WARNING, [])] else reports),
   S calls).

(** [min(starts)], [max(ends)] of a non-empty list of numbers. *)
Definition q_min (x : Q) (xs : list Q) : Q :=
  fold_left (fun m y => if Qlt_le_dec y m then y else m) xs x.

Definition q_max (x : Q) (xs : list Q) : Q :=
  fold_left (fun m y => if Qlt_le_dec m y then y else m) xs x.

(** [[a.frame_range for a in acts if a and a.frame_range]] *)
Fixpoint frame_ranges (sc : Scene) (acts : list nat) : list (Q * Q) :=
  match acts with
  | [] => []
  | k :: rest =>
      match nth_error (actions sc) k with
      | Some a => frame_range a :: frame_ranges sc rest
      | None => frame_ranges sc rest
      end
  end.

Section ExportAll.

Variable unique_name : list str -> str -> str.

(** [AJ_OT_export_all_actions.execute]; [None] stands for an exception
    that leaves [execute].  As for the export of the current action,
    the output folder, the file names and the selection for export do
    not reach the fields of the model. *)
Definition export_all_actions_execute (exporter_ok : nat -> bool) (sc : Scene)
  : option (Scene * Status * list Report) :=
  let p := aj_props sc in
  let arm_ref := match export_side p with
                 | TARGET => target_armature p
                 | SOURCE => source_armature p
                 end in
  match armature_at (objects sc) arm_ref with
  | None => Some (sc, CANCELLED, [(ERROR, lit "Pick a valid ")])
  | Some (arm, _) =>
      let gathered := _gather_actions_for_armature sc arm in
      let (acts, reports0) :=
        match gathered with
        | [] => ([None],
                 [(INFO, lit "No actions found; exporting current pose only.")])
        | _ :: _ => (map Some gathered, [])
        end in
      match _apply_temp_mapping_if_needed unique_name sc arm with
      | None => None
      | Some (sc1, inv_map) =>
          let orig_fs := frame_start sc1 in
          let orig_fe := frame_end sc1 in
          let '(sc2, exported, reports, _) :=
            fold_left (export_one_action exporter_ok arm orig_fs orig_fe) acts
                      (sc1, 0, reports0, 0) in
          let sc3 := set_frame_range sc2 orig_fs orig_fe in
          match _revert_temp_mapping unique_name sc3 inv_map arm with
          | None => None
          | Some sc4 => Some (sc4, FINISHED, reports ++ [(INFO, lit "Exported ")])
          end
      end
  end.

(** [AJ_OT_export_fbx_all_actions_onefile.execute]; [exporter_ok] tells
    whether the exporter call returns. *)
Definition export_fbx_all_actions_onefile_execute (exporter_ok : bool) (sc : Scene)
  : option (Scene * Status * list Report) :=
  let p := aj_props sc in
  match export_format p with
  | BVH => Some (sc, CANCELLED,
                 [(ERROR, lit "This button is FBX-only. Switch Format to FBX.")])
  | FBX =>
      let arm_ref := match export_side p with
                     | TARGET => target_armature p
                     | SOURCE => source_armature p
                     end in
      match armature_at (objects sc) arm_ref with
      | None => Some (sc, CANCELLED, [(ERROR, lit "Pick a valid ")])
      | Some (arm, _) =>
          let acts := _gather_actions_for_armature sc arm in
          match _apply_temp_mapping_if_needed unique_name sc arm with
          | None => None
          | Some (sc1, inv_map) =>
              let orig_fs := frame_start sc1 in
              let orig_fe := frame_end sc1 in
              let sc2 :=
                match frame_ranges sc1 acts with
                | [] => sc1
                | r :: rest =>
                    set_frame_range sc1
                      (Qfloor (q_min (fst r) (map fst rest)))
                      (Qceiling (q_max (snd r) (map snd rest)))
                end in
              let objs_to_rotate :=
                arm :: (if include_mesh p
                        then _iter_meshes_using_armature (objects sc2) (Some arm) 0
                        else []) in
              let (objs3, originals) :=
                _temporarily_rotate_world (objects sc2) objs_to_rotate
                                          (rot_x p) (rot_y p) (rot_z p) in
              let sc4 := set_objects (set_frame_range sc2 orig_fs orig_fe)
                                     (_restore_world objs3 originals) in
              match _revert_temp_mapping unique_name sc4 inv_map arm with
              | None => None
              | Some sc5 =>
                  if exporter_ok
                  then Some (sc5, FINISHED, [(INFO, lit "Wrote ")])
                  else Some (sc5, CANCELLED, [(ERROR, lit "FBX export failed: ")])
              end
          end
      end
  end.

End ExportAll.

(** The scene of the export sample with a second action that no
    armature is assigned. *)
Definition two_action_scene : Scene :=
  set_actions (plain_export_scene FBX)
    (actions (plain_export_scene FBX)
     ++ [ {| act_name := lit "Run";
             fcurves := [bone_token (lit "Spine") ++ lit ".rotation_euler"];
             frame_range := (1, 16)%Q |} ]).

(* ================================================================== *)
(** * Properties *)
(* ================================================================== *)

(** ** Strings and dictionaries *)

Lemma str_eqb_eq (s t : str) : str_eqb s t = true <-> s = t.
Proof.
  revert t; induction s as [|c s IH]; intros [|d t]; simpl;
    try (split; [discriminate | discriminate]); try tauto.
  rewrite andb_true_iff, N.eqb_eq, IH. split.
  - intros [-> ->]; reflexivity.
  - intros H; inversion H; auto.
Qed.

Lemma str_eqb_refl (s : str) : str_eqb s s = true.
Proof. apply str_eqb_eq; reflexivity. Qed.

Lemma str_eqb_neq (s t : str) : str_eqb s t = false <-> s <> t.
Proof.
  destruct (str_eqb s t) eqn:E.
  - apply str_eqb_eq in E. split; [discriminate | contradiction].
  - split; [|reflexivity]. intros _ H. apply str_eqb_eq in H. congruence.
Qed.

Lemma lstrip_head_clear (s : str) : head_clear s = true -> lstrip s = s.
Proof.
  destruct s as [|c s]; simpl; [reflexivity|].
  destruct (isspace c); [discriminate | reflexivity].
Qed.

Lemma strip_trimmed (s : str) : trimmed s = true -> strip s = s.
Proof.
  unfold trimmed, strip, rstrip. rewrite andb_true_iff. intros [H1 H2].
  rewrite (lstrip_head_clear _ H1), (lstrip_head_clear _ H2).
  apply rev_involutive.
Qed.

Lemma trimmed_line (k v : str) :
  truthy k = true -> trimmed k = true -> trimmed v = true ->
  trimmed (k ++ [EQUALS] ++ v) = true.
Proof.
  unfold trimmed. rewrite !andb_true_iff. intros Hk [Hk1 _] [_ Hv2].
  split.
  - destruct k; [discriminate | exact Hk1].
  - rewrite !rev_app_distr. simpl.
    destruct (rev v) as [|c r]; [reflexivity | exact Hv2].
Qed.

Lemma splitlines_line (l rest : str) :
  one_line l = true ->
  splitlines (l ++ NEWLINE :: rest) = l :: splitlines rest.
Proof.
  induction l as [|c l IH]; simpl; intros H.
  - reflexivity.
  - apply andb_true_iff in H. destruct H as [Hc Hl].
    apply negb_true_iff in Hc. rewrite Hc, (IH Hl). reflexivity.
Qed.

Lemma splitlines_one (l : str) :
  one_line l = true -> l <> [] -> splitlines l = [l].
Proof.
  induction l as [|c l IH]; simpl; intros H Hne; [congruence|].
  apply andb_true_iff in H. destruct H as [Hc Hl].
  apply negb_true_iff in Hc. rewrite Hc.
  destruct l as [|d l]; [reflexivity|].
  rewrite IH; [reflexivity | exact Hl | discriminate].
Qed.

Lemma splitlines_join (ls : list str) :
  Forall (fun l => one_line l = true /\ l <> []) ls ->
  splitlines (join [NEWLINE] ls) = ls.
Proof.
  induction ls as [|l ls IH]; intros H; [reflexivity|].
  inversion H as [|? ? [Hl Hne] Hls]; subst.
  destruct ls as [|l2 ls].
  - simpl. apply splitlines_one; assumption.
  - change (join [NEWLINE] (l :: l2 :: ls))
      with (l ++ NEWLINE :: join [NEWLINE] (l2 :: ls)).
    rewrite splitlines_line by assumption. rewrite IH by assumption.
    reflexivity.
Qed.

Lemma one_line_app (s t : str) :
  one_line (s ++ t) = one_line s && one_line t.
Proof. unfold one_line. apply forallb_app. Qed.

Lemma split1_first (k v : str) :
  has_char EQUALS k = false -> split1 EQUALS (k ++ EQUALS :: v) = (k, v).
Proof.
  induction k as [|c k IH]; cbn -[N.eqb EQUALS]; intros H.
  - rewrite N.eqb_refl. reflexivity.
  - apply orb_false_iff in H. destruct H as [Hc Hk].
    rewrite N.eqb_sym, Hc, (IH Hk). reflexivity.
Qed.

Lemma contains_middle (k v : str) (c : char) :
  contains (k ++ c :: v) [c] = true.
Proof.
  induction k as [|d k IH]; cbn -[N.eqb].
  - rewrite N.eqb_refl. destruct v; reflexivity.
  - rewrite IH. apply orb_true_r.
Qed.

Lemma dict_set_fresh (V : Type) (m : pydict V) (k : str) (v : V) :
  ~ In k (map fst m) -> dict_set m k v = m ++ [(k, v)].
Proof.
  induction m as [|[k' v'] m IH]; simpl; intros H; [reflexivity|].
  destruct (str_eqb k' k) eqn:E.
  - apply str_eqb_eq in E. tauto.
  - rewrite IH by tauto. reflexivity.
Qed.

Lemma fold_dict_set (m acc : dict) :
  NoDup (map fst (acc ++ m)) ->
  fold_left (fun d kv => dict_set d (fst kv) (snd kv)) m acc = acc ++ m.
Proof.
  revert acc; induction m as [|[k v] m IH]; intros acc H; simpl.
  - symmetry; apply app_nil_r.
  - rewrite dict_set_fresh.
    + rewrite IH; rewrite <- app_assoc; [reflexivity | exact H].
    + rewrite map_app in H. apply NoDup_remove_2 in H.
      intros Hin. apply H. apply in_or_app. left. exact Hin.
Qed.

(** ** Round trip of the mapping text *)

Lemma mapping_lines_eq (m : dict) :
  mapping_lines m = header_lines ++ map (fun kv => fst kv ++ [EQUALS] ++ snd kv) m.
Proof.
  unfold mapping_lines. generalize header_lines.
  induction m as [|kv m IH]; intros acc; simpl.
  - symmetry; apply app_nil_r.
  - rewrite IH, <- app_assoc. reflexivity.
Qed.

Lemma parse_line_entry (d : dict) (kv : str * str) :
  clean_entry kv = true ->
  parse_line d (fst kv ++ [EQUALS] ++ snd kv) = dict_set d (fst kv) (snd kv).
Proof.
  destruct kv as [k v]. unfold clean_entry; simpl fst; simpl snd.
  rewrite !andb_true_iff, !negb_true_iff.
  intros [[[[[[[Hk Hv] He] Hk1] Hv1] Hkt] Hvt] Hh].
  unfold parse_line.
  rewrite (strip_trimmed _ (trimmed_line _ _ Hk Hkt Hvt)).
  assert (Hs : startswith (k ++ [EQUALS] ++ v) [HASH] = false).
  { destruct k as [|c k]; [discriminate | exact Hh]. }
  assert (Ht : truthy (k ++ [EQUALS] ++ v) = true).
  { destruct k; [discriminate | reflexivity]. }
  rewrite Ht, Hs. simpl negb. simpl orb. cbv iota.
  change (k ++ [EQUALS] ++ v) with (k ++ EQUALS :: v).
  rewrite contains_middle, (split1_first _ _ He).
  rewrite (strip_trimmed _ Hkt), (strip_trimmed _ Hvt), Hk. reflexivity.
Qed.

Lemma one_line_entry (kv : str * str) :
  clean_entry kv = true ->
  one_line (fst kv ++ [EQUALS] ++ snd kv) = true /\ fst kv ++ [EQUALS] ++ snd kv <> [].
Proof.
  destruct kv as [k v]. unfold clean_entry; simpl fst; simpl snd.
  rewrite !andb_true_iff.
  intros [[[[[[[Hk Hv] He] Hk1] Hv1] Hkt] Hvt] Hh]. split.
  - rewrite !one_line_app, Hk1, Hv1. reflexivity.
  - destruct k; discriminate.
Qed.

Lemma parse_entries (m : dict) (acc : dict) :
  Forall (fun kv => clean_entry kv = true) m ->
  fold_left parse_line (map (fun kv => fst kv ++ [EQUALS] ++ snd kv) m) acc
  = fold_left (fun d kv => dict_set d (fst kv) (snd kv)) m acc.
Proof.
  revert acc; induction m as [|kv m IH]; intros acc H; simpl; [reflexivity|].
  inversion H; subst. rewrite parse_line_entry by assumption. apply IH; assumption.
Qed.

(** C2, amended.  For every mapping whose keys are pairwise different and
    whose entries are clean -- non-empty key and value, no [=] in the key,
    no line boundary in key or value, no white space at the ends of key
    or value, no [#] in front of the key -- parsing the serialised text
    gives the mapping back, entry by entry and in the same order. *)
Theorem roundtrip_clean (m : dict) :
  unique_keys m ->
  Forall (fun kv => clean_entry kv = true) m ->
  parse_mapping_txt (mapping_to_txt m) = m.
Proof.
  intros Hu Hc. unfold parse_mapping_txt, mapping_to_txt.
  rewrite splitlines_join.
  - rewrite mapping_lines_eq, fold_left_app.
    change (fold_left parse_line header_lines []) with (@nil (str * str)).
    rewrite parse_entries by assumption. apply (fold_dict_set m []). exact Hu.
  - rewrite mapping_lines_eq. apply Forall_app. split.
    + repeat constructor; discriminate.
    + apply Forall_map. apply Forall_impl with (2 := Hc).
      intros kv. apply one_line_entry.
Qed.

(** C2 as stated fails: each of these mappings has non-empty keys and
    values and no [=] or newline in a key, and does not come back.  The
    key [#a] is read as a comment, the blank in front of [ a] is
    stripped, and the value [b], newline, [c] is cut at the newline. *)
Lemma roundtrip_plain_fails :
  (forallb plain_entry comment_key_mapping = true
   /\ parse_mapping_txt (mapping_to_txt comment_key_mapping) = []
   /\ parse_mapping_txt (mapping_to_txt comment_key_mapping) <> comment_key_mapping)
  /\ (forallb plain_entry padded_key_mapping = true
      /\ parse_mapping_txt (mapping_to_txt padded_key_mapping) = [(lit "a", lit "b")]
      /\ parse_mapping_txt (mapping_to_txt padded_key_mapping) <> padded_key_mapping)
  /\ (forallb plain_entry two_line_value_mapping = true
      /\ parse_mapping_txt (mapping_to_txt two_line_value_mapping)
         = [(lit "a", lit "b")]
      /\ parse_mapping_txt (mapping_to_txt two_line_value_mapping)
         <> two_line_value_mapping).
Proof.
  repeat split; try (vm_compute; reflexivity); vm_compute; discriminate.
Qed.

(** ** Replacement of a token in a data path *)

Lemma startswith_nil (s : str) : startswith s [] = true.
Proof. destruct s; reflexivity. Qed.

Lemma startswith_split (s p : str) :
  startswith s p = true -> s = p ++ skipn (List.length p) s.
Proof.
  revert s; induction p as [|c p IH]; intros s H; [reflexivity|].
  destruct s as [|d s]; [discriminate|].
  cbn -[N.eqb] in H. apply andb_true_iff in H. destruct H as [Hc Hp].
  apply N.eqb_eq in Hc. subst d. simpl. f_equal. apply IH. exact Hp.
Qed.

Lemma startswith_app (p t : str) : startswith (p ++ t) p = true.
Proof.
  induction p as [|c p IH]; [apply startswith_nil|].
  cbn -[N.eqb]. rewrite N.eqb_refl. exact IH.
Qed.

Lemma startswith_longer (s t p : str) :
  List.length p <= List.length s -> startswith (s ++ t) p = startswith s p.
Proof.
  revert s; induction p as [|c p IH]; intros s H.
  - rewrite !startswith_nil. reflexivity.
  - destruct s as [|d s]; [simpl in H; lia|].
    cbn -[N.eqb]. rewrite IH; [reflexivity | simpl in H; lia].
Qed.

Lemma replace_from_skip (old new s : str) (k : nat) :
  replace_from k old new s = replace_from 0 old new (skipn k s).
Proof.
  revert k; induction s as [|c s IH]; intros k.
  - destruct k; reflexivity.
  - destruct k as [|k]; [reflexivity|]. simpl. apply IH.
Qed.

Lemma replace_from_match (old new s : str) :
  old <> [] -> startswith s old = true ->
  replace_from 0 old new s
  = new ++ replace_from 0 old new (skipn (List.length old) s).
Proof.
  intros Hne H. destruct s as [|c s].
  - destruct old; [congruence | discriminate].
  - cbn [replace_from]. rewrite H. rewrite replace_from_skip.
    destruct old as [|o old]; [congruence|]. simpl. rewrite Nat.sub_0_r.
    reflexivity.
Qed.

Lemma replace_from_miss (old new s : str) (c : char) :
  startswith (c :: s) old = false ->
  replace_from 0 old new (c :: s) = c :: replace_from 0 old new s.
Proof. intros H. cbn [replace_from]. rewrite H. reflexivity. Qed.

Lemma replace_from_absent (old new s : str) :
  contains s old = false -> replace_from 0 old new s = s.
Proof.
  induction s as [|c s IH]; intros H; [reflexivity|].
  cbn [contains] in H. apply orb_false_iff in H. destruct H as [H1 H2].
  rewrite replace_from_miss by exact H1. rewrite IH by exact H2. reflexivity.
Qed.

Lemma skipn_app_exact (A : Type) (p t : list A) : skipn (List.length p) (p ++ t) = t.
Proof. induction p; simpl; auto. Qed.

(** The first occurrence of [old] in [pre ++ old ++ post] is the one
    shown when [old] does not occur in [pre] followed by all but the last
    character of [old]. *)
Lemma replace_from_first (old new pre post : str) :
  old <> [] ->
  contains (pre ++ removelast old) old = false ->
  replace_from 0 old new (pre ++ old ++ post)
  = pre ++ new ++ replace_from 0 old new post.
Proof.
  intros Hne. induction pre as [|c pre IH]; intros H.
  - simpl app at 1. rewrite replace_from_match.
    + rewrite skipn_app_exact. reflexivity.
    + exact Hne.
    + apply startswith_app.
  - simpl app in H. cbn [contains] in H.
    apply orb_false_iff in H. destruct H as [H1 H2].
    simpl app. rewrite replace_from_miss.
    + rewrite IH by exact H2. reflexivity.
    + assert (Hsplit : old = removelast old ++ [last old 0%N])
        by (apply app_removelast_last; exact Hne).
      assert (Heq : c :: pre ++ old ++ post
                    = (c :: pre ++ removelast old) ++ ([last old 0%N] ++ post)).
      { rewrite Hsplit at 1. simpl. rewrite <- !app_assoc. reflexivity. }
      assert (Hl : List.length old = List.length (removelast old) + 1).
      { rewrite Hsplit at 1. rewrite length_app. reflexivity. }
      rewrite Heq, startswith_longer; [exact H1|].
      simpl. rewrite length_app. lia.
Qed.

Lemma replace_from_same (old s : str) :
  old <> [] -> replace_from 0 old old s = s.
Proof.
  intros Hne.
  assert (H : forall n s, List.length s <= n -> replace_from 0 old old s = s).
  { induction n as [|n IH]; intros t Hl.
    - destruct t; [reflexivity | simpl in Hl; lia].
    - destruct t as [|c t]; [reflexivity|].
      destruct (startswith (c :: t) old) eqn:E.
      + rewrite replace_from_match by assumption.
        rewrite IH.
        * symmetry. apply startswith_split. exact E.
        * rewrite length_skipn. destruct old; [congruence|].
          simpl in *. lia.
      + rewrite replace_from_miss by exact E.
        rewrite IH; [reflexivity | simpl in Hl; lia]. }
  apply (H (List.length s)). lia.
Qed.

Lemma bone_token_nonempty (name : str) : bone_token name <> [].
Proof. discriminate. Qed.

Lemma replace_token (dp old new : str) :
  replace dp (bone_token old) new = replace_from 0 (bone_token old) new dp.
Proof. reflexivity. Qed.

Lemma app_inv_tail_str (a b t : str) : a ++ t = b ++ t -> a = b.
Proof. apply app_inv_tail. Qed.

Lemma bone_token_inj (a b : str) : bone_token a = bone_token b -> a = b.
Proof.
  unfold bone_token. intros H.
  apply app_inv_head in H. apply app_inv_head in H.
  rewrite !app_assoc in H. apply app_inv_tail in H. apply app_inv_tail in H.
  exact H.
Qed.

(** ** Data paths under a mapping *)

Lemma contains_shown (tok pre post : str) :
  contains (pre ++ tok ++ post) tok = true.
Proof.
  induction pre as [|c pre IH].
  - simpl app. destruct (tok ++ post) eqn:E; cbn [contains];
      rewrite <- E, startswith_app; reflexivity.
  - simpl app. cbn [contains]. rewrite IH. apply orb_true_r.
Qed.

Lemma truthy_shown (tok pre post : str) :
  tok <> [] -> truthy (pre ++ tok ++ post) = true.
Proof.
  intros H. destruct pre; [|reflexivity].
  destruct tok; [congruence | reflexivity].
Qed.

Lemma replace_lone (tok new pre post : str) :
  tok <> [] -> lone_token tok pre post = true ->
  replace_from 0 tok new (pre ++ tok ++ post) = pre ++ new ++ post.
Proof.
  unfold lone_token. rewrite andb_true_iff, !negb_true_iff. intros Hne [H1 H2].
  rewrite replace_from_first by assumption.
  rewrite replace_from_absent by assumption. reflexivity.
Qed.

Lemma replace_bone_lone (old new pre post : str) :
  lone_token (bone_token old) pre post = true ->
  _replace_bone_in_datapath (pre ++ bone_token old ++ post) old new
  = Some (pre ++ bone_token new ++ post).
Proof.
  intros H. unfold _replace_bone_in_datapath.
  rewrite truthy_shown by apply bone_token_nonempty.
  rewrite contains_shown. cbn [andb].
  rewrite replace_token, replace_lone; auto using bone_token_nonempty.
Qed.

Lemma replace_bone_absent (dp old new : str) :
  contains dp (bone_token old) = false ->
  _replace_bone_in_datapath dp old new = None.
Proof.
  intros H. unfold _replace_bone_in_datapath. rewrite H, andb_false_r.
  reflexivity.
Qed.

Lemma replace_bone_same (dp old : str) :
  _replace_bone_in_datapath dp old old = None
  \/ _replace_bone_in_datapath dp old old = Some dp.
Proof.
  unfold _replace_bone_in_datapath.
  destruct (truthy dp && contains dp (bone_token old)); [right | left; reflexivity].
  rewrite replace_token, replace_from_same; auto using bone_token_nonempty.
Qed.

Lemma patch_path_cons (old new : str) (rest : dict) (dp : str) (r : bool) :
  patch_path ((old, new) :: rest) dp r
  = match _replace_bone_in_datapath dp old new with
    | Some res =>
        if truthy res && negb (str_eqb res dp)
        then patch_path rest res true
        else patch_path rest dp r
    | None => patch_path rest dp r
    end.
Proof. reflexivity. Qed.

Lemma patch_path_identity (m : dict) (dp : str) (r : bool) :
  identity_mapping m -> patch_path m dp r = (dp, r).
Proof.
  unfold identity_mapping. induction m as [|[old new] m IH]; intros H; [reflexivity|].
  inversion H as [|? ? Hkv Hm]; subst. simpl in Hkv. subst new.
  rewrite patch_path_cons.
  destruct (replace_bone_same dp old) as [-> | ->].
  - apply IH; assumption.
  - rewrite str_eqb_refl, andb_false_r. apply IH; assumption.
Qed.

Lemma patch_paths_fixed (one : str -> str * bool) (dps : list str) (n : nat) :
  (forall dp, one dp = (dp, false)) -> patch_paths one dps n = (dps, n).
Proof.
  intros H. revert n; induction dps as [|dp dps IH]; intros n; [reflexivity|].
  cbn [patch_paths]. rewrite H, IH. reflexivity.
Qed.

Lemma patch_fcurve_identity (m : dict) (dp : str) :
  identity_mapping m -> patch_fcurve m dp = (dp, false).
Proof.
  intros H. unfold patch_fcurve. destruct (truthy dp); [|reflexivity].
  cbn [negb]. rewrite patch_path_identity by assumption. reflexivity.
Qed.

Lemma patch_driver_identity (m : dict) (dp : str) :
  identity_mapping m -> patch_driver m dp = (dp, false).
Proof.
  intros H. unfold patch_driver.
  rewrite patch_path_identity by assumption. reflexivity.
Qed.

Lemma shown_differ (a b pre post : str) :
  a <> b -> str_eqb (pre ++ bone_token a ++ post) (pre ++ bone_token b ++ post) = false.
Proof.
  intros H. apply str_eqb_neq. intros E.
  apply app_inv_head in E. apply app_inv_tail in E.
  apply bone_token_inj in E. contradiction.
Qed.



(** ** Names that the host stores as they are *)

Lemma cut_name_fits (s : str) (room : nat) :
  forallb plain_char s = true -> utf8_bytes s <= room -> cut_name room s = s.
Proof.
  revert room; induction s as [|c s IH]; intros room Hp Hb; [reflexivity|].
  cbn [forallb] in Hp. apply andb_true_iff in Hp. destruct Hp as [Hc Hs].
  unfold utf8_bytes in Hb. cbn [map list_sum fold_right] in Hb.
  fold (list_sum (map utf8_len s)) in Hb. fold (utf8_bytes s) in Hb.
  cbn [cut_name].
  assert (H0 : (c =? 0)%N = false).
  { unfold plain_char in Hc. rewrite !andb_true_iff in Hc.
    destruct Hc as [[Hc _] _]. apply N.ltb_lt in Hc. apply N.eqb_neq. lia. }
  rewrite H0.
  replace (utf8_len c <=? room) with true by (symmetry; apply Nat.leb_le; lia).
  rewrite IH; [reflexivity | exact Hs | lia].
Qed.

Lemma host_name_fits (s : str) : fits_field s = true -> host_name s = s.
Proof.
  unfold fits_field. intros H. apply andb_true_iff in H. destruct H as [Hp Hb].
  apply cut_name_fits; [exact Hp | apply Nat.leb_le; exact Hb].
Qed.

Lemma fits_name_field (s : str) : fits_name s = true -> fits_field s = true.
Proof. unfold fits_name. intros H. apply andb_true_iff in H. apply H. Qed.

Lemma fits_name_truthy (s : str) : fits_name s = true -> truthy s = true.
Proof. unfold fits_name. intros H. apply andb_true_iff in H. apply H. Qed.

Lemma host_name_name (s : str) : fits_name s = true -> host_name s = s.
Proof. intros H. apply host_name_fits, fits_name_field, H. Qed.

Lemma fits_field_app (a b : str) :
  fits_field (a ++ b) = true -> fits_field a = true.
Proof.
  unfold fits_field. rewrite forallb_app. intros H.
  rewrite !andb_true_iff in H. destruct H as [[Ha _] Hb].
  rewrite Ha. cbn [andb]. apply Nat.leb_le. apply Nat.leb_le in Hb.
  unfold utf8_bytes in *. rewrite map_app, list_sum_app in Hb. lia.
Qed.

Lemma fits_name_app (a b : str) :
  truthy a = true -> fits_name (a ++ b) = true -> fits_name a = true.
Proof.
  intros Ha H. unfold fits_name. rewrite Ha. cbn [andb].
  apply fits_field_app with (b := b). apply fits_name_field. exact H.
Qed.

Lemma fits_name_sentinel (a : str) :
  fits_field (a ++ temp_suffix) = true -> fits_name (a ++ temp_suffix) = true.
Proof.
  intros H. unfold fits_name. rewrite H, andb_true_r.
  destruct a; reflexivity.
Qed.

(** ** The mapping {Hips->Pelvis} on curves and vertex groups *)

Lemma contains_short (s p : str) :
  List.length s < List.length p -> contains s p = false.
Proof.
  induction s as [|c s IH]; intros H.
  - destruct p; [simpl in H; lia | reflexivity].
  - cbn [contains]. rewrite IH by (simpl in H; lia).
    rewrite orb_false_r.
    destruct (startswith (c :: s) p) eqn:E; [|reflexivity].
    apply startswith_split in E.
    apply (f_equal (@List.length char)) in E.
    rewrite length_app in E. lia.
Qed.

Lemma first_occurrence (s old : str) :
  old <> [] -> contains s old = true ->
  exists pre rest, s = pre ++ old ++ rest
                   /\ contains (pre ++ removelast old) old = false.
Proof.
  intros Hne.
  assert (Hsplit : old = removelast old ++ [last old 0%N])
    by (apply app_removelast_last; exact Hne).
  assert (Hl : List.length old = List.length (removelast old) + 1).
  { rewrite Hsplit at 1. rewrite length_app. reflexivity. }
  induction s as [|c s IH]; intros H.
  - destruct old; [congruence | discriminate].
  - destruct (startswith (c :: s) old) eqn:E.
    + exists [], (skipn (List.length old) (c :: s)). split.
      * apply startswith_split. exact E.
      * apply contains_short. simpl. lia.
    + cbn [contains] in H. rewrite E in H. simpl in H.
      destruct (IH H) as (pre & rest & Hs & Hc).
      exists (c :: pre), rest. split.
      * rewrite Hs. reflexivity.
      * simpl app. cbn [contains]. rewrite Hc, orb_false_r.
        rewrite <- E, Hs.
        assert (Heq : c :: pre ++ old ++ rest
                      = (c :: pre ++ removelast old) ++ ([last old 0%N] ++ rest)).
        { rewrite Hsplit at 1. simpl. rewrite <- !app_assoc. reflexivity. }
        rewrite Heq. symmetry. apply startswith_longer.
        simpl. rewrite length_app. lia.
Qed.

Lemma hips_token_rewritten (dp : str) :
  contains dp (bone_token HIPS) = true ->
  let res := replace dp (bone_token HIPS) (bone_token PELVIS) in
  truthy res = true /\ str_eqb res dp = false.
Proof.
  intros H res.
  destruct (@first_occurrence dp _ (@bone_token_nonempty HIPS) H)
    as (pre & rest & Hs & Hc).
  assert (Hres : res = pre ++ bone_token PELVIS
                       ++ replace_from 0 (bone_token HIPS) (bone_token PELVIS) rest).
  { unfold res. rewrite replace_token, Hs.
    apply replace_from_first; [apply bone_token_nonempty | exact Hc]. }
  split.
  - rewrite Hres. apply truthy_shown. apply bone_token_nonempty.
  - apply str_eqb_neq. rewrite Hres, Hs. intros E.
    apply app_inv_head in E. discriminate E.
Qed.

Lemma patch_fcurve_hips (dp : str) :
  patch_fcurve hips_to_pelvis dp = (hips_path dp, contains dp (bone_token HIPS)).
Proof.
  unfold patch_fcurve, hips_path.
  destruct (truthy dp) eqn:Et; cbn [negb].
  - unfold hips_to_pelvis. rewrite patch_path_cons.
    unfold _replace_bone_in_datapath. rewrite Et. cbn [andb].
    destruct (contains dp (bone_token HIPS)) eqn:Ec.
    + destruct (@hips_token_rewritten dp Ec) as [H1 H2].
      rewrite H1, H2. reflexivity.
    + reflexivity.
  - destruct dp; [reflexivity | discriminate].
Qed.

Lemma patch_paths_fst (one : str -> str * bool) (dps : list str) (n : nat) :
  fst (patch_paths one dps n) = map (fun dp => fst (one dp)) dps.
Proof.
  revert n; induction dps as [|dp dps IH]; intros n; [reflexivity|].
  cbn [patch_paths map]. destruct (one dp) as [dp' c]. cbn [fst].
  specialize (IH (if c then S n else n)).
  destruct (patch_paths one dps (if c then S n else n)). simpl in *.
  congruence.
Qed.

Lemma patch_actions_fst (m : dict) (acts : list Action) (n : nat) :
  fst (patch_actions m acts n)
  = map (fun act => set_fcurves act
                      (map (fun dp => fst (patch_fcurve m dp)) (fcurves act))) acts.
Proof.
  revert n; induction acts as [|act acts IH]; intros n; [reflexivity|].
  cbn [patch_actions map].
  pose proof (patch_paths_fst (patch_fcurve m) (fcurves act) n) as Hp.
  destruct (patch_paths (patch_fcurve m) (fcurves act) n) as [fs k].
  specialize (IH k). destruct (patch_actions m acts k). simpl in *.
  congruence.
Qed.

Lemma existsb_str_In (n : str) (l : list str) :
  existsb (str_eqb n) l = true <-> In n l.
Proof.
  rewrite existsb_exists. split.
  - intros (x & Hx & E). apply str_eqb_eq in E. subst. exact Hx.
  - intros H. exists n. split; [exact H | apply str_eqb_refl].
Qed.

Lemma write_group_free (uniq : list str -> str -> str) (others : list str)
      (new : str) :
  fits_name new = true -> ~ In new others ->
  write_group_name uniq others new = new.
Proof.
  intros Hf Hn. unfold write_group_name. cbv zeta.
  rewrite (host_name_name _ Hf), (fits_name_truthy _ Hf).
  destruct (existsb (str_eqb new) others) eqn:E; [|reflexivity].
  apply existsb_str_In in E. contradiction.
Qed.

Lemma group_renamed_step (m : dict) (vg : str) :
  (exists new, dict_get m vg = Some new
               /\ truthy new && negb (str_eqb new vg) = true
               /\ group_renamed m vg = new /\ new <> vg)
  \/ (match dict_get m vg with
      | Some new => truthy new && negb (str_eqb new vg) = false
      | None => True
      end /\ group_renamed m vg = vg).
Proof.
  unfold group_renamed. destruct (dict_get m vg) as [new|]; [|right; split; reflexivity].
  destruct (truthy new && negb (str_eqb new vg)) eqn:E.
  - left. exists new. split; [reflexivity|].
    split; [first [exact E | reflexivity]|].
    split; [reflexivity|].
    apply andb_true_iff in E. destruct E as [_ E].
    apply negb_true_iff in E. apply str_eqb_neq. exact E.
  - right. split; reflexivity.
Qed.

(** The loop over the groups of one mesh when no write meets a name in
    use: every group takes the value that the mapping holds for it. *)
Lemma patch_groups_free (uniq : list str -> str -> str) (m : dict)
      (vgs : list str) :
  forall done n,
    (forall pre vg post, vgs = pre ++ vg :: post ->
        group_renamed m vg <> vg ->
        fits_name (group_renamed m vg) = true
        /\ ~ In (group_renamed m vg)
                (done ++ map (group_renamed m) pre ++ post)) ->
    patch_groups uniq m done vgs n
    = (done ++ map (group_renamed m) vgs,
       n + List.length (filter (fun vg => negb (str_eqb (group_renamed m vg) vg)) vgs)).
Proof.
  induction vgs as [|vg vgs IH]; intros done n W.
  - cbn. rewrite app_nil_r, Nat.add_0_r. reflexivity.
  - assert (W' : forall x, forall pre v post, vgs = pre ++ v :: post ->
                   x = group_renamed m vg ->
                   group_renamed m v <> v ->
                   fits_name (group_renamed m v) = true
                   /\ ~ In (group_renamed m v)
                           ((done ++ [x]) ++ map (group_renamed m) pre ++ post)).
    { intros x pre v post E -> Hv.
      destruct (W (vg :: pre) v post) as [Hf Hn];
        [rewrite E; reflexivity | exact Hv |].
      split; [exact Hf|]. intros Hin. apply Hn.
      rewrite <- app_assoc in Hin. exact Hin. }
    cbn [patch_groups map filter].
    destruct (group_renamed_step m vg) as [(new & G & T & R & Hne) | (G & R)].
    + rewrite G, T.
      destruct (W [] vg vgs eq_refl) as [Hf Hn]; [rewrite R; exact Hne|].
      rewrite R in Hf, Hn. cbn [map app] in Hn.
      rewrite (@write_group_free uniq _ new Hf Hn).
      rewrite (IH (done ++ [new]) (S n)).
      * rewrite R. rewrite <- app_assoc. cbn [app].
        replace (str_eqb new vg) with false
          by (symmetry; apply str_eqb_neq; exact Hne).
        cbn [negb List.length]. f_equal. lia.
      * intros pre v post E Hv. apply (W' new pre v post E); [symmetry; exact R | exact Hv].
    + assert (E : patch_groups uniq m done (vg :: vgs) n
                  = patch_groups uniq m (done ++ [vg]) vgs n).
      { cbn [patch_groups]. destruct (dict_get m vg) as [new|]; [|reflexivity].
        rewrite G. reflexivity. }
      cbn [patch_groups] in E. rewrite E.
      rewrite (IH (done ++ [vg]) n).
      * rewrite R. rewrite <- app_assoc. cbn [app].
        rewrite str_eqb_refl. cbn [negb]. reflexivity.
      * intros pre v post E' Hv. apply (W' vg pre v post E'); [symmetry; exact R | exact Hv].
Qed.

Lemma clear_groups_free (m : dict) (gs : list str) :
  clear_groups m gs ->
  forall pre vg post, gs = pre ++ vg :: post ->
    group_renamed m vg <> vg ->
    fits_name (group_renamed m vg) = true
    /\ ~ In (group_renamed m vg) ([] ++ map (group_renamed m) pre ++ post).
Proof.
  intros (Hnd & Hfresh & Hinj) pre vg post E Hv.
  assert (Hin : In vg gs) by (rewrite E; apply in_or_app; right; left; reflexivity).
  destruct (Hfresh vg Hin Hv) as [Hf Hn]. split; [exact Hf|].
  cbn [app]. intros H. apply in_app_or in H. destruct H as [H|H].
  - apply in_map_iff in H. destruct H as (p & Ep & Hp).
    assert (Hpin : In p gs) by (rewrite E; apply in_or_app; left; exact Hp).
    destruct (list_eq_dec N.eq_dec (group_renamed m p) p) as [Es|Ed].
    + apply Hn. rewrite <- Ep, Es. exact Hpin.
    + assert (Epv : vg = p) by (apply Hinj; try assumption; congruence).
      subst p. rewrite E in Hnd. apply NoDup_remove_2 in Hnd.
      apply Hnd. apply in_or_app. left. exact Hp.
  - apply Hn. rewrite E. apply in_or_app. right. right. exact H.
Qed.

Lemma patch_groups_clear (uniq : list str -> str -> str) (m : dict)
      (gs : list str) (n : nat) :
  clear_groups m gs ->
  patch_groups uniq m [] gs n
  = (map (group_renamed m) gs,
     n + List.length (filter (fun vg => negb (str_eqb (group_renamed m vg) vg)) gs)).
Proof.
  intros H. rewrite (@patch_groups_free uniq m gs [] n); [reflexivity|].
  apply clear_groups_free. exact H.
Qed.

Lemma patch_vertex_groups_clear (uniq : list str -> str -> str) (m : dict)
      (arm : option nat) (objs : list Object) (n : nat) :
  (forall o, In o objs -> mesh_using_armature arm o <> None ->
             clear_groups m (vertex_groups o)) ->
  patch_vertex_groups_for_armature uniq objs arm m n
  = (groups_renamed m arm objs, n + groups_changed m arm objs).
Proof.
  revert n; induction objs as [|o objs IH]; intros n H.
  - simpl. rewrite Nat.add_0_r. reflexivity.
  - cbn [patch_vertex_groups_for_armature groups_renamed groups_changed map
         list_sum fold_right].
    fold (list_sum (map (fun o0 => match mesh_using_armature arm o0 with
                                   | Some _ =>
                                       List.length
                                         (filter (fun vg => negb (str_eqb (group_renamed m vg) vg))
                                                 (vertex_groups o0))
                                   | None => 0
                                   end) objs)).
    fold (groups_changed m arm objs). fold (groups_renamed m arm objs).
    assert (Hrest : forall o0, In o0 objs -> mesh_using_armature arm o0 <> None ->
                               clear_groups m (vertex_groups o0))
      by (intros o0 Hin; apply H; right; exact Hin).
    destruct (mesh_using_armature arm o) eqn:Em.
    + rewrite patch_groups_clear
        by (apply H; [left; reflexivity | rewrite Em; discriminate]).
      rewrite (IH _ Hrest). f_equal. lia.
    + rewrite (IH _ Hrest). reflexivity.
Qed.

(** What the patch of the vertex groups never touches: the objects that
    are no mesh bound to the armature, and of a bound mesh everything
    but the names of its groups. *)
Lemma patch_groups_length (uniq : list str -> str -> str) (m : dict)
      (vgs : list str) :
  forall done n,
    List.length (fst (patch_groups uniq m done vgs n))
    = List.length done + List.length vgs.
Proof.
  induction vgs as [|vg vgs IH]; intros done n.
  - simpl. lia.
  - cbn [patch_groups].
    destruct (dict_get m vg) as [new|];
      [destruct (truthy new && negb (str_eqb new vg))|];
      rewrite IH, length_app; simpl; lia.
Qed.

Lemma patch_vertex_groups_other (uniq : list str -> str -> str) (m : dict)
      (arm : option nat) (objs : list Object) (n i : nat) (o : Object) :
  nth_error objs i = Some o ->
  nth_error (fst (patch_vertex_groups_for_armature uniq objs arm m n)) i
  = Some (match mesh_using_armature arm o with
          | Some _ =>
              set_vertex_groups o
                (fst (patch_groups uniq m [] (vertex_groups o) 0))
          | None => o
          end)
  /\ List.length (fst (patch_groups uniq m [] (vertex_groups o) 0))
     = List.length (vertex_groups o).
Proof.
  intros Hn. split; [|rewrite patch_groups_length; reflexivity].
  revert n i Hn; induction objs as [|x objs IH]; intros n i Hn;
    [destruct i; discriminate|].
  assert (Hfst : forall vgs done a b,
             fst (patch_groups uniq m done vgs a) = fst (patch_groups uniq m done vgs b)).
  { induction vgs as [|vg vgs IHv]; intros done a b; [reflexivity|].
    cbn [patch_groups].
    destruct (dict_get m vg) as [new|];
      [destruct (truthy new && negb (str_eqb new vg))|]; apply IHv. }
  cbn [patch_vertex_groups_for_armature].
  destruct (mesh_using_armature arm x) eqn:Em.
  - pose proof (Hfst (vertex_groups x) [] n 0) as Hx.
    destruct (patch_groups uniq m [] (vertex_groups x) n) as [vgs k].
    cbn [fst] in Hx.
    specialize (IH k). destruct (patch_vertex_groups_for_armature uniq objs arm m k).
    destruct i as [|i]; cbn [fst nth_error] in *.
    + inversion Hn; subst. rewrite Em. reflexivity.
    + apply IH. exact Hn.
  - specialize (IH n). destruct (patch_vertex_groups_for_armature uniq objs arm m n).
    destruct i as [|i]; cbn [fst nth_error] in *.
    + inversion Hn; subst. rewrite Em. reflexivity.
    + apply IH. exact Hn.
Qed.

Lemma hips_group_renamed (vg : str) : group_renamed hips_to_pelvis vg = hips_group vg.
Proof.
  unfold group_renamed, hips_group, hips_to_pelvis. cbn [dict_get].
  destruct (str_eqb HIPS vg) eqn:E.
  - apply str_eqb_eq in E. subst vg. reflexivity.
  - assert (E' : str_eqb vg HIPS = false).
    { apply str_eqb_neq. apply str_eqb_neq in E. congruence. }
    rewrite E'. reflexivity.
Qed.

Lemma hips_groups_clear (gs : list str) :
  NoDup gs -> ~ In PELVIS gs -> clear_groups hips_to_pelvis gs.
Proof.
  intros Hnd Hp.
  assert (Hw : forall vg, group_renamed hips_to_pelvis vg <> vg ->
                          vg = HIPS /\ group_renamed hips_to_pelvis vg = PELVIS).
  { intros vg. rewrite hips_group_renamed. unfold hips_group.
    destruct (str_eqb vg HIPS) eqn:E; [|congruence].
    apply str_eqb_eq in E. intros _. split; [exact E | reflexivity]. }
  split; [exact Hnd | split].
  - intros vg Hin Hv. destruct (Hw vg Hv) as [_ ->]. split; [reflexivity | exact Hp].
  - intros vg vg' _ _ Hv Hv' _.
    destruct (Hw vg Hv) as [-> _]. destruct (Hw vg' Hv') as [-> _]. reflexivity.
Qed.



(** ** Writes that store the value already there *)

Lemma list_set_same (A : Type) (l : list A) (i : nat) (x : A) :
  nth_error l i = Some x -> list_set l i x = l.
Proof.
  revert i; induction l as [|y l IH]; intros [|i] H; simpl in *;
    try discriminate; try reflexivity.
  - congruence.
  - rewrite IH by assumption. reflexivity.
Qed.

Lemma length_list_set (A : Type) (l : list A) (i : nat) (x : A) :
  List.length (list_set l i x) = List.length l.
Proof.
  revert i; induction l as [|y l IH]; intros [|i]; simpl; auto.
Qed.

Lemma nth_error_list_set_eq (A : Type) (l : list A) (i : nat) (x : A) :
  i < List.length l -> nth_error (list_set l i x) i = Some x.
Proof.
  revert i; induction l as [|y l IH]; intros [|i] H; simpl in *;
    try lia; try reflexivity.
  apply IH. lia.
Qed.

Lemma nth_error_list_set_ne (A : Type) (l : list A) (i j : nat) (x : A) :
  i <> j -> nth_error (list_set l i x) j = nth_error l j.
Proof.
  revert i j; induction l as [|y l IH]; intros [|i] [|j] H; simpl;
    try reflexivity; try congruence.
  apply IH. congruence.
Qed.

Lemma list_set_twice (A : Type) (l : list A) (i : nat) (x y : A) :
  list_set (list_set l i x) i y = list_set l i y.
Proof.
  revert i; induction l as [|z l IH]; intros [|i]; simpl; auto.
  rewrite IH. reflexivity.
Qed.

Lemma set_bones_same (o : Object) : set_bones o (bones o) = o.
Proof. destruct o; reflexivity. Qed.

Lemma set_vertex_groups_same (o : Object) : set_vertex_groups o (vertex_groups o) = o.
Proof. destruct o; reflexivity. Qed.

Lemma set_modifiers_same (o : Object) : set_modifiers o (modifiers o) = o.
Proof. destruct o; reflexivity. Qed.

Lemma set_animation_data_same (o : Object) :
  set_animation_data o (animation_data o) = o.
Proof. destruct o; reflexivity. Qed.

Lemma set_constraints_same (b : Bone) : set_constraints b (constraints b) = b.
Proof. destruct b; reflexivity. Qed.

Lemma set_fcurves_same (a : Action) : set_fcurves a (fcurves a) = a.
Proof. destruct a; reflexivity. Qed.

Lemma set_drivers_same (a : AnimData) : set_drivers a (drivers a) = a.
Proof. destruct a; reflexivity. Qed.

Lemma armature_at_nth (objs : list Object) (r : option nat) (i : nat) (o : Object) :
  armature_at objs r = Some (i, o) ->
  r = Some i /\ nth_error objs i = Some o /\ obj_type o = ARMATURE.
Proof.
  unfold armature_at. destruct r as [j|]; [|discriminate].
  destruct (nth_error objs j) as [o'|] eqn:E; [|discriminate].
  destruct (ObjType_eqb (obj_type o') ARMATURE) eqn:T; [|discriminate].
  intros H; inversion H; subst.
  repeat split; auto. destruct (obj_type o); try discriminate; reflexivity.
Qed.

(** ** The pipeline under an identity mapping *)

Lemma dict_get_identity (m : dict) (k v : str) :
  identity_mapping m -> dict_get m k = Some v -> v = k.
Proof.
  unfold identity_mapping. induction m as [|[k' v'] m IH]; intros H G; [discriminate|].
  inversion H as [|? ? Hkv Hm]; subst. simpl in Hkv. subst v'.
  simpl in G. destruct (str_eqb k' k) eqn:E.
  - apply str_eqb_eq in E. congruence.
  - apply IH; assumption.
Qed.

Lemma rename_pairs_identity (bs : list Bone) (m : dict) :
  identity_mapping m -> rename_pairs bs m = [].
Proof.
  unfold identity_mapping, rename_pairs.
  induction m as [|[k v] m IH]; intros H; [reflexivity|].
  inversion H as [|? ? Hkv Hm]; subst. simpl in Hkv. subst v.
  cbn [filter fst snd]. rewrite str_eqb_refl, andb_false_r. apply IH; assumption.
Qed.

Lemma rename_bones_identity (uniq : list str -> str -> str)
      (bs : list Bone) (m : dict) :
  identity_mapping m -> rename_bones uniq bs m = Some (bs, (0, 0)).
Proof.
  intros H. unfold rename_bones. rewrite rename_pairs_identity by assumption.
  reflexivity.
Qed.

Lemma rename_identity (uniq : list str -> str -> str)
      (objs : list Object) (arm : option nat) (m : dict) :
  identity_mapping m ->
  rename_bones_edit_mode_preserve_flags uniq objs arm m = Some (objs, (0, 0)).
Proof.
  intros H. unfold rename_bones_edit_mode_preserve_flags.
  destruct (armature_at objs arm) as [[i o]|] eqn:E; [|reflexivity].
  destruct m as [|kv m]; [reflexivity|].
  rewrite rename_bones_identity by assumption.
  apply armature_at_nth in E. destruct E as (_ & E & _).
  rewrite set_bones_same, list_set_same by assumption. reflexivity.
Qed.

Lemma patch_groups_identity (uniq : list str -> str -> str) (m : dict)
      (done vgs : list str) (n : nat) :
  identity_mapping m -> patch_groups uniq m done vgs n = (done ++ vgs, n).
Proof.
  intros H. revert done n; induction vgs as [|vg vgs IH]; intros done n.
  - simpl. rewrite app_nil_r. reflexivity.
  - cbn [patch_groups]. destruct (dict_get m vg) as [new|] eqn:G.
    + pose proof (@dict_get_identity _ _ _ H G). subst new.
      rewrite str_eqb_refl, andb_false_r, IH, <- app_assoc. reflexivity.
    + rewrite IH, <- app_assoc. reflexivity.
Qed.

Lemma patch_vertex_groups_identity (uniq : list str -> str -> str) (m : dict)
      (objs : list Object) (arm : option nat) (n : nat) :
  identity_mapping m ->
  patch_vertex_groups_for_armature uniq objs arm m n = (objs, n).
Proof.
  intros H. revert n; induction objs as [|o objs IH]; intros n; [reflexivity|].
  cbn [patch_vertex_groups_for_armature].
  destruct (mesh_using_armature arm o).
  - rewrite patch_groups_identity by assumption. rewrite IH.
    cbn [app]. rewrite set_vertex_groups_same. reflexivity.
  - rewrite IH. reflexivity.
Qed.

Lemma set_subtarget_same (c : Constraint) (s : str) :
  con_subtarget c = Some s -> set_subtarget c s = c.
Proof. destruct c; simpl; intros ->; reflexivity. Qed.

Lemma patch_constraints_identity (m : dict) (cs : list Constraint) (n : nat) :
  identity_mapping m -> exists n', patch_constraints m cs n = (cs, n').
Proof.
  intros H. revert n; induction cs as [|c cs IH]; intros n.
  - exists n; reflexivity.
  - cbn [patch_constraints]. destruct (con_subtarget c) as [s|] eqn:Es.
    + destruct (dict_get m s) as [new|] eqn:G.
      * pose proof (@dict_get_identity _ _ _ H G). subst new.
        destruct (IH (S n)) as [n' ->]. exists n'.
        unfold write_subtarget. rewrite str_eqb_refl. reflexivity.
      * destruct (IH n) as [n' ->]. exists n'. reflexivity.
    + destruct (IH n) as [n' ->]. exists n'. reflexivity.
Qed.

Lemma patch_pose_bones_identity (m : dict) (bs : list Bone) (n : nat) :
  identity_mapping m -> exists n', patch_pose_bones m bs n = (bs, n').
Proof.
  intros H. revert n; induction bs as [|b bs IH]; intros n.
  - exists n; reflexivity.
  - cbn [patch_pose_bones].
    destruct (@patch_constraints_identity m (constraints b) n H) as [k ->].
    destruct (IH k) as [n' ->]. exists n'.
    rewrite set_constraints_same. reflexivity.
Qed.

Lemma patch_subtargets_identity (m : dict) (objs : list Object)
      (i : nat) (o : Object) :
  identity_mapping m -> armature_at objs (Some i) = Some (i, o) ->
  exists n, patch_constraints_subtargets objs (Some i) m = Some (objs, n).
Proof.
  intros H E. unfold patch_constraints_subtargets. rewrite E.
  destruct (@patch_pose_bones_identity m (bones o) 0 H) as [n ->]. exists n.
  apply armature_at_nth in E. destruct E as (_ & E & _).
  rewrite set_bones_same, list_set_same by assumption. reflexivity.
Qed.

Lemma patch_actions_identity (m : dict) (acts : list Action) (n : nat) :
  identity_mapping m -> patch_actions m acts n = (acts, n).
Proof.
  intros H. revert n; induction acts as [|a acts IH]; intros n; [reflexivity|].
  cbn [patch_actions].
  rewrite patch_paths_fixed by (intros; apply patch_fcurve_identity; assumption).
  rewrite IH, set_fcurves_same. reflexivity.
Qed.

Lemma handle_animdata_identity (m : dict) (ad : option AnimData)
      (acts : list Action) (n : nat) :
  identity_mapping m -> handle_animdata m ad (acts, n) = (ad, (acts, n)).
Proof.
  intros H. unfold handle_animdata. destruct ad as [a|]; [|reflexivity].
  rewrite patch_paths_fixed by (intros; apply patch_driver_identity; assumption).
  rewrite set_drivers_same.
  destruct (ad_action a) as [k|]; [|reflexivity].
  destruct (nth_error acts k) as [act|] eqn:E; [|reflexivity].
  rewrite patch_paths_fixed by (intros; apply patch_driver_identity; assumption).
  rewrite set_fcurves_same, list_set_same by assumption. reflexivity.
Qed.

Lemma handle_objects_identity (m : dict) (objs : list Object)
      (acts : list Action) (n : nat) :
  identity_mapping m -> handle_objects m objs (acts, n) = (objs, (acts, n)).
Proof.
  intros H. induction objs as [|o objs IH]; [reflexivity|].
  cbn [handle_objects]. rewrite handle_animdata_identity by assumption.
  rewrite IH, set_animation_data_same. reflexivity.
Qed.

Lemma handle_blocks_identity (m : dict) (ads : list (option AnimData))
      (acts : list Action) (n : nat) :
  identity_mapping m -> handle_blocks m ads (acts, n) = (ads, (acts, n)).
Proof.
  intros H. induction ads as [|ad ads IH]; [reflexivity|].
  cbn [handle_blocks]. rewrite handle_animdata_identity by assumption.
  rewrite IH. reflexivity.
Qed.

Lemma patch_driver_fcurves_identity (m : dict) (sc : Scene) :
  identity_mapping m -> patch_driver_fcurves sc m = (sc, 0).
Proof.
  intros H. unfold patch_driver_fcurves.
  rewrite handle_objects_identity by assumption.
  rewrite !handle_blocks_identity by assumption.
  destruct sc; reflexivity.
Qed.

Lemma refresh_modifiers_same (objs : list Object) (arm : option nat) :
  refresh_modifiers objs arm = objs.
Proof.
  induction objs as [|o objs IH]; [reflexivity|].
  cbn [refresh_modifiers]. rewrite IH.
  destruct (mesh_using_armature arm o) as [k|]; [|reflexivity].
  destruct (nth_error (modifiers o) k) as [m|] eqn:E; [|reflexivity].
  rewrite list_set_twice.
  replace (set_mod_object (set_mod_object m None) (mod_object m)) with m
    by (destruct m; reflexivity).
  rewrite list_set_same by assumption. rewrite set_modifiers_same. reflexivity.
Qed.

Lemma force_refresh_same (sc : Scene) (arm : option nat) :
  force_refresh_depsgraph sc arm = sc.
Proof.
  unfold force_refresh_depsgraph. rewrite refresh_modifiers_same.
  destruct sc; reflexivity.
Qed.

(** C8.  With a mapping in which every entry maps a name to itself, the
    pipeline (rename, vertex groups, constraint subtargets, curve paths,
    driver paths, refresh) returns the scene it was given: no bone name,
    deform flag, vertex group, subtarget or path differs.  The renamed
    count is zero, and so are the counts of vertex groups, curves and
    drivers. *)
Theorem identity_mapping_is_noop (uniq : list str -> str -> str)
        (sc : Scene) (arm : option nat) (m : dict) :
  identity_mapping m ->
  exists con_count,
    _apply_mapping_on_arm uniq sc arm m = Some (sc, (0, 0, con_count, 0, 0)).
Proof.
  intros H. unfold _apply_mapping_on_arm.
  destruct (armature_at (objects sc) arm) as [[i o]|] eqn:E.
  - unfold rename_and_patch. rewrite rename_identity by assumption.
    rewrite patch_vertex_groups_identity by assumption.
    pose proof (@armature_at_nth _ _ _ _ E) as (-> & _ & _).
    destruct (@patch_subtargets_identity m _ _ _ H E) as [n ->]. exists n.
    unfold patch_fcurves_actions. rewrite patch_actions_identity by assumption.
    replace (set_actions (set_objects sc (objects sc)) (actions sc)) with sc
      by (destruct sc; reflexivity).
    rewrite patch_driver_fcurves_identity by assumption.
    rewrite force_refresh_same. reflexivity.
  - exists 0. reflexivity.
Qed.

(** ** Bone collections keyed by name *)

Lemma bone_index_sole (bs : list Bone) (n : str) (k : nat) (b : Bone) :
  nth_error bs k = Some b -> bone_name b = n ->
  (forall k' b', nth_error bs k' = Some b' -> bone_name b' = n -> k' = k) ->
  bone_index bs n = Some k.
Proof.
  revert k; induction bs as [|b0 bs IH]; intros k Hk Hn Hsole.
  - destruct k; discriminate.
  - cbn [bone_index]. destruct (str_eqb (bone_name b0) n) eqn:E.
    + apply str_eqb_eq in E. f_equal.
      apply (Hsole 0 b0); [reflexivity | exact E].
    + destruct k as [|k].
      * simpl in Hk. inversion Hk; subst b0.
        apply str_eqb_neq in E. contradiction.
      * simpl in Hk. rewrite (IH k Hk Hn); [reflexivity|].
        intros k' b' Hk' Hn'. specialize (Hsole (S k') b' Hk' Hn'). lia.
Qed.

Lemma has_bone_false (bs : list Bone) (n : str) :
  (forall k b, nth_error bs k = Some b -> bone_name b <> n) ->
  has_bone bs n = false.
Proof.
  induction bs as [|b0 bs IH]; intros H; [reflexivity|].
  cbn [has_bone existsb]. fold (has_bone bs n).
  rewrite IH.
  - rewrite orb_false_r. apply str_eqb_neq. apply (H 0 b0). reflexivity.
  - intros k b Hk. apply (H (S k) b). exact Hk.
Qed.

Lemma has_bone_true (bs : list Bone) (k : nat) (b : Bone) :
  nth_error bs k = Some b -> has_bone bs (bone_name b) = true.
Proof.
  revert k; induction bs as [|b0 bs IH]; intros [|k] H; try discriminate;
    cbn [has_bone existsb]; fold (has_bone bs (bone_name b)).
  - simpl in H. inversion H; subst. rewrite str_eqb_refl. reflexivity.
  - simpl in H. rewrite (IH k H). apply orb_true_r.
Qed.

Lemma write_free (uniq : list str -> str -> str)
      (bs : list Bone) (k : nat) (b : Bone) (n : str) :
  fits_name n = true ->
  nth_error bs k = Some b -> bone_name b <> n -> has_bone bs n = false ->
  write_bone_name uniq bs k n = list_set bs k (set_bone_name b n).
Proof.
  intros Hfit Hk Hn Hf. unfold write_bone_name. rewrite Hk.
  cbv zeta. rewrite (host_name_name _ Hfit).
  apply str_eqb_neq in Hn. rewrite Hn, Hf, (fits_name_truthy _ Hfit). reflexivity.
Qed.

Lemma app_suffix_neq (a : str) (s : str) : s <> [] -> a ++ s <> a.
Proof.
  intros Hs E. apply (f_equal (@List.length char)) in E.
  rewrite length_app in E. destruct s; [congruence | simpl in E; lia].
Qed.

Lemma list_set_comm (A : Type) (l : list A) (i j : nat) (x y : A) :
  i <> j -> list_set (list_set l i x) j y = list_set (list_set l j y) i x.
Proof.
  revert i j; induction l as [|z l IH]; intros [|i] [|j] H; simpl;
    try reflexivity; try congruence.
  rewrite IH by congruence. reflexivity.
Qed.

Lemma nth_error_list_set_some (A : Type) (l : list A) (i : nat) (x y : A) :
  nth_error l i = Some y -> nth_error (list_set l i x) i = Some x.
Proof.
  intros H. apply nth_error_list_set_eq. apply nth_error_Some. congruence.
Qed.

Lemma dict_set_get_other (V : Type) (m : pydict V) (k k' : str) (v : V) :
  k <> k' -> dict_get (dict_set m k v) k' = dict_get m k'.
Proof.
  intros H. induction m as [|[k0 v0] m IH]; simpl.
  - apply str_eqb_neq in H. rewrite H. reflexivity.
  - destruct (str_eqb k0 k) eqn:E; simpl.
    + apply str_eqb_eq in E. subst k0.
      apply str_eqb_neq in H. rewrite H. reflexivity.
    + destruct (str_eqb k0 k'); [reflexivity | exact IH].
Qed.

Lemma dict_set_get_same (V : Type) (m : pydict V) (k : str) (v : V) :
  dict_get (dict_set m k v) k = Some v.
Proof.
  induction m as [|[k0 v0] m IH]; simpl.
  - rewrite str_eqb_refl. reflexivity.
  - destruct (str_eqb k0 k) eqn:E; simpl; rewrite E; [reflexivity | exact IH].
Qed.

(** The snapshot holds, under a name that one bone only carries, the flag
    of that bone. *)
Lemma snapshot_sole (bs : list Bone) (k : nat) (b : Bone) :
  nth_error bs k = Some b ->
  (forall k' b', nth_error bs k' = Some b' -> bone_name b' = bone_name b -> k' = k) ->
  dict_get (snapshot_deform bs) (bone_name b) = Some (use_deform b).
Proof.
  unfold snapshot_deform.
  assert (G : forall (l : list Bone) (acc : pydict bool) k,
             nth_error l k = Some b ->
             (forall k' b', nth_error l k' = Some b' ->
                            bone_name b' = bone_name b -> k' = k) ->
             dict_get (fold_left (fun d x => dict_set d (bone_name x) (use_deform x))
                                 l acc) (bone_name b) = Some (use_deform b)).
  { induction l as [|b0 l IH]; intros acc k0 Hk Hsole.
    - destruct k0; discriminate.
    - cbn [fold_left]. destruct k0 as [|k0].
      + simpl in Hk. inversion Hk; subst b0.
        assert (Hrest : forall l' acc',
                   (forall k' b', nth_error l' k' = Some b' ->
                                  bone_name b' <> bone_name b) ->
                   dict_get acc' (bone_name b) = Some (use_deform b) ->
                   dict_get (fold_left (fun d x => dict_set d (bone_name x) (use_deform x))
                                       l' acc') (bone_name b) = Some (use_deform b)).
        { induction l' as [|b1 l' IH']; intros acc' Hfree Hacc; [exact Hacc|].
          cbn [fold_left]. apply IH'.
          - intros k' b' Hk'. apply (Hfree (S k') b'). exact Hk'.
          - rewrite dict_set_get_other; [exact Hacc|].
            apply (Hfree 0 b1). reflexivity. }
        apply Hrest.
        * intros k' b' Hk' E. specialize (Hsole (S k') b' Hk' E). discriminate.
        * apply dict_set_get_same.
      + simpl in Hk. apply (IH _ k0 Hk).
        intros k' b' Hk' E. specialize (Hsole (S k') b' Hk' E). lia. }
  intros Hk Hsole. apply (G bs [] k Hk Hsole).
Qed.

(** ** The swap of two bone names *)

Section TwoBones.

Variable uniq : list str -> str -> str.
Variables (bs : list Bone) (i j : nat) (bi bj : Bone).
Hypothesis Hi : nth_error bs i = Some bi.
Hypothesis Hj : nth_error bs j = Some bj.
Hypothesis Hij : i <> j.

Local Abbreviation st X Y := (list_set (list_set bs i X) j Y).

Lemma st_i (X Y : Bone) : nth_error (st X Y) i = Some X.
Proof.
  rewrite nth_error_list_set_ne by congruence.
  eapply nth_error_list_set_some. exact Hi.
Qed.

Lemma st_j (X Y : Bone) : nth_error (st X Y) j = Some Y.
Proof.
  apply nth_error_list_set_eq. rewrite length_list_set.
  apply nth_error_Some. congruence.
Qed.

Lemma st_other (X Y : Bone) (k : nat) :
  k <> i -> k <> j -> nth_error (st X Y) k = nth_error bs k.
Proof.
  intros H1 H2. rewrite !nth_error_list_set_ne by congruence. reflexivity.
Qed.

Lemma st_start : st bi bj = bs.
Proof.
  rewrite (@list_set_same _ bs i bi Hi). apply list_set_same. exact Hj.
Qed.

Lemma st_index_i (X Y : Bone) (n : str) :
  bone_name X = n -> bone_name Y <> n -> free_elsewhere bs i j n ->
  bone_index (st X Y) n = Some i.
Proof.
  intros HX HY F. eapply bone_index_sole; [apply st_i | exact HX |].
  intros k b Hk Hn. destruct (Nat.eq_dec k i) as [|Hki]; [assumption|].
  destruct (Nat.eq_dec k j) as [->|Hkj].
  - rewrite st_j in Hk. inversion Hk; subst. contradiction.
  - rewrite st_other in Hk by assumption. exfalso. exact (F k b Hki Hkj Hk Hn).
Qed.

Lemma st_index_j (X Y : Bone) (n : str) :
  bone_name X <> n -> bone_name Y = n -> free_elsewhere bs i j n ->
  bone_index (st X Y) n = Some j.
Proof.
  intros HX HY F. eapply bone_index_sole; [apply st_j | exact HY |].
  intros k b Hk Hn. destruct (Nat.eq_dec k j) as [|Hkj]; [assumption|].
  destruct (Nat.eq_dec k i) as [->|Hki].
  - rewrite st_i in Hk. inversion Hk; subst. contradiction.
  - rewrite st_other in Hk by assumption. exfalso. exact (F k b Hki Hkj Hk Hn).
Qed.

Lemma st_free (X Y : Bone) (n : str) :
  bone_name X <> n -> bone_name Y <> n -> free_elsewhere bs i j n ->
  has_bone (st X Y) n = false.
Proof.
  intros HX HY F. apply has_bone_false. intros k b Hk.
  destruct (Nat.eq_dec k i) as [->|Hki].
  - rewrite st_i in Hk. inversion Hk; subst. assumption.
  - destruct (Nat.eq_dec k j) as [->|Hkj].
    + rewrite st_j in Hk. inversion Hk; subst. assumption.
    + rewrite st_other in Hk by assumption. exact (F k b Hki Hkj Hk).
Qed.

Lemma st_write_i (X Y : Bone) (n : str) :
  fits_name n = true ->
  bone_name X <> n -> bone_name Y <> n -> free_elsewhere bs i j n ->
  write_bone_name uniq (st X Y) i n = st (set_bone_name X n) Y.
Proof.
  intros Hfit HX HY F.
  erewrite write_free;
    [| exact Hfit | apply st_i | exact HX | apply st_free; assumption].
  rewrite (@list_set_comm _ (list_set bs i X) j i Y (set_bone_name X n))
    by congruence.
  rewrite list_set_twice. reflexivity.
Qed.

Lemma st_write_j (X Y : Bone) (n : str) :
  fits_name n = true ->
  bone_name X <> n -> bone_name Y <> n -> free_elsewhere bs i j n ->
  write_bone_name uniq (st X Y) j n = st X (set_bone_name Y n).
Proof.
  intros Hfit HX HY F.
  erewrite write_free;
    [| exact Hfit | apply st_j | exact HY | apply st_free; assumption].
  apply list_set_twice.
Qed.

End TwoBones.

Section SwapRun.

Variable uniq : list str -> str -> str.
Variables (bs : list Bone) (i j : nat) (A B : str).
Hypothesis Hij : i <> j.
Hypothesis HAB : A <> B.
Hypothesis HABS : A <> B ++ temp_suffix.
Hypothesis HBAS : B <> A ++ temp_suffix.
Hypothesis FA : free_elsewhere bs i j A.
Hypothesis FB : free_elsewhere bs i j B.
Hypothesis FAS : free_elsewhere bs i j (A ++ temp_suffix).
Hypothesis FBS : free_elsewhere bs i j (B ++ temp_suffix).
Hypothesis HtA : truthy A = true.
Hypothesis HtB : truthy B = true.
Hypothesis HfA : fits_name (A ++ temp_suffix) = true.
Hypothesis HfB : fits_name (B ++ temp_suffix) = true.

Local Abbreviation st X Y := (list_set (list_set bs i X) j Y).

Lemma temp_suffix_nonempty : temp_suffix <> [].
Proof. discriminate. Qed.

Lemma sentinels_differ : B ++ temp_suffix <> A ++ temp_suffix.
Proof using HAB. intros E. apply app_inv_tail in E. congruence. Qed.

Lemma swap_to_temp (X Y : Bone) :
  nth_error bs i <> None -> nth_error bs j <> None ->
  bone_name X = A -> bone_name Y = B ->
  rename_to_temp uniq (swap_mapping A B) (st X Y)
  = Some (st (set_bone_name X (B ++ temp_suffix))
             (set_bone_name Y (A ++ temp_suffix))).
Proof using Hij HAB HABS HBAS FA FB FAS FBS HfA HfB.
  intros Ni Nj HX HY.
  destruct (nth_error bs i) as [bi|] eqn:Hi; [|congruence].
  destruct (nth_error bs j) as [bj|] eqn:Hj; [|congruence].
  pose proof sentinels_differ as SD.
  pose proof (@app_suffix_neq A _ temp_suffix_nonempty) as SA.
  pose proof (@app_suffix_neq B _ temp_suffix_nonempty) as SB.
  unfold swap_mapping. cbn [rename_to_temp]. unfold rename_key.
  erewrite st_index_i; eauto; try congruence.
  erewrite st_write_i; eauto; try congruence.
  erewrite st_index_j; eauto; try (simpl; congruence).
  erewrite st_write_j; eauto; try (simpl; congruence).
Qed.

Lemma swap_to_final (X Y : Bone) :
  nth_error bs i <> None -> nth_error bs j <> None ->
  bone_name X = B ++ temp_suffix -> bone_name Y = A ++ temp_suffix ->
  rename_to_final uniq (swap_mapping A B) (st X Y) 0
  = (st (set_bone_name X B) (set_bone_name Y A), 2).
Proof using Hij HAB HABS HBAS FA FB FAS FBS HtA HtB HfA HfB.
  intros Ni Nj HX HY.
  destruct (nth_error bs i) as [bi|] eqn:Hi; [|congruence].
  destruct (nth_error bs j) as [bj|] eqn:Hj; [|congruence].
  pose proof sentinels_differ as SD.
  pose proof (@app_suffix_neq A _ temp_suffix_nonempty) as SA.
  pose proof (@app_suffix_neq B _ temp_suffix_nonempty) as SB.
  pose proof (@fits_name_app A temp_suffix HtA HfA) as HnA.
  pose proof (@fits_name_app B temp_suffix HtB HfB) as HnB.
  unfold swap_mapping. cbn [rename_to_final].
  erewrite st_index_i; eauto; try congruence.
  erewrite st_write_i; eauto; try congruence.
  erewrite st_index_j; eauto; try (simpl; congruence).
  erewrite st_write_j; eauto; try (simpl; congruence).
Qed.

Lemma swap_restore (flags : pydict bool) (X Y : Bone) :
  nth_error bs i <> None -> nth_error bs j <> None ->
  bone_name X = B -> bone_name Y = A ->
  dict_get flags A = Some (use_deform X) ->
  dict_get flags B = Some (use_deform Y) ->
  restore_deform (swap_mapping A B) flags (st X Y) 0 = (st X Y, 2).
Proof using Hij HAB FA FB.
  intros Ni Nj HX HY GA GB.
  destruct (nth_error bs i) as [bi|] eqn:Hi; [|congruence].
  destruct (nth_error bs j) as [bj|] eqn:Hj; [|congruence].
  assert (SX : set_use_deform X (use_deform X) = X) by (destruct X; reflexivity).
  assert (SY : set_use_deform Y (use_deform Y) = Y) by (destruct Y; reflexivity).
  unfold swap_mapping. cbn [restore_deform].
  erewrite st_index_i; eauto; [|congruence].
  rewrite GA. erewrite st_i; eauto. rewrite SX.
  rewrite (@list_set_same _ (st X Y) i X) by (eapply st_i; eauto).
  erewrite st_index_j; eauto; [|congruence].
  rewrite GB. erewrite st_j; eauto. rewrite SY.
  rewrite (@list_set_same _ (st X Y) j Y) by (eapply st_j; eauto).
  reflexivity.
Qed.

End SwapRun.

Lemma restore_deform_names (ps : dict) (fl : pydict bool) (bs : list Bone) (n : nat) :
  map bone_name (fst (restore_deform ps fl bs n)) = map bone_name bs.
Proof.
  revert bs n; induction ps as [|[old new] ps IH]; intros bs n; [reflexivity|].
  cbn [restore_deform].
  destruct (bone_index bs new) as [k|]; [|apply IH].
  destruct (dict_get fl old) as [d|]; [|apply IH].
  destruct (nth_error bs k) as [b|] eqn:E; [|apply IH].
  rewrite IH. clear IH.
  revert k E; induction bs as [|b0 bs IHb]; intros [|k] E; simpl in *;
    try discriminate.
  - inversion E; subst. reflexivity.
  - rewrite (IHb k E). reflexivity.
Qed.

Lemma write_bone_name_other (uniq : list str -> str -> str)
      (eb : list Bone) (i k : nat) (n : str) :
  k <> i -> nth_error (write_bone_name uniq eb i n) k = nth_error eb k.
Proof.
  intros H. unfold write_bone_name.
  destruct (nth_error eb i); [|reflexivity]. cbv zeta.
  destruct (str_eqb (bone_name b) (host_name n)); [reflexivity|].
  destruct (has_bone eb (host_name n) || negb (truthy (host_name n)));
    apply nth_error_list_set_ne; congruence.
Qed.

Lemma names_sole (bs : list Bone) (k1 k2 : nat) (b1 b2 : Bone) :
  NoDup (map bone_name bs) ->
  nth_error bs k1 = Some b1 -> nth_error bs k2 = Some b2 ->
  bone_name b1 = bone_name b2 -> k1 = k2.
Proof.
  intros Hnd H1 H2 E.
  apply (proj1 (NoDup_nth_error (map bone_name bs)) Hnd).
  - rewrite length_map. apply nth_error_Some. congruence.
  - rewrite !nth_error_map, H1, H2. simpl. congruence.
Qed.

Lemma name_held (bs : list Bone) (k : nat) (b : Bone) :
  nth_error bs k = Some b -> In (bone_name b) (map bone_name bs).
Proof. intros H. apply in_map. eapply nth_error_In. exact H. Qed.



(** The deform flags stay with the bones; they are not exchanged
    between them.  In the swap of Hips (deform on) and Spine (deform
    off) the bone at the first position is named Spine afterwards and
    has its deform flag on as before, not the flag that the bone named
    Spine had; the flag found under the name Spine is thereby the one
    that was found under the name Hips. *)
Lemma swap_flags_stay_with_bones :
  rename_bones dotted_unique_name three_bones (swap_mapping HIPS (lit "Spine"))
  = Some ([ plain_bone (lit "Spine") true false;
            plain_bone HIPS false true;
            plain_bone (lit "Head") true true ], (2, 2))
  /\ map use_deform three_bones = [true; false; true]
  /\ deform_of three_bones HIPS = Some true
  /\ deform_of three_bones (lit "Spine") = Some false.
Proof. repeat apply conj; vm_compute; reflexivity. Qed.

(** ** Loading a mapping file *)

(** C7.  When the file cannot be read, [execute] of Load returns
    CANCELLED with one ERROR report and the scene it was given: the rows
    of the table, [mapping_path] and every other property are the same.
    Parsing itself cannot fail: [parse_mapping_txt] is total. *)
Theorem load_failure_leaves_table (ensure_ext_txt : str -> str)
        (read_file : str -> option str) (sc : Scene) (path : str) :
  read_file path = None ->
  exists msg,
    load_execute ensure_ext_txt read_file sc path = (sc, CANCELLED, [(ERROR, msg)]).
Proof.
  intros H. unfold load_execute, _parse_mapping_file.
  destruct (truthy path); cbn [negb].
  - rewrite H. eexists; reflexivity.
  - eexists; reflexivity.
Qed.

Lemma dict_get_none_keys (V : Type) (m : pydict V) (k : str) :
  dict_get m k = None <-> ~ In k (map fst m).
Proof.
  induction m as [|[k' v'] m IH]; simpl.
  - tauto.
  - destruct (str_eqb k' k) eqn:E.
    + apply str_eqb_eq in E. split; [discriminate | tauto].
    + apply str_eqb_neq in E. rewrite IH. tauto.
Qed.

Lemma dict_set_unique (V : Type) (m : pydict V) (k : str) (v : V) :
  unique_keys m -> unique_keys (dict_set m k v).
Proof.
  unfold unique_keys. induction m as [|[k' v'] m IH]; simpl; intros H.
  - repeat constructor. tauto.
  - inversion H as [|? ? Hn Hm]; subst.
    destruct (str_eqb k' k) eqn:E; simpl.
    + constructor; assumption.
    + constructor; [|apply IH; exact Hm].
      intros Hin. apply Hn. clear IH H Hn Hm.
      induction m as [|[k1 v1] m IHm]; simpl in *.
      * destruct Hin as [Hin|[]]. apply str_eqb_neq in E. congruence.
      * destruct (str_eqb k1 k); simpl in Hin; tauto.
Qed.

Lemma parse_line_unique (d : dict) (raw : str) :
  unique_keys d -> unique_keys (parse_line d raw).
Proof.
  intros H. unfold parse_line.
  destruct (negb (truthy (strip raw)) || startswith (strip raw) [HASH]); [exact H|].
  destruct (contains (strip raw) [EQUALS]); [|exact H].
  destruct (split1 EQUALS (strip raw)) as [old new].
  destruct (truthy (strip old)); [|exact H].
  apply dict_set_unique. exact H.
Qed.

Lemma parse_unique_keys (text : str) : unique_keys (parse_mapping_txt text).
Proof.
  unfold parse_mapping_txt.
  assert (G : forall lines d, unique_keys d -> unique_keys (fold_left parse_line lines d)).
  { induction lines as [|l lines IH]; intros d H; [exact H|].
    simpl. apply IH. apply parse_line_unique. exact H. }
  apply G. constructor.
Qed.

Lemma index_rows_get (rows : list BoneMapItem) (n : nat) (d : pydict nat)
      (old : str) (k : nat) :
  dict_get (index_rows rows n d) old = Some k ->
  (exists it, n <= k /\ nth_error rows (k - n) = Some it /\ original_name it = old)
  \/ dict_get d old = Some k.
Proof.
  revert n d; induction rows as [|it rows IH]; intros n d H; [right; exact H|].
  cbn [index_rows] in H. apply IH in H. destruct H as [(it' & Hle & Hn & Ho) | H].
  - left. exists it'. split; [lia|]. split; [|exact Ho].
    replace (k - n) with (S (k - S n)) by lia. exact Hn.
  - destruct (str_eqb (original_name it) old) eqn:E.
    + apply str_eqb_eq in E. subst old. rewrite dict_set_get_same in H.
      inversion H; subst k. left. exists it. rewrite Nat.sub_diag. auto.
    + apply str_eqb_neq in E. rewrite dict_set_get_other in H by exact E.
      right. exact H.
Qed.

Lemma index_rows_mem (rows : list BoneMapItem) (n : nat) (d : pydict nat)
      (old : str) :
  dict_mem (index_rows rows n d) old = has_original rows old || dict_mem d old.
Proof.
  revert n d; induction rows as [|it rows IH]; intros n d; [reflexivity|].
  cbn [index_rows has_original existsb]. fold (has_original rows old).
  rewrite IH. unfold dict_mem.
  destruct (str_eqb (original_name it) old) eqn:E.
  - apply str_eqb_eq in E. subst old. rewrite dict_set_get_same.
    rewrite !orb_true_r. reflexivity.
  - apply str_eqb_neq in E. rewrite dict_set_get_other by exact E.
    reflexivity.
Qed.

Lemma list_set_app_l (A : Type) (l1 l2 : list A) (i : nat) (x : A) :
  i < List.length l1 -> list_set (l1 ++ l2) i x = list_set l1 i x ++ l2.
Proof.
  revert i; induction l1 as [|y l1 IH]; intros [|i] H; simpl in *; try lia.
  - reflexivity.
  - rewrite IH by lia. reflexivity.
Qed.

Lemma merge_rows_split (mapping : dict) (idx : pydict nat)
      (R E : list BoneMapItem) (u a : nat) :
  (forall old i, dict_get idx old = Some i -> i < List.length R) ->
  fst (merge_rows mapping idx (R ++ E) u a)
  = update_rows mapping idx R ++ E
    ++ map fresh_row (filter (fun kv => negb (dict_mem idx (fst kv))) mapping).
Proof.
  revert R E u a; induction mapping as [|[old new] mapping IH]; intros R E u a Hidx.
  - simpl. rewrite app_nil_r. reflexivity.
  - cbn [merge_rows update_rows fold_left filter fst]. unfold dict_mem.
    destruct (dict_get idx old) as [i|] eqn:G.
    + pose proof (Hidx _ _ G) as Hlt. rewrite nth_error_app1 by exact Hlt.
      destruct (nth_error R i) as [it|] eqn:En.
      * cbn [negb]. rewrite list_set_app_l by exact Hlt.
        change {| original_name := original_name it; current_name := current_name it;
                  target_name := or_else new old; cap_src := old;
                  cap_tgt := or_else new old; mark := mark it |}
          with (merged_row it (old, new)).
        rewrite IH by (intros; rewrite length_list_set; eauto).
        reflexivity.
      * apply nth_error_None in En. lia.
    + cbn [negb map]. rewrite <- app_assoc.
      rewrite IH by exact Hidx.
      change {| original_name := old; current_name := [];
                target_name := or_else new old; cap_src := old;
                cap_tgt := or_else new old; mark := mark blank_row |}
        with (fresh_row (old, new)).
      rewrite <- !app_assoc. reflexivity.
Qed.

Lemma update_rows_length (mapping : dict) (idx : pydict nat) (R : list BoneMapItem) :
  List.length (update_rows mapping idx R) = List.length R.
Proof.
  unfold update_rows. revert R; induction mapping as [|kv mapping IH]; intros R;
    [reflexivity|].
  cbn [fold_left]. rewrite IH.
  destruct (dict_get idx (fst kv)); [|reflexivity].
  destruct (nth_error R n); [apply length_list_set | reflexivity].
Qed.

(** Every row that was there keeps its place, its original name, its
    Current and its mark; its Rename is either the one it had or the one
    the file gives for its original name. *)
Lemma update_rows_keeps (mapping : dict) (idx : pydict nat)
      (R : list BoneMapItem) (k : nat) (it : BoneMapItem) :
  nth_error R k = Some it ->
  exists it', nth_error (update_rows mapping idx R) k = Some it'
              /\ original_name it' = original_name it
              /\ current_name it' = current_name it
              /\ mark it' = mark it
              /\ (it' = it
                  \/ exists kv, In kv mapping /\ dict_get idx (fst kv) = Some k
                                /\ it' = merged_row it kv).
Proof.
  unfold update_rows. revert R it; induction mapping as [|kv mapping IH];
    intros R it Hk.
  - exists it. simpl. auto 6.
  - cbn [fold_left].
    destruct (dict_get idx (fst kv)) as [i|] eqn:G.
    + destruct (nth_error R i) as [it0|] eqn:Ei.
      * destruct (Nat.eq_dec i k) as [->|Hne].
        -- assert (it0 = it) by congruence. subst it0.
           destruct (IH (list_set R k (merged_row it kv)) (merged_row it kv))
             as (it' & H1 & H2 & H3 & H4 & H5).
           { eapply nth_error_list_set_some. exact Hk. }
           exists it'. repeat split; auto.
           right. destruct H5 as [-> | (kv' & Hin & Hg & ->)].
           ++ exists kv. simpl. auto.
           ++ exists kv'. simpl. auto.
        -- destruct (IH (list_set R i (merged_row it0 kv)) it)
             as (it' & H1 & H2 & H3 & H4 & H5).
           { rewrite nth_error_list_set_ne by exact Hne. exact Hk. }
           exists it'. repeat split; auto.
           destruct H5 as [-> | (kv' & Hin & Hg & ->)]; [left; reflexivity|].
           right. exists kv'. simpl. auto.
      * destruct (IH R it Hk) as (it' & H1 & H2 & H3 & H4 & H5).
        exists it'. repeat split; auto.
        destruct H5 as [-> | (kv' & Hin & Hg & ->)]; [left; reflexivity|].
        right. exists kv'. simpl. auto.
    + destruct (IH R it Hk) as (it' & H1 & H2 & H3 & H4 & H5).
      exists it'. repeat split; auto.
      destruct H5 as [-> | (kv' & Hin & Hg & ->)]; [left; reflexivity|].
      right. exists kv'. simpl. auto.
Qed.

Lemma in_keys (V : Type) (m : pydict V) (k : str) (v : V) :
  In (k, v) m -> In k (map fst m).
Proof. intros H. apply (in_map fst) in H. exact H. Qed.

Lemma update_rows_cons (kv : str * str) (mapping : dict) (idx : pydict nat)
      (R : list BoneMapItem) :
  update_rows (kv :: mapping) idx R
  = update_rows mapping idx
      match dict_get idx (fst kv) with
      | Some i =>
          match nth_error R i with
          | Some it => list_set R i (merged_row it kv)
          | None => R
          end
      | None => R
      end.
Proof. reflexivity. Qed.

Lemma update_rows_sets (mapping : dict) (idx : pydict nat)
      (R : list BoneMapItem) (k : nat) (it : BoneMapItem) (old new : str) :
  unique_keys mapping ->
  In (old, new) mapping ->
  dict_get idx old = Some k ->
  nth_error R k = Some it ->
  (forall kv, In kv mapping -> dict_get idx (fst kv) = Some k -> fst kv = old) ->
  nth_error (update_rows mapping idx R) k = Some (merged_row it (old, new)).
Proof.
  unfold unique_keys.
  revert R it; induction mapping as [|kv mapping IH]; intros R it Hu Hin G Hk Hsame;
    [contradiction|].
  inversion Hu as [|? ? Hnotin Hu']; subst.
  rewrite update_rows_cons.
  destruct Hin as [-> | Hin].
  - cbn [fst]. rewrite G, Hk.
    destruct (@update_rows_keeps mapping idx (list_set R k (merged_row it (old, new)))
                                 k (merged_row it (old, new)))
      as (it' & H1 & _ & _ & _ & H5).
    { eapply nth_error_list_set_some. exact Hk. }
    rewrite H1. destruct H5 as [-> | (kv' & Hin' & Hg & _)]; [reflexivity|].
    exfalso. apply Hnotin. simpl.
    rewrite <- (Hsame kv' (or_intror Hin') Hg).
    apply in_map. exact Hin'.
  - assert (Hsame' : forall kv0, In kv0 mapping ->
                                 dict_get idx (fst kv0) = Some k -> fst kv0 = old)
      by (intros; apply Hsame; [right; assumption | assumption]).
    destruct (dict_get idx (fst kv)) as [i|] eqn:Gi.
    + destruct (nth_error R i) as [it0|] eqn:Ei.
      * destruct (Nat.eq_dec i k) as [->|Hne].
        -- assert (it0 = it) by congruence. subst it0.
           rewrite (IH (list_set R k (merged_row it kv)) (merged_row it kv));
             auto.
           eapply nth_error_list_set_some. exact Hk.
        -- apply IH; auto. rewrite nth_error_list_set_ne by exact Hne. exact Hk.
      * apply IH; auto.
    + apply IH; auto.
Qed.

Lemma prefill_rows_map (bs : list Bone) (rows : list BoneMapItem) (n : nat) :
  fst (prefill_rows bs true rows n) = map (prefill_one bs) rows.
Proof.
  revert n; induction rows as [|it rows IH]; intros n; [reflexivity|].
  cbn [prefill_rows map andb]. unfold prefill_one at 1.
  destruct (truthy (current_name it)).
  - specialize (IH n). destruct (prefill_rows bs true rows n).
    simpl in *. subst. reflexivity.
  - destruct (_bone_exists bs (original_name it)).
    + specialize (IH (S n)). destruct (prefill_rows bs true rows (S n)).
      simpl in *. subst. reflexivity.
    + destruct (_bone_exists bs (target_name it)).
      * specialize (IH (S n)). destruct (prefill_rows bs true rows (S n)).
        simpl in *. subst. reflexivity.
      * specialize (IH n). destruct (prefill_rows bs true rows n).
        simpl in *. subst. reflexivity.
Qed.

Lemma index_rows_valid (rows : list BoneMapItem) (old : str) (k : nat) :
  dict_get (index_rows rows 0 []) old = Some k ->
  exists it, nth_error rows k = Some it /\ original_name it = old.
Proof.
  intros H. apply index_rows_get in H.
  destruct H as [(it & _ & Hn & Ho) | H]; [|discriminate].
  rewrite Nat.sub_0_r in Hn. eauto.
Qed.

(** C5.  A successful load merges the parsed file into the table.  The
    rows that were there stay in place, as many as before, each with its
    original name, its Current and its mark; a row whose original name
    the file gives again takes the Rename of the file (the original name
    itself when the file leaves it empty) and is not added a second time;
    the entries whose original name no row has are appended, in the
    order of the file (whose keys are pairwise different), with a blank
    Current.  After the merge Current is
    back-filled from the reference armature with [prefill_one]: only a
    blank Current is written, first from the original name, then from
    the Rename. *)
Theorem load_merges_without_loss (ensure_ext_txt : str -> str)
        (read_file : str -> option str) (sc : Scene) (path text : str) :
  truthy path = true ->
  read_file path = Some text ->
  let mapping := parse_mapping_txt text in
  let rows := bone_map (aj_props sc) in
  exists sc' U reports,
    load_execute ensure_ext_txt read_file sc path = (sc', FINISHED, reports)
    /\ objects sc' = objects sc
    /\ List.length U = List.length rows
    /\ bone_map (aj_props sc')
       = (let merged := U ++ map fresh_row (new_entries rows mapping) in
          match armature_at (objects sc) (current_armature (aj_props sc)) with
          | Some (_, arm) => map (prefill_one (bones arm)) merged
          | None => merged
          end)
    /\ (forall k it, nth_error rows k = Some it ->
          exists it', nth_error U k = Some it'
            /\ original_name it' = original_name it
            /\ current_name it' = current_name it
            /\ mark it' = mark it
            /\ (it' = it
                \/ exists new, In (original_name it, new) mapping
                               /\ it' = merged_row it (original_name it, new)))
    /\ (forall old new, In (old, new) mapping -> has_original rows old = true ->
          exists k it, nth_error rows k = Some it /\ original_name it = old
                       /\ nth_error U k = Some (merged_row it (old, new)))
    /\ (forall bs it, truthy (current_name it) = true -> prefill_one bs it = it)
    /\ unique_keys mapping.
Proof.
  intros Hp Hr mapping rows.
  set (idx := index_rows rows 0 []).
  assert (Hidx : forall old i, dict_get idx old = Some i -> i < List.length rows).
  { intros old i G. apply index_rows_valid in G. destruct G as (it & Hn & _).
    apply nth_error_Some. congruence. }
  pose proof (@merge_rows_split mapping idx rows [] 0 0 Hidx) as Hm.
  rewrite app_nil_r in Hm. cbn [app] in Hm.
  assert (Hf : filter (fun kv => negb (dict_mem idx (fst kv))) mapping
               = new_entries rows mapping).
  { unfold new_entries. apply filter_ext. intros kv. unfold idx.
    rewrite index_rows_mem. unfold dict_mem at 1. simpl. rewrite orb_false_r.
    reflexivity. }
  rewrite Hf in Hm.
  unfold load_execute, _parse_mapping_file. rewrite Hp, Hr. cbn [negb].
  fold mapping. fold rows. fold idx.
  destruct (merge_rows mapping idx rows 0 0) as [merged [updated added]] eqn:Em.
  simpl fst in Hm. subst merged.
  set (merged := update_rows mapping idx rows ++ map fresh_row (new_entries rows mapping)).
  set (props1 := set_mapping_path (set_bone_map (aj_props sc) merged)
                                  (ensure_ext_txt path)).
  set (props2 := if negb (Nat.eqb (List.length (bone_map props1)) 0)
                    && (Z.of_nat (List.length (bone_map props1)) <=? active_index props1)%Z
                 then set_active_index props1
                        (Z.of_nat (List.length (bone_map props1)) - 1)%Z
                 else props1).
  assert (Hb2 : bone_map props2 = merged).
  { unfold props2. destruct (_ && _); reflexivity. }
  assert (Hc2 : current_armature props2 = current_armature (aj_props sc)).
  { unfold props2. destruct (_ && _); reflexivity. }
  unfold _prefill_current_from_arm. rewrite Hc2, Hb2.
  exists (set_props sc
            (fst (match armature_at (objects sc) (current_armature (aj_props sc)) with
                  | Some (_, arm) =>
                      let (rows0, count) := prefill_rows (bones arm) true merged 0 in
                      (set_bone_map props2 rows0, count)
                  | None => (props2, 0)
                  end))),
         (update_rows mapping idx rows), [(INFO, lit "Merged ")].
  split.
  { destruct (armature_at (objects sc) (current_armature (aj_props sc)))
      as [[a arm]|]; [|reflexivity].
    destruct (prefill_rows (bones arm) true merged 0); reflexivity. }
  split; [reflexivity|].
  split; [apply update_rows_length|].
  split.
  { cbn [aj_props set_props].
    destruct (armature_at (objects sc) (current_armature (aj_props sc)))
      as [[a arm]|]; [|exact Hb2].
    pose proof (prefill_rows_map (bones arm) merged 0) as Hpm.
    destruct (prefill_rows (bones arm) true merged 0). simpl in *. exact Hpm. }
  split.
  { intros k it Hk.
    destruct (@update_rows_keeps mapping idx rows k it Hk)
      as (it' & H1 & H2 & H3 & H4 & H5).
    exists it'. repeat split; auto.
    destruct H5 as [-> | (kv & Hin & Hg & ->)]; [left; reflexivity|].
    right. apply index_rows_valid in Hg. destruct Hg as (it0 & Hn0 & Ho).
    assert (it0 = it) by (fold rows in Hn0; congruence). subst it0.
    exists (snd kv). rewrite Ho. rewrite <- surjective_pairing. auto. }
  split.
  { intros old new Hin Hhas.
    assert (Hmem : dict_mem idx old = true).
    { unfold idx. rewrite index_rows_mem, Hhas. reflexivity. }
    unfold dict_mem in Hmem. destruct (dict_get idx old) as [k|] eqn:G;
      [|discriminate].
    destruct (index_rows_valid _ _ G) as (it & Hn & Ho).
    exists k, it. repeat split; auto.
    apply update_rows_sets; auto.
    - apply parse_unique_keys.
    - intros kv Hkv Hg. apply index_rows_valid in Hg.
      destruct Hg as (it1 & Hn1 & Ho1). congruence. }
  split; [|apply parse_unique_keys].
  intros bs it Ht. unfold prefill_one. rewrite Ht. reflexivity.
Qed.

(** ** Saving the mapping table *)

Lemma save_rows_spec (rows : list BoneMapItem) (m : dict) :
  save_rows rows m
  = (map captured rows,
     fold_left (fun d it => if saved it
                            then dict_set d (original_name it) (target_name it)
                            else d) rows m).
Proof.
  revert m; induction rows as [|it rows IH]; intros m; [reflexivity|].
  cbn [save_rows map fold_left]. unfold captured at 1, saved.
  destruct (truthy (original_name it) && truthy (target_name it));
    rewrite IH; reflexivity.
Qed.

Lemma saved_mapping_get (rows : list BoneMapItem) (m : dict) (k : str) :
  dict_get (fold_left (fun d it => if saved it
                                   then dict_set d (original_name it) (target_name it)
                                   else d) rows m) k
  = match last_target rows k with
    | Some t => Some t
    | None => dict_get m k
    end.
Proof.
  revert m; induction rows as [|it rows IH]; intros m; [reflexivity|].
  cbn [fold_left last_target]. rewrite IH.
  destruct (last_target rows k); [reflexivity|].
  destruct (saved it); [|reflexivity]. cbn [andb].
  destruct (str_eqb (original_name it) k) eqn:E.
  - apply str_eqb_eq in E. subst k. apply dict_set_get_same.
  - apply str_eqb_neq in E. apply dict_set_get_other. exact E.
Qed.

Lemma saved_mapping_unique (rows : list BoneMapItem) (m : dict) :
  unique_keys m ->
  unique_keys (fold_left (fun d it => if saved it
                                      then dict_set d (original_name it) (target_name it)
                                      else d) rows m).
Proof.
  revert m; induction rows as [|it rows IH]; intros m H; [exact H|].
  cbn [fold_left]. apply IH. destruct (saved it); [|exact H].
  apply dict_set_unique. exact H.
Qed.


(** ** Live follow constraints *)

Lemma remove_prefixed_fst (cs : list Constraint) (n : nat) :
  fst (remove_prefixed cs n) = filter (fun c => negb (prefixed c)) cs.
Proof.
  revert n; induction cs as [|c cs IH]; intros n; [reflexivity|].
  cbn [remove_prefixed filter]. unfold prefixed at 1.
  destruct (startswith (con_name c) AJ_CON_PREFIX); cbn [negb].
  - apply IH.
  - specialize (IH n). destruct (remove_prefixed cs n). simpl in *. congruence.
Qed.

Lemma remove_from_bones_fst (bs : list Bone) (n : nat) :
  fst (remove_from_bones bs n) = map unfollow bs.
Proof.
  revert n; induction bs as [|pb bs IH]; intros n; [reflexivity|].
  cbn [remove_from_bones map].
  pose proof (remove_prefixed_fst (constraints pb) n) as Hc.
  destruct (remove_prefixed (constraints pb) n) as [cs k].
  specialize (IH k). destruct (remove_from_bones bs k). simpl in *.
  subst. reflexivity.
Qed.

Lemma filter_twice (A : Type) (f : A -> bool) (l : list A) :
  filter f (filter f l) = filter f l.
Proof.
  induction l as [|x l IH]; [reflexivity|]. simpl.
  destruct (f x) eqn:E; simpl; [rewrite E|]; congruence.
Qed.

Lemma follow_constraint_prefixed (mode : FollowMode) (A : nat) (s : str) :
  prefixed (follow_constraint mode A s) = true.
Proof. destruct mode; reflexivity. Qed.

Lemma with_follow_base (mode : FollowMode) (A : nat) (src : option str) (pb : Bone) :
  fst (remove_prefixed (constraints (with_follow mode A src pb)) 0)
  = constraints (unfollow pb).
Proof.
  rewrite remove_prefixed_fst. unfold with_follow, unfollow. cbn [constraints set_constraints].
  rewrite filter_app, filter_twice.
  destruct src as [s|]; cbn [filter].
  - rewrite follow_constraint_prefixed. cbn [negb]. apply app_nil_r.
  - apply app_nil_r.
Qed.

Lemma has_bone_names (bs bs' : list Bone) (n : str) :
  map bone_name bs' = map bone_name bs -> has_bone bs' n = has_bone bs n.
Proof.
  revert bs'; induction bs as [|b bs IH]; intros [|b' bs'] H; try discriminate;
    [reflexivity|].
  simpl in H. inversion H as [[H1 H2]].
  cbn [has_bone existsb]. fold (has_bone bs' n) (has_bone bs n).
  rewrite H1, (IH _ H2). reflexivity.
Qed.

Lemma bone_index_names (bs bs' : list Bone) (n : str) :
  map bone_name bs' = map bone_name bs -> bone_index bs' n = bone_index bs n.
Proof.
  revert bs'; induction bs as [|b bs IH]; intros [|b' bs'] H; try discriminate;
    [reflexivity|].
  simpl in H. inversion H as [[H1 H2]].
  cbn [bone_index]. rewrite H1, (IH _ H2). reflexivity.
Qed.

Lemma has_bone_index (bs : list Bone) (n : str) :
  has_bone bs n = true ->
  exists k b, bone_index bs n = Some k /\ nth_error bs k = Some b /\ bone_name b = n.
Proof.
  induction bs as [|b0 bs IH]; [discriminate|].
  cbn [has_bone existsb bone_index]. fold (has_bone bs n).
  destruct (str_eqb (bone_name b0) n) eqn:E.
  - intros _. exists 0, b0. apply str_eqb_eq in E. auto.
  - simpl. intros H. destruct (IH H) as (k & b & Hk & Hn & Hb).
    exists (S k), b. rewrite Hk. auto.
Qed.

Lemma list_set_map_update (A B : Type) (f f' : A -> B) (l : list A)
      (k : nat) (x : A) :
  nth_error l k = Some x ->
  (forall k' y, nth_error l k' = Some y -> k' <> k -> f' y = f y) ->
  list_set (map f l) k (f' x) = map f' l.
Proof.
  revert k; induction l as [|z l IH]; intros [|k] Hk Hoth; try discriminate.
  - simpl in Hk. inversion Hk; subst. simpl. f_equal.
    apply map_ext_in. intros y Hy. destruct (In_nth_error _ _ Hy) as [k' Hk'].
    symmetry. apply (Hoth (S k') y); [exact Hk' | discriminate].
  - simpl in Hk. simpl. f_equal.
    + symmetry. apply (Hoth 0 z); [reflexivity | discriminate].
    + apply IH; [exact Hk|]. intros k' y Hy Hne.
      apply (Hoth (S k') y); [exact Hy | congruence].
Qed.

Section FollowLoop.

Variables (objs2 : list Object) (A B : nat) (oA oB : Object) (mode : FollowMode).
Hypothesis HAB : A <> B.
Hypothesis HA : nth_error objs2 A = Some oA.
Hypothesis HB : B < List.length objs2.
Hypothesis Hnd : NoDup (map bone_name (bones oB)).

Local Abbreviation render cur :=
  (map (fun pb => with_follow mode A (cur (bone_name pb)) pb) (bones oB)).
Local Abbreviation state cur :=
  (list_set objs2 B (set_bones oB (render cur))).

Lemma render_names (cur : str -> option str) :
  map bone_name (render cur) = map bone_name (bones oB).
Proof. rewrite map_map. reflexivity. Qed.

Lemma state_ext (cur cur' : str -> option str) :
  (forall n, cur n = cur' n) -> state cur = state cur'.
Proof.
  intros H. f_equal. f_equal. apply map_ext. intros pb. rewrite H. reflexivity.
Qed.

Lemma state_exists_A (cur : str -> option str) (n : str) :
  bone_exists_at (state cur) A n = _bone_exists (bones oA) n.
Proof.
  unfold bone_exists_at. rewrite nth_error_list_set_ne by congruence.
  rewrite HA. reflexivity.
Qed.

Lemma state_exists_B (cur : str -> option str) (n : str) :
  bone_exists_at (state cur) B n = _bone_exists (bones oB) n.
Proof.
  unfold bone_exists_at. rewrite nth_error_list_set_eq by exact HB.
  unfold _bone_exists. cbn [bones set_bones].
  rewrite (@has_bone_names _ _ n (render_names cur)). reflexivity.
Qed.

Lemma install_step (cur : str -> option str) (src dst : str) :
  _bone_exists (bones oB) dst = true ->
  install_follow (state cur) mode A src B dst
  = state (fun n => if str_eqb dst n then Some src else cur n).
Proof.
  intros He. unfold _bone_exists in He. apply andb_true_iff in He.
  destruct He as [_ He].
  destruct (@has_bone_index _ _ He) as (k & pb & Hk & Hn & Hname).
  assert (L : list_set (render cur) k
                (set_constraints (with_follow mode A (cur (bone_name pb)) pb)
                   (constraints (unfollow pb) ++ [follow_constraint mode A src]))
              = render (fun n => if str_eqb dst n then Some src else cur n)).
  { replace (set_constraints (with_follow mode A (cur (bone_name pb)) pb)
               (constraints (unfollow pb) ++ [follow_constraint mode A src]))
      with ((fun pb0 => with_follow mode A
                          (if str_eqb dst (bone_name pb0) then Some src
                           else cur (bone_name pb0)) pb0) pb)
      by (cbv beta; rewrite Hname, str_eqb_refl; reflexivity).
    apply (@list_set_map_update _ _
             (fun pb0 => with_follow mode A (cur (bone_name pb0)) pb0)
             (fun pb0 => with_follow mode A
                           (if str_eqb dst (bone_name pb0) then Some src
                            else cur (bone_name pb0)) pb0) _ _ _ Hn).
    intros k' y Hy Hne.
    assert (Hd : str_eqb dst (bone_name y) = false).
    { apply str_eqb_neq. intros E. apply Hne.
      apply (@names_sole (bones oB) _ _ _ _ Hnd Hy Hn). congruence. }
    rewrite Hd. reflexivity. }
  unfold install_follow. rewrite nth_error_list_set_eq by exact HB.
  cbn [bones set_bones].
  rewrite (@bone_index_names _ _ dst (render_names cur)), Hk.
  rewrite nth_error_map, Hn. cbn [option_map].
  rewrite with_follow_base, L, list_set_twice. reflexivity.
Qed.

Lemma follow_loop (rows : list BoneMapItem) (cur : str -> option str) (c : nat) :
  exists c',
    add_follow_rows rows A B A2B mode (state cur) c
    = (state (fun n => match follow_source (bones oA) (bones oB) rows n with
                       | Some s => Some s
                       | None => cur n
                       end), c').
Proof.
  revert cur c; induction rows as [|it rows IH]; intros cur c.
  - exists c. reflexivity.
  - cbn [add_follow_rows].
    destruct (truthy (original_name it) && truthy (target_name it)) eqn:Et;
      cbn [negb].
    + rewrite state_exists_A, state_exists_B.
      destruct (_bone_exists (bones oA) (original_name it)
                && _bone_exists (bones oB) (target_name it)) eqn:Ee; cbn [negb].
      * pose proof Ee as Ee'.
        apply andb_true_iff in Ee. destruct Ee as [_ EB].
        rewrite (@install_step cur (original_name it) _ EB).
        destruct (IH (fun n => if str_eqb (target_name it) n
                               then Some (original_name it) else cur n) (S c))
          as [c' ->].
        exists c'. do 3 f_equal. apply map_ext. intros pb. f_equal.
        cbn [follow_source].
        destruct (follow_source (bones oA) (bones oB) rows (bone_name pb));
          [reflexivity|].
        unfold eligible_a2b. rewrite Et, Ee'. cbn [andb].
        destruct (str_eqb (target_name it) (bone_name pb)); reflexivity.
      * destruct (IH cur c) as [c' ->]. exists c'.
        do 3 f_equal. apply map_ext. intros pb. f_equal.
        cbn [follow_source].
        destruct (follow_source (bones oA) (bones oB) rows (bone_name pb));
          [reflexivity|].
        unfold eligible_a2b. rewrite Et, Ee. reflexivity.
    + destruct (IH cur c) as [c' ->]. exists c'.
      do 3 f_equal. apply map_ext. intros pb. f_equal.
      cbn [follow_source].
      destruct (follow_source (bones oA) (bones oB) rows (bone_name pb));
        [reflexivity|].
      unfold eligible_a2b. rewrite Et. reflexivity.
Qed.

End FollowLoop.

Lemma remove_from_arm_fst (objs : list Object) (arm : option nat) (n : nat)
      (i : nat) (o : Object) :
  armature_at objs arm = Some (i, o) ->
  fst (remove_from_arm objs arm n)
  = list_set objs i (set_bones o (map unfollow (bones o))).
Proof.
  intros H. unfold remove_from_arm. rewrite H.
  pose proof (remove_from_bones_fst (bones o) n) as Hb.
  destruct (remove_from_bones (bones o) n). simpl in *. subst. reflexivity.
Qed.

Lemma armature_at_intro (objs : list Object) (i : nat) (o : Object) :
  nth_error objs i = Some o -> obj_type o = ARMATURE ->
  armature_at objs (Some i) = Some (i, o).
Proof. intros H T. unfold armature_at. rewrite H, T. reflexivity. Qed.

Lemma bone_exists_unfollow (bs : list Bone) (n : str) :
  _bone_exists (map unfollow bs) n = _bone_exists bs n.
Proof.
  unfold _bone_exists. f_equal. apply has_bone_names.
  rewrite map_map. reflexivity.
Qed.

Lemma follow_source_unfollow (bsA bsB : list Bone) (rows : list BoneMapItem)
      (n : str) :
  follow_source (map unfollow bsA) bsB rows n = follow_source bsA bsB rows n.
Proof.
  induction rows as [|it rows IH]; [reflexivity|].
  cbn [follow_source]. rewrite IH. unfold eligible_a2b.
  rewrite bone_exists_unfollow. reflexivity.
Qed.

Lemma unfollow_not_prefixed (bs : list Bone) :
  prefixed_count (map unfollow bs) = 0.
Proof.
  assert (H : forall cs, filter prefixed (filter (fun c => negb (prefixed c)) cs) = []).
  { induction cs as [|c cs IHc]; [reflexivity|]. cbn [filter].
    destruct (prefixed c) eqn:E; cbn [negb filter]; [exact IHc|].
    rewrite E. exact IHc. }
  unfold prefixed_count. rewrite map_map. unfold list_sum.
  induction bs as [|pb bs IH]; [reflexivity|].
  cbn [map fold_right]. rewrite IH.
  unfold unfollow. cbn [constraints set_constraints].
  rewrite H. reflexivity.
Qed.

Lemma with_follow_prefixed (mode : FollowMode) (A : nat) (src : option str)
      (pb : Bone) (c : Constraint) :
  In c (constraints (with_follow mode A src pb)) -> prefixed c = true ->
  exists s, src = Some s /\ c = follow_constraint mode A s.
Proof.
  unfold with_follow, unfollow. cbn [constraints set_constraints].
  intros Hin Hp. apply in_app_or in Hin. destruct Hin as [Hin | Hin].
  - apply filter_In in Hin. destruct Hin as [_ Hn]. rewrite Hp in Hn. discriminate.
  - destruct src as [s|]; [|contradiction].
    destruct Hin as [<- | []]. exists s. auto.
Qed.

Lemma follow_step_one_direction (sc : Scene) (c : FollowCommand) :
  one_direction (follow_step sc c).
Proof.
  unfold one_direction.
  destruct c; unfold follow_step.
  - unfold toggle_follow_a2b_execute.
    destruct (live_follow_a2b (aj_props sc)) eqn:E; cbn [negb set_live_follow_a2b live_follow_a2b].
    + destruct (_remove_follow_constraints _ _). reflexivity.
    + destruct (_remove_follow_constraints _ _).
      destruct (_add_follow_constraints _ _ _). reflexivity.
  - unfold toggle_follow_b2a_execute.
    destruct (live_follow_b2a (aj_props sc)) eqn:E; cbn [negb set_live_follow_b2a live_follow_b2a].
    + destruct (_remove_follow_constraints _ _). cbn. apply andb_false_r.
    + destruct (_remove_follow_constraints _ _).
      destruct (_add_follow_constraints _ _ _). reflexivity.
  - unfold clear_follow_execute.
    destruct (_remove_follow_constraints _ _). reflexivity.
Qed.

Lemma follow_steps_one_direction (cmds : list FollowCommand) (sc : Scene) :
  one_direction sc -> one_direction (fold_left follow_step cmds sc).
Proof.
  revert sc; induction cmds as [|c cmds IH]; intros sc H; [exact H|].
  simpl. apply IH. apply follow_step_one_direction.
Qed.

(** C6, amended.  With two different armatures as Source and Target and
    pairwise different bone names on the Target, turning Source->Target
    follow on (also while Target->Source is on) leaves this state: the
    flag of Source->Target is set and that of Target->Source is not; no
    pose bone of the Source carries a reserved-prefix constraint; a pose
    bone of the Target carries its other constraints followed by one
    follow constraint if an eligible row names it as Rename, and by none
    otherwise; that constraint targets the Source armature and the
    original name of the last such row.  So there is one reserved-prefix
    constraint per Target bone named by an eligible row, not one per
    eligible row.  After any sequence of the three follow commands at
    most one direction is flagged. *)
Theorem enabling_a2b_replaces_b2a (sc : Scene) (A B : nat) (oA oB : Object) :
  source_armature (aj_props sc) = Some A ->
  target_armature (aj_props sc) = Some B ->
  A <> B ->
  nth_error (objects sc) A = Some oA -> obj_type oA = ARMATURE ->
  nth_error (objects sc) B = Some oB -> obj_type oB = ARMATURE ->
  NoDup (map bone_name (bones oB)) ->
  live_follow_a2b (aj_props sc) = false ->
  let sc' := fst (fst (toggle_follow_a2b_execute sc)) in
  let rows := bone_map (aj_props sc) in
  let mode := follow_mode (aj_props sc) in
  live_follow_a2b (aj_props sc') = true
  /\ live_follow_b2a (aj_props sc') = false
  /\ objects sc'
     = list_set
         (list_set (objects sc) A (set_bones oA (map unfollow (bones oA))))
         B (set_bones oB
              (map (fun pb =>
                      with_follow mode A
                        (follow_source (bones oA) (bones oB) rows (bone_name pb)) pb)
                   (bones oB)))
  /\ prefixed_count (map unfollow (bones oA)) = 0
  /\ (forall src pb c,
        In c (constraints (with_follow mode A src pb)) -> prefixed c = true ->
        exists s, src = Some s /\ c = follow_constraint mode A s
                  /\ con_target c = Some A /\ con_subtarget c = Some s)
  /\ (forall cmds sc0, one_direction sc0 ->
                       one_direction (fold_left follow_step cmds sc0)).
Proof.
  intros HsA HsB HAB HnA HtA HnB HtB Hnd Hoff sc' rows mode.
  set (objs := objects sc) in *.
  set (oA1 := set_bones oA (map unfollow (bones oA))).
  set (objs1 := list_set objs A oA1).
  assert (HltA : A < List.length objs) by (apply nth_error_Some; congruence).
  assert (HltB : B < List.length objs) by (apply nth_error_Some; congruence).
  assert (HA1 : nth_error objs1 A = Some oA1)
    by (apply nth_error_list_set_eq; exact HltA).
  assert (HB1 : nth_error objs1 B = Some oB)
    by (unfold objs1; rewrite nth_error_list_set_ne by exact HAB; exact HnB).
  assert (HltB1 : B < List.length objs1)
    by (unfold objs1; rewrite length_list_set; exact HltB).
  set (p := set_live_follow_b2a (set_live_follow_a2b (aj_props sc) true) false).
  assert (Hrem : fst (_remove_follow_constraints objs p)
                 = list_set objs1 B (set_bones oB (map unfollow (bones oB)))).
  { unfold _remove_follow_constraints.
    change (source_armature p) with (source_armature (aj_props sc)).
    change (target_armature p) with (target_armature (aj_props sc)).
    rewrite HsA, HsB.
    pose proof (@remove_from_arm_fst objs (Some A) 0 A oA
                  (@armature_at_intro objs A oA HnA HtA)) as H1.
    destruct (remove_from_arm objs (Some A) 0) as [o1 n1]. simpl in H1. subst o1.
    fold oA1. fold objs1.
    apply remove_from_arm_fst. apply armature_at_intro; assumption. }
  assert (Hstart : list_set objs1 B (set_bones oB (map unfollow (bones oB)))
                   = list_set objs1 B
                       (set_bones oB
                          (map (fun pb => with_follow mode A
                                            ((fun _ : str => @None str) (bone_name pb)) pb)
                               (bones oB)))).
  { do 2 f_equal. apply map_ext. intros pb. unfold with_follow.
    rewrite app_nil_r. reflexivity. }
  destruct (@follow_loop objs1 A B oA1 oB mode HAB HA1 HltB1 Hnd rows
                         (fun _ => None) 0) as [c' Hloop].
  assert (Hadd : fst (_add_follow_constraints
                        (list_set objs1 B (set_bones oB (map unfollow (bones oB))))
                        p A2B)
                 = list_set objs1 B
                     (set_bones oB
                        (map (fun pb =>
                                with_follow mode A
                                  (follow_source (bones oA) (bones oB) rows
                                                 (bone_name pb)) pb)
                             (bones oB)))).
  { unfold _add_follow_constraints.
    change (source_armature p) with (source_armature (aj_props sc)).
    change (target_armature p) with (target_armature (aj_props sc)).
    change (bone_map p) with rows. change (follow_mode p) with mode.
    rewrite HsA, HsB.
    rewrite (@armature_at_intro
               (list_set objs1 B (set_bones oB (map unfollow (bones oB)))) A oA1);
      [| rewrite nth_error_list_set_ne by congruence; exact HA1 | exact HtA].
    rewrite (@armature_at_intro
               (list_set objs1 B (set_bones oB (map unfollow (bones oB)))) B
               (set_bones oB (map unfollow (bones oB))));
      [| apply nth_error_list_set_eq; exact HltB1 | exact HtB].
    rewrite Hstart, Hloop. cbn [fst].
    do 2 f_equal. apply map_ext. intros pb. f_equal.
    unfold oA1. cbn [bones set_bones].
    rewrite follow_source_unfollow.
    destruct (follow_source (bones oA) (bones oB) rows (bone_name pb)); reflexivity. }
  assert (Hrun : sc' = set_props
                         (set_objects sc
                            (fst (_add_follow_constraints
                                    (fst (_remove_follow_constraints objs p)) p A2B)))
                         p).
  { unfold sc', toggle_follow_a2b_execute. rewrite Hoff. cbn [negb].
    change (live_follow_a2b (set_live_follow_a2b (aj_props sc) true)) with true.
    cbv iota. fold p. fold objs.
    destruct (_remove_follow_constraints objs p) as [o1 n1]. cbn [fst].
    destruct (_add_follow_constraints o1 p A2B) as [o2 n2]. reflexivity. }
  split; [rewrite Hrun; reflexivity|].
  split; [rewrite Hrun; reflexivity|].
  split; [rewrite Hrun, Hrem, Hadd; reflexivity|].
  split; [apply unfollow_not_prefixed|].
  split; [|intros cmds sc0; apply follow_steps_one_direction].
  intros src pb c Hin Hp.
  destruct (@with_follow_prefixed mode A src pb c Hin Hp) as (s & -> & ->).
  exists s. repeat split; destruct mode; reflexivity.
Qed.

(** C6 as stated fails when two eligible rows name the same Target bone:
    in [follow_scene] both rows are eligible, and after Source->Target
    follow is turned on the Target armature carries one reserved-prefix
    constraint, that of the last row, not two. *)
Lemma follow_rows_sharing_a_target :
  let sc' := fst (fst (toggle_follow_a2b_execute follow_scene)) in
  match nth_error (objects follow_scene) 0, nth_error (objects follow_scene) 1,
        nth_error (objects sc') 0, nth_error (objects sc') 1 with
  | Some oA, Some oB, Some oA', Some oB' =>
      List.length (filter (eligible_a2b (bones oA) (bones oB))
                          (bone_map (aj_props follow_scene))) = 2
      /\ prefixed_count (bones oB') = 1
      /\ prefixed_count (bones oA') = 0
      /\ map constraints (bones oB')
         = [[follow_constraint ROT_ONLY 0 (lit "arm.R")]]
  | _, _, _, _ => False
  end.
Proof. vm_compute. repeat split; reflexivity. Qed.

(** ** Export of the current action when the exporter raises *)

(** C4 at a failing input.  Export of [export_scene BVH] with an exporter
    that raises is cancelled with an error report; the frame range, the
    world matrix, the bone names, the vertex groups and the curve paths
    are those from before.  But the empty object made for the BVH
    rotation is still among the objects and the root pose bone still
    carries its rotation constraint: the clean-up of the helper stands
    after the exporter call inside [try] and is skipped.  The same scene
    exported as FBX with a failing exporter comes back as it was, and so
    does the BVH export when the exporter returns. *)
Theorem bvh_failure_leaves_rotation_helper :
  exists sc',
    export_current_action_execute dotted_unique_name false (export_scene BVH)
    = Some (sc', CANCELLED, [(ERROR, lit "Export failed: ")])
    /\ frame_start sc' = frame_start (export_scene BVH)
    /\ frame_end sc' = frame_end (export_scene BVH)
    /\ actions sc' = actions (export_scene BVH)
    /\ map matrix_world (firstn 2 (objects sc'))
       = map matrix_world (objects (export_scene BVH))
    /\ map (fun o => map bone_name (bones o)) (firstn 2 (objects sc'))
       = map (fun o => map bone_name (bones o)) (objects (export_scene BVH))
    /\ map vertex_groups (firstn 2 (objects sc'))
       = map vertex_groups (objects (export_scene BVH))
    /\ List.length (objects (export_scene BVH)) = 2
    /\ List.length (objects sc') = 3
    /\ nth_error (objects sc') 2 = Some (bvh_helper 90 0 0)
    /\ map (fun o => map constraints (bones o)) (firstn 1 (objects sc'))
       = [[[bvh_constraint 2]; []]]
    /\ export_current_action_execute dotted_unique_name false (export_scene FBX)
       = Some (export_scene FBX, CANCELLED, [(ERROR, lit "Export failed: ")])
    /\ export_current_action_execute dotted_unique_name true (export_scene BVH)
       = Some (export_scene BVH, FINISHED, [(INFO, lit "Wrote ")]).
Proof.
  eexists. split; [vm_compute; reflexivity|].
  repeat split; vm_compute; reflexivity.
Qed.

Lemma length_animation_data_create (objs : list Object) (arm : nat) :
  List.length (animation_data_create objs arm) = List.length objs.
Proof.
  unfold animation_data_create. destruct (nth_error objs arm); [|reflexivity].
  destruct (animation_data o); [reflexivity | apply length_list_set].
Qed.

Lemma nth_error_app_last (A : Type) (l : list A) (x : A) :
  nth_error (l ++ [x]) (List.length l) = Some x.
Proof. induction l; simpl; auto. Qed.

(** Whatever the scene: with format BVH, no temporary rename and an
    exporter that raises, the frame range is restored and the helper
    empty is still the last of the objects when [execute] returns. *)
Lemma bvh_failure_keeps_helper (uniq : list str -> str -> str) (sc : Scene)
      (arm : nat) (o : Object) :
  export_format (aj_props sc) = BVH ->
  rename_on_export (aj_props sc) = false ->
  armature_at (objects sc)
              match export_side (aj_props sc) with
              | TARGET => target_armature (aj_props sc)
              | SOURCE => source_armature (aj_props sc)
              end = Some (arm, o) ->
  exists sc',
    export_current_action_execute uniq false sc
    = Some (sc', CANCELLED, [(ERROR, lit "Export failed: ")])
    /\ frame_start sc' = frame_start sc
    /\ frame_end sc' = frame_end sc
    /\ List.length (objects sc') = S (List.length (objects sc))
    /\ nth_error (objects sc') (List.length (objects sc))
       = Some (bvh_helper (rot_x (aj_props sc)) (rot_y (aj_props sc))
                          (rot_z (aj_props sc))).
Proof.
  intros Hf Hr Ha.
  pose proof (@armature_at_nth _ _ _ _ Ha) as (_ & Hn & _).
  assert (Hlt : arm < List.length (objects sc)) by (apply nth_error_Some; congruence).
  unfold export_current_action_execute. rewrite Ha.
  unfold _apply_temp_mapping_if_needed. rewrite Hr. cbn [negb].
  rewrite Hf. cbn [andb].
  set (objs2 := animation_data_create (objects sc) arm).
  assert (L2 : List.length objs2 = List.length (objects sc))
    by apply length_animation_data_create.
  set (sc2 := set_objects sc objs2).
  set (sc3 := match action_of sc2 arm with
              | Some a => set_frame_range sc2 (py_int (fst (frame_range a)))
                                          (py_int (snd (frame_range a)))
              | None => sc2
              end).
  assert (O3 : objects sc3 = objs2).
  { unfold sc3. destruct (action_of sc2 arm); reflexivity. }
  assert (P3 : aj_props sc3 = aj_props sc).
  { unfold sc3. destruct (action_of sc2 arm); reflexivity. }
  unfold _temporarily_rotate_world. cbn [rotate_each world_originals].
  rewrite O3.
  destruct (nth_error objs2 arm) as [o2|] eqn:E2;
    [| apply nth_error_None in E2; lia].
  cbn [_revert_temp_mapping].
  unfold _apply_bvh_rotation_to_roots.
  assert (E3 : nth_error
                 (list_set objs2 arm (set_matrix_world o2
                    (ROT (rot_x (aj_props sc)) (rot_y (aj_props sc))
                         (rot_z (aj_props sc)) (matrix_world o2)))
                  ++ [bvh_helper (rot_x (aj_props sc)) (rot_y (aj_props sc))
                                 (rot_z (aj_props sc))]) arm
               = Some (set_matrix_world o2
                    (ROT (rot_x (aj_props sc)) (rot_y (aj_props sc))
                         (rot_z (aj_props sc)) (matrix_world o2)))).
  { rewrite nth_error_app1 by (rewrite length_list_set; lia).
    apply nth_error_list_set_eq. lia. }
  rewrite E3. cbv beta iota zeta. cbn [_restore_world].
  rewrite nth_error_list_set_eq
    by (rewrite length_app, length_list_set; simpl; lia).
  eexists. split; [reflexivity|].
  cbn [frame_start frame_end set_frame_range objects set_objects].
  split; [reflexivity|]. split; [reflexivity|]. split.
  - rewrite !length_list_set, length_app, length_list_set, L2. simpl. lia.
  - rewrite !nth_error_list_set_ne by lia.
    rewrite <- L2.
    rewrite <- (length_list_set objs2 arm
                  (set_matrix_world o2
                    (ROT (rot_x (aj_props sc)) (rot_y (aj_props sc))
                         (rot_z (aj_props sc)) (matrix_world o2)))).
    apply nth_error_app_last.
Qed.

(** ** The theorems at sample inputs *)


Lemma roundtrip_clean_witness :
  unique_keys roundtrip_sample
  /\ Forall (fun kv => clean_entry kv = true) roundtrip_sample
  /\ parse_mapping_txt (mapping_to_txt roundtrip_sample) = roundtrip_sample.
Proof.
  assert (Hu : unique_keys roundtrip_sample)
    by (unfold unique_keys; repeat constructor; simpl; intuition discriminate).
  assert (Hc : Forall (fun kv => clean_entry kv = true) roundtrip_sample)
    by (repeat constructor).
  split; [exact Hu | split; [exact Hc | exact (@roundtrip_clean _ Hu Hc)]].
Defined.


Lemma load_failure_leaves_table_witness :
  exists msg,
    load_execute (fun p => p) (fun _ => None) follow_scene (lit "missing.txt")
    = (follow_scene, CANCELLED, [(ERROR, msg)]).
Proof.
  apply (@load_failure_leaves_table (fun p => p) (fun _ => None) follow_scene
                                    (lit "missing.txt")).
  reflexivity.
Defined.

Lemma load_merges_without_loss_witness :
  truthy (lit "map.txt") = true
  /\ exists sc' (U : list BoneMapItem) reports,
       load_execute (fun p => p)
                    (fun _ => Some (lit "arm.L=Shoulder" ++ [NEWLINE] ++ lit "leg.L=Thigh"))
                    follow_scene (lit "map.txt")
       = (sc', FINISHED, reports)
       /\ List.length U = List.length (bone_map (aj_props follow_scene)).
Proof.
  split; [reflexivity|].
  destruct (@load_merges_without_loss
              (fun p => p)
              (fun _ => Some (lit "arm.L=Shoulder" ++ [NEWLINE] ++ lit "leg.L=Thigh"))
              follow_scene (lit "map.txt")
              (lit "arm.L=Shoulder" ++ [NEWLINE] ++ lit "leg.L=Thigh")
              eq_refl eq_refl)
    as (sc' & U & r & H1 & _ & H3 & _).
  exists sc', U, r. split; assumption.
Defined.

Lemma enabling_a2b_replaces_b2a_witness :
  live_follow_a2b (aj_props (fst (fst (toggle_follow_a2b_execute follow_scene)))) = true
  /\ live_follow_b2a (aj_props (fst (fst (toggle_follow_a2b_execute follow_scene)))) = false.
Proof.
  assert (Hnd : NoDup (map bone_name [plain_bone (lit "Arm") true false]))
    by (repeat constructor; simpl; intuition).
  destruct (@enabling_a2b_replaces_b2a
              follow_scene 0 1 _ _ eq_refl eq_refl
              (fun E : 0 = 1 => O_S 0 E) eq_refl eq_refl eq_refl eq_refl Hnd eq_refl)
    as (H1 & H2 & _).
  split; assumption.
Defined.

Lemma identity_mapping_is_noop_witness :
  identity_mapping [(HIPS, HIPS); (lit "Spine", lit "Spine")]
  /\ exists con_count,
       _apply_mapping_on_arm dotted_unique_name (export_scene FBX) (Some 0)
                             [(HIPS, HIPS); (lit "Spine", lit "Spine")]
       = Some (export_scene FBX, (0, 0, con_count, 0, 0)).
Proof.
  assert (H : identity_mapping [(HIPS, HIPS); (lit "Spine", lit "Spine")])
    by (repeat constructor).
  split; [exact H|].
  exact (@identity_mapping_is_noop dotted_unique_name (export_scene FBX) (Some 0) _ H).
Defined.



(** Saving a table in which two rows share an original name: one line
    for the key, with the Rename of the later row. *)
Example save_keeps_last_row :
  snd (save_execute (fun p => p) true
         (set_bone_map sample_props
            [ sample_row (lit "a") [] (lit "x");
              sample_row (lit "b") [] (lit "y");
              sample_row (lit "a") [] (lit "z") ])
         (lit "m.txt"))
  = Some (lit "m.txt",
          join [NEWLINE] (header_lines ++ [lit "a=z"; lit "b=y"])).
Proof. vm_compute. reflexivity. Qed.

(* ================================================================== *)
(** * Further properties of the routines *)
(* ================================================================== *)

(** ** What a parsed mapping looks like *)

Lemma lstrip_suffix (s : str) :
  exists p, s = p ++ lstrip s /\ forallb isspace p = true.
Proof.
  induction s as [|c s [p [E F]]].
  - exists []. split; reflexivity.
  - simpl. destruct (isspace c) eqn:Ec.
    + exists (c :: p). split; [simpl; congruence | simpl; rewrite Ec; exact F].
    + exists []. split; reflexivity.
Qed.

Lemma lstrip_head (s : str) : head_clear (lstrip s) = true.
Proof.
  induction s as [|c s IH]; [reflexivity|]. simpl.
  destruct (isspace c) eqn:Ec; [exact IH | simpl; rewrite Ec; reflexivity].
Qed.

Lemma lstrip_incl (s : str) (c : char) : In c (lstrip s) -> In c s.
Proof.
  destruct (lstrip_suffix s) as [p [E _]]. intros H.
  rewrite E. apply in_or_app. right. exact H.
Qed.

Lemma strip_incl (s : str) (c : char) : In c (strip s) -> In c s.
Proof.
  unfold strip, rstrip. intros H.
  apply in_rev in H. apply lstrip_incl in H. apply in_rev in H.
  apply lstrip_incl. exact H.
Qed.

Lemma strip_is_trimmed (s : str) : trimmed (strip s) = true.
Proof.
  unfold trimmed, strip, rstrip.
  set (t := lstrip s). set (u := lstrip (rev t)).
  rewrite rev_involutive. apply andb_true_iff. split; [|apply lstrip_head].
  destruct (lstrip_suffix (rev t)) as [p [E _]]. fold u in E.
  assert (Et : t = rev u ++ rev p).
  { rewrite <- (rev_involutive t), E, rev_app_distr. reflexivity. }
  assert (Ht : head_clear t = true) by apply lstrip_head.
  destruct (rev u) as [|c r]; [reflexivity|].
  rewrite Et in Ht. exact Ht.
Qed.

Lemma one_line_incl (s t : str) :
  (forall c, In c s -> In c t) -> one_line t = true -> one_line s = true.
Proof.
  unfold one_line. intros H Ht. apply forallb_forall. intros c Hc.
  apply (proj1 (forallb_forall _ _) Ht). apply H. exact Hc.
Qed.

Lemma has_char_incl (c : char) (s t : str) :
  (forall d, In d s -> In d t) -> has_char c t = false -> has_char c s = false.
Proof.
  unfold has_char. intros H Ht.
  destruct (existsb (N.eqb c) s) eqn:E; [|reflexivity].
  apply existsb_exists in E. destruct E as [d [Hd Hcd]].
  assert (X : existsb (N.eqb c) t = true)
    by (apply existsb_exists; exists d; split; [apply H; exact Hd | exact Hcd]).
  congruence.
Qed.

(** The lines of [splitlines] hold no line boundary. *)
Lemma splitlines_one_line (s : str) :
  Forall (fun l => one_line l = true) (splitlines s).
Proof.
  assert (H : forall n s, List.length s <= n ->
                          Forall (fun l => one_line l = true) (splitlines s)).
  { induction n as [|n IH]; intros t Hl.
    - destruct t; [constructor | simpl in Hl; lia].
    - destruct t as [|c t]; [constructor|].
      simpl in Hl. cbn [splitlines].
      destruct (is_linebreak c) eqn:Ec.
      + constructor; [reflexivity|].
        destruct (N.eqb c 13); [|apply IH; lia].
        destruct t as [|d t]; [apply IH; simpl; lia|].
        destruct (N.eqb d 10); apply IH; simpl in *; lia.
      + assert (X := IH t ltac:(lia)).
        destruct (splitlines t) as [|l ls].
        * repeat constructor. simpl. rewrite Ec. reflexivity.
        * inversion X; subst. constructor; [|assumption].
          simpl. rewrite Ec. simpl. assumption. }
  apply (H (List.length s)). lia.
Qed.

(** [split1] at a character that occurs: the text is the first part, the
    character and the second part, and the first part is free of it. *)
Lemma split1_parts (c : char) (s : str) :
  contains s [c] = true ->
  s = fst (split1 c s) ++ c :: snd (split1 c s)
  /\ has_char c (fst (split1 c s)) = false.
Proof.
  induction s as [|d s IH]; intros H.
  - discriminate.
  - cbn -[N.eqb] in H. cbn -[N.eqb].
    destruct (N.eqb d c) eqn:E.
    + apply N.eqb_eq in E. subst d. split; reflexivity.
    + rewrite N.eqb_sym, E in H. cbn [andb orb] in H.
      destruct (IH H) as [E1 E2].
      destruct (split1 c s) as [a b]. simpl in *. split.
      * congruence.
      * rewrite N.eqb_sym, E. exact E2.
Qed.

Lemma lstrip_app_clear (s : str) (c : char) :
  isspace c = false -> lstrip (s ++ [c]) = lstrip s ++ [c].
Proof.
  intros Hc. induction s as [|d s IH]; simpl.
  - rewrite Hc. reflexivity.
  - destruct (isspace d); [exact IH | reflexivity].
Qed.

Lemma rstrip_cons_clear (c : char) (s : str) :
  isspace c = false -> rstrip (c :: s) = c :: rstrip s.
Proof.
  intros Hc. unfold rstrip. simpl rev.
  rewrite lstrip_app_clear by exact Hc.
  rewrite rev_app_distr. reflexivity.
Qed.

(** Stripping a text that begins with a character other than white
    space keeps that character in front. *)
Lemma strip_keeps_head (c : char) (s : str) :
  isspace c = false -> exists t, strip (c :: s) = c :: t.
Proof.
  intros Hc. unfold strip. simpl lstrip. rewrite Hc.
  rewrite rstrip_cons_clear by exact Hc. eexists; reflexivity.
Qed.

Lemma dict_set_Forall (V : Type) (P : str * V -> Prop) (m : pydict V)
      (k : str) (v : V) :
  Forall P m -> (forall k', k' = k -> P (k', v)) -> Forall P (dict_set m k v).
Proof.
  intros Hm Hk. induction m as [|[k' v'] m IH]; simpl.
  - constructor; [apply Hk; reflexivity | constructor].
  - inversion Hm; subst. destruct (str_eqb k' k) eqn:E.
    + apply str_eqb_eq in E. constructor; [apply Hk; exact E | assumption].
    + constructor; [assumption | apply IH; assumption].
Qed.

Lemma parse_line_wellformed (d : dict) (raw : str) :
  one_line raw = true ->
  Forall (fun kv => parsed_entry kv = true) d ->
  Forall (fun kv => parsed_entry kv = true) (parse_line d raw).
Proof.
  intros Hraw Hd. unfold parse_line.
  set (line := strip raw).
  destruct (truthy line) eqn:Ht; [|exact Hd]. cbn [negb orb].
  destruct (startswith line [HASH]) eqn:Hh; [exact Hd|].
  destruct (contains line [EQUALS]) eqn:He; [|exact Hd].
  destruct (split1_parts EQUALS line He) as [Eline Hfree].
  destruct (split1 EQUALS line) as [a b]. cbn [fst snd] in Eline, Hfree.
  destruct (truthy (strip a)) eqn:Hk; [|exact Hd].
  assert (Hline1 : one_line line = true).
  { apply one_line_incl with (t := raw); [apply strip_incl | exact Hraw]. }
  assert (Ha : forall c, In c a -> In c line).
  { intros c Hc. rewrite Eline. apply in_or_app. left. exact Hc. }
  assert (Hb : forall c, In c b -> In c line).
  { intros c Hc. rewrite Eline. apply in_or_app. right. right. exact Hc. }
  apply dict_set_Forall; [exact Hd|]. intros k' ->.
  unfold parsed_entry. cbn [fst snd].
  rewrite Hk, !strip_is_trimmed.
  rewrite (has_char_incl EQUALS (strip a) a (strip_incl a) Hfree).
  rewrite (one_line_incl (strip a) line); [| |exact Hline1].
  2:{ intros c Hc. apply Ha. apply strip_incl. exact Hc. }
  rewrite (one_line_incl (strip b) line); [| |exact Hline1].
  2:{ intros c Hc. apply Hb. apply strip_incl. exact Hc. }
  cbn [negb andb].
  (* the key begins with the first character of the line *)
  destruct a as [|c a'].
  - discriminate.
  - assert (Hc : isspace c = false).
    { assert (X : trimmed line = true) by apply strip_is_trimmed.
      unfold trimmed in X. apply andb_true_iff in X. destruct X as [X _].
      rewrite Eline in X. simpl in X. apply negb_true_iff in X. exact X. }
    destruct (@strip_keeps_head c a' Hc) as [t Et]. rewrite Et.
    rewrite Eline in Hh. cbn -[N.eqb] in Hh. cbn -[N.eqb]. rewrite Hh. reflexivity.
Qed.

Lemma parse_fold_wellformed (ls : list str) (d : dict) :
  Forall (fun l => one_line l = true) ls ->
  Forall (fun kv => parsed_entry kv = true) d ->
  Forall (fun kv => parsed_entry kv = true) (fold_left parse_line ls d).
Proof.
  revert d; induction ls as [|l ls IH]; intros d Hls Hd; [exact Hd|].
  inversion Hls; subst. simpl. apply IH; [assumption|].
  apply parse_line_wellformed; assumption.
Qed.

Lemma parse_wellformed (text : str) :
  Forall (fun kv => parsed_entry kv = true) (parse_mapping_txt text).
Proof.
  unfold parse_mapping_txt. apply parse_fold_wellformed.
  - apply splitlines_one_line.
  - constructor.
Qed.

(** X1.  Whatever the text, the mapping that [parse_mapping_txt] returns
    has pairwise different keys, and every entry has a non-empty key
    without [=] and without [#] in front, key and value free of line
    boundaries and of white space at their ends. *)
Theorem parsed_mapping_wellformed (text : str) :
  unique_keys (parse_mapping_txt text)
  /\ Forall (fun kv => parsed_entry kv = true) (parse_mapping_txt text).
Proof.
  split; [apply parse_unique_keys | apply parse_wellformed].
Qed.

(** ** Saving what was loaded *)

Lemma parse_line_parsed_entry (d : dict) (kv : str * str) :
  parsed_entry kv = true ->
  parse_line d (fst kv ++ [EQUALS] ++ snd kv) = dict_set d (fst kv) (snd kv).
Proof.
  destruct kv as [k v]. unfold parsed_entry; simpl fst; simpl snd.
  rewrite !andb_true_iff, !negb_true_iff.
  intros [[[[[[Hk He] Hk1] Hv1] Hkt] Hvt] Hh].
  unfold parse_line.
  rewrite (strip_trimmed _ (trimmed_line _ _ Hk Hkt Hvt)).
  assert (Hs : startswith (k ++ [EQUALS] ++ v) [HASH] = false).
  { destruct k as [|c k]; [discriminate | exact Hh]. }
  assert (Ht : truthy (k ++ [EQUALS] ++ v) = true).
  { destruct k; [discriminate | reflexivity]. }
  rewrite Ht, Hs. simpl negb. simpl orb. cbv iota.
  change (k ++ [EQUALS] ++ v) with (k ++ EQUALS :: v).
  rewrite contains_middle, (split1_first _ _ He).
  rewrite (strip_trimmed _ Hkt), (strip_trimmed _ Hvt), Hk. reflexivity.
Qed.

Lemma parse_parsed_entries (m : dict) (acc : dict) :
  Forall (fun kv => parsed_entry kv = true) m ->
  fold_left parse_line (map (fun kv => fst kv ++ [EQUALS] ++ snd kv) m) acc
  = fold_left (fun d kv => dict_set d (fst kv) (snd kv)) m acc.
Proof.
  revert acc; induction m as [|kv m IH]; intros acc H; simpl; [reflexivity|].
  inversion H; subst. rewrite parse_line_parsed_entry by assumption.
  apply IH; assumption.
Qed.

Lemma parsed_entry_line (kv : str * str) :
  parsed_entry kv = true ->
  one_line (fst kv ++ [EQUALS] ++ snd kv) = true /\ fst kv ++ [EQUALS] ++ snd kv <> [].
Proof.
  destruct kv as [k v]. unfold parsed_entry; simpl fst; simpl snd.
  rewrite !andb_true_iff.
  intros [[[[[[Hk He] Hk1] Hv1] Hkt] Hvt] Hh]. split.
  - rewrite !one_line_app, Hk1, Hv1. reflexivity.
  - destruct k; discriminate.
Qed.

Lemma roundtrip_parsed (m : dict) :
  unique_keys m ->
  Forall (fun kv => parsed_entry kv = true) m ->
  parse_mapping_txt (mapping_to_txt m) = m.
Proof.
  intros Hu Hc. unfold parse_mapping_txt, mapping_to_txt.
  rewrite splitlines_join.
  - rewrite mapping_lines_eq, fold_left_app.
    change (fold_left parse_line header_lines []) with (@nil (str * str)).
    rewrite parse_parsed_entries by assumption. apply (fold_dict_set m []). exact Hu.
  - rewrite mapping_lines_eq. apply Forall_app. split.
    + repeat constructor; discriminate.
    + apply Forall_map. apply Forall_impl with (2 := Hc).
      intros kv. apply parsed_entry_line.
Qed.

(** X2.  A mapping that was read from a text survives being written and
    read again: for every text, parsing the serialisation of the parsed
    mapping gives the parsed mapping, entries with an empty value
    included. *)
Theorem parse_save_load_fixed (text : str) :
  parse_mapping_txt (mapping_to_txt (parse_mapping_txt text))
  = parse_mapping_txt text.
Proof.
  apply roundtrip_parsed; [apply parse_unique_keys | apply parse_wellformed].
Qed.

(** ** Curves that name no mapped bone *)

Lemma patch_path_unmentioned (m : dict) (dp : str) (r : bool) :
  mentions m dp = false -> patch_path m dp r = (dp, r).
Proof.
  induction m as [|[old new] m IH]; intros H; [reflexivity|].
  unfold mentions in H. cbn [existsb fst] in H.
  apply orb_false_iff in H. destruct H as [H1 H2].
  rewrite patch_path_cons, (@replace_bone_absent dp old new H1). apply IH. exact H2.
Qed.

Lemma patch_fcurve_unmentioned (m : dict) (dp : str) :
  mentions m dp = false -> patch_fcurve m dp = (dp, false).
Proof.
  intros H. unfold patch_fcurve. destruct (truthy dp); [|reflexivity].
  cbn [negb]. rewrite patch_path_unmentioned by exact H. reflexivity.
Qed.

(** X3.  [patch_fcurves_actions] keeps the actions in place, with their
    names, frame ranges and numbers of curves, and never writes the path
    of a curve that names no bone of the mapping: such a path is after
    the call what it was before. *)
Theorem unmentioned_paths_untouched (acts : list Action) (m : dict)
        (i : nat) (act : Action) :
  nth_error acts i = Some act ->
  exists act',
    nth_error (fst (patch_fcurves_actions acts m)) i = Some act'
    /\ act_name act' = act_name act
    /\ frame_range act' = frame_range act
    /\ List.length (fcurves act') = List.length (fcurves act)
    /\ forall j dp, nth_error (fcurves act) j = Some dp ->
                    mentions m dp = false ->
                    nth_error (fcurves act') j = Some dp.
Proof.
  intros H. unfold patch_fcurves_actions. rewrite patch_actions_fst.
  eexists. split; [apply map_nth_error; exact H|].
  cbn [act_name frame_range fcurves set_fcurves].
  repeat split.
  - apply length_map.
  - intros j dp Hj Hm.
    erewrite map_nth_error by exact Hj. rewrite (@patch_fcurve_unmentioned m dp Hm).
    reflexivity.
Qed.

(** ** A chain of two renamings on one curve *)

(** X4.  The entries of a mapping are applied to a data path one after
    the other on the same working copy: under {A->B, B->C} a path that
    holds the token of A once and no token of B ends with the token of
    C in its place and is counted as changed, although the bone named A
    is renamed to B. *)
Theorem chain_mapping_collapses_path (A B C pre post : str) :
  A <> B ->
  lone_token (bone_token A) pre post = true ->
  lone_token (bone_token B) pre post = true ->
  patch_fcurve (chain_mapping A B C) (pre ++ bone_token A ++ post)
  = (pre ++ bone_token C ++ post, true)
  /\ forall act, fcurves act = [pre ++ bone_token A ++ post] ->
       patch_fcurves_actions [act] (chain_mapping A B C)
       = ([set_fcurves act [pre ++ bone_token C ++ post]], 1).
Proof.
  intros Hne HA HB.
  assert (H : patch_fcurve (chain_mapping A B C) (pre ++ bone_token A ++ post)
              = (pre ++ bone_token C ++ post, true)).
  { unfold patch_fcurve.
    rewrite truthy_shown by apply bone_token_nonempty. cbn [negb].
    unfold chain_mapping.
    rewrite patch_path_cons, (@replace_bone_lone A B pre post HA).
    rewrite truthy_shown by apply bone_token_nonempty.
    rewrite (shown_differ pre post (not_eq_sym Hne)). cbn [negb andb].
    rewrite patch_path_cons, (@replace_bone_lone B C pre post HB).
    rewrite truthy_shown by apply bone_token_nonempty.
    destruct (str_eqb (pre ++ bone_token C ++ post) (pre ++ bone_token B ++ post))
      eqn:E; cbn [negb andb patch_path].
    - apply str_eqb_eq in E. rewrite E. reflexivity.
    - reflexivity. }
  split; [exact H|].
  intros act Hact. unfold patch_fcurves_actions. cbn [patch_actions].
  rewrite Hact. cbn [patch_paths]. rewrite H. reflexivity.
Qed.

(** ** Renaming never fails on a missing bone *)

Lemma has_bone_In (bs : list Bone) (n : str) :
  has_bone bs n = true <-> In n (map bone_name bs).
Proof.
  unfold has_bone. rewrite existsb_exists, in_map_iff. split.
  - intros [b [Hb E]]. apply str_eqb_eq in E. exists b. split; assumption.
  - intros [b [E Hb]]. exists b. split; [exact Hb | apply str_eqb_eq; exact E].
Qed.

Lemma In_bone_nth (bs : list Bone) (n : str) :
  In n (map bone_name bs) ->
  exists i b, nth_error bs i = Some b /\ bone_name b = n.
Proof.
  intros H. apply in_map_iff in H. destruct H as [b [E Hb]].
  apply In_nth_error in Hb. destruct Hb as [i Hi]. exists i, b. split; assumption.
Qed.

Lemma write_keeps_others (uniq : list str -> str -> str) (eb : list Bone)
      (i : nat) (b : Bone) (n o : str) :
  nth_error eb i = Some b -> bone_name b <> o ->
  has_bone eb o = true -> has_bone (write_bone_name uniq eb i n) o = true.
Proof.
  intros Hi Hne H. apply has_bone_In in H. apply In_bone_nth in H.
  destruct H as (k & b' & Hk & Hb').
  assert (Hki : k <> i) by (intros ->; congruence).
  rewrite <- Hb'. apply has_bone_true with (k := k).
  rewrite write_bone_name_other by exact Hki. exact Hk.
Qed.

Lemma bone_index_found (bs : list Bone) (n : str) (i : nat) :
  bone_index bs n = Some i ->
  exists b, nth_error bs i = Some b /\ bone_name b = n.
Proof.
  revert i; induction bs as [|b bs IH]; intros i H; [discriminate|].
  simpl in H. destruct (str_eqb (bone_name b) n) eqn:E.
  - inversion H; subst. exists b. split; [reflexivity | apply str_eqb_eq; exact E].
  - destruct (bone_index bs n) as [k|]; [|discriminate].
    inversion H; subst. destruct (IH k eq_refl) as [b' Hb']. exists b'. exact Hb'.
Qed.

Lemma rename_to_temp_total (uniq : list str -> str -> str) (pairs : dict) :
  forall eb,
    NoDup (map fst pairs) ->
    Forall (fun on => has_bone eb (fst on) = true) pairs ->
    exists eb', rename_to_temp uniq pairs eb = Some eb'.
Proof.
  induction pairs as [|[old new] ps IH]; intros eb Hnd Hall.
  - exists eb. reflexivity.
  - inversion Hnd as [|? ? Hout Hnd']; subst.
    inversion Hall as [|? ? Hold Hrest]; subst. cbn [fst] in Hold.
    cbn [rename_to_temp]. unfold rename_key.
    destruct (has_bone_index _ _ Hold) as (i & b & Hi & Hb & Hn).
    rewrite Hi. apply IH; [exact Hnd'|].
    apply Forall_forall. intros [o n] Hin. cbn [fst].
    apply write_keeps_others with (b := b); [exact Hb | |].
    + rewrite Hn. intros ->. apply Hout.
      apply in_map_iff. exists (o, n). split; [reflexivity | exact Hin].
    + apply (proj1 (Forall_forall _ _) Hrest (o, n) Hin).
Qed.

Lemma filter_keys_NoDup (V : Type) (f : str * V -> bool) (m : pydict V) :
  NoDup (map fst m) -> NoDup (map fst (filter f m)).
Proof.
  induction m as [|kv m IH]; intros H; [constructor|].
  inversion H as [|? ? Hout Hm]; subst. simpl.
  destruct (f kv); [|apply IH; exact Hm].
  simpl. constructor; [|apply IH; exact Hm].
  intros Hin. apply Hout. apply in_map_iff in Hin.
  destruct Hin as [x [E Hx]]. apply filter_In in Hx.
  apply in_map_iff. exists x. tauto.
Qed.

Lemma rename_bones_total (uniq : list str -> str -> str) (bs : list Bone)
      (m : dict) :
  unique_keys m -> exists r, rename_bones uniq bs m = Some r.
Proof.
  intros Hu. unfold rename_bones.
  destruct (@rename_to_temp_total uniq (rename_pairs bs m) bs) as [eb1 E].
  - apply filter_keys_NoDup. exact Hu.
  - apply Forall_forall. intros on Hin. apply filter_In in Hin.
    destruct Hin as [_ Hc]. rewrite !andb_true_iff in Hc. tauto.
  - rewrite E.
    destruct (rename_to_final uniq (rename_pairs bs m) eb1 0) as [eb2 applied].
    destruct (restore_deform (rename_pairs bs m) (snapshot_deform bs) eb2 0).
    eexists; reflexivity.
Qed.

Lemma same_types_armature (objs objs' : list Object) (r : option nat)
      (i : nat) (o : Object) :
  same_types objs objs' -> armature_at objs r = Some (i, o) ->
  exists o', armature_at objs' r = Some (i, o').
Proof.
  unfold same_types. intros Ht H.
  apply armature_at_nth in H. destruct H as (-> & Hn & Hty).
  assert (X : nth_error (map obj_type objs') i = Some ARMATURE).
  { rewrite Ht. erewrite map_nth_error by exact Hn. rewrite Hty. reflexivity. }
  rewrite nth_error_map in X.
  destruct (nth_error objs' i) as [o'|] eqn:E; [|discriminate].
  simpl in X. inversion X as [Hty'].
  exists o'. apply armature_at_intro; assumption.
Qed.

Lemma same_types_list_set (objs : list Object) (i : nat) (o o' : Object) :
  nth_error objs i = Some o -> obj_type o' = obj_type o ->
  same_types objs (list_set objs i o').
Proof.
  unfold same_types. revert i; induction objs as [|x objs IH]; intros i H Ht.
  - reflexivity.
  - destruct i as [|i]; simpl in *.
    + inversion H; subst. rewrite Ht. reflexivity.
    + rewrite (IH i H Ht). reflexivity.
Qed.

Lemma same_types_trans (a b c : list Object) :
  same_types a b -> same_types b c -> same_types a c.
Proof. unfold same_types. congruence. Qed.

Lemma same_types_refl (a : list Object) : same_types a a.
Proof. reflexivity. Qed.

Lemma patch_vertex_groups_types (uniq : list str -> str -> str)
      (objs : list Object) (arm : option nat) (m : dict) (n : nat) :
  same_types objs (fst (patch_vertex_groups_for_armature uniq objs arm m n)).
Proof.
  unfold same_types. revert n; induction objs as [|o objs IH]; intros n.
  - reflexivity.
  - cbn [patch_vertex_groups_for_armature].
    destruct (mesh_using_armature arm o).
    + destruct (patch_groups uniq m [] (vertex_groups o) n) as [vgs k].
      specialize (IH k).
      destruct (patch_vertex_groups_for_armature uniq objs arm m k).
      simpl in *. rewrite IH. reflexivity.
    + specialize (IH n).
      destruct (patch_vertex_groups_for_armature uniq objs arm m n).
      simpl in *. rewrite IH. reflexivity.
Qed.

Lemma rename_flags_types (uniq : list str -> str -> str) (objs : list Object)
      (arm : option nat) (m : dict) :
  unique_keys m ->
  exists objs' counts,
    rename_bones_edit_mode_preserve_flags uniq objs arm m = Some (objs', counts)
    /\ same_types objs objs'.
Proof.
  intros Hu. unfold rename_bones_edit_mode_preserve_flags.
  destruct (armature_at objs arm) as [[i o]|] eqn:Ea.
  - destruct m as [|kv m'].
    + exists objs, (0, 0). split; [reflexivity | apply same_types_refl].
    + destruct (@rename_bones_total uniq (bones o) (kv :: m') Hu) as [[bs c] E].
      rewrite E. exists (list_set objs i (set_bones o bs)), c.
      split; [reflexivity|].
      apply armature_at_nth in Ea. destruct Ea as (_ & Hn & _).
      apply same_types_list_set with (o := o); [exact Hn | reflexivity].
  - exists objs, (0, 0). split; [reflexivity | apply same_types_refl].
Qed.

Lemma rename_and_patch_total (uniq : list str -> str -> str) (sc : Scene)
      (arm : option nat) (i : nat) (o : Object) (m : dict) :
  unique_keys m -> armature_at (objects sc) arm = Some (i, o) ->
  exists r, rename_and_patch uniq sc arm m = Some r.
Proof.
  intros Hu Ha. unfold rename_and_patch.
  destruct (@rename_flags_types uniq (objects sc) arm m Hu)
    as (objs1 & [renamed0 restored] & E & T1).
  rewrite E.
  pose proof (patch_vertex_groups_types uniq objs1 arm m 0) as T2.
  destruct (patch_vertex_groups_for_armature uniq objs1 arm m 0) as [objs2 vg].
  cbn [fst] in T2.
  destruct (@same_types_armature (objects sc) objs2 arm i o
              (@same_types_trans _ _ _ T1 T2) Ha) as [o2 Ha2].
  unfold patch_constraints_subtargets. rewrite Ha2.
  destruct (patch_pose_bones m (bones o2) 0) as [bs patched].
  destruct (patch_fcurves_actions (actions sc) m) as [acts fcu].
  destruct (patch_driver_fcurves _ m) as [sc1 drv].
  eexists; reflexivity.
Qed.

(** X5.  With a mapping whose keys are pairwise different, as those of a
    Python dictionary are, [_apply_mapping_on_arm] and the renaming in it
    never fail on a missing bone: the look-up [eb[old]] of the first loop
    always finds its bone, whatever the armature, the mapping and the
    host's rule for clashing names. *)
Theorem apply_mapping_never_raises (uniq : list str -> str -> str)
        (sc : Scene) (arm : option nat) (m : dict) :
  unique_keys m ->
  (forall bs, exists r, rename_bones uniq bs m = Some r)
  /\ (exists r, rename_bones_edit_mode_preserve_flags uniq (objects sc) arm m = Some r)
  /\ (exists r, _apply_mapping_on_arm uniq sc arm m = Some r).
Proof.
  intros Hu. split; [|split].
  - intros bs. apply rename_bones_total. exact Hu.
  - destruct (@rename_flags_types uniq (objects sc) arm m Hu) as (x & c & E & _).
    exists (x, c). exact E.
  - unfold _apply_mapping_on_arm.
    destruct (armature_at (objects sc) arm) as [[i o]|] eqn:Ea.
    + apply rename_and_patch_total with (i := i) (o := o); assumption.
    + eexists; reflexivity.
Qed.

(** ** Renaming many bones at once *)

Lemma dict_get_app (V : Type) (D R : pydict V) (s : str) :
  dict_get (D ++ R) s
  = match dict_get D s with Some v => Some v | None => dict_get R s end.
Proof.
  induction D as [|[k v] D IH]; simpl; [reflexivity|].
  destruct (str_eqb k s); [reflexivity | exact IH].
Qed.

Lemma dict_get_In (V : Type) (m : pydict V) (k : str) (v : V) :
  dict_get m k = Some v -> In (k, v) m.
Proof.
  induction m as [|[k' v'] m IH]; simpl; [discriminate|].
  destruct (str_eqb k' k) eqn:E.
  - intros H; inversion H; subst. apply str_eqb_eq in E. subst. left. reflexivity.
  - intros H. right. apply IH. exact H.
Qed.

Lemma dict_get_value (V : Type) (m : pydict V) (k : str) (v : V) :
  dict_get m k = Some v -> In v (map snd m).
Proof.
  intros H. apply dict_get_In in H. apply in_map_iff. exists (k, v). tauto.
Qed.

Lemma dict_get_key (V : Type) (m : pydict V) (k : str) (v : V) :
  dict_get m k = Some v -> In k (map fst m).
Proof.
  intros H. apply dict_get_In in H. apply in_map_iff. exists (k, v). tauto.
Qed.

Lemma In_unique_value (m : dict) (k k' v : str) :
  NoDup (map snd m) -> In (k, v) m -> In (k', v) m -> k = k'.
Proof.
  induction m as [|[a b] m IH]; intros Hnd H1 H2; [contradiction|].
  simpl in Hnd. inversion Hnd as [|? ? Hout Hm]; subst.
  destruct H1 as [H1|H1], H2 as [H2|H2].
  - congruence.
  - inversion H1; subst. exfalso. apply Hout.
    apply in_map_iff. exists (k', v). tauto.
  - inversion H2; subst. exfalso. apply Hout.
    apply in_map_iff. exists (k, v). tauto.
  - apply IH; assumption.
Qed.

Lemma set_bone_name_twice (b : Bone) (x y : str) :
  set_bone_name (set_bone_name b x) y = set_bone_name b y.
Proof. reflexivity. Qed.

Lemma set_bone_name_same (b : Bone) : set_bone_name b (bone_name b) = b.
Proof. destruct b; reflexivity. Qed.

Lemma set_use_deform_same (b : Bone) : set_use_deform b (use_deform b) = b.
Proof. destruct b; reflexivity. Qed.

Section ManyBones.

Variable uniq : list str -> str -> str.
Variable bs : list Bone.
Hypothesis Hnd : NoDup (map bone_name bs).

(** The bones when the bone first named [s] is now named [cur s]. *)
Local Abbreviation under cur :=
  (map (fun b => set_bone_name b (cur (bone_name b))) bs).

Lemma under_nth (cur : str -> str) (k : nat) (b' : Bone) :
  nth_error (under cur) k = Some b' ->
  exists b, nth_error bs k = Some b
            /\ b' = set_bone_name b (cur (bone_name b)).
Proof.
  rewrite nth_error_map. destruct (nth_error bs k) as [b|]; [|discriminate].
  simpl. intros H; inversion H. exists b. split; reflexivity.
Qed.

Lemma under_ext (cur cur' : str -> str) :
  (forall s, In s (map bone_name bs) -> cur' s = cur s) ->
  under cur' = under cur.
Proof.
  intros H. apply map_ext_in. intros b Hb. f_equal. apply H.
  apply in_map. exact Hb.
Qed.

(** One write of a name through the collection: the bone found under
    [x] is the bone first named [o], and it takes the name [n]. *)
Lemma write_step (cur : str -> str) (o x n : str) :
  fits_name n = true ->
  In o (map bone_name bs) ->
  cur o = x ->
  (forall o', In o' (map bone_name bs) -> cur o' = x -> o' = o) ->
  x <> n ->
  (forall o', In o' (map bone_name bs) -> cur o' <> n) ->
  exists i,
    bone_index (under cur) x = Some i
    /\ write_bone_name uniq (under cur) i n
       = under (fun s => if str_eqb s o then n else cur s).
Proof.
  intros Hfit Ho Hx Hsole Hxn Hfree.
  destruct (In_bone_nth _ _ Ho) as (i & b & Hi & Hb).
  assert (Hi' : nth_error (under cur) i = Some (set_bone_name b x)).
  { erewrite map_nth_error by exact Hi. rewrite Hb, Hx. reflexivity. }
  exists i. split.
  - apply bone_index_sole with (b := set_bone_name b x); [exact Hi' | reflexivity|].
    intros k' b' Hk' Hn'.
    destruct (under_nth _ _ Hk') as (b0 & Hb0 & ->). simpl in Hn'.
    assert (E : bone_name b0 = o).
    { apply Hsole; [apply name_held with (k := k'); exact Hb0 | exact Hn']. }
    apply names_sole with (bs := bs) (b1 := b0) (b2 := b); try assumption. congruence.
  - rewrite write_free with (b := set_bone_name b x).
    + rewrite set_bone_name_twice.
      pose (f' := fun b0 : Bone =>
                    set_bone_name b0 (if str_eqb (bone_name b0) o then n
                                      else cur (bone_name b0))).
      assert (Ef : set_bone_name b n = f' b)
        by (unfold f'; rewrite Hb, str_eqb_refl; reflexivity).
      rewrite Ef.
      apply (@list_set_map_update
               _ _ (fun b0 : Bone => set_bone_name b0 (cur (bone_name b0)))
               f' bs i b Hi).
      intros k' y Hk' Hne. unfold f'.
      assert (Hy : bone_name y <> o).
      { intros E. apply Hne.
        apply names_sole with (bs := bs) (b1 := y) (b2 := b);
          try assumption. congruence. }
      apply str_eqb_neq in Hy. rewrite Hy. reflexivity.
    + exact Hfit.
    + exact Hi'.
    + exact Hxn.
    + apply has_bone_false. intros k b' Hk.
      destruct (under_nth _ _ Hk) as (b0 & Hb0 & ->). simpl.
      apply Hfree. apply name_held with (k := k). exact Hb0.
Qed.

Variable P : dict.
Hypothesis Hkeys : NoDup (map fst P).
Hypothesis Hheld : forall o, In o (map fst P) -> In o (map bone_name bs).
Hypothesis Hclear : clear_renaming bs P.

Lemma suffix_inj (a b : str) : a ++ temp_suffix = b ++ temp_suffix -> a = b.
Proof. apply app_inv_tail. Qed.

Lemma split_keys (D R : dict) (o n : str) :
  P = D ++ (o, n) :: R ->
  dict_get D o = None
  /\ ~ In n (map snd D) /\ ~ In n (map snd R)
  /\ In n (map snd P) /\ In o (map fst P)
  /\ (forall v, In v (map snd D) -> In v (map snd P))
  /\ (forall v, In v (map snd R) -> In v (map snd P))
  /\ dict_get P o = Some n.
Proof.
  intros E. destruct Hclear as (Hinj & _).
  assert (Hk := Hkeys). rewrite E, map_app in Hk. simpl in Hk.
  assert (Hv := Hinj). rewrite E, map_app in Hv. simpl in Hv.
  assert (HD : dict_get D o = None).
  { apply dict_get_none_keys. intros Hin.
    apply NoDup_remove_2 in Hk. apply Hk. apply in_or_app. left. exact Hin. }
  repeat split.
  - exact HD.
  - intros Hin. apply NoDup_remove_2 in Hv. apply Hv. apply in_or_app. left. exact Hin.
  - intros Hin. apply NoDup_remove_2 in Hv. apply Hv. apply in_or_app. right. exact Hin.
  - rewrite E, map_app. apply in_or_app. right. left. reflexivity.
  - rewrite E, map_app. apply in_or_app. right. left. reflexivity.
  - intros v Hin. rewrite E, map_app. apply in_or_app. left. exact Hin.
  - intros v Hin. rewrite E, map_app. apply in_or_app. right. right. exact Hin.
  - rewrite E, dict_get_app, HD. simpl. rewrite str_eqb_refl. reflexivity.
Qed.

Lemma first_loop (R : dict) :
  forall D, P = D ++ R ->
    rename_to_temp uniq R (under (temp_names D)) = Some (under (temp_names P)).
Proof.
  destruct Hclear as (Hinj & Hsent & Htwo & Hfreed & Hfits).
  induction R as [|[o n] R IH]; intros D E.
  - rewrite app_nil_r in E. subst D. reflexivity.
  - destruct (@split_keys D R o n E) as (HD & HnD & HnR & HnP & HoP & HDP & HRP & HPo).
    assert (Ho : In o (map bone_name bs)) by (apply Hheld; exact HoP).
    destruct (@write_step (temp_names D) o o (n ++ temp_suffix)) as (i & Hi & Hw).
    + apply (Hfits n HnP).
    + exact Ho.
    + unfold temp_names. rewrite HD. reflexivity.
    + intros o' Ho' Hc. unfold temp_names in Hc.
      destruct (dict_get D o') as [new|] eqn:Eg; [|exact Hc].
      exfalso. apply (Hsent new); [apply HDP; eapply dict_get_value; exact Eg|].
      rewrite Hc. exact Ho.
    + intros Eo. apply (Hsent n HnP). rewrite <- Eo. exact Ho.
    + intros o' Ho' Hc. unfold temp_names in Hc.
      destruct (dict_get D o') as [new|] eqn:Eg.
      * apply suffix_inj in Hc. subst new. apply HnD.
        eapply dict_get_value; exact Eg.
      * apply (Hsent n HnP). rewrite <- Hc. exact Ho'.
    + cbn [rename_to_temp]. unfold rename_key. rewrite Hi, Hw.
      rewrite (@under_ext (temp_names (D ++ [(o, n)]))
                          (fun s => if str_eqb s o then n ++ temp_suffix
                                    else temp_names D s)).
      * apply IH. rewrite <- app_assoc. exact E.
      * intros s _. unfold temp_names. rewrite dict_get_app.
        destruct (str_eqb s o) eqn:Es.
        -- apply str_eqb_eq in Es. subst s. rewrite HD. simpl.
           rewrite str_eqb_refl. reflexivity.
        -- destruct (dict_get D s); [reflexivity|]. simpl.
           assert (Es' : str_eqb o s = false).
           { apply str_eqb_neq. apply str_eqb_neq in Es. congruence. }
           rewrite Es'. reflexivity.
Qed.

Lemma second_loop (R : dict) :
  forall D a, P = D ++ R ->
    rename_to_final uniq R (under (final_names D R)) a
    = (under (final_names P []), a + List.length R).
Proof.
  destruct Hclear as (Hinj & Hsent & Htwo & Hfreed & Hfits).
  induction R as [|[o n] R IH]; intros D a E.
  - rewrite app_nil_r in E. subst D. simpl. rewrite Nat.add_0_r. reflexivity.
  - destruct (@split_keys D R o n E) as (HD & HnD & HnR & HnP & HoP & HDP & HRP & HPo).
    assert (Ho : In o (map bone_name bs)) by (apply Hheld; exact HoP).
    destruct (@write_step (final_names D ((o, n) :: R)) o (n ++ temp_suffix) n)
      as (i & Hi & Hw).
    + destruct (Hfits n HnP) as [Ht Hf].
      apply (@fits_name_app n temp_suffix Ht Hf).
    + exact Ho.
    + unfold final_names, temp_names. rewrite HD. simpl.
      rewrite str_eqb_refl. reflexivity.
    + intros o' Ho' Hc. unfold final_names, temp_names in Hc.
      destruct (dict_get D o') as [new|] eqn:Eg.
      * exfalso. apply (Htwo new n); [apply HDP; eapply dict_get_value; exact Eg
                                     | exact HnP | exact Hc].
      * simpl in Hc. destruct (str_eqb o o') eqn:Eo.
        -- apply str_eqb_eq in Eo. congruence.
        -- destruct (dict_get R o') as [new|] eqn:Er.
           ++ apply suffix_inj in Hc. subst new. exfalso. apply HnR.
              eapply dict_get_value; exact Er.
           ++ exfalso. apply (Hsent n HnP). rewrite <- Hc. exact Ho'.
    + apply app_suffix_neq. discriminate.
    + intros o' Ho' Hc. unfold final_names, temp_names in Hc.
      destruct (dict_get D o') as [new|] eqn:Eg.
      * subst new. apply HnD. eapply dict_get_value; exact Eg.
      * simpl in Hc. destruct (str_eqb o o') eqn:Eo.
        -- apply (Htwo n n HnP HnP). symmetry. exact Hc.
        -- destruct (dict_get R o') as [new|] eqn:Er.
           ++ apply (Htwo n new HnP); [apply HRP; eapply dict_get_value; exact Er|].
              symmetry. exact Hc.
           ++ subst o'. specialize (Hfreed n HnP Ho').
              assert (X : dict_get P n = None).
              { rewrite E, dict_get_app, Eg. simpl. rewrite Eo. exact Er. }
              apply dict_get_none_keys in X. contradiction.
    + cbn [rename_to_final]. rewrite Hi, Hw.
      rewrite (@under_ext (final_names (D ++ [(o, n)]) R)
                          (fun s => if str_eqb s o then n
                                    else final_names D ((o, n) :: R) s)).
      * rewrite IH by (rewrite <- app_assoc; exact E).
        f_equal. simpl. lia.
      * intros s _. unfold final_names, temp_names. rewrite dict_get_app.
        destruct (str_eqb s o) eqn:Es.
        -- apply str_eqb_eq in Es. subst s. rewrite HD. simpl.
           rewrite str_eqb_refl. reflexivity.
        -- destruct (dict_get D s); [reflexivity|]. simpl.
           assert (Es' : str_eqb o s = false).
           { apply str_eqb_neq. apply str_eqb_neq in Es. congruence. }
           rewrite Es'. reflexivity.
Qed.

Lemma final_is_renamed : under (final_names P []) = renamed_bones P bs.
Proof. reflexivity. Qed.

Lemma third_loop (R : dict) :
  forall D a, P = D ++ R ->
    restore_deform R (snapshot_deform bs) (renamed_bones P bs) a
    = (renamed_bones P bs, a + List.length R).
Proof.
  destruct Hclear as (Hinj & Hsent & Htwo & Hfreed & Hfits).
  induction R as [|[o n] R IH]; intros D a E.
  - simpl. rewrite Nat.add_0_r. reflexivity.
  - destruct (@split_keys D R o n E) as (HD & HnD & HnR & HnP & HoP & HDP & HRP & HPo).
    assert (Ho : In o (map bone_name bs)) by (apply Hheld; exact HoP).
    destruct (In_bone_nth _ _ Ho) as (i & b & Hi & Hb).
    assert (Hi' : nth_error (renamed_bones P bs) i = Some (set_bone_name b n)).
    { unfold renamed_bones. erewrite map_nth_error by exact Hi. rewrite Hb.
      unfold renamed. rewrite HPo. reflexivity. }
    assert (Hidx : bone_index (renamed_bones P bs) n = Some i).
    { apply bone_index_sole with (b := set_bone_name b n);
        [exact Hi' | reflexivity|].
      intros k' b' Hk' Hn'.
      destruct (under_nth _ _ Hk') as (b0 & Hb0 & ->). simpl in Hn'.
      assert (E0 : bone_name b0 = o).
      { unfold renamed in Hn'.
        destruct (dict_get P (bone_name b0)) as [new|] eqn:Eg.
        - subst new. apply In_unique_value with (m := P) (v := n);
            [exact Hinj | apply dict_get_In; exact Eg | apply dict_get_In; exact HPo].
        - exfalso. apply dict_get_none_keys in Eg. apply Eg.
          rewrite Hn'. apply Hfreed; [exact HnP|]. rewrite <- Hn'.
          apply name_held with (k := k'). exact Hb0. }
      apply names_sole with (bs := bs) (b1 := b0) (b2 := b); try assumption.
      congruence. }
    assert (Hflag : dict_get (snapshot_deform bs) o = Some (use_deform b)).
    { rewrite <- Hb. apply snapshot_sole with (k := i); [exact Hi|].
      intros k' b' Hk' Hn'.
      apply names_sole with (bs := bs) (b1 := b') (b2 := b); assumption. }
    cbn [restore_deform]. rewrite Hidx, Hflag, Hi'.
    replace (set_use_deform (set_bone_name b n) (use_deform b))
      with (set_bone_name b n) by (destruct b; reflexivity).
    rewrite (list_set_same _ _ Hi').
    rewrite (IH (D ++ [(o, n)]) (S a)) by (rewrite <- app_assoc; exact E).
    f_equal. simpl. lia.
Qed.

Lemma under_start : under (temp_names []) = bs.
Proof.
  unfold temp_names. simpl. rewrite <- (map_id bs) at 2.
  apply map_ext. intros b. apply set_bone_name_same.
Qed.

Lemma three_loops :
  rename_to_temp uniq P bs = Some (under (temp_names P))
  /\ rename_to_final uniq P (under (temp_names P)) 0
     = (renamed_bones P bs, List.length P)
  /\ restore_deform P (snapshot_deform bs) (renamed_bones P bs) 0
     = (renamed_bones P bs, List.length P).
Proof.
  split; [|split].
  - rewrite <- under_start at 1. apply first_loop. reflexivity.
  - apply (@second_loop P [] 0). reflexivity.
  - apply (@third_loop P [] 0). reflexivity.
Qed.

End ManyBones.

Lemma rename_bones_clear (uniq : list str -> str -> str)
      (bs : list Bone) (m : dict) :
  NoDup (map bone_name bs) ->
  unique_keys m ->
  clear_renaming bs (rename_pairs bs m) ->
  rename_bones uniq bs m
  = Some (renamed_bones (rename_pairs bs m) bs,
          (List.length (rename_pairs bs m), List.length (rename_pairs bs m))).
Proof.
  intros Hnd Hu Hc. unfold rename_bones.
  destruct (@three_loops uniq bs Hnd (rename_pairs bs m)) as (H1 & H2 & H3).
  - apply filter_keys_NoDup. exact Hu.
  - intros o Ho. apply in_map_iff in Ho. destruct Ho as [[o' n] [E Hin]].
    simpl in E. subst o'. apply filter_In in Hin. destruct Hin as [_ Hf].
    rewrite !andb_true_iff in Hf. apply has_bone_In. tauto.
  - exact Hc.
  - rewrite H1, H2, H3. reflexivity.
Qed.


(** ** Renaming and taking it back *)

Lemma invert_swap (m : dict) :
  NoDup (map snd m) -> invert m = map (fun kv => (snd kv, fst kv)) m.
Proof.
  intros H. unfold invert.
  assert (G : forall acc,
             NoDup (map fst (acc ++ map (fun kv : str * str => (snd kv, fst kv)) m)) ->
             fold_left (fun d kv => dict_set d (snd kv) (fst kv)) m acc
             = acc ++ map (fun kv => (snd kv, fst kv)) m).
  { induction m as [|[k v] m IH]; intros acc Hn; simpl.
    - symmetry. apply app_nil_r.
    - rewrite dict_set_fresh.
      + rewrite IH.
        * rewrite <- app_assoc. reflexivity.
        * inversion H; subst. assumption.
        * rewrite <- app_assoc. exact Hn.
      + rewrite map_app in Hn. simpl in Hn. apply NoDup_remove_2 in Hn.
        intros Hin. apply Hn. apply in_or_app. left. exact Hin. }
  apply (G []). simpl. rewrite map_map. simpl. exact H.
Qed.

Lemma swapped_keys (m : dict) :
  map fst (map (fun kv : str * str => (snd kv, fst kv)) m) = map snd m.
Proof. rewrite map_map. reflexivity. Qed.

Lemma swapped_values (m : dict) :
  map snd (map (fun kv : str * str => (snd kv, fst kv)) m) = map fst m.
Proof. rewrite map_map. reflexivity. Qed.

Lemma dict_get_unique (V : Type) (m : pydict V) (k : str) (v : V) :
  NoDup (map fst m) -> In (k, v) m -> dict_get m k = Some v.
Proof.
  induction m as [|[k' v'] m IH]; intros Hn Hin; [contradiction|].
  simpl in Hn. inversion Hn as [|? ? Hout Hm]; subst. simpl.
  destruct Hin as [E|Hin].
  - inversion E; subst. rewrite str_eqb_refl. reflexivity.
  - destruct (str_eqb k' k) eqn:Ek.
    + apply str_eqb_eq in Ek. subst k'. exfalso. apply Hout.
      apply in_map_iff. exists (k, v). tauto.
    + apply IH; assumption.
Qed.

Lemma renamed_names (m : dict) (bs : list Bone) :
  map bone_name (renamed_bones m bs) = map (renamed m) (map bone_name bs).
Proof. unfold renamed_bones. rewrite !map_map. reflexivity. Qed.

Section TakeBack.

Variable bs : list Bone.
Variable m : dict.
Hypothesis Hnd : NoDup (map bone_name bs).
Hypothesis Hu : unique_keys m.
Hypothesis Hr : revertible_renaming bs m.

Local Abbreviation inv := (map (fun kv : str * str => (snd kv, fst kv)) m).

Lemma key_is_bone (k v : str) : In (k, v) m -> In k (map bone_name bs).
Proof.
  destruct Hr as (Hp & _). intros Hin. rewrite <- Hp in Hin.
  apply filter_In in Hin. destruct Hin as [_ Hf]. simpl in Hf.
  rewrite !andb_true_iff in Hf. apply has_bone_In. tauto.
Qed.

Lemma pair_differs (k v : str) : In (k, v) m -> k <> v.
Proof.
  destruct Hr as (Hp & _). intros Hin. rewrite <- Hp in Hin.
  apply filter_In in Hin. destruct Hin as [_ Hf]. simpl in Hf.
  rewrite !andb_true_iff in Hf. destruct Hf as [_ Hf].
  apply negb_true_iff in Hf. apply str_eqb_neq. exact Hf.
Qed.

Lemma renamed_inj (s s' : str) :
  In s (map bone_name bs) -> In s' (map bone_name bs) ->
  renamed m s = renamed m s' -> s = s'.
Proof.
  destruct Hr as (_ & _ & (Hinj & _ & _ & Hfreed & _) & _).
  unfold renamed. intros Hs Hs' E.
  destruct (dict_get m s) as [v|] eqn:E1, (dict_get m s') as [v'|] eqn:E2.
  - subst v'. apply In_unique_value with (m := m) (v := v);
      [exact Hinj | apply dict_get_In; exact E1 | apply dict_get_In; exact E2].
  - subst v. exfalso. apply dict_get_none_keys in E2. apply E2.
    apply Hfreed; [eapply dict_get_value; exact E1 | exact Hs'].
  - subst v'. exfalso. apply dict_get_none_keys in E1. apply E1.
    apply Hfreed; [eapply dict_get_value; exact E2 | exact Hs].
  - exact E.
Qed.

Lemma renamed_NoDup : NoDup (map bone_name (renamed_bones m bs)).
Proof.
  rewrite renamed_names.
  assert (G : forall l, NoDup l -> (forall s, In s l -> In s (map bone_name bs)) ->
                        NoDup (map (renamed m) l)).
  { induction l as [|s l IH]; intros Hn Hsub; [constructor|].
    inversion Hn as [|? ? Hout Hl]; subst. simpl. constructor.
    - intros Hin. apply in_map_iff in Hin. destruct Hin as [s' [E Hs']].
      apply Hout. replace s with s'; [exact Hs'|].
      apply renamed_inj; [apply Hsub; right; exact Hs' | apply Hsub; left; reflexivity
                          | exact E].
    - apply IH; [exact Hl|]. intros s' Hs'. apply Hsub. right. exact Hs'. }
  apply G; [exact Hnd | auto].
Qed.

Lemma In_renamed (n : str) :
  In n (map bone_name (renamed_bones m bs)) ->
  In n (map snd m) \/ (In n (map bone_name bs) /\ dict_get m n = None).
Proof.
  rewrite renamed_names. intros H. apply in_map_iff in H.
  destruct H as [s [E Hs]]. unfold renamed in E.
  destruct (dict_get m s) as [v|] eqn:Eg.
  - left. subst v. eapply dict_get_value; exact Eg.
  - right. subst s. split; assumption.
Qed.

Lemma value_is_renamed (k v : str) :
  In (k, v) m -> In v (map bone_name (renamed_bones m bs)).
Proof.
  intros Hin. rewrite renamed_names. apply in_map_iff. exists k. split.
  - unfold renamed. rewrite (@dict_get_unique _ m k v Hu Hin). reflexivity.
  - apply key_is_bone with (v := v). exact Hin.
Qed.

Lemma inverse_applies : rename_pairs (renamed_bones m bs) inv = inv.
Proof.
  destruct Hr as (_ & Hk & _).
  unfold rename_pairs.
  assert (G : forall l, (forall kv, In kv l -> In kv m) ->
                filter (fun on => has_bone (renamed_bones m bs) (fst on)
                                  && truthy (snd on)
                                  && negb (str_eqb (fst on) (snd on)))
                       (map (fun kv : str * str => (snd kv, fst kv)) l)
                = map (fun kv : str * str => (snd kv, fst kv)) l).
  { induction l as [|[k v] l IH]; intros Hsub; [reflexivity|].
    assert (Hin : In (k, v) m) by (apply Hsub; left; reflexivity).
    simpl.
    assert (H1 : has_bone (renamed_bones m bs) v = true)
      by (apply has_bone_In; apply value_is_renamed with (k := k); exact Hin).
    assert (H2 : truthy k = true)
      by (apply (proj1 (Forall_forall _ _) Hk (k, v) Hin)).
    assert (H3 : str_eqb v k = false).
    { apply str_eqb_neq. intros E. apply (pair_differs Hin). congruence. }
    rewrite H1, H2, H3. simpl. f_equal. apply IH.
    intros kv Hkv. apply Hsub. right. exact Hkv. }
  apply G. auto.
Qed.

Lemma inverse_clear : clear_renaming (renamed_bones m bs) inv.
Proof.
  destruct Hr as (_ & Hkt & (Hinj & Hsent & Htwo & Hfreed & Hfits) & Hold & Holdfit).
  unfold clear_renaming. rewrite swapped_keys, swapped_values.
  split; [exact Hu | split; [|split; [|split]]].
  - intros k Hk Hin. apply In_renamed in Hin.
    apply (Hold k Hk). apply in_or_app. tauto.
  - intros k k' Hk Hk' E. apply (Hold k' Hk'). apply in_or_app. left.
    rewrite <- E. apply in_map_iff in Hk. destruct Hk as [[a b] [Ea Hab]].
    simpl in Ea. subst a. apply key_is_bone with (v := b). exact Hab.
  - intros k Hk Hin. apply In_renamed in Hin. destruct Hin as [Hin|[_ Hn]].
    + exact Hin.
    + apply dict_get_none_keys in Hn. contradiction.
  - intros k Hin. split; [|apply Holdfit; exact Hin].
    apply in_map_iff in Hin. destruct Hin as [[a b] [Ea Hab]].
    simpl in Ea. subst a.
    apply (proj1 (Forall_forall _ _) Hkt (k, b) Hab).
Qed.

Lemma inverse_get (k v : str) : In (k, v) m -> dict_get inv v = Some k.
Proof.
  destruct Hr as (_ & _ & (Hinj & _) & _).
  intros Hin. apply dict_get_unique.
  - rewrite swapped_keys. exact Hinj.
  - apply in_map_iff. exists (k, v). split; [reflexivity | exact Hin].
Qed.

Lemma taken_back : renamed_bones inv (renamed_bones m bs) = bs.
Proof.
  destruct Hr as (_ & _ & (Hinj & Hsent & Htwo & Hfreed & Hfits) & Hold & _).
  unfold renamed_bones. rewrite map_map. rewrite <- (map_id bs) at 2.
  apply map_ext_in. intros b Hb. cbn [bone_name set_bone_name].
  rewrite set_bone_name_twice.
  assert (Hs : In (bone_name b) (map bone_name bs)) by (apply in_map; exact Hb).
  unfold renamed at 2.
  destruct (dict_get m (bone_name b)) as [v|] eqn:Eg.
  - unfold renamed. rewrite (@inverse_get (bone_name b) v (dict_get_In _ _ Eg)).
    apply set_bone_name_same.
  - unfold renamed.
    destruct (dict_get inv (bone_name b)) as [k|] eqn:Ei.
    + exfalso. apply dict_get_key in Ei. rewrite swapped_keys in Ei.
      apply dict_get_none_keys in Eg. apply Eg. apply Hfreed; assumption.
    + apply set_bone_name_same.
Qed.

End TakeBack.


Ltac names_differ :=
  repeat match goal with
         | H : _ \/ _ |- _ => destruct H
         | H : False |- _ => destruct H
         | H : In _ _ |- _ => simpl in H
         end;
  subst; try discriminate; try contradiction.

Lemma unique_cycle : unique_keys cycle_mapping.
Proof. unfold unique_keys. repeat constructor; simpl; intuition discriminate. Qed.

Lemma unique_fresh : unique_keys fresh_mapping.
Proof. unfold unique_keys. repeat constructor; simpl; intuition discriminate. Qed.

Lemma three_names : NoDup (map bone_name three_bones).
Proof. repeat constructor; simpl; intuition discriminate. Qed.

Lemma clear_cycle : clear_renaming three_bones (rename_pairs three_bones cycle_mapping).
Proof.
  change (rename_pairs three_bones cycle_mapping) with cycle_mapping.
  unfold clear_renaming. split; [|split; [|split; [|split]]].
  - repeat constructor; simpl; intuition discriminate.
  - intros new H1 H2. simpl in H1, H2. names_differ.
  - intros new new' H1 H2 E. simpl in H1, H2. names_differ.
  - intros new H1 H2. simpl in H1 |- *. tauto.
  - intros new H1. simpl in H1.
    destruct H1 as [<-|[<-|[<-|[]]]]; split; reflexivity.
Qed.

Lemma clear_fresh : clear_renaming three_bones fresh_mapping.
Proof.
  unfold clear_renaming. split; [|split; [|split; [|split]]].
  - repeat constructor; simpl; intuition discriminate.
  - intros new H1 H2. simpl in H1, H2. names_differ.
  - intros new new' H1 H2 E. simpl in H1, H2. names_differ.
  - intros new H1 H2. simpl in H1, H2. names_differ.
  - intros new H1. simpl in H1.
    destruct H1 as [<-|[<-|[]]]; split; reflexivity.
Qed.

Lemma revertible_fresh : revertible_renaming three_bones fresh_mapping.
Proof.
  unfold revertible_renaming. split; [reflexivity|].
  split; [repeat constructor|]. split; [exact clear_fresh|]. split.
  - intros old H1 H2. simpl in H1, H2. names_differ.
  - intros old H1. simpl in H1. destruct H1 as [<-|[<-|[]]]; reflexivity.
Qed.

(** ** Vertex groups under a mapping *)


Lemma mesh_using_armature_groups (arm : option nat) (o : Object) (vs : list str) :
  mesh_using_armature arm (set_vertex_groups o vs) = mesh_using_armature arm o.
Proof. reflexivity. Qed.

Lemma set_vertex_groups_twice (o : Object) (a b : list str) :
  set_vertex_groups (set_vertex_groups o a) b = set_vertex_groups o b.
Proof. reflexivity. Qed.

Lemma group_taken_back (m : dict) (vg : str) :
  unique_keys m -> NoDup (map snd m) ->
  Forall (fun kv => truthy (fst kv) = true) m ->
  ~ In vg (map snd m) ->
  group_renamed (invert m) (group_renamed m vg) = vg.
Proof.
  intros Hu Hinj Hk Hfresh.
  rewrite (@invert_swap m Hinj).
  assert (Hnone : dict_get (map (fun kv : str * str => (snd kv, fst kv)) m) vg = None).
  { apply dict_get_none_keys. rewrite swapped_keys. exact Hfresh. }
  unfold group_renamed at 2.
  destruct (dict_get m vg) as [new|] eqn:Eg.
  - destruct (truthy new && negb (str_eqb new vg)) eqn:E.
    + unfold group_renamed.
      assert (Hin : In (vg, new) m) by (apply dict_get_In; exact Eg).
      rewrite (@dict_get_unique _ (map (fun kv : str * str => (snd kv, fst kv)) m)
                                new vg).
      * apply andb_true_iff in E. destruct E as [_ E].
        apply negb_true_iff in E.
        assert (E' : str_eqb vg new = false).
        { apply str_eqb_neq. apply str_eqb_neq in E. congruence. }
        pose proof (proj1 (Forall_forall _ _) Hk (vg, new) Hin) as Ht.
        cbn [fst] in Ht. rewrite E', Ht. reflexivity.
      * rewrite swapped_keys. exact Hinj.
      * apply in_map_iff. exists (vg, new). split; [reflexivity | exact Hin].
    + unfold group_renamed. rewrite Hnone. reflexivity.
  - unfold group_renamed. rewrite Hnone. reflexivity.
Qed.

Lemma group_written (m : dict) (vg : str) :
  group_renamed m vg <> vg ->
  In (vg, group_renamed m vg) m /\ truthy (group_renamed m vg) = true.
Proof.
  intros H. destruct (group_renamed_step m vg) as [(new & G & T & R & _) | (_ & R)];
    [|congruence].
  rewrite R. split; [apply dict_get_In; exact G|].
  apply andb_true_iff in T. apply T.
Qed.

Lemma NoDup_map_on (A B : Type) (f : A -> B) (l : list A) :
  (forall a b, In a l -> In b l -> f a = f b -> a = b) ->
  NoDup l -> NoDup (map f l).
Proof.
  induction l as [|g l IH]; intros Hi Hn; [constructor|].
  inversion Hn as [|? ? Hout Hl]; subst. cbn [map]. constructor.
  - intros H. apply in_map_iff in H. destruct H as (x & Ex & Hx).
    assert (x = g) by (apply Hi; [right; exact Hx | left; reflexivity | exact Ex]).
    subst x. contradiction.
  - apply IH; [|exact Hl].
    intros a b Ha Hb. apply Hi; right; assumption.
Qed.

Section GroupsBack.

Variable m : dict.
Hypothesis Hu : unique_keys m.
Hypothesis Hinj : NoDup (map snd m).
Hypothesis Hfit :
  Forall (fun kv => fits_name (fst kv) = true /\ fits_field (snd kv) = true) m.

Variable gs : list str.
Hypothesis Hnd : NoDup gs.
Hypothesis Hfresh : forall n, In n gs -> ~ In n (map snd m).

Lemma keys_truthy : Forall (fun kv => truthy (fst kv) = true) m.
Proof.
  apply Forall_forall. intros kv Hin.
  apply fits_name_truthy. apply (proj1 (Forall_forall _ _) Hfit kv Hin).
Qed.

Lemma forward_clear : clear_groups m gs.
Proof.
  split; [exact Hnd | split].
  - intros vg Hin Hv. destruct (@group_written m vg Hv) as [Hm Ht].
    split.
    + unfold fits_name. rewrite Ht. cbn [andb].
      apply (proj1 (Forall_forall _ _) Hfit _ Hm).
    + intros Hg. apply (Hfresh _ Hg). apply in_map_iff.
      exists (vg, group_renamed m vg). split; [reflexivity | exact Hm].
  - intros vg vg' _ _ Hv Hv' E.
    destruct (@group_written m vg Hv) as [Hm _].
    destruct (@group_written m vg' Hv') as [Hm' _].
    rewrite <- E in Hm'.
    apply (@In_unique_value m vg vg' (group_renamed m vg) Hinj Hm Hm').
Qed.

Lemma renamed_group_inj (a b : str) :
  In a gs -> In b gs -> group_renamed m a = group_renamed m b -> a = b.
Proof.
  intros Ha Hb E.
  destruct (list_eq_dec N.eq_dec (group_renamed m a) a) as [Ea|Da];
    destruct (list_eq_dec N.eq_dec (group_renamed m b) b) as [Eb|Db].
  - congruence.
  - exfalso. destruct (@group_written m b Db) as [Hm _].
    apply (Hfresh _ Ha). rewrite <- Ea, E. apply in_map_iff.
    exists (b, group_renamed m b). split; [reflexivity | exact Hm].
  - exfalso. destruct (@group_written m a Da) as [Hm _].
    apply (Hfresh _ Hb). rewrite <- Eb, <- E. apply in_map_iff.
    exists (a, group_renamed m a). split; [reflexivity | exact Hm].
  - destruct (@group_written m a Da) as [Hm _].
    destruct (@group_written m b Db) as [Hm' _].
    rewrite <- E in Hm'.
    apply (@In_unique_value m a b (group_renamed m a) Hinj Hm Hm').
Qed.

Lemma renamed_groups_NoDup : NoDup (map (group_renamed m) gs).
Proof. apply NoDup_map_on; [exact renamed_group_inj | exact Hnd]. Qed.

(** What the inverse mapping holds for the name of a group after the
    patch: its key when the group was renamed, nothing otherwise. *)
Lemma back_written (vg : str) :
  In vg gs ->
  group_renamed (invert m) (group_renamed m vg) <> group_renamed m vg ->
  group_renamed m vg <> vg
  /\ group_renamed (invert m) (group_renamed m vg) = vg.
Proof.
  intros Hin Hb.
  assert (Hback : group_renamed (invert m) (group_renamed m vg) = vg)
    by (apply group_taken_back;
        [exact Hu | exact Hinj | exact keys_truthy | apply Hfresh; exact Hin]).
  split; [|exact Hback]. congruence.
Qed.

Lemma backward_clear : clear_groups (invert m) (map (group_renamed m) gs).
Proof.
  split; [exact renamed_groups_NoDup | split].
  - intros g' Hin Hv. apply in_map_iff in Hin. destruct Hin as (vg & <- & Hvg).
    destruct (@back_written vg Hvg Hv) as [Hw Hback]. rewrite Hback.
    destruct (@group_written m vg Hw) as [Hm _].
    split; [apply (proj1 (Forall_forall _ _) Hfit _ Hm)|].
    intros H. apply in_map_iff in H. destruct H as (b & Eb & Hb).
    destruct (list_eq_dec N.eq_dec (group_renamed m b) b) as [Es|Ed].
    + assert (b = vg) by congruence. subst b. contradiction.
    + destruct (@group_written m b Ed) as [Hmb _].
      apply (Hfresh _ Hvg). apply in_map_iff.
      exists (b, group_renamed m b). split; [exact Eb | exact Hmb].
  - intros a' b' Ha Hb Hva Hvb E.
    apply in_map_iff in Ha. destruct Ha as (a & <- & Ha).
    apply in_map_iff in Hb. destruct Hb as (b & <- & Hb).
    destruct (@back_written a Ha Hva) as [_ Ea].
    destruct (@back_written b Hb Hvb) as [_ Eb].
    congruence.
Qed.

End GroupsBack.

(** X9.  When the keys of the mapping are pairwise different, its values
    too, keys and values are strings that the host stores as they are
    (the keys not empty), the names of the vertex groups of every bound
    mesh are pairwise different and none of them is a value, patching
    the vertex groups with the mapping and then with its inverse gives
    every object back as it was. *)
Theorem vertex_groups_round_trip (uniq : list str -> str -> str)
        (objs : list Object) (arm : option nat) (m : dict) :
  unique_keys m -> NoDup (map snd m) ->
  Forall (fun kv => fits_name (fst kv) = true /\ fits_field (snd kv) = true) m ->
  (forall o, In o objs -> mesh_using_armature arm o <> None ->
             NoDup (vertex_groups o)) ->
  fresh_values m (bound_groups arm objs) ->
  fst (patch_vertex_groups_for_armature uniq
         (fst (patch_vertex_groups_for_armature uniq objs arm m 0)) arm (invert m) 0)
  = objs.
Proof.
  intros Hu Hinj Hfit Hnd Hfresh.
  assert (Hf : forall o, In o objs -> mesh_using_armature arm o <> None ->
                 forall n, In n (vertex_groups o) -> ~ In n (map snd m)).
  { intros o Ho Hb n Hn. apply Hfresh. unfold bound_groups. apply in_flat_map.
    exists o. split; [exact Ho|].
    destruct (mesh_using_armature arm o); [exact Hn | congruence]. }
  rewrite (@patch_vertex_groups_clear uniq m arm objs 0).
  2:{ intros o Ho Hb. apply forward_clear; [assumption.. | apply Hnd; assumption
                                          | apply Hf; assumption]. }
  cbn [fst].
  rewrite (@patch_vertex_groups_clear uniq (invert m) arm (groups_renamed m arm objs) 0).
  2:{ intros o' Ho' Hb'. unfold groups_renamed in Ho'.
      apply in_map_iff in Ho'. destruct Ho' as (o & <- & Ho).
      destruct (mesh_using_armature arm o) eqn:Em; [|congruence].
      cbn [vertex_groups set_vertex_groups].
      apply backward_clear; try assumption.
      - apply Hnd; [exact Ho | rewrite Em; discriminate].
      - apply Hf; [exact Ho | rewrite Em; discriminate]. }
  cbn [fst].
  unfold groups_renamed. rewrite map_map. rewrite <- (map_id objs) at 2.
  apply map_ext_in. intros o Ho.
  destruct (mesh_using_armature arm o) as [k|] eqn:Em.
  - rewrite mesh_using_armature_groups, Em, set_vertex_groups_twice.
    cbn [vertex_groups set_vertex_groups]. rewrite map_map.
    transitivity (set_vertex_groups o (vertex_groups o));
      [|apply set_vertex_groups_same].
    f_equal. rewrite <- (map_id (vertex_groups o)) at 2.
    apply map_ext_in. intros vg Hvg.
    apply group_taken_back; try assumption.
    + apply keys_truthy. exact Hfit.
    + apply (Hf o Ho); [rewrite Em; discriminate | exact Hvg].
  - rewrite Em. reflexivity.
Qed.

(** ** Constraint subtargets under a mapping *)

(** What the patch of the subtargets never touches. *)
Lemma patch_constraints_length (m : dict) (cs : list Constraint) (n : nat) :
  List.length (fst (patch_constraints m cs n)) = List.length cs.
Proof.
  revert n; induction cs as [|c cs IH]; intros n; [reflexivity|].
  cbn [patch_constraints].
  destruct (con_subtarget c) as [s|];
    [destruct (dict_get m s) as [new|]|].
  - specialize (IH (S n)). destruct (patch_constraints m cs (S n)).
    simpl in *. congruence.
  - specialize (IH n). destruct (patch_constraints m cs n). simpl in *. congruence.
  - specialize (IH n). destruct (patch_constraints m cs n). simpl in *. congruence.
Qed.

Lemma patch_pose_bones_names (m : dict) (bs : list Bone) (n : nat) :
  map bone_name (fst (patch_pose_bones m bs n)) = map bone_name bs
  /\ map use_deform (fst (patch_pose_bones m bs n)) = map use_deform bs.
Proof.
  revert n; induction bs as [|b bs IH]; intros n; [split; reflexivity|].
  cbn [patch_pose_bones].
  destruct (patch_constraints m (constraints b) n) as [cs k].
  specialize (IH k). destruct (patch_pose_bones m bs k) as [rest k'].
  cbn [fst map] in *. destruct IH as [-> ->]. split; reflexivity.
Qed.

Lemma patch_constraints_exact (m : dict) (cs : list Constraint) (n : nat) :
  Forall (fun kv => fits_field (snd kv) = true) m ->
  fst (patch_constraints m cs n) = map (subtarget_renamed m) cs.
Proof.
  intros Hfit.
  revert n; induction cs as [|c cs IH]; intros n; [reflexivity|].
  cbn [patch_constraints map]. unfold subtarget_renamed at 1.
  destruct (con_subtarget c) as [s|] eqn:Es.
  - destruct (dict_get m s) as [new|] eqn:G.
    + assert (Hw : write_subtarget c s new = set_subtarget c new).
      { unfold write_subtarget. destruct (str_eqb new s) eqn:E.
        - apply str_eqb_eq in E. subst new. symmetry.
          apply set_subtarget_same. exact Es.
        - rewrite host_name_fits; [reflexivity|].
          apply (proj1 (Forall_forall _ _) Hfit (s, new)).
          apply dict_get_In. exact G. }
      rewrite Hw.
      specialize (IH (S n)). destruct (patch_constraints m cs (S n)).
      simpl in *. congruence.
    + specialize (IH n). destruct (patch_constraints m cs n).
      simpl in *. congruence.
  - specialize (IH n). destruct (patch_constraints m cs n). simpl in *. congruence.
Qed.

Lemma patch_pose_bones_exact (m : dict) (bs : list Bone) (n : nat) :
  Forall (fun kv => fits_field (snd kv) = true) m ->
  fst (patch_pose_bones m bs n) = subtargets_renamed m bs.
Proof.
  intros Hfit. unfold subtargets_renamed.
  revert n; induction bs as [|b bs IH]; intros n; [reflexivity|].
  cbn [patch_pose_bones map].
  pose proof (@patch_constraints_exact m (constraints b) n Hfit) as Hc.
  destruct (patch_constraints m (constraints b) n) as [cs k].
  specialize (IH k). destruct (patch_pose_bones m bs k). simpl in *. congruence.
Qed.

Lemma subtarget_taken_back (m : dict) (con : Constraint) :
  unique_keys m -> NoDup (map snd m) ->
  (forall s, con_subtarget con = Some s -> ~ In s (map snd m)) ->
  subtarget_renamed (invert m) (subtarget_renamed m con) = con.
Proof.
  intros Hu Hinj Hfresh. rewrite (@invert_swap m Hinj).
  unfold subtarget_renamed at 2.
  destruct (con_subtarget con) as [s|] eqn:Es.
  - destruct (dict_get m s) as [new|] eqn:Eg.
    + unfold subtarget_renamed. cbn [con_subtarget set_subtarget].
      rewrite (@dict_get_unique _ (map (fun kv : str * str => (snd kv, fst kv)) m)
                                new s).
      * destruct con as [c1 c2 c3 c4 c5 c6 c7 c8]. cbn in Es |- *.
        subst c4. reflexivity.
      * rewrite swapped_keys. exact Hinj.
      * apply in_map_iff. exists (s, new). split; [reflexivity|].
        apply dict_get_In. exact Eg.
    + unfold subtarget_renamed. rewrite Es.
      assert (Hn : dict_get (map (fun kv : str * str => (snd kv, fst kv)) m) s = None).
      { apply dict_get_none_keys. rewrite swapped_keys. apply Hfresh. reflexivity. }
      rewrite Hn. reflexivity.
  - unfold subtarget_renamed. rewrite Es. reflexivity.
Qed.

Lemma subtargets_taken_back (m : dict) (bs : list Bone) :
  unique_keys m -> NoDup (map snd m) ->
  fresh_values m (subtargets bs) ->
  subtargets_renamed (invert m) (subtargets_renamed m bs) = bs.
Proof.
  intros Hu Hinj Hfresh. unfold subtargets_renamed.
  rewrite map_map. rewrite <- (map_id bs) at 2.
  apply map_ext_in. intros b Hb. cbn [constraints set_constraints].
  rewrite map_map.
  replace (set_constraints (set_constraints b (map (subtarget_renamed m) (constraints b)))
             (map (fun x => subtarget_renamed (invert m) (subtarget_renamed m x))
                  (constraints b)))
    with (set_constraints b
            (map (fun x => subtarget_renamed (invert m) (subtarget_renamed m x))
                 (constraints b))) by reflexivity.
  transitivity (set_constraints b (constraints b));
    [|apply set_constraints_same].
  f_equal. rewrite <- (map_id (constraints b)) at 2.
  apply map_ext_in. intros con Hcon.
  apply subtarget_taken_back; try assumption.
  intros s Hs. apply Hfresh. unfold subtargets. apply in_flat_map.
  exists b. split; [exact Hb|]. apply in_flat_map.
  exists con. split; [exact Hcon|]. rewrite Hs. left. reflexivity.
Qed.

(** X10.  When keys and values of the mapping are strings that the host
    stores as they are, [patch_constraints_subtargets] writes nothing
    but the subtargets of the constraints of the armature's pose bones:
    a subtarget that is a key of the mapping takes its value, every
    other constraint and every other object is as before.  When moreover
    the keys of the mapping are pairwise different, its values too, and
    no subtarget on the armature is a value, patching with the mapping
    and then with its inverse gives the objects back as they were. *)
Theorem subtargets_round_trip (objs : list Object) (arm : option nat)
        (i : nat) (o : Object) (m : dict) :
  armature_at objs arm = Some (i, o) ->
  unique_keys m -> NoDup (map snd m) ->
  Forall (fun kv => fits_field (fst kv) = true /\ fits_field (snd kv) = true) m ->
  fresh_values m (subtargets (bones o)) ->
  exists n1 n2,
    patch_constraints_subtargets objs arm m
    = Some (list_set objs i (set_bones o (subtargets_renamed m (bones o))), n1)
    /\ patch_constraints_subtargets
         (list_set objs i (set_bones o (subtargets_renamed m (bones o))))
         arm (invert m)
       = Some (objs, n2).
Proof.
  intros Ha Hu Hinj Hfit Hfresh.
  assert (Hfv : Forall (fun kv => fits_field (snd kv) = true) m).
  { apply Forall_forall. intros kv Hin.
    apply (proj1 (Forall_forall _ _) Hfit kv Hin). }
  assert (Hfk : Forall (fun kv => fits_field (snd kv) = true) (invert m)).
  { rewrite (@invert_swap m Hinj). apply Forall_forall. intros kv Hin.
    apply in_map_iff in Hin. destruct Hin as (kv' & <- & Hin'). cbn [snd].
    apply (proj1 (Forall_forall _ _) Hfit kv' Hin'). }
  destruct (armature_at_nth _ _ Ha) as (-> & Hn & Hty).
  unfold patch_constraints_subtargets. rewrite Ha.
  pose proof (@patch_pose_bones_exact m (bones o) 0 Hfv) as H1.
  destruct (patch_pose_bones m (bones o) 0) as [bs1 n1]. cbn [fst] in H1. subst bs1.
  exists n1.
  set (o1 := set_bones o (subtargets_renamed m (bones o))).
  assert (Ha1 : armature_at (list_set objs i o1) (Some i) = Some (i, o1)).
  { apply armature_at_intro; [|exact Hty].
    apply nth_error_list_set_some with (y := o). exact Hn. }
  rewrite Ha1.
  pose proof (@patch_pose_bones_exact (invert m) (bones o1) 0 Hfk) as H2.
  destruct (patch_pose_bones (invert m) (bones o1) 0) as [bs2 n2].
  cbn [fst] in H2. subst bs2. exists n2. split; [reflexivity|].
  subst o1. cbn [bones set_bones].
  rewrite subtargets_taken_back by assumption.
  rewrite list_set_twice.
  change (set_bones (set_bones o (subtargets_renamed m (bones o))) (bones o))
    with (set_bones o (bones o)).
  rewrite set_bones_same, list_set_same by exact Hn. reflexivity.
Qed.

(** ** The dependency refresh *)

(** X11.  [force_refresh_depsgraph] leaves the scene as it found it:
    the armature modifier of every bound mesh is emptied and then set
    to the object it pointed at, and the frame is stepped forward and
    back to the current one. *)
Theorem refresh_leaves_scene (sc : Scene) (arm_obj : option nat) :
  force_refresh_depsgraph sc arm_obj = sc
  /\ refresh_modifiers (objects sc) arm_obj = objects sc
  /\ frame_current (force_refresh_depsgraph sc arm_obj) = frame_current sc.
Proof.
  rewrite force_refresh_same, refresh_modifiers_same. repeat split.
Qed.

(** ** Rotating the world matrices and putting them back *)

Lemma set_matrix_world_back (o : Object) (M : Matrix) :
  set_matrix_world (set_matrix_world o M) (matrix_world o) = o.
Proof. destruct o; reflexivity. Qed.

Lemma set_matrix_world_twice (o : Object) (M N : Matrix) :
  set_matrix_world (set_matrix_world o M) N = set_matrix_world o N.
Proof. reflexivity. Qed.

Lemma differ_in_world_refl (objs : list Object) : differ_in_world objs objs.
Proof.
  split; [reflexivity|]. intros k o H. exists (matrix_world o).
  rewrite H. f_equal. destruct o; reflexivity.
Qed.

Lemma differ_in_world_set (objs X : list Object) (i : nat) (x : Object) (M : Matrix) :
  differ_in_world objs X -> nth_error X i = Some x ->
  differ_in_world objs (list_set X i (set_matrix_world x M)).
Proof.
  intros [Hl Hp] Hx. split; [rewrite length_list_set; exact Hl|].
  intros k o Hk. destruct (Hp k o Hk) as [M0 HM0].
  destruct (Nat.eq_dec i k) as [->|Hne].
  - exists M. erewrite nth_error_list_set_some by exact Hx.
    rewrite HM0 in Hx. inversion Hx; subst. reflexivity.
  - exists M0. rewrite nth_error_list_set_ne by exact Hne. exact HM0.
Qed.

Lemma rotate_each_differs (objs : list Object) (ids : list nat) (rx ry rz : Q) :
  forall X, differ_in_world objs X ->
            differ_in_world objs (rotate_each X ids rx ry rz).
Proof.
  induction ids as [|i ids IH]; intros X H; [exact H|].
  cbn [rotate_each]. destruct (nth_error X i) as [x|] eqn:E.
  - apply IH. apply differ_in_world_set; assumption.
  - apply IH. exact H.
Qed.

Lemma rotate_each_elsewhere (ids : list nat) (rx ry rz : Q) (k : nat) :
  forall X, ~ In k ids ->
            nth_error (rotate_each X ids rx ry rz) k = nth_error X k.
Proof.
  induction ids as [|i ids IH]; intros X H; [reflexivity|].
  cbn [rotate_each]. simpl in H.
  destruct (nth_error X i) as [x|] eqn:E.
  - rewrite IH by tauto. apply nth_error_list_set_ne. tauto.
  - apply IH. tauto.
Qed.

Lemma restore_world_reaches (objs : list Object) (ids : list nat) (k : nat) :
  forall X, differ_in_world objs X ->
            In k ids \/ nth_error X k = nth_error objs k ->
            nth_error (_restore_world X (world_originals objs ids)) k
            = nth_error objs k.
Proof.
  induction ids as [|i ids IH]; intros X HX Hk.
  - simpl. destruct Hk as [[]|Hk]. exact Hk.
  - cbn [world_originals]. destruct (nth_error objs i) as [o|] eqn:Eo.
    + cbn [_restore_world]. destruct HX as [Hl Hp].
      destruct (Hp i o Eo) as [M HM]. rewrite HM.
      apply IH.
      * apply differ_in_world_set; [split; assumption | exact HM].
      * destruct (Nat.eq_dec i k) as [->|Hne].
        -- right. erewrite nth_error_list_set_some by exact HM.
           rewrite set_matrix_world_back. symmetry. exact Eo.
        -- destruct Hk as [[Hk|Hk]|Hk]; [contradiction | left; exact Hk|].
           right. rewrite nth_error_list_set_ne by exact Hne. exact Hk.
    + apply IH; [exact HX|].
      destruct Hk as [[Hk|Hk]|Hk]; [|left; exact Hk | right; exact Hk].
      subst k. right. rewrite Eo. apply nth_error_None.
      destruct HX as [Hl _]. rewrite Hl. apply nth_error_None. exact Eo.
Qed.

Lemma rotate_then_restore (objs : list Object) (ids : list nat) (rx ry rz : Q) :
  _restore_world (rotate_each objs ids rx ry rz) (world_originals objs ids) = objs.
Proof.
  apply nth_error_ext. intros k.
  apply restore_world_reaches.
  - apply rotate_each_differs. apply differ_in_world_refl.
  - destruct (in_dec Nat.eq_dec k ids) as [Hin|Hout]; [left; exact Hin|].
    right. apply rotate_each_elsewhere. exact Hout.
Qed.

(** X12.  [_restore_world] undoes [_temporarily_rotate_world]: whatever
    the objects, the list of those to rotate (with repetitions or
    positions that hold no object) and the angles, restoring the saved
    matrices after the rotation gives every object back as it was. *)
Theorem world_rotation_round_trip (objs : list Object) (ids : list nat)
        (rx ry rz : Q) :
  _restore_world (fst (_temporarily_rotate_world objs ids rx ry rz))
                 (snd (_temporarily_rotate_world objs ids rx ry rz))
  = objs.
Proof.
  unfold _temporarily_rotate_world. cbn [fst snd].
  apply rotate_then_restore.
Qed.

(** ** The helper of the BVH rotation *)

Lemma set_bones_twice (o : Object) (a b : list Bone) :
  set_bones (set_bones o a) b = set_bones o b.
Proof. reflexivity. Qed.

Lemma list_del_last (A : Type) (l : list A) (x : A) :
  list_del (l ++ [x]) (List.length l) = l.
Proof. induction l as [|y l IH]; simpl; [reflexivity | rewrite IH; reflexivity]. Qed.

Lemma filter_all (A : Type) (f : A -> bool) (l : list A) :
  (forall x, In x l -> f x = true) -> filter f l = l.
Proof.
  induction l as [|x l IH]; intros H; [reflexivity|].
  simpl. rewrite (H x) by (left; reflexivity). f_equal.
  apply IH. intros y Hy. apply H. right. exact Hy.
Qed.

Lemma bvh_constraints_cleared (empty : nat) (bs : list Bone) :
  no_bvh_constraint bs ->
  map (fun pb =>
         set_constraints pb
           (filter (fun con => negb (str_eqb (con_name con) BVH_ROT_NAME))
                   (constraints pb)))
      (map (fun pb => if has_parent pb then pb
                      else set_constraints pb (constraints pb ++ [bvh_constraint empty]))
           bs)
  = bs.
Proof.
  intros H. rewrite map_map. rewrite <- (map_id bs) at 2.
  apply map_ext_in. intros pb Hpb.
  assert (Hf : filter (fun con => negb (str_eqb (con_name con) BVH_ROT_NAME))
                      (constraints pb) = constraints pb).
  { apply filter_all. intros con Hcon. rewrite (H pb con Hpb Hcon). reflexivity. }
  destruct (has_parent pb).
  - rewrite Hf. apply set_constraints_same.
  - cbn [constraints set_constraints]. rewrite filter_app, Hf.
    cbn [filter bvh_constraint con_name]. rewrite str_eqb_refl. cbn [negb].
    rewrite app_nil_r.
    change (set_constraints (set_constraints pb (constraints pb ++ [bvh_constraint empty]))
                            (constraints pb))
      with (set_constraints pb (constraints pb)).
    apply set_constraints_same.
Qed.

Lemma bvh_helper_undone (objs : list Object) (arm : nat) (o : Object)
      (rx ry rz : Q) :
  armature_at objs (Some arm) = Some (arm, o) ->
  no_bvh_constraint (bones o) ->
  snd (_apply_bvh_rotation_to_roots objs arm rx ry rz) = List.length objs
  /\ _clear_bvh_rotation_helper
       (fst (_apply_bvh_rotation_to_roots objs arm rx ry rz))
       (snd (_apply_bvh_rotation_to_roots objs arm rx ry rz))
       (Some arm)
     = objs.
Proof.
  intros Ha Hno.
  destruct (armature_at_nth _ _ Ha) as (_ & Hn & Hty).
  assert (Hlt : arm < List.length objs) by (apply nth_error_Some; congruence).
  assert (Hn1 : nth_error (objs ++ [bvh_helper rx ry rz]) arm = Some o)
    by (rewrite nth_error_app1 by exact Hlt; exact Hn).
  unfold _apply_bvh_rotation_to_roots. rewrite Hn1. cbn [fst snd].
  split; [reflexivity|].
  set (bs1 := map (fun pb => if has_parent pb then pb
                             else set_constraints pb
                                    (constraints pb ++ [bvh_constraint (List.length objs)]))
                  (bones o)).
  set (objs1 := objs ++ [bvh_helper rx ry rz]) in *.
  unfold _clear_bvh_rotation_helper.
  rewrite (@armature_at_intro (list_set objs1 arm (set_bones o bs1)) arm
                              (set_bones o bs1));
    [| apply nth_error_list_set_some with (y := o); exact Hn1 | exact Hty].
  cbn [bones set_bones]. unfold bs1.
  rewrite bvh_constraints_cleared by exact Hno.
  rewrite list_set_twice.
  rewrite set_bones_twice, set_bones_same, list_set_same by exact Hn1.
  unfold objs1. rewrite nth_error_app_last, list_del_last. reflexivity.
Qed.

(** X13.  [_clear_bvh_rotation_helper] undoes
    [_apply_bvh_rotation_to_roots]: for an armature none of whose pose
    bones carries a constraint named AJ_BVH_ROT beforehand, adding the
    helper empty and the rotation constraints of the root bones and
    then clearing them gives the objects back as they were. *)
Theorem bvh_helper_round_trip (objs : list Object) (arm : nat) (o : Object)
        (rx ry rz : Q) :
  armature_at objs (Some arm) = Some (arm, o) ->
  no_bvh_constraint (bones o) ->
  snd (_apply_bvh_rotation_to_roots objs arm rx ry rz) = List.length objs
  /\ _clear_bvh_rotation_helper
       (fst (_apply_bvh_rotation_to_roots objs arm rx ry rz))
       (snd (_apply_bvh_rotation_to_roots objs arm rx ry rz))
       (Some arm)
     = objs.
Proof. apply bvh_helper_undone. Qed.

(** ** Removing the follow constraints *)

Lemma remove_prefixed_exact (cs : list Constraint) (n : nat) :
  remove_prefixed cs n
  = (filter (fun c => negb (prefixed c)) cs, n + List.length (filter prefixed cs)).
Proof.
  revert n; induction cs as [|c cs IH]; intros n.
  - simpl. rewrite Nat.add_0_r. reflexivity.
  - cbn [remove_prefixed filter].
    change (startswith (con_name c) AJ_CON_PREFIX) with (prefixed c).
    destruct (prefixed c); cbn [negb].
    + rewrite IH. cbn [List.length]. f_equal. lia.
    + rewrite IH. reflexivity.
Qed.

Lemma remove_from_bones_exact (bs : list Bone) (n : nat) :
  remove_from_bones bs n = (map unfollow bs, n + prefixed_count bs).
Proof.
  unfold prefixed_count, list_sum.
  revert n; induction bs as [|pb bs IH]; intros n.
  - simpl. rewrite Nat.add_0_r. reflexivity.
  - cbn [remove_from_bones map fold_right].
    rewrite remove_prefixed_exact, IH. unfold unfollow at 1. f_equal. lia.
Qed.

Lemma remove_from_arm_exact (objs : list Object) (r : option nat) (n : nat) :
  remove_from_arm objs r n = (unfollow_arm r objs, n + prefixed_at objs r).
Proof.
  unfold remove_from_arm, unfollow_arm, prefixed_at.
  destruct (armature_at objs r) as [[i o]|].
  - rewrite remove_from_bones_exact. reflexivity.
  - rewrite Nat.add_0_r. reflexivity.
Qed.

Lemma remove_follow_exact (objs : list Object) (props : AJ_Props) :
  _remove_follow_constraints objs props
  = (unfollow_arm (target_armature props)
                  (unfollow_arm (source_armature props) objs),
     prefixed_at objs (source_armature props)
     + prefixed_at (unfollow_arm (source_armature props) objs)
                   (target_armature props)).
Proof.
  unfold _remove_follow_constraints. rewrite !remove_from_arm_exact.
  reflexivity.
Qed.

Lemma nth_unfollow_arm (r : option nat) (objs : list Object) (k : nat) :
  nth_error (unfollow_arm r objs) k
  = option_map (fun o => if points_at r k o then unfollow_object o else o)
               (nth_error objs k).
Proof.
  unfold unfollow_arm, armature_at, points_at.
  destruct r as [i|].
  - destruct (nth_error objs i) as [o|] eqn:Ei.
    + destruct (ObjType_eqb (obj_type o) ARMATURE) eqn:Et.
      * destruct (Nat.eq_dec i k) as [->|Hne].
        -- erewrite nth_error_list_set_some by exact Ei.
           rewrite Ei. simpl. rewrite Nat.eqb_refl, Et. reflexivity.
        -- rewrite nth_error_list_set_ne by exact Hne.
           apply Nat.eqb_neq in Hne. rewrite Hne.
           destruct (nth_error objs k); reflexivity.
      * destruct (nth_error objs k) as [o'|] eqn:Ek; [|reflexivity]. simpl.
        destruct (Nat.eqb i k) eqn:E; [|reflexivity].
        apply Nat.eqb_eq in E. subst k.
        assert (o' = o) by congruence. subst o'. rewrite Et. reflexivity.
    + destruct (nth_error objs k) as [o'|] eqn:Ek; [|reflexivity]. simpl.
      destruct (Nat.eqb i k) eqn:E; [|reflexivity].
      apply Nat.eqb_eq in E. subst k. congruence.
  - destruct (nth_error objs k); reflexivity.
Qed.

Lemma unfollow_twice (pb : Bone) : unfollow (unfollow pb) = unfollow pb.
Proof.
  unfold unfollow. cbn [constraints set_constraints].
  rewrite filter_twice. reflexivity.
Qed.

Lemma bones_set_bones (o : Object) (bs : list Bone) : bones (set_bones o bs) = bs.
Proof. reflexivity. Qed.

Lemma unfollow_object_twice (o : Object) :
  unfollow_object (unfollow_object o) = unfollow_object o.
Proof.
  unfold unfollow_object. rewrite set_bones_twice, bones_set_bones, map_map.
  f_equal. apply map_ext. intros pb. apply unfollow_twice.
Qed.

Lemma points_at_unfollow (r : option nat) (k : nat) (o : Object) :
  points_at r k (unfollow_object o) = points_at r k o.
Proof. reflexivity. Qed.

Lemma prefixed_at_unfollowed (objs : list Object) (r s : option nat) :
  (forall k o, nth_error objs k = Some o -> points_at r k o = true ->
               prefixed_count (bones o) = 0) ->
  prefixed_at objs r = 0.
Proof.
  intros H. unfold prefixed_at.
  destruct (armature_at objs r) as [[i o]|] eqn:E; [|reflexivity].
  destruct (armature_at_nth _ _ E) as (-> & Hn & Ht).
  apply (H i o Hn). unfold points_at. rewrite Nat.eqb_refl, Ht. reflexivity.
Qed.

(** X14.  [_remove_follow_constraints] takes the reserved-prefix
    constraints, and nothing else, off the pose bones of the Source and
    of the Target armature: the objects afterwards are the ones before
    with those two armatures stripped of these constraints, the number
    returned is the number of constraints taken off, and a second call
    finds nothing to remove and changes nothing. *)
Theorem remove_follow_is_exact (objs : list Object) (props : AJ_Props) :
  let after := unfollow_arm (target_armature props)
                            (unfollow_arm (source_armature props) objs) in
  _remove_follow_constraints objs props
  = (after,
     prefixed_at objs (source_armature props)
     + prefixed_at (unfollow_arm (source_armature props) objs)
                   (target_armature props))
  /\ _remove_follow_constraints after props = (after, 0)
  /\ (forall k, nth_error after k
                = option_map
                    (fun o => if points_at (source_armature props) k o
                                 || points_at (target_armature props) k o
                              then unfollow_object o else o)
                    (nth_error objs k)).
Proof.
  intros after.
  assert (Hnth : forall k,
             nth_error after k
             = option_map
                 (fun o => if points_at (source_armature props) k o
                              || points_at (target_armature props) k o
                           then unfollow_object o else o)
                 (nth_error objs k)).
  { intros k. unfold after. rewrite !nth_unfollow_arm.
    destruct (nth_error objs k) as [o|]; [|reflexivity]. simpl.
    destruct (points_at (source_armature props) k o) eqn:E1.
    - rewrite points_at_unfollow.
      destruct (points_at (target_armature props) k o);
        [rewrite unfollow_object_twice|]; reflexivity.
    - reflexivity. }
  split; [apply remove_follow_exact|]. split; [|exact Hnth].
  assert (Hclean : forall r, r = source_armature props \/ r = target_armature props ->
                             forall k o, nth_error after k = Some o ->
                                         points_at r k o = true ->
                                         unfollow_object o = o).
  { intros r Hr k o Hk Hp. rewrite Hnth in Hk.
    destruct (nth_error objs k) as [o0|]; [|discriminate]. simpl in Hk.
    destruct (points_at (source_armature props) k o0
              || points_at (target_armature props) k o0) eqn:E.
    - inversion Hk; subst. apply unfollow_object_twice.
    - inversion Hk; subst. apply orb_false_iff in E. destruct E as [E1 E2].
      destruct Hr as [-> | ->]; congruence. }
  assert (Hsame : forall r, r = source_armature props \/ r = target_armature props ->
                            unfollow_arm r after = after).
  { intros r Hr. apply nth_error_ext. intros k. rewrite nth_unfollow_arm.
    destruct (nth_error after k) as [o|] eqn:Ek; [|reflexivity]. simpl.
    destruct (points_at r k o) eqn:Ep; [|reflexivity].
    rewrite (Hclean r Hr k o Ek Ep). reflexivity. }
  rewrite remove_follow_exact.
  rewrite (Hsame (source_armature props)) by (left; reflexivity).
  rewrite (Hsame (target_armature props)) by (right; reflexivity).
  f_equal.
  assert (Hzero : forall r, r = source_armature props \/ r = target_armature props ->
                            prefixed_at after r = 0).
  { intros r Hr. apply prefixed_at_unfollowed; [exact r|].
    intros k o Hk Hp. rewrite <- (Hclean r Hr k o Hk Hp).
    unfold unfollow_object. rewrite bones_set_bones. apply unfollow_not_prefixed. }
  rewrite !Hzero by tauto. reflexivity.
Qed.

(** ** Turning a follow direction on and off again *)

Lemma install_follow_on (objs : list Object) (mode : FollowMode)
      (src_arm : nat) (src_bone : str) (dst_arm : nat) (dst_bone : str) :
  install_follow objs mode src_arm src_bone dst_arm dst_bone
  = match nth_error objs dst_arm with
    | Some o => list_set objs dst_arm (install_on mode src_arm src_bone dst_bone o)
    | None => objs
    end.
Proof.
  unfold install_follow, install_on.
  destruct (nth_error objs dst_arm) as [o|] eqn:E; [|reflexivity].
  destruct (bone_index (bones o) dst_bone) as [k|].
  - destruct (nth_error (bones o) k); [reflexivity|].
    symmetry. apply list_set_same. exact E.
  - symmetry. apply list_set_same. exact E.
Qed.

Lemma unfollow_set_constraints (pb : Bone) (cs : list Constraint) (c : Constraint) :
  prefixed c = true ->
  unfollow (set_constraints pb (fst (remove_prefixed (constraints pb) 0) ++ [c]))
  = unfollow pb.
Proof.
  intros Hc. unfold unfollow. cbn [constraints set_constraints].
  rewrite remove_prefixed_exact. cbn [fst].
  rewrite filter_app, filter_twice. cbn [filter]. rewrite Hc. cbn [negb].
  rewrite app_nil_r. reflexivity.
Qed.

Lemma map_list_set (A B : Type) (f : A -> B) (l : list A) (k : nat) (x : A) :
  map f (list_set l k x) = list_set (map f l) k (f x).
Proof.
  revert k; induction l as [|y l IH]; intros k; [reflexivity|].
  destruct k as [|k]; simpl; [reflexivity | rewrite IH; reflexivity].
Qed.

Lemma install_on_unfollow (mode : FollowMode) (src_arm : nat)
      (src_bone dst_bone : str) (o : Object) :
  unfollow_object (install_on mode src_arm src_bone dst_bone o) = unfollow_object o.
Proof.
  unfold install_on.
  destruct (bone_index (bones o) dst_bone) as [k|]; [|reflexivity].
  destruct (nth_error (bones o) k) as [pb|] eqn:E; [|reflexivity].
  unfold unfollow_object. rewrite set_bones_twice, bones_set_bones. f_equal.
  rewrite map_list_set.
  rewrite unfollow_set_constraints;
    [| exact (constraints pb) | apply follow_constraint_prefixed].
  apply list_set_same. apply map_nth_error. exact E.
Qed.

Lemma install_on_type (mode : FollowMode) (src_arm : nat)
      (src_bone dst_bone : str) (o : Object) :
  obj_type (install_on mode src_arm src_bone dst_bone o) = obj_type o.
Proof.
  unfold install_on.
  destruct (bone_index (bones o) dst_bone) as [k|]; [|reflexivity].
  destruct (nth_error (bones o) k); reflexivity.
Qed.

Lemma nth_install_follow (objs : list Object) (mode : FollowMode)
      (src_arm : nat) (src_bone : str) (dst_arm : nat) (dst_bone : str) (k : nat) :
  nth_error (install_follow objs mode src_arm src_bone dst_arm dst_bone) k
  = option_map (fun o => if Nat.eqb dst_arm k
                         then install_on mode src_arm src_bone dst_bone o else o)
               (nth_error objs k).
Proof.
  rewrite install_follow_on.
  destruct (nth_error objs dst_arm) as [o|] eqn:E.
  - destruct (Nat.eq_dec dst_arm k) as [->|Hne].
    + erewrite nth_error_list_set_some by exact E.
      rewrite E. simpl. rewrite Nat.eqb_refl. reflexivity.
    + rewrite nth_error_list_set_ne by exact Hne.
      apply Nat.eqb_neq in Hne. rewrite Hne.
      destruct (nth_error objs k); reflexivity.
  - destruct (nth_error objs k) as [o'|] eqn:Ek; [|reflexivity]. simpl.
    destruct (Nat.eqb dst_arm k) eqn:Eq; [|reflexivity].
    apply Nat.eqb_eq in Eq. subst k. congruence.
Qed.

Section OnAndOff.

Variables (s t : option nat) (A B : nat).

Lemma install_keeps_armatures (objs : list Object) (mode : FollowMode)
      (sa : nat) (sb : str) (d : nat) (db : str) :
  both_armatures s t A B objs ->
  both_armatures s t A B (install_follow objs mode sa sb d db).
Proof.
  assert (G : forall r i o, armature_at objs r = Some (i, o) ->
                exists o', armature_at (install_follow objs mode sa sb d db) r
                           = Some (i, o')).
  { intros r i o H. destruct (armature_at_nth _ _ H) as (-> & Hn & Ht).
    pose proof (nth_install_follow objs mode sa sb d db i) as X.
    rewrite Hn in X. simpl in X.
    eexists. apply armature_at_intro; [exact X|].
    destruct (Nat.eqb d i); [rewrite install_on_type|]; exact Ht. }
  intros [[oA HA] [oB HB]]. split; [eapply G; exact HA | eapply G; exact HB].
Qed.

Lemma install_is_cleaned (objs : list Object) (mode : FollowMode)
      (sa : nat) (sb : str) (d : nat) (db : str) :
  both_armatures s t A B objs -> d = A \/ d = B ->
  unfollow_arm t (unfollow_arm s (install_follow objs mode sa sb d db))
  = unfollow_arm t (unfollow_arm s objs).
Proof.
  intros [[oA HA] [oB HB]] Hd.
  destruct (armature_at_nth _ _ HA) as (Es & HnA & HtA).
  destruct (armature_at_nth _ _ HB) as (Et & HnB & HtB).
  apply nth_error_ext. intros k.
  rewrite !nth_unfollow_arm, nth_install_follow.
  destruct (nth_error objs k) as [o|] eqn:Ek; [|reflexivity]. simpl. f_equal.
  destruct (Nat.eqb d k) eqn:Edk; [|reflexivity].
  apply Nat.eqb_eq in Edk. subst k.
  set (o' := install_on mode sa sb db o).
  assert (Hty : obj_type o' = obj_type o) by apply install_on_type.
  assert (Hp : forall r, points_at r d o' = points_at r d o).
  { intros r. unfold points_at. rewrite Hty. reflexivity. }
  assert (Hu : unfollow_object o' = unfollow_object o) by apply install_on_unfollow.
  assert (Hhit : points_at s d o = true \/ points_at t d o = true).
  { destruct Hd as [-> | ->].
    - left. rewrite Es. unfold points_at. rewrite Nat.eqb_refl.
      assert (o = oA) by congruence. subst o. rewrite HtA. reflexivity.
    - right. rewrite Et. unfold points_at. rewrite Nat.eqb_refl.
      assert (o = oB) by congruence. subst o. rewrite HtB. reflexivity. }
  rewrite Hp. destruct (points_at s d o) eqn:E1.
  - rewrite Hu. reflexivity.
  - rewrite Hp. destruct Hhit as [Hh|Hh]; [discriminate|].
    rewrite Hh, Hu. reflexivity.
Qed.

Lemma add_rows_cleaned (rows : list BoneMapItem) (direction : Direction)
      (mode : FollowMode) :
  forall objs count,
    both_armatures s t A B objs ->
    unfollow_arm t (unfollow_arm s
                      (fst (add_follow_rows rows A B direction mode objs count)))
    = unfollow_arm t (unfollow_arm s objs).
Proof.
  induction rows as [|it rows IH]; intros objs count Hb; [reflexivity|].
  cbn [add_follow_rows].
  destruct (negb (truthy (original_name it) && truthy (target_name it)));
    [apply IH; exact Hb|].
  destruct direction.
  - destruct (negb (bone_exists_at objs A (original_name it)
                    && bone_exists_at objs B (target_name it)));
      [apply IH; exact Hb|].
    rewrite IH by (apply install_keeps_armatures; exact Hb).
    apply install_is_cleaned; [exact Hb | right; reflexivity].
  - destruct (negb (bone_exists_at objs B (target_name it)
                    && bone_exists_at objs A (original_name it)));
      [apply IH; exact Hb|].
    rewrite IH by (apply install_keeps_armatures; exact Hb).
    apply install_is_cleaned; [exact Hb | left; reflexivity].
Qed.

End OnAndOff.

Lemma add_follow_cleaned (objs : list Object) (props : AJ_Props)
      (direction : Direction) :
  unfollow_arm (target_armature props)
    (unfollow_arm (source_armature props)
       (fst (_add_follow_constraints objs props direction)))
  = unfollow_arm (target_armature props)
      (unfollow_arm (source_armature props) objs).
Proof.
  unfold _add_follow_constraints.
  destruct (armature_at objs (source_armature props)) as [[A oA]|] eqn:EA;
    [|reflexivity].
  destruct (armature_at objs (target_armature props)) as [[B oB]|] eqn:EB;
    [|reflexivity].
  apply add_rows_cleaned. split; eexists; eassumption.
Qed.

Lemma unfollow_clean_bones (bs : list Bone) :
  prefixed_count bs = 0 -> map unfollow bs = bs.
Proof.
  unfold prefixed_count, list_sum.
  induction bs as [|pb bs IH]; intros H; [reflexivity|].
  cbn [map fold_right] in *.
  assert (H1 : List.length (filter prefixed (constraints pb)) = 0) by lia.
  rewrite IH by lia. f_equal.
  unfold unfollow.
  assert (Hf : filter (fun c => negb (prefixed c)) (constraints pb) = constraints pb).
  { apply filter_all. intros c Hc.
    destruct (prefixed c) eqn:E; [|reflexivity].
    assert (In c (filter prefixed (constraints pb)))
      by (apply filter_In; split; assumption).
    destruct (filter prefixed (constraints pb)); [contradiction | discriminate]. }
  rewrite Hf. apply set_constraints_same.
Qed.

Lemma unfollow_arm_clean (objs : list Object) (r : option nat) :
  prefixed_at objs r = 0 -> unfollow_arm r objs = objs.
Proof.
  unfold prefixed_at, unfollow_arm.
  destruct (armature_at objs r) as [[i o]|] eqn:E; [|reflexivity].
  intros H. destruct (armature_at_nth _ _ E) as (_ & Hn & _).
  unfold unfollow_object. rewrite (unfollow_clean_bones _ H).
  rewrite set_bones_same. apply list_set_same. exact Hn.
Qed.

Lemma toggle_a2b_on (sc : Scene) :
  live_follow_a2b (aj_props sc) = false ->
  let p := set_live_follow_b2a (set_live_follow_a2b (aj_props sc) true) false in
  follow_step sc ToggleA2B
  = set_props
      (set_objects sc
         (fst (_add_follow_constraints
                 (fst (_remove_follow_constraints (objects sc) p)) p A2B))) p.
Proof.
  intros H p. unfold follow_step, toggle_follow_a2b_execute. rewrite H.
  cbn [negb]. change (live_follow_a2b (set_live_follow_a2b (aj_props sc) true)) with true.
  cbv iota. fold p.
  destruct (_remove_follow_constraints (objects sc) p) as [o1 n1]. cbn [fst].
  destruct (_add_follow_constraints o1 p A2B) as [o2 n2]. reflexivity.
Qed.

Lemma toggle_a2b_off (sc : Scene) :
  live_follow_a2b (aj_props sc) = true ->
  let p := set_live_follow_a2b (aj_props sc) false in
  follow_step sc ToggleA2B
  = set_props (set_objects sc (fst (_remove_follow_constraints (objects sc) p))) p.
Proof.
  intros H p. unfold follow_step, toggle_follow_a2b_execute. rewrite H.
  cbn [negb]. change (live_follow_a2b (set_live_follow_a2b (aj_props sc) false)) with false.
  cbv iota. fold p.
  destruct (_remove_follow_constraints (objects sc) p) as [o1 n1]. reflexivity.
Qed.

Lemma toggle_b2a_on (sc : Scene) :
  live_follow_b2a (aj_props sc) = false ->
  let p := set_live_follow_a2b (set_live_follow_b2a (aj_props sc) true) false in
  follow_step sc ToggleB2A
  = set_props
      (set_objects sc
         (fst (_add_follow_constraints
                 (fst (_remove_follow_constraints (objects sc) p)) p B2A))) p.
Proof.
  intros H p. unfold follow_step, toggle_follow_b2a_execute. rewrite H.
  cbn [negb]. change (live_follow_b2a (set_live_follow_b2a (aj_props sc) true)) with true.
  cbv iota. fold p.
  destruct (_remove_follow_constraints (objects sc) p) as [o1 n1]. cbn [fst].
  destruct (_add_follow_constraints o1 p B2A) as [o2 n2]. reflexivity.
Qed.

Lemma toggle_b2a_off (sc : Scene) :
  live_follow_b2a (aj_props sc) = true ->
  let p := set_live_follow_b2a (aj_props sc) false in
  follow_step sc ToggleB2A
  = set_props (set_objects sc (fst (_remove_follow_constraints (objects sc) p))) p.
Proof.
  intros H p. unfold follow_step, toggle_follow_b2a_execute. rewrite H.
  cbn [negb]. change (live_follow_b2a (set_live_follow_b2a (aj_props sc) false)) with false.
  cbv iota. fold p.
  destruct (_remove_follow_constraints (objects sc) p) as [o1 n1]. reflexivity.
Qed.

Lemma strip_if_stripped (r : option nat) (k : nat) (o : Object) :
  strip_if r k (unfollow_object o) = unfollow_object o.
Proof.
  unfold strip_if. destruct (points_at r k (unfollow_object o));
    [apply unfollow_object_twice | reflexivity].
Qed.

Lemma nth_unfollow_arm_strip (r : option nat) (objs : list Object) (k : nat) :
  nth_error (unfollow_arm r objs) k = option_map (strip_if r k) (nth_error objs k).
Proof. apply nth_unfollow_arm. Qed.

Lemma cleaned_twice (objs : list Object) (s t : option nat) :
  unfollow_arm t (unfollow_arm s (unfollow_arm t (unfollow_arm s objs)))
  = unfollow_arm t (unfollow_arm s objs).
Proof.
  apply nth_error_ext. intros k. rewrite !nth_unfollow_arm_strip.
  destruct (nth_error objs k) as [o|]; [|reflexivity]. simpl. f_equal.
  destruct (points_at s k o) eqn:E1.
  - assert (Es : strip_if s k o = unfollow_object o)
      by (unfold strip_if; rewrite E1; reflexivity).
    rewrite Es, !strip_if_stripped. reflexivity.
  - assert (Es : strip_if s k o = o)
      by (unfold strip_if; rewrite E1; reflexivity).
    rewrite Es. destruct (points_at t k o) eqn:E2.
    + assert (Et : strip_if t k o = unfollow_object o)
        by (unfold strip_if; rewrite E2; reflexivity).
      rewrite Et, !strip_if_stripped. reflexivity.
    + assert (Et : strip_if t k o = o)
        by (unfold strip_if; rewrite E2; reflexivity).
      rewrite Et, Es, Et. reflexivity.
Qed.

(** X15.  Turning a follow direction on and then off again (the same
    button twice, starting with that direction off) leaves both flags
    off and the objects as [_remove_follow_constraints] alone would
    leave them: every constraint the command installed is gone again.
    If neither armature carried a reserved-prefix constraint before,
    the objects are exactly those from before. *)
Theorem follow_on_then_off (sc : Scene) (c : FollowCommand) :
  turns_on sc c ->
  let sc2 := follow_step (follow_step sc c) c in
  objects sc2 = fst (_remove_follow_constraints (objects sc) (aj_props sc))
  /\ live_follow_a2b (aj_props sc2) = false
  /\ live_follow_b2a (aj_props sc2) = false
  /\ (prefixed_at (objects sc) (source_armature (aj_props sc)) = 0 ->
      prefixed_at (objects sc) (target_armature (aj_props sc)) = 0 ->
      objects sc2 = objects sc).
Proof.
  intros Hon sc2.
  set (s := source_armature (aj_props sc)).
  set (t := target_armature (aj_props sc)).
  assert (Hobjs : objects sc2 = unfollow_arm t (unfollow_arm s (objects sc))
                  /\ live_follow_a2b (aj_props sc2) = false
                  /\ live_follow_b2a (aj_props sc2) = false).
  { unfold sc2. destruct c; simpl in Hon; [| |contradiction].
    - rewrite (toggle_a2b_on sc Hon). cbv zeta.
      set (p := set_live_follow_b2a (set_live_follow_a2b (aj_props sc) true) false).
      rewrite toggle_a2b_off by reflexivity. cbv zeta.
      cbn [aj_props set_props objects set_objects].
      rewrite !remove_follow_exact. cbn [fst].
      change (source_armature (set_live_follow_a2b p false)) with s.
      change (target_armature (set_live_follow_a2b p false)) with t.
      change (source_armature p) with s. change (target_armature p) with t.
      pose proof (add_follow_cleaned (unfollow_arm t (unfollow_arm s (objects sc)))
                                     p A2B) as Hc.
      change (source_armature p) with s in Hc.
      change (target_armature p) with t in Hc.
      rewrite Hc, cleaned_twice. repeat split.
    - rewrite (toggle_b2a_on sc Hon). cbv zeta.
      set (p := set_live_follow_a2b (set_live_follow_b2a (aj_props sc) true) false).
      rewrite toggle_b2a_off by reflexivity. cbv zeta.
      cbn [aj_props set_props objects set_objects].
      rewrite !remove_follow_exact. cbn [fst].
      change (source_armature (set_live_follow_b2a p false)) with s.
      change (target_armature (set_live_follow_b2a p false)) with t.
      change (source_armature p) with s. change (target_armature p) with t.
      pose proof (add_follow_cleaned (unfollow_arm t (unfollow_arm s (objects sc)))
                                     p B2A) as Hc.
      change (source_armature p) with s in Hc.
      change (target_armature p) with t in Hc.
      rewrite Hc, cleaned_twice. repeat split. }
  destruct Hobjs as (H1 & H2 & H3).
  split; [rewrite H1, remove_follow_exact; reflexivity|].
  split; [exact H2|]. split; [exact H3|].
  intros Z1 Z2. rewrite H1.
  rewrite (unfollow_arm_clean _ _ Z1). apply unfollow_arm_clean. exact Z2.
Qed.

(** ** Filling the table from an armature *)

Lemma populate_rows (bs : list Bone) (acc : list BoneMapItem) :
  fold_left (fun rows b => rows ++ [bone_row b]) bs acc = acc ++ map bone_row bs.
Proof.
  revert acc; induction bs as [|b bs IH]; intros acc; simpl.
  - symmetry. apply app_nil_r.
  - rewrite IH, <- app_assoc. reflexivity.
Qed.

Lemma mapping_raw_entries (rows : list BoneMapItem) :
  Forall (fun kv => exists it, In it rows
                               /\ kv = (original_name it, target_name it)
                               /\ saved it = true)
         (mapping_raw rows).
Proof.
  unfold mapping_raw.
  assert (G : forall todo done acc,
             Forall (fun kv => exists it, In it (done ++ todo)
                                          /\ kv = (original_name it, target_name it)
                                          /\ saved it = true) acc ->
             Forall (fun kv => exists it, In it (done ++ todo)
                                          /\ kv = (original_name it, target_name it)
                                          /\ saved it = true)
                    (fold_left
                       (fun d it =>
                          if truthy (original_name it) && truthy (target_name it)
                          then dict_set d (original_name it) (target_name it) else d)
                       todo acc)).
  { induction todo as [|it todo IH]; intros done acc H; [exact H|].
    simpl.
    replace (done ++ it :: todo) with ((done ++ [it]) ++ todo) in *
      by (rewrite <- app_assoc; reflexivity).
    apply IH.
    destruct (truthy (original_name it) && truthy (target_name it)) eqn:Es;
      [|exact H].
    apply dict_set_Forall; [exact H|]. intros k' ->.
    exists it. split; [|split; [reflexivity | exact Es]].
    apply in_or_app. left. apply in_or_app. right. left. reflexivity. }
  apply (G rows [] []). constructor.
Qed.

Lemma identity_rows_not_applicable (bs : list Bone) (rows : list BoneMapItem) :
  (forall it, In it rows -> original_name it = target_name it) ->
  applicable_mapping bs rows = [].
Proof.
  intros H. unfold applicable_mapping.
  pose proof (mapping_raw_entries rows) as E.
  induction (mapping_raw rows) as [|kv m IH]; [reflexivity|].
  inversion E as [|? ? [it [Hin [Hkv _]]] Hm]; subst. simpl.
  rewrite (H it Hin), str_eqb_refl. simpl. apply IH. exact Hm.
Qed.

Lemma applicable_unique (bs : list Bone) (rows : list BoneMapItem) :
  unique_keys (applicable_mapping bs rows).
Proof.
  unfold applicable_mapping. apply filter_keys_NoDup.
  apply (@saved_mapping_unique rows []). constructor.
Qed.

Lemma apply_to_side_total (uniq : list str -> str -> str) (side : Side) (sc : Scene) :
  exists r, apply_to_side uniq side sc = Some r.
Proof.
  unfold apply_to_side.
  destruct (armature_at (objects sc) _) as [[i A]|] eqn:Ea; [|eexists; reflexivity].
  destruct (applicable_mapping (bones A) (bone_map (aj_props sc))) as [|kv m] eqn:Em;
    [eexists; reflexivity|].
  unfold _apply_mapping_on_arm. rewrite Ea.
  assert (Hu : unique_keys (kv :: m)) by (rewrite <- Em; apply applicable_unique).
  destruct (@rename_and_patch_total uniq sc _ i A (kv :: m) Hu Ea) as [[sc1 c] E].
  rewrite E. eexists; reflexivity.
Qed.

Lemma apply_to_side_cancels (uniq : list str -> str -> str) (side : Side) (sc : Scene) :
  (forall it, In it (bone_map (aj_props sc)) -> original_name it = target_name it) ->
  exists reports, apply_to_side uniq side sc = Some (sc, CANCELLED, reports).
Proof.
  intros H. unfold apply_to_side.
  destruct (armature_at (objects sc) _) as [[i A]|]; [|eexists; reflexivity].
  rewrite identity_rows_not_applicable by exact H. eexists; reflexivity.
Qed.

Lemma on_changed_fills (sc : Scene) (i : nat) (o : Object) :
  bone_map (aj_props sc) = [] ->
  armature_at (objects sc) (source_or_target (aj_props sc)) = Some (i, o) ->
  _on_src_tgt_changed sc
  = set_props sc
      (set_active_index
         (set_bone_map (aj_props sc) (map bone_row (bones o)))
         (match bones o with [] => (-1)%Z | _ :: _ => 0%Z end)).
Proof.
  intros He Ha. unfold _on_src_tgt_changed. rewrite He.
  cbn [List.length Nat.ltb Nat.leb].
  rewrite Ha. unfold _populate_bone_map_from. rewrite Ha. cbn [fst].
  change (bone_map (set_bone_map (aj_props sc) [])) with (@nil BoneMapItem).
  rewrite populate_rows. cbn [app]. rewrite length_map.
  destruct (bones o); reflexivity.
Qed.

Lemma on_changed_none (sc : Scene) :
  armature_at (objects sc) (source_or_target (aj_props sc)) = None ->
  _on_src_tgt_changed sc = sc.
Proof.
  intros Ha. unfold _on_src_tgt_changed. rewrite Ha.
  destruct (Nat.ltb 0 (List.length (bone_map (aj_props sc)))); reflexivity.
Qed.

(** X16.  Choosing a Source or Target armature never touches a table
    that has rows.  On an empty table it adds one row per bone of the
    armature (the Source if set, else the Target), in bone order, with
    Original, Current, Rename and both captured names equal to the bone
    name and the mark off, sets the active row to 0 (to -1 for an
    armature without bones), and leaves everything else as it is.
    [_populate_bone_map_from] returns the number of bones, and clears
    the table and returns 0 when it is given no armature. *)
Theorem choosing_armature_fills_empty_table (sc : Scene) :
  (bone_map (aj_props sc) <> [] -> _on_src_tgt_changed sc = sc)
  /\ (forall i o,
        bone_map (aj_props sc) = [] ->
        armature_at (objects sc) (source_or_target (aj_props sc)) = Some (i, o) ->
        _on_src_tgt_changed sc
        = set_props sc
            (set_active_index
               (set_bone_map (aj_props sc) (map bone_row (bones o)))
               (match bones o with [] => (-1)%Z | _ :: _ => 0%Z end)))
  /\ (armature_at (objects sc) (source_or_target (aj_props sc)) = None ->
      _on_src_tgt_changed sc = sc)
  /\ (forall props arm i o,
        armature_at (objects sc) arm = Some (i, o) ->
        snd (_populate_bone_map_from (objects sc) props arm) = List.length (bones o))
  /\ (forall props arm,
        armature_at (objects sc) arm = None ->
        _populate_bone_map_from (objects sc) props arm = (set_bone_map props [], 0)).
Proof.
  split; [|split; [|split; [|split]]].
  - intros H. unfold _on_src_tgt_changed.
    destruct (bone_map (aj_props sc)); [congruence | reflexivity].
  - intros i o He Ha. apply (@on_changed_fills sc i o He Ha).
  - apply on_changed_none.
  - intros props arm i o Ha. unfold _populate_bone_map_from. rewrite Ha. cbn [snd].
    change (bone_map (set_bone_map props [])) with (@nil BoneMapItem).
    rewrite populate_rows. cbn [app]. apply length_map.
  - intros props arm Ha. unfold _populate_bone_map_from. rewrite Ha. reflexivity.
Qed.

(** ** Applying the table *)

(** X17.  In the two Apply buttons the renaming and the patching never
    fail on a missing bone or armature: [execute] returns.  Each
    cancels and leaves the scene as it is when its armature is not set
    or no row has an Original that differs from its Rename; so they do
    right after the table was filled by choosing an armature. *)
Theorem apply_cancels_without_changes (uniq : list str -> str -> str)
        (side : Side) (sc : Scene) :
  (exists r, apply_to_side uniq side sc = Some r)
  /\ (exists r, apply_to_source_execute uniq sc = Some r)
  /\ (exists r, apply_to_target_execute uniq sc = Some r)
  /\ (armature_at (objects sc)
        (match side with
         | SOURCE => source_armature (aj_props sc)
         | TARGET => target_armature (aj_props sc)
         end) = None ->
      exists reports, apply_to_side uniq side sc = Some (sc, CANCELLED, reports))
  /\ ((forall it, In it (bone_map (aj_props sc)) ->
                  original_name it = target_name it) ->
      exists reports, apply_to_side uniq side sc = Some (sc, CANCELLED, reports))
  /\ (bone_map (aj_props sc) = [] ->
      exists reports,
        apply_to_side uniq side (_on_src_tgt_changed sc)
        = Some (_on_src_tgt_changed sc, CANCELLED, reports)).
Proof.
  split; [apply apply_to_side_total|].
  split; [apply apply_to_side_total|].
  split; [apply apply_to_side_total|].
  split; [|split].
  - intros H. unfold apply_to_side. rewrite H. eexists; reflexivity.
  - apply apply_to_side_cancels.
  - intros He. apply apply_to_side_cancels.
    destruct (armature_at (objects sc) (source_or_target (aj_props sc)))
      as [[i o]|] eqn:Ea.
    + rewrite (@on_changed_fills sc i o He Ea).
      cbn [aj_props set_props bone_map set_active_index set_bone_map].
      intros it Hin. apply in_map_iff in Hin. destruct Hin as [b [<- _]].
      reflexivity.
    + rewrite (@on_changed_none sc Ea), He. intros it [].
Qed.

(** ** The pipeline on the bones of the armature *)

Lemma handle_objects_bones (m : dict) (objs : list Object) (st : list Action * nat) :
  map bones (fst (handle_objects m objs st)) = map bones objs.
Proof.
  revert st; induction objs as [|o objs IH]; intros st; [reflexivity|].
  cbn [handle_objects].
  destruct (handle_animdata m (animation_data o) st) as [ad st1].
  specialize (IH st1). destruct (handle_objects m objs st1) as [rest st2].
  simpl in *. rewrite IH. reflexivity.
Qed.

Lemma patch_driver_fcurves_keeps (sc : Scene) (m : dict) :
  map bones (objects (fst (patch_driver_fcurves sc m))) = map bones (objects sc)
  /\ aj_props (fst (patch_driver_fcurves sc m)) = aj_props sc.
Proof.
  unfold patch_driver_fcurves.
  pose proof (handle_objects_bones m (objects sc) (actions sc, 0)) as H.
  destruct (handle_objects m (objects sc) (actions sc, 0)) as [objs st1].
  destruct (handle_blocks m (armature_anim sc) st1) as [arms st2].
  destruct (handle_blocks m (shape_key_anim sc) st2) as [sks st3].
  destruct (handle_blocks m (material_anim sc) st3) as [mats st4].
  destruct (handle_blocks m (world_anim sc) st4) as [wos st5].
  split; [exact H | reflexivity].
Qed.

Lemma armature_is_no_mesh (arm : option nat) (o : Object) :
  obj_type o = ARMATURE -> mesh_using_armature arm o = None.
Proof. intros H. unfold mesh_using_armature. rewrite H. reflexivity. Qed.

(** The six calls leave at the place of the armature an object whose
    bones have the names and the deform flags that the renaming gives;
    the properties of the add-on are not touched. *)
Lemma rename_and_patch_bones (uniq : list str -> str -> str) (sc : Scene)
      (arm : option nat) (i : nat) (o : Object) (m : dict)
      (bs1 : list Bone) (c : nat * nat) :
  armature_at (objects sc) arm = Some (i, o) ->
  m <> [] ->
  rename_bones uniq (bones o) m = Some (bs1, c) ->
  exists sc' counts o',
    rename_and_patch uniq sc arm m = Some (sc', counts)
    /\ nth_error (objects sc') i = Some o'
    /\ map bone_name (bones o') = map bone_name bs1
    /\ map use_deform (bones o') = map use_deform bs1
    /\ aj_props sc' = aj_props sc.
Proof.
  intros Ha Hm Hr.
  destruct (armature_at_nth _ _ Ha) as (-> & Hn & Hty).
  unfold rename_and_patch, rename_bones_edit_mode_preserve_flags.
  rewrite Ha. destruct m as [|kv m']; [congruence|]. rewrite Hr.
  destruct c as [renamed0 restored].
  set (M := kv :: m') in *.
  set (o1 := set_bones o bs1).
  assert (Hn1 : nth_error (list_set (objects sc) i o1) i = Some o1)
    by (apply nth_error_list_set_some with (y := o); exact Hn).
  pose proof (proj1 (@patch_vertex_groups_other uniq M (Some i)
                       (list_set (objects sc) i o1) 0 i o1 Hn1)) as H2.
  rewrite (@armature_is_no_mesh (Some i) o1 Hty) in H2.
  destruct (patch_vertex_groups_for_armature uniq (list_set (objects sc) i o1)
                                             (Some i) M 0) as [objs2 vg_count].
  cbn [fst] in H2.
  unfold patch_constraints_subtargets.
  rewrite (@armature_at_intro _ i o1 H2 Hty).
  destruct (patch_pose_bones_names M (bones o1) 0) as [Hp1 Hp2].
  destruct (patch_pose_bones M (bones o1) 0) as [bs3 con_count].
  cbn [fst] in Hp1, Hp2.
  destruct (patch_fcurves_actions (actions sc) M) as [acts fcu].
  set (sc3 := set_actions (set_objects sc _) acts).
  destruct (patch_driver_fcurves_keeps sc3 M) as [Hb Hprops].
  destruct (patch_driver_fcurves sc3 M) as [sc4 drv]. cbn [fst] in Hb, Hprops.
  rewrite force_refresh_same.
  assert (H3 : nth_error (map bones (objects sc4)) i = Some bs3).
  { rewrite Hb. unfold sc3. cbn [objects set_actions set_objects].
    erewrite map_nth_error
      by (apply nth_error_list_set_some with (y := o1); exact H2).
    reflexivity. }
  rewrite nth_error_map in H3.
  destruct (nth_error (objects sc4) i) as [o4|] eqn:E4; [|discriminate].
  simpl in H3. injection H3 as Hbones.
  exists sc4, (renamed0, vg_count, con_count, fcu, drv), o4.
  split; [reflexivity|]. split; [exact E4|].
  rewrite Hbones. split; [exact Hp1|]. split; [exact Hp2|].
  rewrite Hprops. reflexivity.
Qed.

Lemma subtargets_renamed_names (m : dict) (bs : list Bone) :
  map bone_name (subtargets_renamed m bs) = map bone_name bs
  /\ map use_deform (subtargets_renamed m bs) = map use_deform bs.
Proof. unfold subtargets_renamed. rewrite !map_map. split; reflexivity. Qed.

Lemma renamed_bones_deform (m : dict) (bs : list Bone) :
  map use_deform (renamed_bones m bs) = map use_deform bs.
Proof. unfold renamed_bones. rewrite map_map. reflexivity. Qed.

Lemma filter_narrower (A : Type) (f g : A -> bool) (l : list A) :
  (forall x, In x l -> g x = true -> f x = true) ->
  filter f (filter g l) = filter g l.
Proof.
  intros H. induction l as [|x l IH]; [reflexivity|]. simpl.
  destruct (g x) eqn:Eg.
  - simpl. rewrite (H x) by (auto; left; reflexivity).
    f_equal. apply IH. intros y Hy. apply H. right. exact Hy.
  - apply IH. intros y Hy. apply H. right. exact Hy.
Qed.

Lemma applicable_all_apply (bs : list Bone) (rows : list BoneMapItem) :
  rename_pairs bs (applicable_mapping bs rows) = applicable_mapping bs rows.
Proof.
  unfold rename_pairs, applicable_mapping. apply filter_narrower.
  intros [k v] Hin Hg. cbn [fst snd] in *.
  apply andb_true_iff in Hg. destruct Hg as [Hne Hex].
  unfold _bone_exists in Hex. apply andb_true_iff in Hex. destruct Hex as [_ Hb].
  pose proof (proj1 (Forall_forall _ _) (mapping_raw_entries rows) (k, v) Hin)
    as (it & _ & E & Hs).
  inversion E; subst. unfold saved in Hs. apply andb_true_iff in Hs.
  destruct Hs as [_ Ht]. rewrite Hb, Ht, Hne. reflexivity.
Qed.


(** ** The Current column *)

Lemma prefill_all_exact (bs : list Bone) (rows : list BoneMapItem) (n : nat) :
  fst (prefill_rows bs false rows n)
  = map (fun it => if _bone_exists bs (original_name it)
                   then set_current it (original_name it)
                   else if _bone_exists bs (target_name it)
                        then set_current it (target_name it)
                        else it) rows.
Proof.
  revert n; induction rows as [|it rows IH]; intros n; [reflexivity|].
  cbn [prefill_rows map andb].
  destruct (_bone_exists bs (original_name it)).
  - specialize (IH (S n)). destruct (prefill_rows bs false rows (S n)).
    simpl in *. rewrite IH. reflexivity.
  - destruct (_bone_exists bs (target_name it)).
    + specialize (IH (S n)). destruct (prefill_rows bs false rows (S n)).
      simpl in *. rewrite IH. reflexivity.
    + specialize (IH n). destruct (prefill_rows bs false rows n).
      simpl in *. rewrite IH. reflexivity.
Qed.

Lemma set_props_props (sc : Scene) (p : AJ_Props) : aj_props (set_props sc p) = p.
Proof. reflexivity. Qed.

Lemma same_but_current_all (rows : list BoneMapItem) :
  Forall2 same_but_current rows rows.
Proof. induction rows; constructor; [repeat split | assumption]. Qed.

Lemma refreshed_same_but_current (bs : list Bone) (rows : list BoneMapItem) :
  Forall2 same_but_current rows
    (map (fun it => if _bone_exists bs (original_name it)
                    then set_current it (original_name it)
                    else if _bone_exists bs (target_name it)
                         then set_current it (target_name it)
                         else it) rows).
Proof.
  induction rows as [|it rows IH]; [constructor|].
  cbn [map]. constructor; [|exact IH].
  destruct (_bone_exists bs (original_name it)); [repeat split|].
  destruct (_bone_exists bs (target_name it)); repeat split.
Qed.

Lemma refreshed_twice (bs : list Bone) (rows : list BoneMapItem) :
  let f := fun it => if _bone_exists bs (original_name it)
                     then set_current it (original_name it)
                     else if _bone_exists bs (target_name it)
                          then set_current it (target_name it)
                          else it in
  map f (map f rows) = map f rows.
Proof.
  intros f. rewrite map_map. apply map_ext. intros it. unfold f.
  destruct (_bone_exists bs (original_name it)) eqn:E0.
  - cbn [original_name set_current]. rewrite E0. reflexivity.
  - destruct (_bone_exists bs (target_name it)) eqn:Et.
    + cbn [original_name target_name set_current]. rewrite E0, Et. reflexivity.
    + rewrite E0, Et. reflexivity.
Qed.

(** X19.  Refresh Current without a rig cancels and changes nothing.
    With a rig it finishes, keeps every row in place with all its
    fields but Current, sets Current to the Original when the rig has
    that bone, else to the Rename when it has that one, and pressing it
    a second time changes nothing more. *)
Theorem refresh_current_is_idempotent (sc : Scene) :
  let sc1 := fst (fst (refresh_current_execute sc)) in
  (armature_at (objects sc) (current_armature (aj_props sc)) = None ->
   refresh_current_execute sc
   = (sc, CANCELLED,
      [(INFO, lit "No rig set " ++ [EM_DASH] ++ lit " Current stays as-is.")]))
  /\ (forall i arm,
        armature_at (objects sc) (current_armature (aj_props sc)) = Some (i, arm) ->
        snd (fst (refresh_current_execute sc)) = FINISHED
        /\ objects sc1 = objects sc
        /\ bone_map (aj_props sc1)
           = map (fun it => if _bone_exists (bones arm) (original_name it)
                            then set_current it (original_name it)
                            else if _bone_exists (bones arm) (target_name it)
                                 then set_current it (target_name it)
                                 else it) (bone_map (aj_props sc)))
  /\ Forall2 same_but_current (bone_map (aj_props sc)) (bone_map (aj_props sc1))
  /\ fst (fst (refresh_current_execute sc1)) = sc1.
Proof.
  intros sc1.
  assert (Hnone : armature_at (objects sc) (current_armature (aj_props sc)) = None ->
                  refresh_current_execute sc
                  = (sc, CANCELLED,
                     [(INFO, lit "No rig set " ++ [EM_DASH]
                             ++ lit " Current stays as-is.")])).
  { intros H. unfold refresh_current_execute. rewrite H. reflexivity. }
  assert (Hsome : forall i arm,
             armature_at (objects sc) (current_armature (aj_props sc)) = Some (i, arm) ->
             refresh_current_execute sc
             = (set_props sc
                  (set_bone_map (aj_props sc)
                     (map (fun it => if _bone_exists (bones arm) (original_name it)
                                     then set_current it (original_name it)
                                     else if _bone_exists (bones arm) (target_name it)
                                          then set_current it (target_name it)
                                          else it) (bone_map (aj_props sc)))),
                FINISHED, [(INFO, lit "Updated Current for ")])).
  { intros i arm H. unfold refresh_current_execute. rewrite H.
    pose proof (prefill_all_exact (bones arm) (bone_map (aj_props sc)) 0) as Hp.
    destruct (prefill_rows (bones arm) false (bone_map (aj_props sc)) 0) as [rows n].
    cbn [fst] in Hp. rewrite Hp. reflexivity. }
  split; [exact Hnone|]. split; [|split].
  - intros i arm H. unfold sc1. rewrite (Hsome i arm H). repeat split.
  - unfold sc1.
    destruct (armature_at (objects sc) (current_armature (aj_props sc)))
      as [[i arm]|] eqn:Ea.
    + rewrite (Hsome i arm eq_refl).
      cbn [fst aj_props set_props bone_map set_bone_map].
      apply refreshed_same_but_current.
    + rewrite (Hnone eq_refl). cbn [fst].
      apply same_but_current_all.
  - destruct (armature_at (objects sc) (current_armature (aj_props sc)))
      as [[i arm]|] eqn:Ea.
    + assert (E1 : sc1 = set_props sc
                     (set_bone_map (aj_props sc)
                        (map (fun it => if _bone_exists (bones arm) (original_name it)
                                        then set_current it (original_name it)
                                        else if _bone_exists (bones arm) (target_name it)
                                             then set_current it (target_name it)
                                             else it) (bone_map (aj_props sc)))))
        by (unfold sc1; rewrite (Hsome i arm eq_refl); reflexivity).
      assert (Ha1 : armature_at (objects sc1) (current_armature (aj_props sc1))
                    = Some (i, arm)) by (rewrite E1; exact Ea).
      assert (Hsome1 : refresh_current_execute sc1
                = (set_props sc1
                     (set_bone_map (aj_props sc1)
                        (map (fun it => if _bone_exists (bones arm) (original_name it)
                                        then set_current it (original_name it)
                                        else if _bone_exists (bones arm) (target_name it)
                                             then set_current it (target_name it)
                                             else it) (bone_map (aj_props sc1)))),
                   FINISHED, [(INFO, lit "Updated Current for ")])).
      { unfold refresh_current_execute. rewrite Ha1.
        pose proof (prefill_all_exact (bones arm) (bone_map (aj_props sc1)) 0) as Hp.
        destruct (prefill_rows (bones arm) false (bone_map (aj_props sc1)) 0)
          as [rows n].
        cbn [fst] in Hp. rewrite Hp. reflexivity. }
      rewrite Hsome1. cbn [fst]. clear Hsome1 Ha1. rewrite E1.
      cbn [aj_props set_props bone_map set_bone_map].
      rewrite refreshed_twice.
      destruct sc as [? ? ? ? ? ? ? ? ? ?]; reflexivity.
    + assert (E1 : sc1 = sc) by (unfold sc1; rewrite (Hnone eq_refl); reflexivity).
      rewrite E1, (Hnone eq_refl). reflexivity.
Qed.

(** ** Reverting rows *)

Lemma rename_and_patch_props (uniq : list str -> str -> str) (sc sc' : Scene)
      (arm : option nat) (m : dict) (c : nat * nat * nat * nat * nat) :
  rename_and_patch uniq sc arm m = Some (sc', c) -> aj_props sc' = aj_props sc.
Proof.
  unfold rename_and_patch.
  destruct (rename_bones_edit_mode_preserve_flags uniq (objects sc) arm m)
    as [[objs1 [r0 r1]]|]; [|discriminate].
  destruct (patch_vertex_groups_for_armature uniq objs1 arm m 0) as [objs2 vg].
  destruct (patch_constraints_subtargets objs2 arm m) as [[objs3 cc]|];
    [|discriminate].
  destruct (patch_fcurves_actions (actions sc) m) as [acts fcu].
  pose proof (proj2 (patch_driver_fcurves_keeps
                       (set_actions (set_objects sc objs3) acts) m)) as Hp.
  destruct (patch_driver_fcurves (set_actions (set_objects sc objs3) acts) m)
    as [sc1 drv].
  rewrite force_refresh_same. intros H. inversion H; subst. exact Hp.
Qed.

Lemma or_else_blank (s : str) : or_else s [] = s.
Proof. destruct s; reflexivity. Qed.

Lemma unique_single (k v : str) : unique_keys [(k, v)].
Proof. unfold unique_keys. simpl. constructor; [intros []|constructor]. Qed.

(** X20.  Revert on one row always returns.  With an index outside the
    table it cancels and leaves the scene; with an index inside it
    finishes, and of the table only that row has changed: its Current
    is its Original, whether or not the rig had a bone to take back. *)
Theorem revert_row_resets_current (uniq : list str -> str -> str)
        (index : Z) (sc : Scene) :
  exists sc' status reports,
    revert_row_execute uniq index sc = Some (sc', status, reports)
    /\ if ((index <? 0) || (Z.of_nat (List.length (bone_map (aj_props sc))) <=? index))%Z
       then sc' = sc /\ status = CANCELLED
            /\ reports = [(ERROR, lit "Invalid row index.")]
       else status = FINISHED
            /\ exists it,
                 nth_error (bone_map (aj_props sc)) (Z.to_nat index) = Some it
                 /\ bone_map (aj_props sc')
                    = list_set (bone_map (aj_props sc)) (Z.to_nat index)
                               (set_current it (original_name it)).
Proof.
  unfold revert_row_execute.
  destruct ((index <? 0) || (Z.of_nat (List.length (bone_map (aj_props sc))) <=? index))%Z
    eqn:Eb.
  - eexists _, _, _. split; [reflexivity|]. repeat split.
  - apply orb_false_iff in Eb. destruct Eb as [H0 H1].
    apply Z.ltb_ge in H0. apply Z.leb_gt in H1.
    destruct (nth_error (bone_map (aj_props sc)) (Z.to_nat index)) as [it|] eqn:En.
    2:{ apply nth_error_None in En. lia. }
    rewrite !or_else_blank.
    set (sc1 := set_props sc _).
    destruct (armature_at (objects sc1) (current_armature (aj_props sc)))
      as [[i o]|] eqn:Ea.
    + destruct (truthy (current_name it) && truthy (original_name it)
                && negb (str_eqb (current_name it) (original_name it))
                && _bone_exists (bones o) (current_name it)).
      * destruct (@rename_and_patch_total uniq sc1 _ i o
                    [(current_name it, original_name it)]
                    (unique_single _ _) Ea) as [[sc2 c] E].
        rewrite E. eexists _, _, _. split; [reflexivity|].
        split; [reflexivity|]. exists it. split; [reflexivity|].
        rewrite (rename_and_patch_props _ _ _ _ E). reflexivity.
      * eexists _, _, _. split; [reflexivity|].
        split; [reflexivity|]. exists it. split; reflexivity.
    + eexists _, _, _. split; [reflexivity|].
      split; [reflexivity|]. exists it. split; reflexivity.
Qed.

Lemma marked_fold_unique (bs : option (list Bone)) (rows : list BoneMapItem)
      (acc : dict) :
  unique_keys acc ->
  unique_keys
    (fold_left
       (fun mapping it =>
          if negb (mark it) then mapping
          else
            let cur := or_else (current_name it) [] in
            let ori := or_else (original_name it) [] in
            match bs with
            | Some bs =>
                if truthy cur && truthy ori && negb (str_eqb cur ori)
                   && _bone_exists bs cur
                then dict_set mapping cur ori
                else mapping
            | None => mapping
            end) rows acc).
Proof.
  revert acc; induction rows as [|it rows IH]; intros acc Hu; [exact Hu|].
  cbn [fold_left]. apply IH.
  destruct (negb (mark it)); [exact Hu|]. cbv zeta.
  destruct bs as [bs|]; [|exact Hu].
  destruct (truthy (or_else (current_name it) [])
            && truthy (or_else (original_name it) [])
            && negb (str_eqb (or_else (current_name it) [])
                             (or_else (original_name it) []))
            && _bone_exists bs (or_else (current_name it) []));
    [apply dict_set_unique; exact Hu | exact Hu].
Qed.

Lemma marked_mapping_unique (bs : option (list Bone)) (rows : list BoneMapItem) :
  unique_keys (marked_mapping bs rows).
Proof. apply marked_fold_unique. constructor. Qed.

Lemma marked_fold_idle (bs : option (list Bone)) (rows : list BoneMapItem)
      (acc : dict) :
  bs = None \/ forallb (fun it => negb (mark it)) rows = true ->
  fold_left
    (fun mapping it =>
       if negb (mark it) then mapping
       else
         let cur := or_else (current_name it) [] in
         let ori := or_else (original_name it) [] in
         match bs with
         | Some bs =>
             if truthy cur && truthy ori && negb (str_eqb cur ori)
                && _bone_exists bs cur
             then dict_set mapping cur ori
             else mapping
         | None => mapping
         end) rows acc = acc.
Proof.
  revert acc; induction rows as [|it rows IH]; intros acc H; [reflexivity|].
  cbn [fold_left]. destruct H as [->|H].
  - destruct (negb (mark it)); apply IH; left; reflexivity.
  - cbn [forallb] in H. apply andb_true_iff in H. destruct H as [Hm Hr].
    rewrite Hm. apply IH. right. exact Hr.
Qed.

Lemma set_current_same (it : BoneMapItem) : set_current it (current_name it) = it.
Proof. destruct it; reflexivity. Qed.

Lemma revert_marked_rows_exact (rows : list BoneMapItem) :
  revert_marked_rows rows
  = map (fun it => if mark it then set_current it (original_name it) else it) rows.
Proof.
  unfold revert_marked_rows. apply map_ext. intros it.
  destruct (mark it); [|reflexivity]. cbn [andb].
  destruct (str_eqb (current_name it) (original_name it)) eqn:E; [|reflexivity].
  apply str_eqb_eq in E. cbn [negb]. rewrite <- E. symmetry. apply set_current_same.
Qed.

Lemma revert_marked_rows_idle (rows : list BoneMapItem) :
  forallb (fun it => negb (mark it)) rows = true -> revert_marked_rows rows = rows.
Proof.
  intros H. unfold revert_marked_rows.
  induction rows as [|it rows IH]; [reflexivity|].
  cbn [forallb] in H. apply andb_true_iff in H. destruct H as [Hm Hr].
  cbn [map]. rewrite (IH Hr). destruct (mark it); [discriminate|reflexivity].
Qed.

Lemma set_props_same (sc : Scene) :
  set_props sc (set_bone_map (aj_props sc) (bone_map (aj_props sc))) = sc.
Proof. destruct sc as [? ? ? ? ? ? ? ? ? p]; destruct p; reflexivity. Qed.

(** X21.  Revert Marked always returns, with status FINISHED.  Afterwards
    every marked row has its Original as Current and every other row is
    as it was; when no row is marked the whole scene is as it was. *)
Theorem revert_marked_resets_marked_rows (uniq : list str -> str -> str)
        (sc : Scene) :
  exists sc',
    revert_marked_execute uniq sc
    = Some (sc', FINISHED, [(INFO, lit "Revert complete.")])
    /\ bone_map (aj_props sc')
       = map (fun it => if mark it then set_current it (original_name it) else it)
             (bone_map (aj_props sc))
    /\ (forallb (fun it => negb (mark it)) (bone_map (aj_props sc)) = true ->
        sc' = sc).
Proof.
  unfold revert_marked_execute.
  destruct (armature_at (objects sc) (current_armature (aj_props sc)))
    as [[i o]|] eqn:Ea.
  - pose proof (marked_mapping_unique (Some (bones o)) (bone_map (aj_props sc))) as Hu.
    assert (Hidle : forallb (fun it => negb (mark it)) (bone_map (aj_props sc)) = true ->
                    marked_mapping (Some (bones o)) (bone_map (aj_props sc)) = [])
      by (intros H; apply marked_fold_idle; right; exact H).
    destruct (marked_mapping (Some (bones o)) (bone_map (aj_props sc)))
      as [|kv m] eqn:Em.
    + eexists. split; [reflexivity|].
      cbn [aj_props set_props bone_map set_bone_map].
      split; [apply revert_marked_rows_exact|].
      intros H. rewrite (revert_marked_rows_idle _ H). apply set_props_same.
    + destruct (@rename_and_patch_total uniq sc _ i o (kv :: m) Hu Ea)
        as [[sc1 c] E].
      rewrite E. eexists. split; [reflexivity|].
      cbn [aj_props set_props bone_map set_bone_map].
      rewrite (rename_and_patch_props _ _ _ _ E).
      split; [apply revert_marked_rows_exact|].
      intros H. specialize (Hidle H). discriminate.
  - rewrite (@marked_fold_idle None (bone_map (aj_props sc)) [] (or_introl eq_refl)
             : marked_mapping None (bone_map (aj_props sc)) = []).
    eexists. split; [reflexivity|].
    cbn [aj_props set_props bone_map set_bone_map].
    split; [apply revert_marked_rows_exact|].
    intros H. rewrite (revert_marked_rows_idle _ H). apply set_props_same.
Qed.

(** ** File names *)

Lemma forallb_sub_runs (P cls : char -> bool) (b : bool) (s : str) :
  P UNDERSCORE = true ->
  forallb P (sub_runs cls b s) = forallb (fun c => cls c || P c) s.
Proof.
  intros HP. revert b; induction s as [|c s IH]; intros b; [reflexivity|].
  cbn [sub_runs forallb]. destruct (cls c).
  - destruct b; cbn [forallb orb]; rewrite ?HP; apply IH.
  - cbn [forallb orb]. rewrite IH. reflexivity.
Qed.

Lemma sub_runs_plain (cls : char -> bool) (s : str) :
  forallb (fun c => negb (cls c)) s = true -> sub_runs cls false s = s.
Proof.
  induction s as [|c s IH]; [reflexivity|]. cbn [forallb sub_runs]. intros H.
  apply andb_true_iff in H. destruct H as [Hc Hs].
  destruct (cls c); [discriminate|]. rewrite (IH Hs). reflexivity.
Qed.

Lemma forallb_lstrip_char (P : char -> bool) (c : char) (s : str) :
  forallb P s = true -> forallb P (lstrip_char c s) = true.
Proof.
  induction s as [|d s IH]; [reflexivity|]. cbn [lstrip_char]. intros H.
  destruct (N.eqb d c); [|exact H].
  cbn [forallb] in H. apply andb_true_iff in H. apply IH. apply H.
Qed.

Lemma forallb_rev (P : char -> bool) (s : str) :
  forallb P (rev s) = forallb P s.
Proof.
  induction s as [|d s IH]; [reflexivity|]. cbn [rev forallb].
  rewrite forallb_app, IH. cbn [forallb]. rewrite andb_true_r. apply andb_comm.
Qed.

Lemma forallb_strip_char (P : char -> bool) (c : char) (s : str) :
  forallb P s = true -> forallb P (strip_char c s) = true.
Proof.
  intros H. unfold strip_char. rewrite forallb_rev.
  apply forallb_lstrip_char. rewrite forallb_rev.
  apply forallb_lstrip_char. exact H.
Qed.

Lemma lstrip_char_head (c : char) (s : str) :
  startswith (lstrip_char c s) [c] = false.
Proof.
  induction s as [|d s IH]; [reflexivity|]. cbn [lstrip_char].
  destruct (N.eqb d c) eqn:E; [exact IH|].
  cbn [startswith]. rewrite N.eqb_sym, E. reflexivity.
Qed.

Lemma lstrip_char_plain (c : char) (s : str) :
  startswith s [c] = false -> lstrip_char c s = s.
Proof.
  destruct s as [|d s]; [reflexivity|]. cbn [startswith lstrip_char].
  rewrite andb_true_r, N.eqb_sym. intros ->. reflexivity.
Qed.

Lemma lstrip_char_last (c d : char) (u : str) :
  N.eqb d c = false -> exists u', lstrip_char c (u ++ [d]) = u' ++ [d].
Proof.
  intros Hd. induction u as [|e u IH].
  - exists []. cbn. rewrite Hd. reflexivity.
  - cbn [app lstrip_char]. destruct (N.eqb e c); [exact IH|].
    exists (e :: u). reflexivity.
Qed.

Lemma strip_char_edges (c : char) (s : str) :
  startswith (strip_char c s) [c] = false
  /\ startswith (rev (strip_char c s)) [c] = false.
Proof.
  unfold strip_char. split.
  - pose proof (lstrip_char_head c s) as Hh.
    destruct (lstrip_char c s) as [|d t]; [reflexivity|].
    cbn [startswith] in Hh. rewrite andb_true_r in Hh.
    cbn [rev]. rewrite N.eqb_sym in Hh.
    destruct (@lstrip_char_last c d (rev t) Hh) as [u' ->].
    rewrite rev_app_distr. cbn [rev app startswith].
    rewrite N.eqb_sym, Hh. reflexivity.
  - rewrite rev_involutive. apply lstrip_char_head.
Qed.

Lemma strip_char_plain (c : char) (s : str) :
  startswith s [c] = false -> startswith (rev s) [c] = false ->
  strip_char c s = s.
Proof.
  intros H1 H2. unfold strip_char.
  rewrite (lstrip_char_plain _ _ H1), (lstrip_char_plain _ _ H2).
  apply rev_involutive.
Qed.

Lemma safe_filename_is_plain (name : str) :
  plain_filename (_safe_filename name) = true.
Proof.
  unfold plain_filename, _safe_filename.
  destruct (strip_char_edges UNDERSCORE
              (sub_runs isspace false (sub_runs is_reserved false name)))
    as [H1 H2].
  rewrite H1, H2. cbn [negb]. rewrite !andb_true_r.
  apply forallb_strip_char.
  rewrite forallb_sub_runs by reflexivity.
  rewrite forallb_sub_runs by reflexivity.
  apply forallb_forall. intros c _.
  destruct (is_reserved c); [reflexivity|].
  destruct (isspace c); reflexivity.
Qed.

Lemma plain_filename_kept (s : str) :
  plain_filename s = true -> _safe_filename s = s.
Proof.
  unfold plain_filename, _safe_filename. intros H.
  apply andb_true_iff in H. destruct H as [H H3].
  apply andb_true_iff in H. destruct H as [H1 H2].
  apply negb_true_iff in H2, H3.
  assert (Hr : forallb (fun c => negb (is_reserved c)) s = true).
  { apply forallb_forall. intros c Hc.
    apply (proj1 (forallb_forall _ _) H1) in Hc.
    apply andb_true_iff in Hc. apply Hc. }
  assert (Hs : forallb (fun c => negb (isspace c)) s = true).
  { apply forallb_forall. intros c Hc.
    apply (proj1 (forallb_forall _ _) H1) in Hc.
    apply andb_true_iff in Hc. apply Hc. }
  rewrite (sub_runs_plain _ _ Hr), (sub_runs_plain _ _ Hs).
  apply strip_char_plain; assumption.
Qed.

(** X22.  The name that [_safe_filename] returns holds none of the
    nine reserved characters and no white space, and neither
    begins nor ends with an underscore; a name that is like this
    already is returned as it is, so that the function applied to its
    own result changes nothing. *)
Theorem safe_filename_is_clean (name : str) :
  Forall (fun c => is_reserved c = false /\ isspace c = false) (_safe_filename name)
  /\ hd_error (_safe_filename name) <> Some UNDERSCORE
  /\ hd_error (rev (_safe_filename name)) <> Some UNDERSCORE
  /\ (plain_filename name = true -> _safe_filename name = name)
  /\ _safe_filename (_safe_filename name) = _safe_filename name.
Proof.
  pose proof (safe_filename_is_plain name) as H.
  split; [|split; [|split; [|split]]].
  - unfold plain_filename in H.
    apply andb_true_iff in H. destruct H as [H _].
    apply andb_true_iff in H. destruct H as [H _].
    apply Forall_forall. intros c Hc.
    apply (proj1 (forallb_forall _ _) H) in Hc.
    apply andb_true_iff in Hc. destruct Hc as [Ha Hb].
    apply negb_true_iff in Ha, Hb. split; assumption.
  - unfold plain_filename in H.
    apply andb_true_iff in H. destruct H as [H _].
    apply andb_true_iff in H. destruct H as [_ H].
    destruct (_safe_filename name) as [|c s]; [discriminate|].
    cbn in H |- *. intros E. injection E as ->. discriminate.
  - unfold plain_filename in H.
    apply andb_true_iff in H. destruct H as [_ H].
    destruct (rev (_safe_filename name)) as [|c s]; [discriminate|].
    cbn in H |- *. intros E. injection E as ->. discriminate.
  - apply plain_filename_kept.
  - apply plain_filename_kept. exact H.
Qed.

Lemma lstrip_char_all (c : char) (s : str) :
  lstrip_char c s = [] <-> forallb (fun d => N.eqb d c) s = true.
Proof.
  induction s as [|d s IH]; [split; reflexivity|].
  cbn [lstrip_char forallb]. destruct (N.eqb d c); [exact IH|].
  split; discriminate.
Qed.

Lemma forallb_same_lstrip (c : char) (s : str) :
  forallb (fun d => N.eqb d c) (lstrip_char c s) = forallb (fun d => N.eqb d c) s.
Proof.
  induction s as [|d s IH]; [reflexivity|]. cbn [lstrip_char].
  destruct (N.eqb d c) eqn:E; [|reflexivity].
  cbn [forallb]. rewrite E. exact IH.
Qed.

Lemma strip_char_all (c : char) (s : str) :
  strip_char c s = [] <-> forallb (fun d => N.eqb d c) s = true.
Proof.
  unfold strip_char.
  rewrite <- forallb_same_lstrip, <- forallb_rev, <- lstrip_char_all.
  split; intros H.
  - apply (f_equal (@rev char)) in H. rewrite rev_involutive in H. exact H.
  - rewrite H. reflexivity.
Qed.

(** X23.  [_safe_filename] returns the empty string exactly for the
    names made of nothing but reserved characters, white space and
    underscores (the empty name among them); every other name gives a
    non-empty file name. *)
Theorem safe_filename_empty_iff (name : str) :
  _safe_filename name = []
  <-> forallb (fun c => is_reserved c || isspace c || N.eqb c UNDERSCORE) name = true.
Proof.
  unfold _safe_filename. rewrite strip_char_all.
  rewrite forallb_sub_runs by reflexivity.
  rewrite (@forallb_sub_runs (fun c => isspace c || N.eqb c UNDERSCORE)
                             is_reserved false name eq_refl).
  assert (E : forallb (fun c => is_reserved c || (isspace c || N.eqb c UNDERSCORE)) name
              = forallb (fun c => is_reserved c || isspace c || N.eqb c UNDERSCORE) name).
  { induction name as [|c name IH]; [reflexivity|].
    cbn [forallb]. rewrite IH, orb_assoc. reflexivity. }
  rewrite E. reflexivity.
Qed.

(** ** The actions gathered for an export *)

Lemma pose_actions_spec (acts : list Action) (i k : nat) :
  In k (pose_actions acts i)
  <-> i <= k /\ exists act, nth_error acts (k - i) = Some act /\ has_pose act = true.
Proof.
  revert i; induction acts as [|a acts IH]; intros i.
  - cbn. split; [intros [] | intros (_ & act & H & _)].
    destruct (k - i); discriminate.
  - assert (Step : (i <= k /\ exists act, nth_error (a :: acts) (k - i) = Some act
                                          /\ has_pose act = true)
                   <-> (k = i /\ has_pose a = true)
                       \/ (S i <= k /\ exists act, nth_error acts (k - S i) = Some act
                                                   /\ has_pose act = true)).
    { split.
      - intros (Hle & act & Hn & Hp).
        destruct (Nat.eq_dec k i) as [->|Hne].
        + left. rewrite Nat.sub_diag in Hn. cbn in Hn. inversion Hn; subst.
          split; [reflexivity | exact Hp].
        + right. split; [lia|]. exists act. split; [|exact Hp].
          replace (k - i) with (S (k - S i)) in Hn by lia. exact Hn.
      - intros [(-> & Hp) | (Hle & act & Hn & Hp)].
        + split; [lia|]. exists a. rewrite Nat.sub_diag. split; [reflexivity|exact Hp].
        + split; [lia|]. exists act. split; [|exact Hp].
          replace (k - i) with (S (k - S i)) by lia. exact Hn. }
    rewrite Step. cbn [pose_actions].
    assert (Hempty : fcurves a = [] -> has_pose a = false)
      by (intros E; unfold has_pose; rewrite E; reflexivity).
    destruct (fcurves a) as [|f fs] eqn:Ef.
    + rewrite IH. rewrite (Hempty eq_refl).
      split; [intros H; right; exact H | intros [[_ H]|H]; [discriminate|exact H]].
    + destruct (has_pose a) eqn:Hp.
      * cbn [In]. rewrite IH.
        split; [intros [<-|H]; [left; split; reflexivity | right; exact H]
               | intros [[-> _]|H]; [left; reflexivity | right; exact H]].
      * rewrite IH.
        split; [intros H; right; exact H | intros [[_ H]|H]; [discriminate|exact H]].
Qed.

Lemma pose_actions_NoDup (acts : list Action) (i : nat) :
  NoDup (pose_actions acts i).
Proof.
  revert i; induction acts as [|a acts IH]; intros i; [constructor|].
  cbn [pose_actions]. destruct (fcurves a); [apply IH|].
  destruct (has_pose a); [|apply IH].
  constructor; [|apply IH].
  intros H. apply pose_actions_spec in H. lia.
Qed.

Lemma existsb_eqb_In (k : nat) (l : list nat) :
  existsb (Nat.eqb k) l = true <-> In k l.
Proof.
  rewrite existsb_exists. split.
  - intros (x & Hx & E). apply Nat.eqb_eq in E. subst. exact Hx.
  - intros H. exists k. split; [exact H | apply Nat.eqb_refl].
Qed.

(** X24.  [_gather_actions_for_armature] returns, without repetition,
    every action of the file that has a curve on some pose bone,
    whichever armature the curve belongs to, together with the action
    assigned to the given armature, and nothing else; an action without
    such a curve is listed only as the assigned one. *)
Theorem gathered_actions_exact (sc : Scene) (arm_obj : nat) (k : nat) :
  NoDup (_gather_actions_for_armature sc arm_obj)
  /\ (In k (_gather_actions_for_armature sc arm_obj)
      <-> (exists act, nth_error (actions sc) k = Some act /\ has_pose act = true)
          \/ action_at (objects sc) arm_obj = Some k).
Proof.
  unfold _gather_actions_for_armature.
  assert (Hs : In k (pose_actions (actions sc) 0)
               <-> exists act, nth_error (actions sc) k = Some act
                               /\ has_pose act = true).
  { rewrite pose_actions_spec, Nat.sub_0_r.
    split; [intros [_ H]; exact H | intros H; split; [lia | exact H]]. }
  pose proof (pose_actions_NoDup (actions sc) 0) as Hnd.
  destruct (action_at (objects sc) arm_obj) as [j|].
  - destruct (existsb (Nat.eqb j) (pose_actions (actions sc) 0)) eqn:E; cbn [negb].
    + apply existsb_eqb_In in E. split; [exact Hnd|].
      rewrite <- Hs. split; [intros H; left; exact H|].
      intros [H|H]; [exact H|]. inversion H; subst. exact E.
    + split.
      * apply NoDup_app; [exact Hnd | repeat constructor; intros [] |].
        intros x Hx [<-|[]]. apply existsb_eqb_In in Hx. congruence.
      * rewrite in_app_iff, <- Hs. cbn [In].
        split; [intros [H|[<-|[]]]; [left; exact H | right; reflexivity]
               | intros [H|H]; [left; exact H | right; left; congruence]].
  - split; [exact Hnd|]. rewrite <- Hs.
    split; [intros H; left; exact H | intros [H|H]; [exact H | discriminate]].
Qed.

(** ** The armature stays an armature during an export *)

Lemma is_armature_at (objs : list Object) (arm : nat) :
  is_armature objs arm <-> exists o, armature_at objs (Some arm) = Some (arm, o).
Proof.
  unfold is_armature. split; intros [o H]; exists o.
  - apply armature_at_intro; apply H.
  - apply armature_at_nth in H. destruct H as (_ & Hn & Ht). split; assumption.
Qed.

Lemma is_armature_types (objs objs' : list Object) (arm : nat) :
  same_types objs objs' -> is_armature objs arm -> is_armature objs' arm.
Proof.
  intros Ht Ha. apply is_armature_at in Ha. destruct Ha as [o Ha].
  destruct (@same_types_armature objs objs' (Some arm) arm o Ht Ha) as [o' Ha'].
  apply is_armature_at. exists o'. exact Ha'.
Qed.

Lemma handle_objects_types (m : dict) (objs : list Object) (st : list Action * nat) :
  same_types objs (fst (handle_objects m objs st)).
Proof.
  unfold same_types.
  revert st; induction objs as [|o objs IH]; intros st; [reflexivity|].
  cbn [handle_objects].
  destruct (handle_animdata m (animation_data o) st) as [ad st1].
  specialize (IH st1). destruct (handle_objects m objs st1) as [rest st2].
  simpl in *. rewrite IH. reflexivity.
Qed.

Lemma patch_driver_fcurves_types (sc : Scene) (m : dict) :
  same_types (objects sc) (objects (fst (patch_driver_fcurves sc m))).
Proof.
  unfold patch_driver_fcurves.
  pose proof (handle_objects_types m (objects sc) (actions sc, 0)) as H.
  destruct (handle_objects m (objects sc) (actions sc, 0)) as [objs st1].
  destruct (handle_blocks m (armature_anim sc) st1) as [arms st2].
  destruct (handle_blocks m (shape_key_anim sc) st2) as [sks st3].
  destruct (handle_blocks m (material_anim sc) st3) as [mats st4].
  destruct (handle_blocks m (world_anim sc) st4) as [wos st5].
  exact H.
Qed.

Lemma rename_and_patch_types (uniq : list str -> str -> str) (sc sc' : Scene)
      (arm : option nat) (m : dict) (c : nat * nat * nat * nat * nat) :
  unique_keys m ->
  rename_and_patch uniq sc arm m = Some (sc', c) ->
  same_types (objects sc) (objects sc').
Proof.
  intros Hu. unfold rename_and_patch.
  destruct (@rename_flags_types uniq (objects sc) arm m Hu)
    as (objs1 & [renamed0 restored] & E & T1).
  rewrite E.
  pose proof (patch_vertex_groups_types uniq objs1 arm m 0) as T2.
  destruct (patch_vertex_groups_for_armature uniq objs1 arm m 0) as [objs2 vg].
  cbn [fst] in T2.
  unfold patch_constraints_subtargets.
  destruct (armature_at objs2 arm) as [[i o2]|] eqn:Ea; [|discriminate].
  destruct (armature_at_nth _ _ Ea) as (_ & Hn & _).
  destruct (patch_pose_bones m (bones o2) 0) as [bs patched].
  assert (T3 : same_types objs2 (list_set objs2 i (set_bones o2 bs)))
    by (apply same_types_list_set with (o := o2); [exact Hn | reflexivity]).
  destruct (patch_fcurves_actions (actions sc) m) as [acts fcu].
  pose proof (patch_driver_fcurves_types
                (set_actions (set_objects sc (list_set objs2 i (set_bones o2 bs))) acts)
                m) as T4.
  destruct (patch_driver_fcurves _ m) as [sc1 drv]. cbn [fst] in T4.
  rewrite force_refresh_same. intros H. inversion H; subst.
  apply (same_types_trans T1). apply (same_types_trans T2).
  apply (same_types_trans T3). exact T4.
Qed.

Lemma animation_data_create_types (objs : list Object) (arm : nat) :
  same_types objs (animation_data_create objs arm).
Proof.
  unfold animation_data_create.
  destruct (nth_error objs arm) as [o|] eqn:E; [|apply same_types_refl].
  destruct (animation_data o); [apply same_types_refl|].
  apply same_types_list_set with (o := o); [exact E | reflexivity].
Qed.

Lemma rotate_each_types (objs : list Object) (ids : list nat) (rx ry rz : Q) :
  same_types objs (rotate_each objs ids rx ry rz).
Proof.
  revert objs; induction ids as [|i ids IH]; intros objs; [apply same_types_refl|].
  cbn [rotate_each]. destruct (nth_error objs i) as [o|] eqn:E; [|apply IH].
  eapply same_types_trans; [|apply IH].
  apply same_types_list_set with (o := o); [exact E | reflexivity].
Qed.

Lemma restore_world_types (objs : list Object) (originals : list (nat * Matrix)) :
  same_types objs (_restore_world objs originals).
Proof.
  revert objs; induction originals as [|[i M] rest IH]; intros objs;
    [apply same_types_refl|].
  cbn [_restore_world]. destruct (nth_error objs i) as [o|] eqn:E; [|apply IH].
  eapply same_types_trans; [|apply IH].
  apply same_types_list_set with (o := o); [exact E | reflexivity].
Qed.

Lemma is_armature_lt (objs : list Object) (arm : nat) :
  is_armature objs arm -> arm < List.length objs.
Proof. intros (o & H & _). apply nth_error_Some. congruence. Qed.

Lemma is_armature_list_set (objs : list Object) (arm i : nat) (x y : Object) :
  nth_error objs i = Some x -> obj_type y = obj_type x ->
  is_armature objs arm -> is_armature (list_set objs i y) arm.
Proof.
  intros Hn Ht. apply is_armature_types.
  apply same_types_list_set with (o := x); assumption.
Qed.

Lemma is_armature_app (objs : list Object) (arm : nat) (x : Object) :
  is_armature objs arm -> is_armature (objs ++ [x]) arm.
Proof.
  intros (o & Hn & Ht). exists o. split; [|exact Ht].
  rewrite nth_error_app1; [exact Hn | apply nth_error_Some; congruence].
Qed.

Lemma apply_bvh_rotation_keeps (objs : list Object) (arm : nat) (rx ry rz : Q) :
  is_armature objs arm ->
  is_armature (fst (_apply_bvh_rotation_to_roots objs arm rx ry rz)) arm
  /\ arm < snd (_apply_bvh_rotation_to_roots objs arm rx ry rz).
Proof.
  intros Ha. pose proof (@is_armature_lt objs arm Ha) as Hlt.
  pose proof (@is_armature_app objs arm (bvh_helper rx ry rz) Ha) as Ha1.
  unfold _apply_bvh_rotation_to_roots.
  destruct (nth_error (objs ++ [bvh_helper rx ry rz]) arm) as [o|] eqn:E;
    cbn [fst snd]; split; try exact Hlt; [|exact Ha1].
  apply is_armature_list_set with (x := o); [exact E | reflexivity | exact Ha1].
Qed.

Lemma nth_error_list_del_lt (A : Type) (l : list A) (i k : nat) :
  k < i -> nth_error (list_del l i) k = nth_error l k.
Proof.
  revert i k; induction l as [|x l IH]; intros i k H; [destruct i; reflexivity|].
  destruct i as [|i]; [lia|]. destruct k as [|k]; [reflexivity|].
  cbn. apply IH. lia.
Qed.

Lemma clear_bvh_helper_keeps (objs : list Object) (empty arm : nat) :
  arm < empty -> is_armature objs arm ->
  is_armature (_clear_bvh_rotation_helper objs empty (Some arm)) arm.
Proof.
  intros Hlt Ha. unfold _clear_bvh_rotation_helper.
  set (objs1 := match armature_at objs (Some arm) with
                | Some (i, o) => list_set objs i _
                | None => objs
                end).
  assert (H1 : is_armature objs1 arm).
  { unfold objs1. destruct (armature_at objs (Some arm)) as [[i o]|] eqn:E; [|exact Ha].
    destruct (armature_at_nth _ _ E) as (_ & Hn & _).
    apply is_armature_list_set with (x := o); [exact Hn | reflexivity | exact Ha]. }
  destruct (nth_error objs1 empty) as [e|]; [|exact H1].
  destruct H1 as (o & Hn & Ht). exists o. split; [|exact Ht].
  rewrite nth_error_list_del_lt by exact Hlt. exact Hn.
Qed.

(** ** The temporary renaming of an export *)

Lemma invert_unique (m : dict) : unique_keys (invert m).
Proof.
  unfold invert.
  assert (G : forall acc, unique_keys acc ->
                unique_keys (fold_left (fun d kv => dict_set d (snd kv) (fst kv)) m acc)).
  { induction m as [|kv m IH]; intros acc H; [exact H|].
    cbn [fold_left]. apply IH. apply dict_set_unique. exact H. }
  apply G. constructor.
Qed.

Lemma apply_temp_mapping_total (uniq : list str -> str -> str) (sc : Scene)
      (arm : nat) :
  is_armature (objects sc) arm ->
  exists sc1 inv,
    _apply_temp_mapping_if_needed uniq sc arm = Some (sc1, inv)
    /\ is_armature (objects sc1) arm
    /\ match inv with Some d => unique_keys d | None => True end.
Proof.
  intros Ha. unfold _apply_temp_mapping_if_needed.
  destruct (rename_on_export (aj_props sc)); cbn [negb];
    [|exists sc, None; repeat split; exact Ha].
  set (m := filter _ (mapping_raw (bone_map (aj_props sc)))).
  assert (Hu : unique_keys m).
  { unfold m. apply filter_keys_NoDup.
    apply (@saved_mapping_unique (bone_map (aj_props sc)) []). constructor. }
  destruct m as [|kv m'] eqn:Em; [exists sc, None; repeat split; exact Ha|].
  pose proof (proj1 (is_armature_at _ _) Ha) as [o Hat].
  destruct (@rename_and_patch_total uniq sc (Some arm) arm o (kv :: m') Hu Hat)
    as [[sc1 c] E].
  rewrite E. exists sc1, (Some (invert (kv :: m'))).
  split; [reflexivity|]. split; [|apply invert_unique].
  apply (@is_armature_types _ _ _ (@rename_and_patch_types uniq sc sc1 (Some arm) (kv :: m') c Hu E) Ha).
Qed.

Lemma revert_temp_mapping_total (uniq : list str -> str -> str) (sc : Scene)
      (inv : option dict) (arm : nat) :
  is_armature (objects sc) arm ->
  match inv with Some d => unique_keys d | None => True end ->
  exists sc', _revert_temp_mapping uniq sc inv arm = Some sc'.
Proof.
  intros Ha Hu. unfold _revert_temp_mapping.
  destruct inv as [[|kv d]|]; try (eexists; reflexivity).
  pose proof (proj1 (is_armature_at _ _) Ha) as [o Hat].
  destruct (@rename_and_patch_total uniq sc (Some arm) arm o (kv :: d) Hu Hat)
    as [[sc1 c] E].
  rewrite E. eexists; reflexivity.
Qed.

(** X25.  No step that Export Current Action takes on the scene fails:
    whatever the scene, the table and the outcome of the exporter, the
    temporary renaming and its reversal find their bones and the
    armature, and [execute] returns a status, which is FINISHED exactly
    when the armature is valid and the exporter returns.  (The output
    folder and the selection are outside the model.) *)
Theorem export_current_never_raises (uniq : list str -> str -> str)
        (exporter_ok : bool) (sc : Scene) :
  exists sc' status reports,
    export_current_action_execute uniq exporter_ok sc = Some (sc', status, reports)
    /\ (status = FINISHED <->
        exporter_ok = true
        /\ armature_at (objects sc)
             (match export_side (aj_props sc) with
              | TARGET => target_armature (aj_props sc)
              | SOURCE => source_armature (aj_props sc)
              end) <> None).
Proof.
  unfold export_current_action_execute.
  destruct (armature_at (objects sc) _) as [[arm o]|] eqn:Ea.
  2:{ eexists _, _, _. split; [reflexivity|].
      split; [discriminate | intros [_ H]; congruence]. }
  assert (Ha : is_armature (objects sc) arm).
  { destruct (armature_at_nth _ _ Ea) as (_ & Hn & Ht). exists o. split; assumption. }
  destruct (@apply_temp_mapping_total uniq sc arm Ha) as (sc1 & inv & E & Ha1 & Hinv).
  rewrite E.
  set (sc2 := set_objects sc1 (animation_data_create (objects sc1) arm)).
  assert (Ha2 : is_armature (objects sc2) arm)
    by (apply (@is_armature_types _ _ _ (animation_data_create_types (objects sc1) arm) Ha1)).
  set (sc3 := match action_of sc2 arm with
              | Some a => set_frame_range sc2 (py_int (fst (frame_range a)))
                                          (py_int (snd (frame_range a)))
              | None => sc2
              end).
  assert (O3 : objects sc3 = objects sc2)
    by (unfold sc3; destruct (action_of sc2 arm); reflexivity).
  unfold _temporarily_rotate_world.
  set (ids := arm :: _).
  set (objs4 := rotate_each (objects sc3) ids _ _ _).
  assert (Ha4 : is_armature objs4 arm).
  { unfold objs4. apply (@is_armature_types _ _ _ (rotate_each_types _ _ _ _ _)).
    rewrite O3. exact Ha2. }
  match goal with
  | |- exists sc' status reports, (let (_, _) := ?X in _) = _ /\ _ =>
      destruct X as [objs5 raised] eqn:E5
  end.
  assert (H5 : is_armature objs5 arm /\ raised = negb exporter_ok).
  { destruct (export_format (aj_props sc)); cbn [andb] in E5.
    - inversion E5; subst. split; [exact Ha4 | reflexivity].
    - destruct (@apply_bvh_rotation_keeps objs4 arm (rot_x (aj_props sc))
                  (rot_y (aj_props sc)) (rot_z (aj_props sc)) Ha4) as [Hh Hlt].
      destruct (_apply_bvh_rotation_to_roots objs4 arm _ _ _) as [objs_h empty].
      cbn [fst snd] in Hh, Hlt.
      destruct exporter_ok; inversion E5; subst.
      + split; [apply clear_bvh_helper_keeps; assumption | reflexivity].
      + split; [exact Hh | reflexivity]. }
  destruct H5 as [Ha5 Hraised].
  set (sc6 := set_frame_range _ _ _).
  assert (Ha6 : is_armature (objects sc6) arm)
    by (apply (@is_armature_types _ _ _ (restore_world_types objs5 _) Ha5)).
  destruct (@revert_temp_mapping_total uniq sc6 inv arm Ha6 Hinv) as [sc7 E7].
  rewrite E7. subst raised.
  destruct exporter_ok; cbn [negb]; eexists _, _, _; (split; [reflexivity|]).
  - split; [intros _; split; [reflexivity | discriminate] | reflexivity].
  - split; [discriminate | intros [H _]; discriminate].
Qed.

(** ** What an export leaves behind *)

Lemma animation_data_create_bones (objs : list Object) (arm : nat) :
  map bones (animation_data_create objs arm) = map bones objs.
Proof.
  unfold animation_data_create.
  destruct (nth_error objs arm) as [o|] eqn:E; [|reflexivity].
  destruct (animation_data o); [reflexivity|].
  apply nth_error_ext. intros k. rewrite !nth_error_map.
  destruct (Nat.eq_dec k arm) as [->|Hne].
  - rewrite nth_error_list_set_eq by (apply nth_error_Some; congruence).
    rewrite E. reflexivity.
  - rewrite nth_error_list_set_ne by congruence. reflexivity.
Qed.

Lemma rotate_each_bones (objs : list Object) (ids : list nat) (rx ry rz : Q) :
  map bones (rotate_each objs ids rx ry rz) = map bones objs.
Proof.
  revert objs; induction ids as [|i ids IH]; intros objs; [reflexivity|].
  cbn [rotate_each]. destruct (nth_error objs i) as [o|] eqn:E; [|apply IH].
  rewrite IH.
  apply nth_error_ext. intros k. rewrite !nth_error_map.
  destruct (Nat.eq_dec k i) as [->|Hne].
  - rewrite nth_error_list_set_eq by (apply nth_error_Some; congruence).
    rewrite E. reflexivity.
  - rewrite nth_error_list_set_ne by congruence. reflexivity.
Qed.

Lemma same_bones_armature (objs objs' : list Object) (arm : nat) (o : Object) :
  same_types objs objs' -> map bones objs' = map bones objs ->
  armature_at objs (Some arm) = Some (arm, o) ->
  exists o', armature_at objs' (Some arm) = Some (arm, o') /\ bones o' = bones o.
Proof.
  intros Ht Hb Ha.
  destruct (@same_types_armature objs objs' (Some arm) arm o Ht Ha) as [o' Ha'].
  exists o'. split; [exact Ha'|].
  destruct (armature_at_nth _ _ Ha) as (_ & Hn & _).
  destruct (armature_at_nth _ _ Ha') as (_ & Hn' & _).
  assert (X : nth_error (map bones objs') arm = nth_error (map bones objs) arm)
    by (rewrite Hb; reflexivity).
  rewrite !nth_error_map, Hn, Hn' in X. simpl in X. congruence.
Qed.

Lemma frame_range_back (sc : Scene) (objs : list Object) (a b : Z) :
  set_frame_range (set_objects (set_frame_range sc a b) objs)
                  (frame_start sc) (frame_end sc)
  = set_objects sc objs.
Proof. destruct sc; reflexivity. Qed.

Lemma frame_range_same (sc : Scene) (objs : list Object) :
  set_frame_range (set_objects sc objs) (frame_start sc) (frame_end sc)
  = set_objects sc objs.
Proof. destruct sc; reflexivity. Qed.

Lemma set_objects_twice (sc : Scene) (a b : list Object) :
  set_objects (set_objects sc a) b = set_objects sc b.
Proof. destruct sc; reflexivity. Qed.

(** X26.  Without renaming on export, Export Current Action gives the
    scene back as it was, but for the animation data that it creates on
    an armature that has none: world matrices and frame range are
    restored whether the exporter returns or raises when the format is
    FBX, and, when the format is BVH, the exporter returns and no pose
    bone carried a constraint named AJ_BVH_ROT, the helper empty and its
    constraints are gone as well. *)
Theorem export_current_restores_scene (uniq : list str -> str -> str)
        (exporter_ok : bool) (sc : Scene) (arm : nat) (o : Object) :
  armature_at (objects sc)
    (match export_side (aj_props sc) with
     | TARGET => target_armature (aj_props sc)
     | SOURCE => source_armature (aj_props sc)
     end) = Some (arm, o) ->
  rename_on_export (aj_props sc) = false ->
  export_format (aj_props sc) = FBX
  \/ (exporter_ok = true /\ no_bvh_constraint (bones o)) ->
  export_current_action_execute uniq exporter_ok sc
  = Some (set_objects sc (animation_data_create (objects sc) arm),
          (if exporter_ok then FINISHED else CANCELLED),
          (if exporter_ok then [(INFO, lit "Wrote ")]
           else [(ERROR, lit "Export failed: ")])).
Proof.
  intros Ea Hr Hfmt.
  assert (Hat : armature_at (objects sc) (Some arm) = Some (arm, o)).
  { destruct (armature_at_nth _ _ Ea) as (_ & Hn & Ht).
    apply armature_at_intro; assumption. }
  unfold export_current_action_execute. rewrite Ea.
  unfold _apply_temp_mapping_if_needed. rewrite Hr. cbn [negb].
  set (objs2 := animation_data_create (objects sc) arm).
  set (sc2 := set_objects sc objs2).
  set (sc3 := match action_of sc2 arm with
              | Some a => set_frame_range sc2 (py_int (fst (frame_range a)))
                                          (py_int (snd (frame_range a)))
              | None => sc2
              end).
  assert (O3 : objects sc3 = objs2)
    by (unfold sc3; destruct (action_of sc2 arm); reflexivity).
  assert (Hback : forall objs,
             set_frame_range (set_objects sc3 objs) (frame_start sc2) (frame_end sc2)
             = set_objects sc objs).
  { intros objs. unfold sc3. destruct (action_of sc2 arm).
    - rewrite frame_range_back. apply set_objects_twice.
    - rewrite frame_range_same. apply set_objects_twice. }
  unfold _temporarily_rotate_world.
  set (ids := arm :: _).
  set (rx := rot_x (aj_props sc)). set (ry := rot_y (aj_props sc)).
  set (rz := rot_z (aj_props sc)).
  pose proof (rotate_then_restore (objects sc3) ids rx ry rz) as Hrest.
  set (objs4 := rotate_each (objects sc3) ids rx ry rz) in *.
  cbn [_revert_temp_mapping].
  destruct (export_format (aj_props sc)) eqn:Ef; cbn [andb].
  - rewrite Hrest, Hback, O3.
    destruct exporter_ok; reflexivity.
  - destruct Hfmt as [Hfmt | [-> Hno]]; [discriminate|].
    destruct (@same_bones_armature (objects sc) objs4 arm o) as (o4 & Ha4 & Hb4);
      [ | | exact Hat | ].
    + unfold objs4. rewrite O3.
      apply (same_types_trans (animation_data_create_types (objects sc) arm)).
      apply rotate_each_types.
    + unfold objs4. rewrite rotate_each_bones, O3.
      apply animation_data_create_bones.
    + assert (Hno4 : no_bvh_constraint (bones o4)) by (rewrite Hb4; exact Hno).
      destruct (@bvh_helper_undone objs4 arm o4 rx ry rz Ha4 Hno4) as [_ Hundo].
      destruct (_apply_bvh_rotation_to_roots objs4 arm rx ry rz) as [objs_h empty].
      cbn [fst snd] in Hundo. rewrite Hundo, Hrest, Hback, O3. reflexivity.
Qed.

(** ** Export of all actions *)

Lemma set_action_types (objs : list Object) (arm : nat) (act : option nat) :
  same_types objs (set_action objs arm act).
Proof.
  unfold set_action.
  destruct (nth_error objs arm) as [o|] eqn:E; [|apply same_types_refl].
  destruct (animation_data o); [|apply same_types_refl].
  apply same_types_list_set with (o := o); [exact E | reflexivity].
Qed.

Lemma export_one_keeps (exporter_ok : nat -> bool) (arm : nat) (fs fe : Z)
      (st : Scene * nat * list Report * nat) (act : option nat) :
  is_armature (objects (fst (fst (fst st)))) arm ->
  is_armature
    (objects (fst (fst (fst (export_one_action exporter_ok arm fs fe st act))))) arm.
Proof.
  destruct st as [[[sc exported] reports] calls]. cbn [fst]. intros Ha.
  unfold export_one_action.
  set (objs1 := animation_data_create (objects sc) arm).
  set (sc2 := set_objects sc (set_action objs1 arm act)).
  assert (Ha2 : is_armature (objects sc2) arm).
  { unfold sc2. cbn [objects set_objects].
    apply (@is_armature_types _ _ _ (set_action_types objs1 arm act)).
    apply (@is_armature_types _ _ _ (animation_data_create_types (objects sc) arm)).
    exact Ha. }
  set (sc3 := match action_ref sc2 act with
              | Some a => set_frame_range sc2 (py_int (fst (frame_range a)))
                                          (py_int (snd (frame_range a)))
              | None => set_frame_range sc2 fs fe
              end).
  assert (O3 : objects sc3 = objects sc2)
    by (unfold sc3; destruct (action_ref sc2 act); reflexivity).
  unfold _temporarily_rotate_world.
  set (ids := arm :: _).
  set (objs4 := rotate_each (objects sc3) ids _ _ _).
  assert (Ha4 : is_armature objs4 arm).
  { unfold objs4. apply (@is_armature_types _ _ _ (rotate_each_types _ _ _ _ _)).
    rewrite O3. exact Ha2. }
  match goal with
  | |- context [let (_, _) := ?X in _] => destruct X as [objs5 raised] eqn:E5
  end.
  assert (Ha5 : is_armature objs5 arm).
  { destruct (export_format (aj_props sc)); cbn [andb] in E5.
    - inversion E5; subst. exact Ha4.
    - destruct (@apply_bvh_rotation_keeps objs4 arm (rot_x (aj_props sc))
                  (rot_y (aj_props sc)) (rot_z (aj_props sc)) Ha4) as [Hh Hlt].
      destruct (_apply_bvh_rotation_to_roots objs4 arm _ _ _) as [objs_h empty].
      cbn [fst snd] in Hh, Hlt.
      destruct (exporter_ok calls); inversion E5; subst.
      + apply clear_bvh_helper_keeps; assumption.
      + exact Hh. }
  cbn [fst objects set_objects].
  apply (@is_armature_types _ _ _ (set_action_types _ arm _)).
  apply (@is_armature_types _ _ _ (restore_world_types objs5 _)).
  exact Ha5.
Qed.

Lemma export_loop_keeps (exporter_ok : nat -> bool) (arm : nat) (fs fe : Z)
      (acts : list (option nat)) (st : Scene * nat * list Report * nat) :
  is_armature (objects (fst (fst (fst st)))) arm ->
  is_armature
    (objects (fst (fst (fst (fold_left (export_one_action exporter_ok arm fs fe)
                                       acts st))))) arm.
Proof.
  revert st; induction acts as [|act acts IH]; intros st Ha; [exact Ha|].
  cbn [fold_left]. apply IH. apply export_one_keeps. exact Ha.
Qed.

(** X27.  No step that Export All Actions takes on the scene fails,
    and once its armature is valid it always finishes: a failure of the
    exporter on one action, or on every one, is reported as a warning
    and the loop goes on.  (The output folder and the selection are
    outside the model.) *)
Theorem export_all_never_raises (uniq : list str -> str -> str)
        (exporter_ok : nat -> bool) (sc : Scene) :
  exists sc' status reports,
    export_all_actions_execute uniq exporter_ok sc = Some (sc', status, reports)
    /\ (status = FINISHED <->
        armature_at (objects sc)
          (match export_side (aj_props sc) with
           | TARGET => target_armature (aj_props sc)
           | SOURCE => source_armature (aj_props sc)
           end) <> None).
Proof.
  unfold export_all_actions_execute.
  destruct (armature_at (objects sc) _) as [[arm o]|] eqn:Ea.
  2:{ eexists _, _, _. split; [reflexivity|].
      split; [discriminate | intros H; congruence]. }
  assert (Ha : is_armature (objects sc) arm).
  { destruct (armature_at_nth _ _ Ea) as (_ & Hn & Ht). exists o. split; assumption. }
  destruct (@apply_temp_mapping_total uniq sc arm Ha) as (sc1 & inv & E & Ha1 & Hinv).
  match goal with
  | |- context [let (_, _) := ?X in _] => destruct X as [acts reports0]
  end.
  rewrite E.
  pose proof (@export_loop_keeps exporter_ok arm (frame_start sc1) (frame_end sc1)
                acts (sc1, 0, reports0, 0) Ha1) as Ha2.
  destruct (fold_left (export_one_action exporter_ok arm (frame_start sc1)
                                         (frame_end sc1))
                      acts (sc1, 0, reports0, 0))
    as [[[sc2 exported] reports] calls].
  cbn [fst] in Ha2.
  destruct (@revert_temp_mapping_total uniq
              (set_frame_range sc2 (frame_start sc1) (frame_end sc1)) inv arm Ha2 Hinv)
    as [sc4 E4].
  rewrite E4. eexists _, _, _. split; [reflexivity|].
  split; [discriminate | reflexivity].
Qed.

Lemma animation_data_create_twice (objs : list Object) (arm : nat) :
  animation_data_create (animation_data_create objs arm) arm
  = animation_data_create objs arm.
Proof.
  destruct (nth_error objs arm) as [o|] eqn:E.
  - destruct (animation_data o) eqn:Ead.
    + assert (H : animation_data_create objs arm = objs)
        by (unfold animation_data_create; rewrite E, Ead; reflexivity).
      rewrite !H. reflexivity.
    + assert (H : animation_data_create objs arm
                  = list_set objs arm
                      (set_animation_data o (Some {| drivers := []; ad_action := None |})))
        by (unfold animation_data_create; rewrite E, Ead; reflexivity).
      rewrite H. unfold animation_data_create.
      rewrite nth_error_list_set_eq by (apply nth_error_Some; congruence).
      reflexivity.
  - assert (H : animation_data_create objs arm = objs)
      by (unfold animation_data_create; rewrite E; reflexivity).
    rewrite !H. reflexivity.
Qed.

Lemma set_action_back (objs : list Object) (arm : nat) (act : option nat) :
  set_action (set_action objs arm act) arm (action_at objs arm) = objs.
Proof.
  unfold action_at.
  destruct (nth_error objs arm) as [o|] eqn:E.
  - destruct (animation_data o) as [ad|] eqn:Ead.
    + assert (H : set_action objs arm act
                  = list_set objs arm
                      (set_animation_data o
                         (Some {| drivers := drivers ad; ad_action := act |})))
        by (unfold set_action; rewrite E, Ead; reflexivity).
      rewrite H. unfold set_action.
      rewrite nth_error_list_set_eq by (apply nth_error_Some; congruence).
      cbn [animation_data set_animation_data drivers].
      rewrite list_set_twice.
      replace (set_animation_data _ _) with o; [apply list_set_same; exact E|].
      destruct o as [? ? ? ? ? ? ? a]; cbn in *. subst a.
      destruct ad; reflexivity.
    + assert (H : set_action objs arm act = objs)
        by (unfold set_action; rewrite E, Ead; reflexivity).
      rewrite H. unfold set_action. rewrite E, Ead. reflexivity.
  - assert (H : set_action objs arm act = objs)
      by (unfold set_action; rewrite E; reflexivity).
    rewrite H. unfold set_action. rewrite E. reflexivity.
Qed.

Lemma frame_range_over (sc : Scene) (objs objs' : list Object) (a b a' b' : Z) :
  set_frame_range (set_objects (set_frame_range (set_objects sc objs) a b) objs') a' b'
  = set_frame_range (set_objects sc objs') a' b'.
Proof. destruct sc; reflexivity. Qed.

Lemma frame_objects_swap (sc : Scene) (objs objs' : list Object) (a b : Z) :
  set_objects (set_frame_range (set_objects sc objs) a b) objs'
  = set_frame_range (set_objects sc objs') a b.
Proof. destruct sc; reflexivity. Qed.

(** One turn of the loop with format FBX: the objects come back, with
    animation data on the armature; only the frame range is left
    changed. *)
Lemma export_one_fbx (exporter_ok : nat -> bool) (arm : nat) (fs fe : Z)
      (sc : Scene) (exported : nat) (reports : list Report) (calls : nat)
      (act : option nat) :
  export_format (aj_props sc) = FBX ->
  exists a b e r,
    export_one_action exporter_ok arm fs fe (sc, exported, reports, calls) act
    = (set_frame_range (set_objects sc (animation_data_create (objects sc) arm)) a b,
       e, r, S calls).
Proof.
  intros Hf. unfold export_one_action. rewrite Hf. cbn [andb].
  set (objs1 := animation_data_create (objects sc) arm).
  set (sc2 := set_objects sc (set_action objs1 arm act)).
  set (sc3 := match action_ref sc2 act with
              | Some a => set_frame_range sc2 (py_int (fst (frame_range a)))
                                          (py_int (snd (frame_range a)))
              | None => set_frame_range sc2 fs fe
              end).
  assert (E3 : exists a b, sc3 = set_frame_range sc2 a b)
    by (unfold sc3; destruct (action_ref sc2 act); eexists _, _; reflexivity).
  destruct E3 as (a & b & E3).
  assert (O3 : objects sc3 = set_action objs1 arm act) by (rewrite E3; reflexivity).
  unfold _temporarily_rotate_world.
  rewrite rotate_then_restore, O3, set_action_back.
  exists a, b. eexists _, _. rewrite E3. unfold sc2.
  rewrite frame_objects_swap. reflexivity.
Qed.

Lemma export_loop_fbx (exporter_ok : nat -> bool) (arm : nat) (fs fe : Z)
      (acts : list (option nat)) (act : option nat) (sc : Scene)
      (exported : nat) (reports : list Report) (calls : nat) :
  export_format (aj_props sc) = FBX ->
  exists a b e r c,
    fold_left (export_one_action exporter_ok arm fs fe) (act :: acts)
              (sc, exported, reports, calls)
    = (set_frame_range (set_objects sc (animation_data_create (objects sc) arm)) a b,
       e, r, c).
Proof.
  revert act sc exported reports calls.
  induction acts as [|act' acts IH]; intros act sc exported reports calls Hf.
  - cbn [fold_left].
    destruct (@export_one_fbx exporter_ok arm fs fe sc exported reports calls act Hf)
      as (a & b & e & r & E).
    exists a, b, e, r, (S calls). exact E.
  - cbn [fold_left].
    destruct (@export_one_fbx exporter_ok arm fs fe sc exported reports calls act Hf)
      as (a & b & e & r & E).
    rewrite E.
    set (sc' := set_frame_range _ a b).
    assert (Hf' : export_format (aj_props sc') = FBX) by exact Hf.
    destruct (IH act' sc' e r (S calls) Hf') as (a' & b' & e' & r' & c' & E').
    cbn [fold_left] in E'. rewrite E'.
    exists a', b', e', r', c'.
    unfold sc'. cbn [objects set_frame_range set_objects].
    rewrite animation_data_create_twice, frame_range_over. reflexivity.
Qed.

Lemma frame_range_reset (sc : Scene) (objs : list Object) (a b : Z) :
  set_frame_range (set_frame_range (set_objects sc objs) a b)
                  (frame_start sc) (frame_end sc)
  = set_objects sc objs.
Proof. destruct sc; reflexivity. Qed.

(** X28.  With format FBX and no renaming on export, Export All Actions
    gives the scene back as it was, but for the animation data that it
    creates on an armature that has none: after every action the
    armature has its own action again and the world matrices are
    restored, and at the end the frame range is, whether the exporter
    returned or raised on any of the actions. *)
Theorem export_all_restores_scene (uniq : list str -> str -> str)
        (exporter_ok : nat -> bool) (sc : Scene) (arm : nat) (o : Object) :
  armature_at (objects sc)
    (match export_side (aj_props sc) with
     | TARGET => target_armature (aj_props sc)
     | SOURCE => source_armature (aj_props sc)
     end) = Some (arm, o) ->
  rename_on_export (aj_props sc) = false ->
  export_format (aj_props sc) = FBX ->
  exists reports,
    export_all_actions_execute uniq exporter_ok sc
    = Some (set_objects sc (animation_data_create (objects sc) arm),
            FINISHED, reports).
Proof.
  intros Ea Hr Hf. unfold export_all_actions_execute. rewrite Ea.
  unfold _apply_temp_mapping_if_needed. rewrite Hr. cbn [negb].
  assert (Hacts : exists act acts reports0,
             match _gather_actions_for_armature sc arm with
             | [] => ([None],
                      [(INFO, lit "No actions found; exporting current pose only.")])
             | _ :: _ => (map Some (_gather_actions_for_armature sc arm), [])
             end = (act :: acts, reports0)).
  { destruct (_gather_actions_for_armature sc arm) as [|k ks];
      eexists _, _, _; reflexivity. }
  destruct Hacts as (act & acts & reports0 & ->).
  destruct (@export_loop_fbx exporter_ok arm (frame_start sc) (frame_end sc)
              acts act sc 0 reports0 0 Hf) as (a & b & e & r & c & E).
  cbv beta iota zeta.
  match goal with
  | |- context [fold_left ?f ?l ?s] =>
      change (fold_left f l s
              = (set_frame_range
                   (set_objects sc (animation_data_create (objects sc) arm)) a b,
                 e, r, c)) in E
  end.
  rewrite E. rewrite frame_range_reset.
  cbn [_revert_temp_mapping].
  eexists. reflexivity.
Qed.

(** ** Export of all actions into one file *)

Lemma frame_range_keeps (sc : Scene) (a b : Z) :
  set_objects (set_frame_range (set_frame_range sc a b) (frame_start sc) (frame_end sc))
              (objects sc)
  = sc.
Proof. destruct sc; reflexivity. Qed.

Lemma frame_range_idle (sc : Scene) :
  set_objects (set_frame_range sc (frame_start sc) (frame_end sc)) (objects sc) = sc.
Proof. destruct sc; reflexivity. Qed.

(** X29.  No step that the one-file export takes on the scene fails.
    With a format other than FBX it cancels with its message and leaves
    the scene; it finishes exactly when the format is FBX, the armature
    is valid and the exporter returns.  (The output folder and the
    selection are outside the model.) *)
Theorem onefile_export_never_raises (uniq : list str -> str -> str)
        (exporter_ok : bool) (sc : Scene) :
  (export_format (aj_props sc) = BVH ->
   export_fbx_all_actions_onefile_execute uniq exporter_ok sc
   = Some (sc, CANCELLED,
           [(ERROR, lit "This button is FBX-only. Switch Format to FBX.")]))
  /\ exists sc' status reports,
       export_fbx_all_actions_onefile_execute uniq exporter_ok sc
       = Some (sc', status, reports)
       /\ (status = FINISHED <->
           export_format (aj_props sc) = FBX
           /\ exporter_ok = true
           /\ armature_at (objects sc)
                (match export_side (aj_props sc) with
                 | TARGET => target_armature (aj_props sc)
                 | SOURCE => source_armature (aj_props sc)
                 end) <> None).
Proof.
  unfold export_fbx_all_actions_onefile_execute.
  split; [intros ->; reflexivity|].
  destruct (export_format (aj_props sc)).
  2:{ eexists _, _, _. split; [reflexivity|].
      split; [discriminate | intros [H _]; discriminate]. }
  destruct (armature_at (objects sc) _) as [[arm o]|] eqn:Ea.
  2:{ eexists _, _, _. split; [reflexivity|].
      split; [discriminate | intros (_ & _ & H); congruence]. }
  assert (Ha : is_armature (objects sc) arm).
  { destruct (armature_at_nth _ _ Ea) as (_ & Hn & Ht). exists o. split; assumption. }
  destruct (@apply_temp_mapping_total uniq sc arm Ha) as (sc1 & inv & E & Ha1 & Hinv).
  rewrite E.
  set (sc2 := match frame_ranges sc1 (_gather_actions_for_armature sc arm) with
              | [] => sc1
              | r :: rest => set_frame_range sc1 _ _
              end).
  assert (O2 : objects sc2 = objects sc1)
    by (unfold sc2; destruct (frame_ranges sc1 _); reflexivity).
  unfold _temporarily_rotate_world.
  set (sc4 := set_objects _ _).
  assert (Ha4 : is_armature (objects sc4) arm).
  { unfold sc4. cbn [objects set_objects].
    apply (@is_armature_types _ _ _ (restore_world_types _ _)).
    apply (@is_armature_types _ _ _ (rotate_each_types _ _ _ _ _)).
    rewrite O2. exact Ha1. }
  destruct (@revert_temp_mapping_total uniq sc4 inv arm Ha4 Hinv) as [sc5 E5].
  rewrite E5.
  destruct exporter_ok; eexists _, _, _; (split; [reflexivity|]).
  - split; [intros _; repeat split; discriminate | reflexivity].
  - split; [discriminate | intros (_ & H & _); discriminate].
Qed.

(** X30.  With format FBX and no renaming on export, the one-file
    export leaves the scene exactly as it was, whether the exporter
    returns or raises: the frame range widened to cover the actions and
    the rotated world matrices are put back. *)
Theorem onefile_export_restores_scene (uniq : list str -> str -> str)
        (exporter_ok : bool) (sc : Scene) (arm : nat) (o : Object) :
  armature_at (objects sc)
    (match export_side (aj_props sc) with
     | TARGET => target_armature (aj_props sc)
     | SOURCE => source_armature (aj_props sc)
     end) = Some (arm, o) ->
  rename_on_export (aj_props sc) = false ->
  export_format (aj_props sc) = FBX ->
  export_fbx_all_actions_onefile_execute uniq exporter_ok sc
  = Some (sc,
          (if exporter_ok then FINISHED else CANCELLED),
          (if exporter_ok then [(INFO, lit "Wrote ")]
           else [(ERROR, lit "FBX export failed: ")])).
Proof.
  intros Ea Hr Hf. unfold export_fbx_all_actions_onefile_execute.
  rewrite Hf, Ea.
  unfold _apply_temp_mapping_if_needed. rewrite Hr. cbn [negb].
  unfold _temporarily_rotate_world. rewrite rotate_then_restore.
  cbn [_revert_temp_mapping].
  destruct (frame_ranges sc (_gather_actions_for_armature sc arm)) as [|r rest].
  - rewrite frame_range_idle. destruct exporter_ok; reflexivity.
  - cbn [objects set_frame_range]. rewrite frame_range_keeps.
    destruct exporter_ok; reflexivity.
Qed.

(** ** The further theorems at sample inputs *)

Lemma unmentioned_paths_untouched_witness :
  exists act',
    nth_error (fst (patch_fcurves_actions
                      [sample_action (lit "Walk")
                         [lit "location"; bone_token HIPS ++ lit ".rotation_euler"]]
                      hips_to_pelvis)) 0 = Some act'
    /\ nth_error (fcurves act') 0 = Some (lit "location").
Proof.
  destruct (@unmentioned_paths_untouched
              [sample_action (lit "Walk")
                 [lit "location"; bone_token HIPS ++ lit ".rotation_euler"]]
              hips_to_pelvis 0 _ eq_refl) as (act' & H1 & _ & _ & _ & H2).
  exists act'. split; [exact H1|].
  apply H2; reflexivity.
Defined.

Lemma chain_mapping_collapses_path_witness :
  patch_fcurve (chain_mapping (lit "a") (lit "b") (lit "c"))
               (bone_token (lit "a") ++ lit ".location")
  = (bone_token (lit "c") ++ lit ".location", true).
Proof.
  apply (proj1 (@chain_mapping_collapses_path
                  (lit "a") (lit "b") (lit "c") [] (lit ".location")
                  ltac:(discriminate) eq_refl eq_refl)).
Defined.

Lemma apply_mapping_never_raises_witness :
  exists r, _apply_mapping_on_arm dotted_unique_name (export_scene FBX) (Some 0)
                                  cycle_mapping = Some r.
Proof.
  exact (proj2 (proj2 (@apply_mapping_never_raises
                         dotted_unique_name (export_scene FBX) (Some 0)
                         cycle_mapping unique_cycle))).
Defined.



Lemma three_groups_clear (o : Object) :
  In o [sample_armature (lit "Rig") three_bones 1;
        sample_mesh (lit "Body") 0 [lit "Hips"; lit "Spine"; lit "Head"]] ->
  NoDup (vertex_groups o).
Proof.
  intros [<-|[<-|[]]]; simpl; [constructor|].
  repeat constructor; simpl; intuition discriminate.
Qed.


Lemma vertex_groups_round_trip_witness :
  fst (patch_vertex_groups_for_armature
         dotted_unique_name
         (fst (patch_vertex_groups_for_armature
                 dotted_unique_name
                 [sample_armature (lit "Rig") three_bones 1;
                  sample_mesh (lit "Body") 0 [lit "Hips"; lit "Spine"; lit "Head"]]
                 (Some 0) fresh_mapping 0))
         (Some 0) (invert fresh_mapping) 0)
  = [sample_armature (lit "Rig") three_bones 1;
     sample_mesh (lit "Body") 0 [lit "Hips"; lit "Spine"; lit "Head"]].
Proof.
  apply (@vertex_groups_round_trip
           dotted_unique_name
           [sample_armature (lit "Rig") three_bones 1;
            sample_mesh (lit "Body") 0 [lit "Hips"; lit "Spine"; lit "Head"]]
           (Some 0) fresh_mapping unique_fresh).
  - repeat constructor; simpl; intuition discriminate.
  - repeat constructor.
  - intros o Ho _. apply three_groups_clear. exact Ho.
  - intros n H1 H2. simpl in H1, H2. names_differ.
Defined.

Lemma subtargets_round_trip_witness :
  exists n1 n2,
    patch_constraints_subtargets
      [sample_armature (lit "Rig")
         [ {| bone_name := lit "Hand"; use_deform := true; has_parent := false;
              constraints := [sample_constraint (lit "IK") (lit "Hips")] |} ] 1]
      (Some 0) fresh_mapping
    = Some ([sample_armature (lit "Rig")
               [ {| bone_name := lit "Hand"; use_deform := true; has_parent := false;
                    constraints := [sample_constraint (lit "IK") (lit "Pelvis")] |} ] 1],
            n1)
    /\ patch_constraints_subtargets
         [sample_armature (lit "Rig")
            [ {| bone_name := lit "Hand"; use_deform := true; has_parent := false;
                 constraints := [sample_constraint (lit "IK") (lit "Pelvis")] |} ] 1]
         (Some 0) (invert fresh_mapping)
       = Some ([sample_armature (lit "Rig")
                  [ {| bone_name := lit "Hand"; use_deform := true; has_parent := false;
                       constraints := [sample_constraint (lit "IK") (lit "Hips")] |} ] 1],
               n2).
Proof.
  apply (@subtargets_round_trip
           [sample_armature (lit "Rig")
              [ {| bone_name := lit "Hand"; use_deform := true; has_parent := false;
                   constraints := [sample_constraint (lit "IK") (lit "Hips")] |} ] 1]
           (Some 0) 0 _ fresh_mapping eq_refl unique_fresh).
  - repeat constructor; simpl; intuition discriminate.
  - repeat constructor.
  - intros n H1 H2. simpl in H1, H2. names_differ.
Defined.

Lemma bvh_helper_round_trip_witness :
  _clear_bvh_rotation_helper
    (fst (_apply_bvh_rotation_to_roots (objects (export_scene BVH)) 0 90 0 0))
    (snd (_apply_bvh_rotation_to_roots (objects (export_scene BVH)) 0 90 0 0))
    (Some 0)
  = objects (export_scene BVH).
Proof.
  refine (proj2 (@bvh_helper_round_trip (objects (export_scene BVH)) 0 _
                                        90%Q 0%Q 0%Q eq_refl _)).
  intros pb con H1 H2. simpl in H1.
  destruct H1 as [<-|[<-|[]]]; destruct H2.
Defined.

Lemma follow_on_then_off_witness :
  objects (follow_step (follow_step (follow_step follow_scene ClearFollow) ToggleA2B)
                       ToggleA2B)
  = objects (follow_step follow_scene ClearFollow).
Proof.
  refine (proj2 (proj2 (proj2
            (@follow_on_then_off (follow_step follow_scene ClearFollow) ToggleA2B
                                 eq_refl))) eq_refl eq_refl).
Defined.


Lemma export_current_restores_scene_witness :
  export_current_action_execute dotted_unique_name true (plain_export_scene BVH)
  = Some (plain_export_scene BVH, FINISHED, [(INFO, lit "Wrote ")]).
Proof.
  refine (@export_current_restores_scene dotted_unique_name true
            (plain_export_scene BVH) 0 _ eq_refl eq_refl (or_intror (conj eq_refl _))).
  intros pb con H1 H2. simpl in H1.
  destruct H1 as [<-|[<-|[]]]; destruct H2.
Defined.

Lemma export_all_restores_scene_witness :
  exists reports,
    export_all_actions_execute dotted_unique_name (fun n => Nat.eqb n 0)
                               two_action_scene
    = Some (two_action_scene, FINISHED, reports).
Proof.
  exact (@export_all_restores_scene dotted_unique_name (fun n => Nat.eqb n 0)
           two_action_scene 0 _ eq_refl eq_refl eq_refl).
Defined.

Lemma onefile_export_restores_scene_witness :
  export_fbx_all_actions_onefile_execute dotted_unique_name false two_action_scene
  = Some (two_action_scene, CANCELLED, [(ERROR, lit "FBX export failed: ")]).
Proof.
  exact (@onefile_export_restores_scene dotted_unique_name false
           two_action_scene 0 _ eq_refl eq_refl eq_refl).
Defined.
